(* ===== verification/_CoqProject ===== *)
-Q . S2P
Prelude.v
Types.v
Machine.v
MachineFacts.v
Platform.v
Layout.v
Memory.v
Queue.v
Spinlock.v
Restart.v
Mutex.v
Cleanup.v
Specific.v
Join.v
Cancel.v
Cond.v
Semaphore.v
Attr.v
Signals.v
Manager.v
PThread.v
Lifetime.v
Fork.v
Wrappers.v
Weaks.v
Syscalls.v
Interleave.v
PoolThreads.v
MonitorPool.v
MutexPool.v
SemPool.v
Ring.v
Ex3.v
Ex4.v
Ex2.v
Ex5.v
Proxy.v
ProxyPool.v
ProxyMain.v
Samples.v
Races.v
Witnesses.v
