(* ===== verification/Prelude.v ===== *)
(** * LinuxThreads 2.0.1: a verification of the library

    ** The program

    LinuxThreads implements POSIX threads with one Linux process per thread:
    the processes of a program share their memory, are created with clone(2)
    by a process of their own, the thread manager, and wake each other with
    signals.  Its parts, under src/:

    - internals.h, sysdeps/pthread/pthread.h, semaphore.h: the descriptor
      [_pthread] of a thread, mutexes, conditions, semaphores, attributes;
    - sysdeps/*/pt-machine.h: test-and-set, compare-and-swap, the stack
      pointer, per machine; spinlock.h: [acquire] and [release] over them;
    - queue.h: queues of waiting threads, linked through the descriptors;
    - restart.h and the signal handlers of pthread.c: [suspend] and [restart],
      on which all waiting is built;
    - mutex.c, condvar.c, semaphore.c: synchronization; each operation takes
      the spinlock of its object (or uses compare-and-swap), changes the
      object and its queue, and suspends the caller or restarts others;
    - join.c, cancel.c, specific.c, attr.c, signals.c, ptfork.c, errno.c,
      lockfile.c, wrapsyscall.c: the rest of the POSIX interface;
    - Examples/: programs that use the library: producers and consumers
      (ex2.c, ex5.c), a parallel search (ex3.c), a function with
      thread-specific data (ex4.c), a web proxy (proxy.c);
    - weaks.c: what a program that is not linked with the library gets instead;
    - manager.c and pthread.c: the manager, its server loop and requests
      (create, free, process exit), the stack segments, the list of active
      threads; initialization and creation, through a pipe to the manager.

    ** The model

    [Prelude]: notation for statement sequences, C integers with their
    wrap-around, shared lemmas and tactics.  [Types]: the structs as records,
    the enumerations as constants, and [state]: a map from addresses to
    objects for each struct type, the global variables, and the part of the
    kernel the library uses (processes with mask and pending signals, zombies,
    signal actions, the pipe, mapped pages).  An access to an address that is
    not mapped is a fault.

    [Machine]: a C function is an interaction tree over [evt].  One [Act] is
    one access to memory or one system call; [Sigsuspend], [Sigsetjmp],
    [Siglongjmp] and [Exit_process] are the calls that change the control
    flow.  [istep] is the step function of one process, [exec] its runs when
    nothing interferes, [run] the same with a bound on the number of steps,
    for examples.  Loops are [ITree.iter]; no function of the model has fuel,
    and a theorem that a function returns proves that its run is finite
    ([Proxy] apart, see there).
    [MachineFacts]: runs are deterministic and compatible with bisimilarity;
    the judgement [evals p t σ r] (process [p] runs [t] from [σ] and returns,
    exits, faults or waits as [r] says) with a rule per construct; [hangs].

    [Platform]: the machine-dependent layer as a class, [PlatformOk] what the
    other files rely on, instances for i386, i486, Sparc, m68k and Alpha (the
    MIPS compare-and-swap does not satisfy it).  [Layout]: the arithmetic of
    stacks and descriptors.  [Memory]: the accesses and system calls.

    One file per component follows, each with the functions of its source
    file under their C names, the representation of its data, and its
    theorems: [Queue] (queue.h), [Spinlock] (spinlock.h), [Restart]
    (restart.h, the handler of the restart signal), [Mutex] (mutex.c),
    [Cleanup] and [Cancel] (cancel.c, the handler of the cancellation signal),
    [Specific] (specific.c), [Join] (join.c), [Cond] (condvar.c), [Semaphore]
    (semaphore.c), [Attr] (attr.c), [Signals] (signals.c), [Manager]
    (manager.c), [PThread] (pthread.c), [Fork] (ptfork.c), [Wrappers]
    (errno.c, lockfile.c, libc-lock.h), [Weaks] (weaks.c), [Syscalls]
    (wrapsyscall.c, over a class of the C library's functions).  [Lifetime]
    puts creation, the manager, exit and join together.

    [Interleave]: any number of processes, interleaved access by access, with
    signals delivered at any point their mask admits; a logic for invariants
    under every interleaving, and its adequacy.  [PoolThreads]: threads of the
    library in that semantics; the class [PoolInv] is what an invariant says
    about them, and the rules for [suspend], [suspend_with_cancellation] and
    [restart] are proved once for every instance.  [MonitorPool]: a mutex and
    its conditions, with rules for lock, unlock, wait and signal that hold for
    any client that states what it owns inside the mutex and which threads its
    conditions list.  [MutexPool]: clients that increment a shared counter.
    [SemPool]: semaphores, with rules for [sem_wait] and [sem_post] that hold
    for any client that keeps books of its posts and waits.  [Ring]: circular
    buffers.  [Ex2], [Ex5]: the producers and consumers, clients of
    [MonitorPool] and of [SemPool].  [Races]: interleavings that go wrong.

    [Ex3] and [Ex4]: the search and the accumulator of strings, sequentially,
    on top of the components they call.  [Proxy]: the treatment of one request,
    as functions on lists of bytes; its loops have a bound on the number of
    rounds, and the theorems say how large it has to be, or that no bound is
    large enough.  [ProxyPool]: the proxy's pool of threads ([server],
    [alloc_proxy_th], [new_proxy_th], [client]) as a transition system, one
    step per statement or critical section, with memory that can be freed; the
    mutexes and conditions are used through what [MonitorPool] shows of them.
    [ProxyMain]: the options and the start of the proxy.  [Samples], [Witnesses]: a concrete process on an i386, and
    every theorem applied to it.

    ** What is shown

    - Concurrency: threads that use a mutex exclude each other and never all
      wait, under every interleaving ([mutex_exclusion],
      [mutex_no_deadlock]); the producers and consumers that synchronize with
      a mutex and conditions ([monitor_prodcons_correct]) or with semaphores
      ([prodcons_correct]) hand over every integer once and in order, and never
      wait for each other for ever: no wake-up is lost.
    - Refinement, each operation against an abstract object: mutexes
      ([mutex_lock_correct], [mutex_unlock_correct], [mutex_trylock_refines],
      [mutex_recursive]), queues as lists ([queue_fifo],
      [remove_from_queue_refines]), semaphores as a count or a list of waiting
      threads ([sem_wait_correct], [sem_post_correct], [sem_unqueue_spec]).
    - Waiting and waking: [restart_wakes_suspend], the operations of
      conditions, the orders of a signal and the sleep of a timed wait
      ([timedwait_correct], with the signal that comes too late and is lost),
      cancellation of a wait ([cancel_ends_wait], [sigcancel_correct]).
    - Life of a thread: [thread_lifetime] follows one thread from
      [pthread_create] through the manager, its start routine, its exit,
      [pthread_join] and the freeing by the manager, back to the state before;
      creation by the manager with the error path, exit and
      join, the ring of active threads, freeing once in either order of
      events ([free_exited_commute]), process exit, [thread_self] from the
      stack pointer, initialization.
    - Keys, cleanup handlers, signal masks, attributes, atfork, fork in the
      parent and in the child ([fork_parent_correct], [fork_child_correct]),
      cancellable system calls ([wrappers_correct]); in a program with one
      thread the functions of weaks.c return what those of the library return,
      up to a first difference, which is one of four calls ([weak_agrees]).
    - Programs: the search of ex3.c ends, after a number of tries that is given
      exactly ([search_terminates]); what the threads of ex4.c print
      ([process_correct]); a request through the proxy reaches the server and
      its reply the client ([process_request_correct]); the pool of the proxy
      gives every connection to one thread, keeps its limit and its list, and
      loses no wake-up ([pool_conserves], [pool_progress]), whatever options
      it was started with ([main_correct]).
    - What does not work as meant: [mutex_bad_kind_hangs], [suspend_stale],
      [sem_wait_stale_link] (a thread that has used a semaphore can corrupt
      the queue of a mutex), [process_request_overruns] (exactly the
      addresses that do not fit overrun a buffer of the proxy),
      [signal_after_free] (its server uses a structure after it has been freed,
      and by [pool_faults] in no other place) and, as lemmas,
      [creation_failure_hangs], [main_overruns], [sem_init_leaves_lock],
      [sem_post_overflow], [reset_main_spec], [key_reuse_keeps_value],
      [once_returns_early], [mips_sem_wait_both], [process_request_eof_loops],
      [reply_cut], [reply_short], [setspecific_unallocated], [sigmask_null].

    The sequential theorems ([evals]) describe an operation from its call to
    its return or to the point where it waits, without interference; the
    state they start from is arbitrary.  The theorems of [MutexPool], [Ex2] and
    [Ex5] have no such restriction; their threads are not canceled and receive no
    signals but those of the library.  They say that some thread can always go
    on; that every thread ends also depends on the scheduler, since a thread
    may spin while another one holds a spinlock.

    ** Assumptions of the model

    Memory is sequentially consistent, and an access of one field is atomic.
    The results of system calls the model does not determine (clone, mmap,
    malloc, select, nanosleep, the clock) are answers of the environment, read
    from the list [envt] of the state.  Pending signals are delivered in
    [sigsuspend] and, in [Interleave], between any two accesses; in the
    sequential judgement a signal that is not blocked waits for the next
    [sigsuspend] or blocking call.  The code of the program that uses the
    library (start routines, handlers, destructors) is the parameter
    [UserCode], the code at the addresses of signal handlers the parameter
    [Handlers]; the theorems ask only that the library's own handlers are at
    their addresses.  A process created by clone appears in the kernel state;
    its program is not started by the model.  lockfile.c is taken as compiled
    with USE_IN_LIBIO.  In [ProxyPool] the waits of the server and of the clients
    may end without a signal.  Writes of the proxy to the server are complete;
    those to the client may be short.

    ** Not modelled

    ex1.c (two threads that only print) and [main] of ex2.c to ex5.c, which
    create threads and join them: the model has no program that a cloned
    process starts by itself, [Lifetime] runs the start routine as a step of its
    own.  The time limit of the proxy (SIGALRM and the jump out of a request),
    the options and the closing of its sockets, the output __pthread_message
    for debugging, headers that only declare functions or feature macros, the
    manual pages (used as documentation of the intended behaviour) and the
    build files. *)

From Stdlib Require Export ZArith Lia.
From ITree Require Export ITree.
From stdpp Require Export base numbers gmap list.

Open Scope Z_scope.

(** ** Notation for C statement sequences *)

Declare Scope c_scope.
Delimit Scope c_scope with c.

Notation "x <- t ;; k" := (ITree.bind t (fun x => k))
  (at level 100, t at next level, right associativity) : c_scope.
Notation "t ;; k" := (ITree.bind t (fun _ => k))
  (at level 100, right associativity) : c_scope.

Open Scope c_scope.

(** ** C integers

    A C object of type [int], [long] or [char] is a [Z]; [wrapS w] brings the
    result of an arithmetic operation back into the two's-complement range of
    a [w]-bit signed type and [wrapU w] into that of an unsigned one. *)

Definition wrapU (w z : Z) : Z := z `mod` 2 ^ w.
Definition wrapS (w z : Z) : Z := (z + 2 ^ (w - 1)) `mod` 2 ^ w - 2 ^ (w - 1).

Definition int_of (z : Z) : Z := wrapS 32 z.

(** An [int] stored in a [char], which is signed on most machines. *)
Definition char_of (z : Z) : Z := wrapS 8 z.

(** A C condition: any non-zero value is true. *)
Definition istrue (z : Z) : bool := negb (z =? 0).
Definition c_bool (b : bool) : Z := if b then 1 else 0.

Definition NULL : Z := 0.
Definition INT_MAX : Z := 2 ^ 31 - 1.

Lemma wrapU_small w z : 0 <= z < 2 ^ w -> wrapU w z = z.
Proof. apply Z.mod_small. Qed.

Lemma wrapU_range w z : 0 <= w -> 0 <= wrapU w z < 2 ^ w.
Proof. intros. apply Z.mod_pos_bound. lia. Qed.

Lemma pow2_split w : 0 < w -> 2 ^ w = 2 * 2 ^ (w - 1).
Proof. intros. rewrite <- Z.pow_succ_r by lia. f_equal. lia. Qed.

Lemma wrapS_small w z : 0 < w -> - 2 ^ (w - 1) <= z < 2 ^ (w - 1) -> wrapS w z = z.
Proof.
  intros Hw Hz. unfold wrapS. pose proof (pow2_split w Hw).
  rewrite Z.mod_small; lia.
Qed.

Lemma wrapS_range w z : 0 < w -> - 2 ^ (w - 1) <= wrapS w z < 2 ^ (w - 1).
Proof.
  intros Hw. unfold wrapS. pose proof (pow2_split w Hw).
  pose proof (Z.mod_pos_bound (z + 2 ^ (w - 1)) (2 ^ w)). lia.
Qed.

Lemma int_of_small z : - 2 ^ 31 <= z < 2 ^ 31 -> int_of z = z.
Proof. intros. apply wrapS_small; simpl; lia. Qed.

Lemma istrue_c_bool b : istrue (c_bool b) = b.
Proof. by destruct b. Qed.

Lemma istrue_0 : istrue 0 = false.
Proof. reflexivity. Qed.

Lemma istrue_nonzero z : z <> 0 -> istrue z = true.
Proof. intros. unfold istrue. by rewrite (proj2 (Z.eqb_neq _ _)). Qed.

(** ** Record fields as updatable locations

    [Setter f] gives the functional update of the struct field [f]; the
    operations of the machine model read and write a field by naming it. *)

Class Setter {R X : Type} (f : R -> X) := setf : X -> R -> R.
Arguments setf {R X} f {_} _ _.

(** ** Automation *)

Create HintDb cthreads.
Create Rewrite HintDb cthreads.
#[export] Hint Rewrite @lookup_insert_eq @lookup_alter_eq @insert_insert_eq
  Z.eqb_refl istrue_c_bool istrue_0 : cthreads.
#[export] Hint Resolve int_of_small wrapU_small istrue_nonzero : cthreads.

(** Decides the integer tests of the goal or of the hypotheses. *)
Ltac ztest :=
  repeat match goal with
  | H : ?x <> ?y |- context [Z.eqb ?x ?y] => rewrite (proj2 (Z.eqb_neq x y) H)
  | H : ?y <> ?x |- context [Z.eqb ?x ?y] =>
      rewrite (proj2 (Z.eqb_neq x y) (not_eq_sym H))
  | |- context [Z.eqb ?x ?x] => rewrite (Z.eqb_refl x)
  end.

(** Membership and distinctness in lists. *)
Ltac list_solver :=
  repeat match goal with
  | Hnd : NoDup _ |- _ =>
      progress (simpl app in Hnd; rewrite ?NoDup_app, ?NoDup_cons in Hnd);
      destruct_and? Hnd
  end;
  set_solver.

Lemma filter_ne_absent (l : list Z) x : x ∉ l -> filter (fun y => y <> x) l = l.
Proof.
  induction l as [|y l IH]; intros Hx; [done|].
  rewrite filter_cons_True by set_solver. f_equal. apply IH. set_solver.
Qed.

Lemma filter_ne_middle (a b : list Z) x :
  NoDup (a ++ x :: b) -> filter (fun y => y <> x) (a ++ x :: b) = a ++ b.
Proof.
  intros Hnd. rewrite filter_app, filter_cons_False by (intros Hx; by apply Hx).
  rewrite !filter_ne_absent; [done | list_solver..].
Qed.

(** Updating an object in place. *)
Lemma insert_alter {O} (f : O -> O) (M : gmap Z O) a o :
  M !! a = Some o -> <[a := f o]> M = alter f a M.
Proof.
  intros Ho. apply map_eq. intros i. rewrite lookup_alter, lookup_insert.
  case_decide; simplify_map_eq; done.
Qed.

(** The map with the keys [l] and the values given by a function. *)
Definition tabulate {X} (f : Z -> X) (l : list Z) : gmap Z X :=
  list_to_map ((fun p => (p, f p)) <$> l).

Lemma lookup_tabulate {X} (f : Z -> X) l p :
  tabulate f l !! p = if decide (p ∈ l) then Some (f p) else None.
Proof.
  unfold tabulate. induction l as [|q l IH].
  - rewrite decide_False by set_solver. apply lookup_empty.
  - rewrite fmap_cons, list_to_map_cons, lookup_insert, IH. repeat case_decide; subst; try done; set_solver.
Qed.

(** Values outside the keys of the first map come from the second. *)
Lemma lookup_tabulate_union {X} (f : Z -> X) l (M : gmap Z X) p :
  (tabulate f l ∪ M) !! p = if decide (p ∈ l) then Some (f p) else M !! p.
Proof.
  rewrite lookup_union, lookup_tabulate. case_decide; [by destruct (M !! p) | by destruct (M !! p)].
Qed.

(** The sum of [f] over the values of the keys [ps]. *)
Definition map_sum {X} (f : X -> Z) (ps : list Z) (M : gmap Z X) : Z :=
  foldr (fun p acc => default 0 (f <$> M !! p) + acc) 0 ps.

Lemma map_sum_notin {X} (f : X -> Z) ps (M : gmap Z X) p x :
  p ∉ ps -> map_sum f ps (<[p := x]> M) = map_sum f ps M.
Proof.
  unfold map_sum. induction ps as [|q l IH]; [done|]. simpl. intros Hp.
  rewrite lookup_insert_ne by set_solver. rewrite IH by set_solver. done.
Qed.

Lemma map_sum_insert {X} (f : X -> Z) ps (M : gmap Z X) p x x' :
  NoDup ps -> M !! p = Some x -> p ∈ ps ->
  map_sum f ps (<[p := x']> M) = map_sum f ps M + f x' - f x.
Proof.
  intros Hnd Hx Hp. induction Hnd as [|q l Hq Hl IH]; [set_solver|].
  destruct (decide (p = q)) as [->|Hne]; unfold map_sum in *; simpl.
  - rewrite lookup_insert_eq, Hx. pose proof (map_sum_notin f l M q x' Hq) as E.
    unfold map_sum in E. rewrite E. simpl. lia.
  - rewrite lookup_insert_ne by done. rewrite IH by set_solver. lia.
Qed.

Lemma map_sum_const {X} (f : X -> Z) (h : Z -> Z) ps (M : gmap Z X) :
  (forall p, p ∈ ps -> f <$> M !! p = Some (h p)) ->
  map_sum f ps M = foldr Z.add 0 (h <$> ps).
Proof.
  unfold map_sum. intros Hf. induction ps as [|p l IH]; [done|]. rewrite fmap_cons. simpl.
  rewrite (Hf p) by set_solver. simpl. rewrite IH; [done|]. intros; apply Hf; set_solver.
Qed.
