(* ===== verification/Types.v ===== *)
(** * Data model: the structs and constants of internals.h, pthread.h and semaphore.h

    Every struct of the library is a record with the fields of the C
    declaration, every enumeration constant a [Z] with its C value.  Pointers
    are addresses ([addr], with [NULL = 0]); the process state [state] holds,
    for each struct type, the map from the addresses at which such an object
    is mapped to the object.  A field access at an address that is not mapped
    is a fault. *)

From S2P Require Import Prelude.


(** Addresses (also code addresses) and Unix process identifiers. *)
Abbreviation addr := Z (only parsing).
Abbreviation pid_t := Z (only parsing).

(** A [sigset_t] is the set of the signal numbers whose bit is set. *)
Abbreviation sigset := (gset Z) (only parsing).

(** ** Constants *)

Definition EINTR : Z := 4.
Definition ESRCH : Z := 3.
Definition EAGAIN : Z := 11.
Definition ENOMEM : Z := 12.
Definition EBUSY : Z := 16.
Definition EINVAL : Z := 22.
Definition ERANGE : Z := 34.
Definition EDEADLK : Z := 35.
Definition ENOSYS : Z := 38.
Definition ENOTSUP : Z := 95.
Definition ETIMEDOUT : Z := 110.

Definition SIGKILL : Z := 9.
Definition SIGUSR1 : Z := 10.
Definition SIGSTOP : Z := 19.
Definition SIGUSR2 : Z := 12.
Definition NSIG : Z := 32.
Definition SIG_BLOCK : Z := 0.
Definition SIG_UNBLOCK : Z := 1.
Definition SIG_SETMASK : Z := 2.

(** internals.h: the two signals the library reserves. *)
Definition PTHREAD_SIG_RESTART : Z := SIGUSR1.
Definition PTHREAD_SIG_CANCEL : Z := SIGUSR2.

Definition SCHED_OTHER : Z := 0.
Definition SCHED_FIFO : Z := 1.
Definition SCHED_RR : Z := 2.

(** pthread.h *)
Definition PTHREAD_CREATE_JOINABLE : Z := 0.
Definition PTHREAD_CREATE_DETACHED : Z := 1.
Definition PTHREAD_INHERIT_SCHED : Z := 0.
Definition PTHREAD_EXPLICIT_SCHED : Z := 1.
Definition PTHREAD_SCOPE_SYSTEM : Z := 0.
Definition PTHREAD_SCOPE_PROCESS : Z := 1.
Definition PTHREAD_MUTEX_FAST_NP : Z := 0.
Definition PTHREAD_MUTEX_RECURSIVE_NP : Z := 1.
Definition PTHREAD_CANCEL_ENABLE : Z := 0.
Definition PTHREAD_CANCEL_DISABLE : Z := 1.
Definition PTHREAD_CANCEL_DEFERRED : Z := 0.
Definition PTHREAD_CANCEL_ASYNCHRONOUS : Z := 1.
Definition PTHREAD_CANCELED : Z := -1.
Definition PTHREAD_ONCE_INIT : Z := 0.

(** local_lim.h *)
Definition PTHREAD_KEYS_MAX : Z := 128.

(** semaphore.h *)
Definition SEM_VALUE_MAX : Z := INT_MAX.

(** ** Structs *)

(** internals.h: thread descriptors *)
Record _pthread := mk_pthread {
  p_nextlive : addr;
  p_prevlive : addr;
  p_nextwaiting : addr;
  p_pid : pid_t;
  p_spinlock : Z;
  p_signal : Z;
  p_signal_jmp : addr;
  p_cancel_jmp : addr;
  p_terminated : Z;
  p_detached : Z;
  p_exited : Z;
  p_retval : Z;
  p_retcode : Z;
  p_joining : addr;
  p_cleanup : addr;
  p_cancelstate : Z;
  p_canceltype : Z;
  p_canceled : Z;
  p_errno : Z;
  p_h_errno : Z;
  p_initial_fn : addr;
  p_initial_fn_arg : Z;
  p_initial_mask : sigset;
  p_specific : list Z
}.

#[export] Instance set_p_nextlive : Setter p_nextlive := fun v r =>
  mk_pthread v (p_prevlive r) (p_nextwaiting r) (p_pid r) (p_spinlock r) (p_signal r) (p_signal_jmp r) (p_cancel_jmp r) (p_terminated r) (p_detached r) (p_exited r) (p_retval r) (p_retcode r) (p_joining r) (p_cleanup r) (p_cancelstate r) (p_canceltype r) (p_canceled r) (p_errno r) (p_h_errno r) (p_initial_fn r) (p_initial_fn_arg r) (p_initial_mask r) (p_specific r).
#[export] Instance set_p_prevlive : Setter p_prevlive := fun v r =>
  mk_pthread (p_nextlive r) v (p_nextwaiting r) (p_pid r) (p_spinlock r) (p_signal r) (p_signal_jmp r) (p_cancel_jmp r) (p_terminated r) (p_detached r) (p_exited r) (p_retval r) (p_retcode r) (p_joining r) (p_cleanup r) (p_cancelstate r) (p_canceltype r) (p_canceled r) (p_errno r) (p_h_errno r) (p_initial_fn r) (p_initial_fn_arg r) (p_initial_mask r) (p_specific r).
#[export] Instance set_p_nextwaiting : Setter p_nextwaiting := fun v r =>
  mk_pthread (p_nextlive r) (p_prevlive r) v (p_pid r) (p_spinlock r) (p_signal r) (p_signal_jmp r) (p_cancel_jmp r) (p_terminated r) (p_detached r) (p_exited r) (p_retval r) (p_retcode r) (p_joining r) (p_cleanup r) (p_cancelstate r) (p_canceltype r) (p_canceled r) (p_errno r) (p_h_errno r) (p_initial_fn r) (p_initial_fn_arg r) (p_initial_mask r) (p_specific r).
#[export] Instance set_p_pid : Setter p_pid := fun v r =>
  mk_pthread (p_nextlive r) (p_prevlive r) (p_nextwaiting r) v (p_spinlock r) (p_signal r) (p_signal_jmp r) (p_cancel_jmp r) (p_terminated r) (p_detached r) (p_exited r) (p_retval r) (p_retcode r) (p_joining r) (p_cleanup r) (p_cancelstate r) (p_canceltype r) (p_canceled r) (p_errno r) (p_h_errno r) (p_initial_fn r) (p_initial_fn_arg r) (p_initial_mask r) (p_specific r).
#[export] Instance set_p_spinlock : Setter p_spinlock := fun v r =>
  mk_pthread (p_nextlive r) (p_prevlive r) (p_nextwaiting r) (p_pid r) v (p_signal r) (p_signal_jmp r) (p_cancel_jmp r) (p_terminated r) (p_detached r) (p_exited r) (p_retval r) (p_retcode r) (p_joining r) (p_cleanup r) (p_cancelstate r) (p_canceltype r) (p_canceled r) (p_errno r) (p_h_errno r) (p_initial_fn r) (p_initial_fn_arg r) (p_initial_mask r) (p_specific r).
#[export] Instance set_p_signal : Setter p_signal := fun v r =>
  mk_pthread (p_nextlive r) (p_prevlive r) (p_nextwaiting r) (p_pid r) (p_spinlock r) v (p_signal_jmp r) (p_cancel_jmp r) (p_terminated r) (p_detached r) (p_exited r) (p_retval r) (p_retcode r) (p_joining r) (p_cleanup r) (p_cancelstate r) (p_canceltype r) (p_canceled r) (p_errno r) (p_h_errno r) (p_initial_fn r) (p_initial_fn_arg r) (p_initial_mask r) (p_specific r).
#[export] Instance set_p_signal_jmp : Setter p_signal_jmp := fun v r =>
  mk_pthread (p_nextlive r) (p_prevlive r) (p_nextwaiting r) (p_pid r) (p_spinlock r) (p_signal r) v (p_cancel_jmp r) (p_terminated r) (p_detached r) (p_exited r) (p_retval r) (p_retcode r) (p_joining r) (p_cleanup r) (p_cancelstate r) (p_canceltype r) (p_canceled r) (p_errno r) (p_h_errno r) (p_initial_fn r) (p_initial_fn_arg r) (p_initial_mask r) (p_specific r).
#[export] Instance set_p_cancel_jmp : Setter p_cancel_jmp := fun v r =>
  mk_pthread (p_nextlive r) (p_prevlive r) (p_nextwaiting r) (p_pid r) (p_spinlock r) (p_signal r) (p_signal_jmp r) v (p_terminated r) (p_detached r) (p_exited r) (p_retval r) (p_retcode r) (p_joining r) (p_cleanup r) (p_cancelstate r) (p_canceltype r) (p_canceled r) (p_errno r) (p_h_errno r) (p_initial_fn r) (p_initial_fn_arg r) (p_initial_mask r) (p_specific r).
#[export] Instance set_p_terminated : Setter p_terminated := fun v r =>
  mk_pthread (p_nextlive r) (p_prevlive r) (p_nextwaiting r) (p_pid r) (p_spinlock r) (p_signal r) (p_signal_jmp r) (p_cancel_jmp r) v (p_detached r) (p_exited r) (p_retval r) (p_retcode r) (p_joining r) (p_cleanup r) (p_cancelstate r) (p_canceltype r) (p_canceled r) (p_errno r) (p_h_errno r) (p_initial_fn r) (p_initial_fn_arg r) (p_initial_mask r) (p_specific r).
#[export] Instance set_p_detached : Setter p_detached := fun v r =>
  mk_pthread (p_nextlive r) (p_prevlive r) (p_nextwaiting r) (p_pid r) (p_spinlock r) (p_signal r) (p_signal_jmp r) (p_cancel_jmp r) (p_terminated r) v (p_exited r) (p_retval r) (p_retcode r) (p_joining r) (p_cleanup r) (p_cancelstate r) (p_canceltype r) (p_canceled r) (p_errno r) (p_h_errno r) (p_initial_fn r) (p_initial_fn_arg r) (p_initial_mask r) (p_specific r).
#[export] Instance set_p_exited : Setter p_exited := fun v r =>
  mk_pthread (p_nextlive r) (p_prevlive r) (p_nextwaiting r) (p_pid r) (p_spinlock r) (p_signal r) (p_signal_jmp r) (p_cancel_jmp r) (p_terminated r) (p_detached r) v (p_retval r) (p_retcode r) (p_joining r) (p_cleanup r) (p_cancelstate r) (p_canceltype r) (p_canceled r) (p_errno r) (p_h_errno r) (p_initial_fn r) (p_initial_fn_arg r) (p_initial_mask r) (p_specific r).
#[export] Instance set_p_retval : Setter p_retval := fun v r =>
  mk_pthread (p_nextlive r) (p_prevlive r) (p_nextwaiting r) (p_pid r) (p_spinlock r) (p_signal r) (p_signal_jmp r) (p_cancel_jmp r) (p_terminated r) (p_detached r) (p_exited r) v (p_retcode r) (p_joining r) (p_cleanup r) (p_cancelstate r) (p_canceltype r) (p_canceled r) (p_errno r) (p_h_errno r) (p_initial_fn r) (p_initial_fn_arg r) (p_initial_mask r) (p_specific r).
#[export] Instance set_p_retcode : Setter p_retcode := fun v r =>
  mk_pthread (p_nextlive r) (p_prevlive r) (p_nextwaiting r) (p_pid r) (p_spinlock r) (p_signal r) (p_signal_jmp r) (p_cancel_jmp r) (p_terminated r) (p_detached r) (p_exited r) (p_retval r) v (p_joining r) (p_cleanup r) (p_cancelstate r) (p_canceltype r) (p_canceled r) (p_errno r) (p_h_errno r) (p_initial_fn r) (p_initial_fn_arg r) (p_initial_mask r) (p_specific r).
#[export] Instance set_p_joining : Setter p_joining := fun v r =>
  mk_pthread (p_nextlive r) (p_prevlive r) (p_nextwaiting r) (p_pid r) (p_spinlock r) (p_signal r) (p_signal_jmp r) (p_cancel_jmp r) (p_terminated r) (p_detached r) (p_exited r) (p_retval r) (p_retcode r) v (p_cleanup r) (p_cancelstate r) (p_canceltype r) (p_canceled r) (p_errno r) (p_h_errno r) (p_initial_fn r) (p_initial_fn_arg r) (p_initial_mask r) (p_specific r).
#[export] Instance set_p_cleanup : Setter p_cleanup := fun v r =>
  mk_pthread (p_nextlive r) (p_prevlive r) (p_nextwaiting r) (p_pid r) (p_spinlock r) (p_signal r) (p_signal_jmp r) (p_cancel_jmp r) (p_terminated r) (p_detached r) (p_exited r) (p_retval r) (p_retcode r) (p_joining r) v (p_cancelstate r) (p_canceltype r) (p_canceled r) (p_errno r) (p_h_errno r) (p_initial_fn r) (p_initial_fn_arg r) (p_initial_mask r) (p_specific r).
#[export] Instance set_p_cancelstate : Setter p_cancelstate := fun v r =>
  mk_pthread (p_nextlive r) (p_prevlive r) (p_nextwaiting r) (p_pid r) (p_spinlock r) (p_signal r) (p_signal_jmp r) (p_cancel_jmp r) (p_terminated r) (p_detached r) (p_exited r) (p_retval r) (p_retcode r) (p_joining r) (p_cleanup r) v (p_canceltype r) (p_canceled r) (p_errno r) (p_h_errno r) (p_initial_fn r) (p_initial_fn_arg r) (p_initial_mask r) (p_specific r).
#[export] Instance set_p_canceltype : Setter p_canceltype := fun v r =>
  mk_pthread (p_nextlive r) (p_prevlive r) (p_nextwaiting r) (p_pid r) (p_spinlock r) (p_signal r) (p_signal_jmp r) (p_cancel_jmp r) (p_terminated r) (p_detached r) (p_exited r) (p_retval r) (p_retcode r) (p_joining r) (p_cleanup r) (p_cancelstate r) v (p_canceled r) (p_errno r) (p_h_errno r) (p_initial_fn r) (p_initial_fn_arg r) (p_initial_mask r) (p_specific r).
#[export] Instance set_p_canceled : Setter p_canceled := fun v r =>
  mk_pthread (p_nextlive r) (p_prevlive r) (p_nextwaiting r) (p_pid r) (p_spinlock r) (p_signal r) (p_signal_jmp r) (p_cancel_jmp r) (p_terminated r) (p_detached r) (p_exited r) (p_retval r) (p_retcode r) (p_joining r) (p_cleanup r) (p_cancelstate r) (p_canceltype r) v (p_errno r) (p_h_errno r) (p_initial_fn r) (p_initial_fn_arg r) (p_initial_mask r) (p_specific r).
#[export] Instance set_p_errno : Setter p_errno := fun v r =>
  mk_pthread (p_nextlive r) (p_prevlive r) (p_nextwaiting r) (p_pid r) (p_spinlock r) (p_signal r) (p_signal_jmp r) (p_cancel_jmp r) (p_terminated r) (p_detached r) (p_exited r) (p_retval r) (p_retcode r) (p_joining r) (p_cleanup r) (p_cancelstate r) (p_canceltype r) (p_canceled r) v (p_h_errno r) (p_initial_fn r) (p_initial_fn_arg r) (p_initial_mask r) (p_specific r).
#[export] Instance set_p_h_errno : Setter p_h_errno := fun v r =>
  mk_pthread (p_nextlive r) (p_prevlive r) (p_nextwaiting r) (p_pid r) (p_spinlock r) (p_signal r) (p_signal_jmp r) (p_cancel_jmp r) (p_terminated r) (p_detached r) (p_exited r) (p_retval r) (p_retcode r) (p_joining r) (p_cleanup r) (p_cancelstate r) (p_canceltype r) (p_canceled r) (p_errno r) v (p_initial_fn r) (p_initial_fn_arg r) (p_initial_mask r) (p_specific r).
#[export] Instance set_p_initial_fn : Setter p_initial_fn := fun v r =>
  mk_pthread (p_nextlive r) (p_prevlive r) (p_nextwaiting r) (p_pid r) (p_spinlock r) (p_signal r) (p_signal_jmp r) (p_cancel_jmp r) (p_terminated r) (p_detached r) (p_exited r) (p_retval r) (p_retcode r) (p_joining r) (p_cleanup r) (p_cancelstate r) (p_canceltype r) (p_canceled r) (p_errno r) (p_h_errno r) v (p_initial_fn_arg r) (p_initial_mask r) (p_specific r).
#[export] Instance set_p_initial_fn_arg : Setter p_initial_fn_arg := fun v r =>
  mk_pthread (p_nextlive r) (p_prevlive r) (p_nextwaiting r) (p_pid r) (p_spinlock r) (p_signal r) (p_signal_jmp r) (p_cancel_jmp r) (p_terminated r) (p_detached r) (p_exited r) (p_retval r) (p_retcode r) (p_joining r) (p_cleanup r) (p_cancelstate r) (p_canceltype r) (p_canceled r) (p_errno r) (p_h_errno r) (p_initial_fn r) v (p_initial_mask r) (p_specific r).
#[export] Instance set_p_initial_mask : Setter p_initial_mask := fun v r =>
  mk_pthread (p_nextlive r) (p_prevlive r) (p_nextwaiting r) (p_pid r) (p_spinlock r) (p_signal r) (p_signal_jmp r) (p_cancel_jmp r) (p_terminated r) (p_detached r) (p_exited r) (p_retval r) (p_retcode r) (p_joining r) (p_cleanup r) (p_cancelstate r) (p_canceltype r) (p_canceled r) (p_errno r) (p_h_errno r) (p_initial_fn r) (p_initial_fn_arg r) v (p_specific r).
#[export] Instance set_p_specific : Setter p_specific := fun v r =>
  mk_pthread (p_nextlive r) (p_prevlive r) (p_nextwaiting r) (p_pid r) (p_spinlock r) (p_signal r) (p_signal_jmp r) (p_cancel_jmp r) (p_terminated r) (p_detached r) (p_exited r) (p_retval r) (p_retcode r) (p_joining r) (p_cleanup r) (p_cancelstate r) (p_canceltype r) (p_canceled r) (p_errno r) (p_h_errno r) (p_initial_fn r) (p_initial_fn_arg r) (p_initial_mask r) v.

(** pthread.h: waiting queues *)
Record _pthread_queue := mk_queue {
  q_head : addr;
  q_tail : addr
}.

#[export] Instance set_q_head : Setter q_head := fun v r =>
  mk_queue v (q_tail r).
#[export] Instance set_q_tail : Setter q_tail := fun v r =>
  mk_queue (q_head r) v.

(** pthread.h: mutexes *)
Record pthread_mutex_t := mk_mutex {
  m_spinlock : Z;
  m_count : Z;
  m_owner : addr;
  m_kind : Z;
  m_waiting : _pthread_queue
}.

#[export] Instance set_m_spinlock : Setter m_spinlock := fun v r =>
  mk_mutex v (m_count r) (m_owner r) (m_kind r) (m_waiting r).
#[export] Instance set_m_count : Setter m_count := fun v r =>
  mk_mutex (m_spinlock r) v (m_owner r) (m_kind r) (m_waiting r).
#[export] Instance set_m_owner : Setter m_owner := fun v r =>
  mk_mutex (m_spinlock r) (m_count r) v (m_kind r) (m_waiting r).
#[export] Instance set_m_kind : Setter m_kind := fun v r =>
  mk_mutex (m_spinlock r) (m_count r) (m_owner r) v (m_waiting r).
#[export] Instance set_m_waiting : Setter m_waiting := fun v r =>
  mk_mutex (m_spinlock r) (m_count r) (m_owner r) (m_kind r) v.

(** pthread.h: conditions *)
Record pthread_cond_t := mk_cond {
  c_spinlock : Z;
  c_waiting : _pthread_queue
}.

#[export] Instance set_c_spinlock : Setter c_spinlock := fun v r =>
  mk_cond v (c_waiting r).
#[export] Instance set_c_waiting : Setter c_waiting := fun v r =>
  mk_cond (c_spinlock r) v.

(** pthread.h: thread attributes ([schedparam] is its only field [sched_priority]) *)
Record pthread_attr_t := mk_attr {
  detachstate : Z;
  schedpolicy : Z;
  sched_priority : Z;
  inheritsched : Z;
  scope : Z
}.

#[export] Instance set_detachstate : Setter detachstate := fun v r =>
  mk_attr v (schedpolicy r) (sched_priority r) (inheritsched r) (scope r).
#[export] Instance set_schedpolicy : Setter schedpolicy := fun v r =>
  mk_attr (detachstate r) v (sched_priority r) (inheritsched r) (scope r).
#[export] Instance set_sched_priority : Setter sched_priority := fun v r =>
  mk_attr (detachstate r) (schedpolicy r) v (inheritsched r) (scope r).
#[export] Instance set_inheritsched : Setter inheritsched := fun v r =>
  mk_attr (detachstate r) (schedpolicy r) (sched_priority r) v (scope r).
#[export] Instance set_scope : Setter scope := fun v r =>
  mk_attr (detachstate r) (schedpolicy r) (sched_priority r) (inheritsched r) v.

(** pthread.h: mutex attributes *)
Record pthread_mutexattr_t := mk_mutexattr {
  mutexkind : Z
}.

#[export] Instance set_mutexkind : Setter mutexkind := fun v r =>
  mk_mutexattr v.

(** semaphorebits.h: semaphores; [sem_spinlock] is used only where the
    machine has no compare-and-swap *)
Record sem_t := mk_sem {
  sem_status : Z;
  sem_spinlock : Z
}.

#[export] Instance set_sem_status : Setter sem_status := fun v r =>
  mk_sem v (sem_spinlock r).
#[export] Instance set_sem_spinlock : Setter sem_spinlock := fun v r =>
  mk_sem (sem_status r) v.

(** pthread.h: cleanup buffers *)
Record _pthread_cleanup_buffer := mk_cleanup {
  routine : addr;
  cl_arg : Z;
  canceltype : Z;
  prev : addr
}.

#[export] Instance set_routine : Setter routine := fun v r =>
  mk_cleanup v (cl_arg r) (canceltype r) (prev r).
#[export] Instance set_cl_arg : Setter cl_arg := fun v r =>
  mk_cleanup (routine r) v (canceltype r) (prev r).
#[export] Instance set_canceltype : Setter canceltype := fun v r =>
  mk_cleanup (routine r) (cl_arg r) v (prev r).
#[export] Instance set_prev : Setter prev := fun v r =>
  mk_cleanup (routine r) (cl_arg r) (canceltype r) v.

(** specific.c: entries of the table of keys *)
Record pthread_key_struct := mk_key {
  in_use : Z;
  destr : addr
}.

#[export] Instance set_in_use : Setter in_use := fun v r =>
  mk_key v (destr r).
#[export] Instance set_destr : Setter destr := fun v r =>
  mk_key (in_use r) v.

(** ptfork.c: nodes of the lists of atfork handlers *)
Record handler_list := mk_handler {
  handler : addr;
  hl_next : addr
}.

#[export] Instance set_handler : Setter handler := fun v r =>
  mk_handler v (hl_next r).
#[export] Instance set_hl_next : Setter hl_next := fun v r =>
  mk_handler (handler r) v.

(** internals.h: the messages sent to the thread manager; the union
    [req_args] and its tag [req_kind] are the constructors of one type. *)
Inductive req_kind :=
| REQ_CREATE (attr : addr) (fn : addr) (arg : Z) (mask : sigset)
| REQ_FREE (thread : addr)
| REQ_PROCESS_EXIT (code : Z)
| REQ_MAIN_THREAD_EXIT.

Record pthread_request := mk_request {
  req_thread : addr;
  req : req_kind
}.

(** PTHREAD_MUTEX_INITIALIZER, PTHREAD_RECURSIVE_MUTEX_INITIALIZER_NP and
    PTHREAD_COND_INITIALIZER *)
Definition PTHREAD_MUTEX_INITIALIZER : pthread_mutex_t :=
  mk_mutex 0 0 0 PTHREAD_MUTEX_FAST_NP (mk_queue 0 0).
Definition PTHREAD_RECURSIVE_MUTEX_INITIALIZER_NP : pthread_mutex_t :=
  mk_mutex 0 0 0 PTHREAD_MUTEX_RECURSIVE_NP (mk_queue 0 0).
Definition PTHREAD_COND_INITIALIZER : pthread_cond_t := mk_cond 0 (mk_queue 0 0).

(** ** Global variables of the library *)

(** The global and static variables of pthread.c, manager.c, specific.c and
    ptfork.c *)
Record globals := mk_globals {
  __pthread_main_thread : addr;
  __pthread_initial_thread_bos : addr;
  __pthread_manager_request : Z;
  __pthread_manager_reader : Z;
  __pthread_manager_thread_bos : addr;
  __pthread_manager_thread_tos : addr;
  __pthread_exit_requested : Z;
  __pthread_exit_code : Z;
  stack_segments : list Z;
  num_stack_segments : Z;
  terminated_children : Z;
  main_thread_exiting : Z;
  pthread_keys : list pthread_key_struct;
  pthread_atfork_prepare : addr;
  pthread_atfork_parent : addr;
  pthread_atfork_child : addr
}.

#[export] Instance set_pthread_main_thread : Setter __pthread_main_thread := fun v r =>
  mk_globals v (__pthread_initial_thread_bos r) (__pthread_manager_request r) (__pthread_manager_reader r) (__pthread_manager_thread_bos r) (__pthread_manager_thread_tos r) (__pthread_exit_requested r) (__pthread_exit_code r) (stack_segments r) (num_stack_segments r) (terminated_children r) (main_thread_exiting r) (pthread_keys r) (pthread_atfork_prepare r) (pthread_atfork_parent r) (pthread_atfork_child r).
#[export] Instance set_pthread_initial_thread_bos : Setter __pthread_initial_thread_bos := fun v r =>
  mk_globals (__pthread_main_thread r) v (__pthread_manager_request r) (__pthread_manager_reader r) (__pthread_manager_thread_bos r) (__pthread_manager_thread_tos r) (__pthread_exit_requested r) (__pthread_exit_code r) (stack_segments r) (num_stack_segments r) (terminated_children r) (main_thread_exiting r) (pthread_keys r) (pthread_atfork_prepare r) (pthread_atfork_parent r) (pthread_atfork_child r).
#[export] Instance set_pthread_manager_request : Setter __pthread_manager_request := fun v r =>
  mk_globals (__pthread_main_thread r) (__pthread_initial_thread_bos r) v (__pthread_manager_reader r) (__pthread_manager_thread_bos r) (__pthread_manager_thread_tos r) (__pthread_exit_requested r) (__pthread_exit_code r) (stack_segments r) (num_stack_segments r) (terminated_children r) (main_thread_exiting r) (pthread_keys r) (pthread_atfork_prepare r) (pthread_atfork_parent r) (pthread_atfork_child r).
#[export] Instance set_pthread_manager_reader : Setter __pthread_manager_reader := fun v r =>
  mk_globals (__pthread_main_thread r) (__pthread_initial_thread_bos r) (__pthread_manager_request r) v (__pthread_manager_thread_bos r) (__pthread_manager_thread_tos r) (__pthread_exit_requested r) (__pthread_exit_code r) (stack_segments r) (num_stack_segments r) (terminated_children r) (main_thread_exiting r) (pthread_keys r) (pthread_atfork_prepare r) (pthread_atfork_parent r) (pthread_atfork_child r).
#[export] Instance set_pthread_manager_thread_bos : Setter __pthread_manager_thread_bos := fun v r =>
  mk_globals (__pthread_main_thread r) (__pthread_initial_thread_bos r) (__pthread_manager_request r) (__pthread_manager_reader r) v (__pthread_manager_thread_tos r) (__pthread_exit_requested r) (__pthread_exit_code r) (stack_segments r) (num_stack_segments r) (terminated_children r) (main_thread_exiting r) (pthread_keys r) (pthread_atfork_prepare r) (pthread_atfork_parent r) (pthread_atfork_child r).
#[export] Instance set_pthread_manager_thread_tos : Setter __pthread_manager_thread_tos := fun v r =>
  mk_globals (__pthread_main_thread r) (__pthread_initial_thread_bos r) (__pthread_manager_request r) (__pthread_manager_reader r) (__pthread_manager_thread_bos r) v (__pthread_exit_requested r) (__pthread_exit_code r) (stack_segments r) (num_stack_segments r) (terminated_children r) (main_thread_exiting r) (pthread_keys r) (pthread_atfork_prepare r) (pthread_atfork_parent r) (pthread_atfork_child r).
#[export] Instance set_pthread_exit_requested : Setter __pthread_exit_requested := fun v r =>
  mk_globals (__pthread_main_thread r) (__pthread_initial_thread_bos r) (__pthread_manager_request r) (__pthread_manager_reader r) (__pthread_manager_thread_bos r) (__pthread_manager_thread_tos r) v (__pthread_exit_code r) (stack_segments r) (num_stack_segments r) (terminated_children r) (main_thread_exiting r) (pthread_keys r) (pthread_atfork_prepare r) (pthread_atfork_parent r) (pthread_atfork_child r).
#[export] Instance set_pthread_exit_code : Setter __pthread_exit_code := fun v r =>
  mk_globals (__pthread_main_thread r) (__pthread_initial_thread_bos r) (__pthread_manager_request r) (__pthread_manager_reader r) (__pthread_manager_thread_bos r) (__pthread_manager_thread_tos r) (__pthread_exit_requested r) v (stack_segments r) (num_stack_segments r) (terminated_children r) (main_thread_exiting r) (pthread_keys r) (pthread_atfork_prepare r) (pthread_atfork_parent r) (pthread_atfork_child r).
#[export] Instance set_stack_segments : Setter stack_segments := fun v r =>
  mk_globals (__pthread_main_thread r) (__pthread_initial_thread_bos r) (__pthread_manager_request r) (__pthread_manager_reader r) (__pthread_manager_thread_bos r) (__pthread_manager_thread_tos r) (__pthread_exit_requested r) (__pthread_exit_code r) v (num_stack_segments r) (terminated_children r) (main_thread_exiting r) (pthread_keys r) (pthread_atfork_prepare r) (pthread_atfork_parent r) (pthread_atfork_child r).
#[export] Instance set_num_stack_segments : Setter num_stack_segments := fun v r =>
  mk_globals (__pthread_main_thread r) (__pthread_initial_thread_bos r) (__pthread_manager_request r) (__pthread_manager_reader r) (__pthread_manager_thread_bos r) (__pthread_manager_thread_tos r) (__pthread_exit_requested r) (__pthread_exit_code r) (stack_segments r) v (terminated_children r) (main_thread_exiting r) (pthread_keys r) (pthread_atfork_prepare r) (pthread_atfork_parent r) (pthread_atfork_child r).
#[export] Instance set_terminated_children : Setter terminated_children := fun v r =>
  mk_globals (__pthread_main_thread r) (__pthread_initial_thread_bos r) (__pthread_manager_request r) (__pthread_manager_reader r) (__pthread_manager_thread_bos r) (__pthread_manager_thread_tos r) (__pthread_exit_requested r) (__pthread_exit_code r) (stack_segments r) (num_stack_segments r) v (main_thread_exiting r) (pthread_keys r) (pthread_atfork_prepare r) (pthread_atfork_parent r) (pthread_atfork_child r).
#[export] Instance set_main_thread_exiting : Setter main_thread_exiting := fun v r =>
  mk_globals (__pthread_main_thread r) (__pthread_initial_thread_bos r) (__pthread_manager_request r) (__pthread_manager_reader r) (__pthread_manager_thread_bos r) (__pthread_manager_thread_tos r) (__pthread_exit_requested r) (__pthread_exit_code r) (stack_segments r) (num_stack_segments r) (terminated_children r) v (pthread_keys r) (pthread_atfork_prepare r) (pthread_atfork_parent r) (pthread_atfork_child r).
#[export] Instance set_pthread_keys : Setter pthread_keys := fun v r =>
  mk_globals (__pthread_main_thread r) (__pthread_initial_thread_bos r) (__pthread_manager_request r) (__pthread_manager_reader r) (__pthread_manager_thread_bos r) (__pthread_manager_thread_tos r) (__pthread_exit_requested r) (__pthread_exit_code r) (stack_segments r) (num_stack_segments r) (terminated_children r) (main_thread_exiting r) v (pthread_atfork_prepare r) (pthread_atfork_parent r) (pthread_atfork_child r).
#[export] Instance set_pthread_atfork_prepare : Setter pthread_atfork_prepare := fun v r =>
  mk_globals (__pthread_main_thread r) (__pthread_initial_thread_bos r) (__pthread_manager_request r) (__pthread_manager_reader r) (__pthread_manager_thread_bos r) (__pthread_manager_thread_tos r) (__pthread_exit_requested r) (__pthread_exit_code r) (stack_segments r) (num_stack_segments r) (terminated_children r) (main_thread_exiting r) (pthread_keys r) v (pthread_atfork_parent r) (pthread_atfork_child r).
#[export] Instance set_pthread_atfork_parent : Setter pthread_atfork_parent := fun v r =>
  mk_globals (__pthread_main_thread r) (__pthread_initial_thread_bos r) (__pthread_manager_request r) (__pthread_manager_reader r) (__pthread_manager_thread_bos r) (__pthread_manager_thread_tos r) (__pthread_exit_requested r) (__pthread_exit_code r) (stack_segments r) (num_stack_segments r) (terminated_children r) (main_thread_exiting r) (pthread_keys r) (pthread_atfork_prepare r) v (pthread_atfork_child r).
#[export] Instance set_pthread_atfork_child : Setter pthread_atfork_child := fun v r =>
  mk_globals (__pthread_main_thread r) (__pthread_initial_thread_bos r) (__pthread_manager_request r) (__pthread_manager_reader r) (__pthread_manager_thread_bos r) (__pthread_manager_thread_tos r) (__pthread_exit_requested r) (__pthread_exit_code r) (stack_segments r) (num_stack_segments r) (terminated_children r) (main_thread_exiting r) (pthread_keys r) (pthread_atfork_prepare r) (pthread_atfork_parent r) v.

(** ** The kernel's view of the processes

    What the library uses of Linux: every thread is a process with its own
    signal mask and set of pending signals; signal actions, file descriptors
    and memory are shared ([CLONE_VM | CLONE_FS | CLONE_FILES |
    CLONE_SIGHAND]). *)

Inductive disposition :=
| SIG_DFL
| SIG_IGN
| sa_handler (code : addr).

(** sigaction(2) *)
Record sigaction_t := mk_sigaction {
  sa_disp : disposition;
  sa_mask : sigset
}.

#[export] Instance set_sa_disp : Setter sa_disp := fun v r =>
  mk_sigaction v (sa_mask r).
#[export] Instance set_sa_mask : Setter sa_mask := fun v r =>
  mk_sigaction (sa_disp r) v.

(** A process: stack pointer, parent, signal state, scheduling parameters *)
Record proc := mk_proc {
  pr_sp : addr;
  pr_ppid : pid_t;
  pr_mask : sigset;
  pr_pending : sigset;
  pr_exit_signal : Z;
  pr_policy : Z;
  pr_priority : Z
}.

#[export] Instance set_pr_sp : Setter pr_sp := fun v r =>
  mk_proc v (pr_ppid r) (pr_mask r) (pr_pending r) (pr_exit_signal r) (pr_policy r) (pr_priority r).
#[export] Instance set_pr_ppid : Setter pr_ppid := fun v r =>
  mk_proc (pr_sp r) v (pr_mask r) (pr_pending r) (pr_exit_signal r) (pr_policy r) (pr_priority r).
#[export] Instance set_pr_mask : Setter pr_mask := fun v r =>
  mk_proc (pr_sp r) (pr_ppid r) v (pr_pending r) (pr_exit_signal r) (pr_policy r) (pr_priority r).
#[export] Instance set_pr_pending : Setter pr_pending := fun v r =>
  mk_proc (pr_sp r) (pr_ppid r) (pr_mask r) v (pr_exit_signal r) (pr_policy r) (pr_priority r).
#[export] Instance set_pr_exit_signal : Setter pr_exit_signal := fun v r =>
  mk_proc (pr_sp r) (pr_ppid r) (pr_mask r) (pr_pending r) v (pr_policy r) (pr_priority r).
#[export] Instance set_pr_policy : Setter pr_policy := fun v r =>
  mk_proc (pr_sp r) (pr_ppid r) (pr_mask r) (pr_pending r) (pr_exit_signal r) v (pr_priority r).
#[export] Instance set_pr_priority : Setter pr_priority := fun v r =>
  mk_proc (pr_sp r) (pr_ppid r) (pr_mask r) (pr_pending r) (pr_exit_signal r) (pr_policy r) v.

(** Processes; terminated children as (parent, pid, wait status); signal actions;
    contents of the manager's pipe; open descriptors; stack segments mapped by
    the manager; functions registered with on_exit; and [envt], the answers
    the environment will give to the calls whose result the library does not
    determine (malloc, mmap, clone, select, gettimeofday, ...), in order *)
Record kernel := mk_kernel {
  procs : gmap Z proc;
  zombies : list (Z * Z * Z);
  sigactions : gmap Z sigaction_t;
  pipe_data : list pthread_request;
  open_fds : gset Z;
  mapped : gset Z;
  on_exit_fns : list Z;
  envt : list Z
}.

#[export] Instance set_procs : Setter procs := fun v r =>
  mk_kernel v (zombies r) (sigactions r) (pipe_data r) (open_fds r) (mapped r) (on_exit_fns r) (envt r).
#[export] Instance set_zombies : Setter zombies := fun v r =>
  mk_kernel (procs r) v (sigactions r) (pipe_data r) (open_fds r) (mapped r) (on_exit_fns r) (envt r).
#[export] Instance set_sigactions : Setter sigactions := fun v r =>
  mk_kernel (procs r) (zombies r) v (pipe_data r) (open_fds r) (mapped r) (on_exit_fns r) (envt r).
#[export] Instance set_pipe_data : Setter pipe_data := fun v r =>
  mk_kernel (procs r) (zombies r) (sigactions r) v (open_fds r) (mapped r) (on_exit_fns r) (envt r).
#[export] Instance set_open_fds : Setter open_fds := fun v r =>
  mk_kernel (procs r) (zombies r) (sigactions r) (pipe_data r) v (mapped r) (on_exit_fns r) (envt r).
#[export] Instance set_mapped : Setter mapped := fun v r =>
  mk_kernel (procs r) (zombies r) (sigactions r) (pipe_data r) (open_fds r) v (on_exit_fns r) (envt r).
#[export] Instance set_on_exit_fns : Setter on_exit_fns := fun v r =>
  mk_kernel (procs r) (zombies r) (sigactions r) (pipe_data r) (open_fds r) (mapped r) v (envt r).
#[export] Instance set_envt : Setter envt := fun v r =>
  mk_kernel (procs r) (zombies r) (sigactions r) (pipe_data r) (open_fds r) (mapped r) (on_exit_fns r) v.

(** ** The state of the program *)

(** Memory, by type of object, with [words] for [int], [void *] and
    [pthread_t] objects of the caller and [locq] for the automatic
    [pthread_queue] of a process; global variables; kernel *)
Record state := mk_state {
  thr : gmap Z _pthread;
  mtx : gmap Z pthread_mutex_t;
  cnd : gmap Z pthread_cond_t;
  sms : gmap Z sem_t;
  bufs : gmap Z _pthread_cleanup_buffer;
  attrs : gmap Z pthread_attr_t;
  mattrs : gmap Z pthread_mutexattr_t;
  hlists : gmap Z handler_list;
  locq : gmap Z _pthread_queue;
  words : gmap Z Z;
  glb : globals;
  krn : kernel
}.

#[export] Instance set_thr : Setter thr := fun v r =>
  mk_state v (mtx r) (cnd r) (sms r) (bufs r) (attrs r) (mattrs r) (hlists r) (locq r) (words r) (glb r) (krn r).
#[export] Instance set_mtx : Setter mtx := fun v r =>
  mk_state (thr r) v (cnd r) (sms r) (bufs r) (attrs r) (mattrs r) (hlists r) (locq r) (words r) (glb r) (krn r).
#[export] Instance set_cnd : Setter cnd := fun v r =>
  mk_state (thr r) (mtx r) v (sms r) (bufs r) (attrs r) (mattrs r) (hlists r) (locq r) (words r) (glb r) (krn r).
#[export] Instance set_sms : Setter sms := fun v r =>
  mk_state (thr r) (mtx r) (cnd r) v (bufs r) (attrs r) (mattrs r) (hlists r) (locq r) (words r) (glb r) (krn r).
#[export] Instance set_bufs : Setter bufs := fun v r =>
  mk_state (thr r) (mtx r) (cnd r) (sms r) v (attrs r) (mattrs r) (hlists r) (locq r) (words r) (glb r) (krn r).
#[export] Instance set_attrs : Setter attrs := fun v r =>
  mk_state (thr r) (mtx r) (cnd r) (sms r) (bufs r) v (mattrs r) (hlists r) (locq r) (words r) (glb r) (krn r).
#[export] Instance set_mattrs : Setter mattrs := fun v r =>
  mk_state (thr r) (mtx r) (cnd r) (sms r) (bufs r) (attrs r) v (hlists r) (locq r) (words r) (glb r) (krn r).
#[export] Instance set_hlists : Setter hlists := fun v r =>
  mk_state (thr r) (mtx r) (cnd r) (sms r) (bufs r) (attrs r) (mattrs r) v (locq r) (words r) (glb r) (krn r).
#[export] Instance set_locq : Setter locq := fun v r =>
  mk_state (thr r) (mtx r) (cnd r) (sms r) (bufs r) (attrs r) (mattrs r) (hlists r) v (words r) (glb r) (krn r).
#[export] Instance set_words : Setter words := fun v r =>
  mk_state (thr r) (mtx r) (cnd r) (sms r) (bufs r) (attrs r) (mattrs r) (hlists r) (locq r) v (glb r) (krn r).
#[export] Instance set_glb : Setter glb := fun v r =>
  mk_state (thr r) (mtx r) (cnd r) (sms r) (bufs r) (attrs r) (mattrs r) (hlists r) (locq r) (words r) v (krn r).
#[export] Instance set_krn : Setter krn := fun v r =>
  mk_state (thr r) (mtx r) (cnd r) (sms r) (bufs r) (attrs r) (mattrs r) (hlists r) (locq r) (words r) (glb r) v.

(** ** Reduction of field accesses *)

(** Computes the fields of updated structs, in the goal or in a hypothesis. *)
Ltac fields :=
  cbn [setf fst snd
    p_nextlive set_p_nextlive p_prevlive set_p_prevlive p_nextwaiting
    set_p_nextwaiting p_pid set_p_pid p_spinlock set_p_spinlock p_signal
    set_p_signal p_signal_jmp set_p_signal_jmp p_cancel_jmp set_p_cancel_jmp
    p_terminated set_p_terminated p_detached set_p_detached p_exited
    set_p_exited p_retval set_p_retval p_retcode set_p_retcode p_joining
    set_p_joining p_cleanup set_p_cleanup p_cancelstate set_p_cancelstate
    p_canceltype set_p_canceltype p_canceled set_p_canceled p_errno
    set_p_errno p_h_errno set_p_h_errno p_initial_fn set_p_initial_fn
    p_initial_fn_arg set_p_initial_fn_arg p_initial_mask set_p_initial_mask
    p_specific set_p_specific q_head set_q_head q_tail set_q_tail m_spinlock
    set_m_spinlock m_count set_m_count m_owner set_m_owner m_kind set_m_kind
    m_waiting set_m_waiting c_spinlock set_c_spinlock c_waiting set_c_waiting
    detachstate set_detachstate schedpolicy set_schedpolicy sched_priority
    set_sched_priority inheritsched set_inheritsched scope set_scope mutexkind
    set_mutexkind sem_status set_sem_status sem_spinlock set_sem_spinlock
    routine set_routine cl_arg set_cl_arg canceltype set_canceltype prev
    set_prev in_use set_in_use destr set_destr handler set_handler hl_next
    set_hl_next __pthread_main_thread set_pthread_main_thread
    __pthread_initial_thread_bos set_pthread_initial_thread_bos
    __pthread_manager_request set_pthread_manager_request
    __pthread_manager_reader set_pthread_manager_reader
    __pthread_manager_thread_bos set_pthread_manager_thread_bos
    __pthread_manager_thread_tos set_pthread_manager_thread_tos
    __pthread_exit_requested set_pthread_exit_requested __pthread_exit_code
    set_pthread_exit_code stack_segments set_stack_segments num_stack_segments
    set_num_stack_segments terminated_children set_terminated_children
    main_thread_exiting set_main_thread_exiting pthread_keys set_pthread_keys
    pthread_atfork_prepare set_pthread_atfork_prepare pthread_atfork_parent
    set_pthread_atfork_parent pthread_atfork_child set_pthread_atfork_child
    sa_disp set_sa_disp sa_mask set_sa_mask pr_sp set_pr_sp pr_ppid
    set_pr_ppid pr_mask set_pr_mask pr_pending set_pr_pending pr_exit_signal
    set_pr_exit_signal pr_policy set_pr_policy pr_priority set_pr_priority
    procs set_procs zombies set_zombies sigactions set_sigactions pipe_data
    set_pipe_data open_fds set_open_fds mapped set_mapped on_exit_fns
    set_on_exit_fns envt set_envt thr set_thr mtx set_mtx cnd set_cnd sms
    set_sms bufs set_bufs attrs set_attrs mattrs set_mattrs hlists set_hlists
    locq set_locq words set_words glb set_glb krn set_krn].
Ltac fields_in H :=
  cbn [setf fst snd
    p_nextlive set_p_nextlive p_prevlive set_p_prevlive p_nextwaiting
    set_p_nextwaiting p_pid set_p_pid p_spinlock set_p_spinlock p_signal
    set_p_signal p_signal_jmp set_p_signal_jmp p_cancel_jmp set_p_cancel_jmp
    p_terminated set_p_terminated p_detached set_p_detached p_exited
    set_p_exited p_retval set_p_retval p_retcode set_p_retcode p_joining
    set_p_joining p_cleanup set_p_cleanup p_cancelstate set_p_cancelstate
    p_canceltype set_p_canceltype p_canceled set_p_canceled p_errno
    set_p_errno p_h_errno set_p_h_errno p_initial_fn set_p_initial_fn
    p_initial_fn_arg set_p_initial_fn_arg p_initial_mask set_p_initial_mask
    p_specific set_p_specific q_head set_q_head q_tail set_q_tail m_spinlock
    set_m_spinlock m_count set_m_count m_owner set_m_owner m_kind set_m_kind
    m_waiting set_m_waiting c_spinlock set_c_spinlock c_waiting set_c_waiting
    detachstate set_detachstate schedpolicy set_schedpolicy sched_priority
    set_sched_priority inheritsched set_inheritsched scope set_scope mutexkind
    set_mutexkind sem_status set_sem_status sem_spinlock set_sem_spinlock
    routine set_routine cl_arg set_cl_arg canceltype set_canceltype prev
    set_prev in_use set_in_use destr set_destr handler set_handler hl_next
    set_hl_next __pthread_main_thread set_pthread_main_thread
    __pthread_initial_thread_bos set_pthread_initial_thread_bos
    __pthread_manager_request set_pthread_manager_request
    __pthread_manager_reader set_pthread_manager_reader
    __pthread_manager_thread_bos set_pthread_manager_thread_bos
    __pthread_manager_thread_tos set_pthread_manager_thread_tos
    __pthread_exit_requested set_pthread_exit_requested __pthread_exit_code
    set_pthread_exit_code stack_segments set_stack_segments num_stack_segments
    set_num_stack_segments terminated_children set_terminated_children
    main_thread_exiting set_main_thread_exiting pthread_keys set_pthread_keys
    pthread_atfork_prepare set_pthread_atfork_prepare pthread_atfork_parent
    set_pthread_atfork_parent pthread_atfork_child set_pthread_atfork_child
    sa_disp set_sa_disp sa_mask set_sa_mask pr_sp set_pr_sp pr_ppid
    set_pr_ppid pr_mask set_pr_mask pr_pending set_pr_pending pr_exit_signal
    set_pr_exit_signal pr_policy set_pr_policy pr_priority set_pr_priority
    procs set_procs zombies set_zombies sigactions set_sigactions pipe_data
    set_pipe_data open_fds set_open_fds mapped set_mapped on_exit_fns
    set_on_exit_fns envt set_envt thr set_thr mtx set_mtx cnd set_cnd sms
    set_sms bufs set_bufs attrs set_attrs mattrs set_mattrs hlists set_hlists
    locq set_locq words set_words glb set_glb krn set_krn] in H.

(** The same, on a term. *)
Ltac fields_term t :=
  let t' := eval cbn [setf fst snd
    p_nextlive set_p_nextlive p_prevlive set_p_prevlive p_nextwaiting
    set_p_nextwaiting p_pid set_p_pid p_spinlock set_p_spinlock p_signal
    set_p_signal p_signal_jmp set_p_signal_jmp p_cancel_jmp set_p_cancel_jmp
    p_terminated set_p_terminated p_detached set_p_detached p_exited
    set_p_exited p_retval set_p_retval p_retcode set_p_retcode p_joining
    set_p_joining p_cleanup set_p_cleanup p_cancelstate set_p_cancelstate
    p_canceltype set_p_canceltype p_canceled set_p_canceled p_errno
    set_p_errno p_h_errno set_p_h_errno p_initial_fn set_p_initial_fn
    p_initial_fn_arg set_p_initial_fn_arg p_initial_mask set_p_initial_mask
    p_specific set_p_specific q_head set_q_head q_tail set_q_tail m_spinlock
    set_m_spinlock m_count set_m_count m_owner set_m_owner m_kind set_m_kind
    m_waiting set_m_waiting c_spinlock set_c_spinlock c_waiting set_c_waiting
    detachstate set_detachstate schedpolicy set_schedpolicy sched_priority
    set_sched_priority inheritsched set_inheritsched scope set_scope mutexkind
    set_mutexkind sem_status set_sem_status sem_spinlock set_sem_spinlock
    routine set_routine cl_arg set_cl_arg canceltype set_canceltype prev
    set_prev in_use set_in_use destr set_destr handler set_handler hl_next
    set_hl_next __pthread_main_thread set_pthread_main_thread
    __pthread_initial_thread_bos set_pthread_initial_thread_bos
    __pthread_manager_request set_pthread_manager_request
    __pthread_manager_reader set_pthread_manager_reader
    __pthread_manager_thread_bos set_pthread_manager_thread_bos
    __pthread_manager_thread_tos set_pthread_manager_thread_tos
    __pthread_exit_requested set_pthread_exit_requested __pthread_exit_code
    set_pthread_exit_code stack_segments set_stack_segments num_stack_segments
    set_num_stack_segments terminated_children set_terminated_children
    main_thread_exiting set_main_thread_exiting pthread_keys set_pthread_keys
    pthread_atfork_prepare set_pthread_atfork_prepare pthread_atfork_parent
    set_pthread_atfork_parent pthread_atfork_child set_pthread_atfork_child
    sa_disp set_sa_disp sa_mask set_sa_mask pr_sp set_pr_sp pr_ppid
    set_pr_ppid pr_mask set_pr_mask pr_pending set_pr_pending pr_exit_signal
    set_pr_exit_signal pr_policy set_pr_policy pr_priority set_pr_priority
    procs set_procs zombies set_zombies sigactions set_sigactions pipe_data
    set_pipe_data open_fds set_open_fds mapped set_mapped on_exit_fns
    set_on_exit_fns envt set_envt thr set_thr mtx set_mtx cnd set_cnd sms
    set_sms bufs set_bufs attrs set_attrs mattrs set_mattrs hlists set_hlists
    locq set_locq words set_words glb set_glb krn set_krn] in t in t'.
