(* ===== verification/Machine.v ===== *)
(** * The abstract machine: memory accesses, signals, non-local jumps

    A C function of the library is an interaction tree over [evt].  One [Act]
    is one access to shared memory or one system call, so that the trees fix
    the granularity at which the threads interleave; [Sigsuspend],
    [Sigsetjmp], [Siglongjmp] and [Exit_process] are the calls that change
    the control flow of a process.

    [istep] is the step function of one process and [exec] its runs; [evals]
    and its special cases [returns], [exits], [hangs] are the judgements the
    specifications of the components are stated with. *)

From S2P Require Import Prelude Types.

(** ** Events *)

Variant evt : Type -> Type :=
| Act {X : Type} (f : pid_t -> state -> option (X * state)) : evt X
| Sigsuspend (mask : sigset) : evt unit
| Sigsetjmp (buf : addr) (savemask : bool) : evt Z
| Siglongjmp (buf : addr) (val : Z) : evt void
| Exit_process (code : Z) : evt void.

Abbreviation cprog := (itree evt) (only parsing).

Definition act {X} (f : pid_t -> state -> option (X * state)) : itree evt X :=
  ITree.trigger (Act f).

Definition sigsuspend (mask : sigset) : itree evt unit :=
  ITree.trigger (Sigsuspend mask).
Definition sigsetjmp (buf : addr) (savemask : bool) : itree evt Z :=
  ITree.trigger (Sigsetjmp buf savemask).
Definition siglongjmp {X} (buf : addr) (val : Z) : itree evt X :=
  Vis (Siglongjmp buf val) (fun v : void => match v with end).
Definition _exit {X} (code : Z) : itree evt X :=
  Vis (Exit_process code) (fun v : void => match v with end).

(** [while (c) s]: [body] tells whether to go round again. *)
Definition c_while (body : itree evt bool) : itree evt unit :=
  ITree.iter (fun _ : unit =>
    ITree.bind body (fun b : bool =>
      if b then Ret (inl tt) else Ret (inr tt))) tt.

(** [while (1)] and loops that carry a value: [body] yields the next value
    ([inl]) or leaves the loop ([inr]). *)
Definition c_loop {A B} (body : A -> itree evt (A + B)) (a : A) : itree evt B :=
  ITree.iter body a.

(** [if (c) s]. *)
Definition when (b : bool) (t : itree evt unit) : itree evt unit :=
  if b then t else Ret tt.

(** The library is linked with code it calls through pointers: signal
    handlers, by address. *)
Class Handlers := handler_code : addr -> Z -> itree evt unit.

(** ** Signals *)

(** SIGKILL and SIGSTOP cannot be blocked. *)
Definition blocked (mask : sigset) (s : Z) : bool :=
  bool_decide (s ∈ mask) && negb (s =? SIGKILL) && negb (s =? SIGSTOP).

(** The pending signal Linux delivers under [mask]: the lowest one. *)
Definition pick_signal (pending mask : sigset) : option Z :=
  head (filter (fun s => s ∈ pending ∧ blocked mask s = false) (seqZ 1 (NSIG - 1))).

Definition default_ignored (s : Z) : bool :=
  (s =? 17) || (s =? 18) || (s =? 23) || (s =? 28).

Definition action_of (σ : state) (s : Z) : sigaction_t :=
  default (mk_sigaction SIG_DFL ∅) (sigactions (krn σ) !! s).

Definition upd_krn (f : kernel -> kernel) (σ : state) : state :=
  setf krn (f (krn σ)) σ.

Definition upd_proc (p : pid_t) (f : proc -> proc) (σ : state) : state :=
  upd_krn (fun k => setf procs (alter f p (procs k)) k) σ.

Definition set_mask (p : pid_t) (m : sigset) : state -> state :=
  upd_proc p (setf pr_mask m).

Definition post_signal (p : pid_t) (s : Z) : state -> state :=
  upd_proc p (fun pr => setf pr_pending ({[s]} ∪ pr_pending pr) pr).

Definition clear_signal (p : pid_t) (s : Z) : state -> state :=
  upd_proc p (fun pr => setf pr_pending (pr_pending pr ∖ {[s]}) pr).

(** Wait statuses, as the macros of <sys/wait.h> decode them. *)
Definition exit_status (code : Z) : Z := Z.shiftl (Z.land code 255) 8.
Definition WTERMSIG (status : Z) : Z := Z.land status 127.
Definition WIFSIGNALED (status : Z) : bool :=
  negb (WTERMSIG status =? 0) && negb (WTERMSIG status =? 127).

(** Termination of a process: it becomes a zombie of its parent, which gets
    the exit signal chosen at clone time; its children are given to init. *)
Definition terminate (p : pid_t) (status : Z) (σ : state) : state :=
  match procs (krn σ) !! p with
  | None => σ
  | Some pr =>
      let reparent pr' := if pr_ppid pr' =? p then setf pr_ppid 1 pr' else pr' in
      let σ1 := upd_krn (fun k =>
        setf zombies (zombies k ++ [(pr_ppid pr, p, status)])
          (setf procs (reparent <$> delete p (procs k)) k)) σ in
      if pr_exit_signal pr =? 0 then σ1
      else post_signal (pr_ppid pr) (pr_exit_signal pr) σ1
  end.

(** ** Steps of one process *)

(** The jump buffers of a process: the mask saved with them, if any, and the
    rest of the computation at the [sigsetjmp]. *)
Abbreviation jtab A := (gmap Z (option (gset Z) * (Z -> itree evt A))).

Inductive outcome (A : Type) :=
| ODone (a : A) (J : jtab A) (σ : state)
| OExit (σ : state)
| OSusp (t : itree evt A) (J : jtab A) (σ : state)
| OJump (buf : addr) (val : Z) (J : jtab A) (σ : state)
| OFault.
Arguments ODone {A}. Arguments OExit {A}. Arguments OSusp {A}.
Arguments OJump {A}. Arguments OFault {A}.

Inductive sres (A : Type) :=
| SNext (t : itree evt A) (J : jtab A) (σ : state)
| SHalt (o : outcome A).
Arguments SNext {A}. Arguments SHalt {A}.

Section step.
Context {H : Handlers}.

(** Delivery of signal [s] to process [p]: the handler runs with [during],
    the action's mask and [s] blocked, then [restore] is put back and
    [resume] goes on; [again] is where the process stays if [s] is
    ignored. *)
Definition deliver {A} (p : pid_t) (s : Z) (during restore : sigset)
    (resume again : itree evt A) (J : jtab A) (σ : state) : sres A :=
  let a := action_of σ s in
  let σ1 := clear_signal p s σ in
  match sa_disp a with
  | sa_handler h =>
      SNext (handler_code h s ;;
             act (fun q σ => Some (tt, set_mask q restore σ)) ;;
             resume)
            J (set_mask p (during ∪ sa_mask a ∪ {[s]}) σ1)
  | SIG_IGN => SNext again J σ1
  | SIG_DFL => if default_ignored s then SNext again J σ1
               else SHalt (OExit (terminate p s σ1))
  end.

Definition istepF {A} (p : pid_t) (ot : itree' evt A) (J : jtab A) (σ : state)
    : sres A :=
  match ot with
  | RetF a => SHalt (ODone a J σ)
  | TauF t' => SNext t' J σ
  | VisF e k =>
      match e in evt X return (X -> itree evt A) -> sres A with
      | Act f => fun k =>
          match f p σ with
          | Some (x, σ') => SNext (k x) J σ'
          | None => SHalt OFault
          end
      | Sigsuspend m => fun k =>
          match procs (krn σ) !! p with
          | None => SHalt OFault
          | Some pr =>
              match pick_signal (pr_pending pr) m with
              | None => SHalt (OSusp (Vis (Sigsuspend m) k) J σ)
              | Some s => deliver p s m (pr_mask pr) (k tt) (Vis (Sigsuspend m) k) J σ
              end
          end
      | Sigsetjmp b save => fun k =>
          match procs (krn σ) !! p with
          | None => SHalt OFault
          | Some pr =>
              SNext (k 0)
                (<[b := (if save then Some (pr_mask pr) else None, k)]> J) σ
          end
      | Siglongjmp b v => fun _ =>
          match J !! b with
          | None => SHalt (OJump b v J σ)
          | Some (m, k') =>
              SNext (k' (if v =? 0 then 1 else v)) J
                match m with Some m => set_mask p m σ | None => σ end
          end
      | Exit_process c => fun _ => SHalt (OExit (terminate p (exit_status c) σ))
      end k
  end.

Definition istep {A} (p : pid_t) (t : itree evt A) := istepF p (observe t).

(** Runs of one process while no other process interferes. *)
Inductive exec {A} (p : pid_t) :
    itree evt A -> jtab A -> state -> outcome A -> Prop :=
| exec_halt t J σ o : istep p t J σ = SHalt o -> exec p t J σ o
| exec_next t J σ t' J' σ' o :
    istep p t J σ = SNext t' J' σ' -> exec p t' J' σ' o -> exec p t J σ o.

(** The same, as a function with a bound on the number of steps. *)
Fixpoint run {A} (n : nat) (p : pid_t) (t : itree evt A) (J : jtab A)
    (σ : state) : option (outcome A) :=
  match n with
  | O => None
  | S n => match istep p t J σ with
           | SHalt o => Some o
           | SNext t' J' σ' => run n p t' J' σ'
           end
  end.
End step.
