(* ===== verification/MachineFacts.v ===== *)
(** * Reasoning about runs

    Runs are compatible with strong bisimilarity of programs and with
    additional jump buffers ([exec_sim]), deterministic ([exec_det]), and
    compositional: the judgement [evals] has one rule per way to build a
    program.  The tactic [cstep] applies them. *)

From S2P Require Import Prelude Types Machine.
From ITree Require Import ITreeFacts Eq.Eqit Eq.Shallow.
From Paco Require Import paco.

(** ** Jump tables and outcomes up to bisimilarity *)

(** [J'] has the buffers of [J], and others only with names in [D]. *)
Definition jsub {A} (D : gset Z) (J J' : jtab A) : Prop :=
  forall b, match J !! b with
            | Some (m, c) => exists c', J' !! b = Some (m, c') /\
                                        forall v, eq_itree eq (c v) (c' v)
            | None => b ∉ D -> J' !! b = None
            end.

Lemma jsub_refl {A} D (J : jtab A) : jsub D J J.
Proof.
  intros b. destruct (J !! b) as [[m c]|] eqn:Hb; [|done].
  exists c. split; [done|]. intros; reflexivity.
Qed.

Lemma jsub_insert {A} D (J J' : jtab A) b m (c c' : Z -> itree evt A) :
  jsub D J J' -> (forall v, eq_itree eq (c v) (c' v)) ->
  jsub D (<[b := (m, c)]> J) (<[b := (m, c')]> J').
Proof.
  intros HJ Hc b'. rewrite !lookup_insert.
  case_decide; [eauto | apply HJ].
Qed.

Definition osim {A} D (o o' : outcome A) : Prop :=
  match o, o' with
  | ODone a J σ, ODone a' J' σ' => a = a' /\ jsub D J J' /\ σ = σ'
  | OExit σ, OExit σ' => σ = σ'
  | OSusp t J σ, OSusp t' J' σ' => eq_itree eq t t' /\ jsub D J J' /\ σ = σ'
  | OJump b v J σ, OJump b' v' J' σ' => b = b' /\ v = v' /\ jsub D J J' /\ σ = σ'
  | OFault, OFault => True
  | _, _ => False
  end.

Definition ssim {A} D (s s' : sres A) : Prop :=
  match s, s' with
  | SNext t J σ, SNext t' J' σ' => eq_itree eq t t' /\ jsub D J J' /\ σ = σ'
  | SHalt o, SHalt o' => osim D o o'
  | _, _ => False
  end.

(** The outcome is not a jump to a buffer with a name in [D]. *)
Definition no_jump {A} (D : gset Z) (o : outcome A) : Prop :=
  match o with OJump b _ _ _ => b ∉ D | _ => True end.

Definition sno_jump {A} (D : gset Z) (s : sres A) : Prop :=
  match s with SHalt o => no_jump D o | _ => True end.

Section facts.
Context {H : Handlers}.

Lemma deliver_sim {A} D p s m r (t1 t2 u1 u2 : itree evt A) J J' σ :
  eq_itree eq t1 t2 -> eq_itree eq u1 u2 -> jsub D J J' ->
  ssim D (deliver p s m r t1 u1 J σ) (deliver p s m r t2 u2 J' σ).
Proof.
  intros Ht Hu HJ. unfold deliver.
  destruct (sa_disp _).
  - destruct (default_ignored s); simpl; auto.
  - simpl; auto.
  - simpl. split; [|done].
    apply eqit_bind; [reflexivity | intros ?].
    apply eqit_bind; [reflexivity | intros ?]. exact Ht.
Qed.

Lemma istep_sim {A} D p (t t' : itree evt A) J J' σ :
  eq_itree eq t t' -> jsub D J J' -> sno_jump D (istep p t J σ) ->
  ssim D (istep p t J σ) (istep p t' J' σ).
Proof.
  intros Ht HJ. unfold istep. punfold Ht. red in Ht.
  inversion Ht as [? ? Hr|? ? Hr|X e k1 k2 Hr|? ? HF|? ? HF]; try discriminate.
  - subst. simpl. auto.
  - simpl. by pclearbot.
  - assert (Hk : forall v, eq_itree eq (k1 v) (k2 v)).
    { intros v. specialize (Hr v). by pclearbot. }
    clear - Hk HJ. destruct e as [X f|m|b save|b v|c]; simpl.
    + destruct (f p σ) as [[x σ']|]; simpl; auto.
    + destruct (procs (krn σ) !! p) as [pr|]; simpl; [|done].
      destruct (pick_signal _ _); intros _.
      * apply deliver_sim; auto. apply eqit_Vis; auto.
      * simpl. split; [|done]. apply eqit_Vis; auto.
    + destruct (procs (krn σ) !! p) as [pr|]; simpl; [|done]. intros _.
      split; [auto|]. split; [by apply jsub_insert | done].
    + pose proof (HJ b) as Hb. destruct (J !! b) as [[m k]|]; simpl.
      * destruct Hb as (k' & -> & Hk'). simpl. auto.
      * intros HD. rewrite (Hb HD). simpl. auto.
    + done.
Qed.

(** Runs do not distinguish bisimilar programs, and ignore buffers they
    do not jump to. *)
Lemma exec_sim {A} D p (t : itree evt A) J σ o :
  exec p t J σ o -> no_jump D o ->
  forall t' J', eq_itree eq t t' -> jsub D J J' ->
  exists o', exec p t' J' σ o' /\ osim D o o'.
Proof.
  induction 1 as [t J σ o Hs | t J σ t1 J1 σ1 o Hs _ IH]; intros Hno t' J' Ht HJ.
  - pose proof (istep_sim D p t t' J J' σ Ht HJ) as Hsim. rewrite Hs in Hsim.
    specialize (Hsim Hno).
    destruct (istep p t' J' σ) as [|o'] eqn:Hs'; [done|].
    exists o'. split; [by apply exec_halt | done].
  - pose proof (istep_sim D p t t' J J' σ Ht HJ) as Hsim. rewrite Hs in Hsim.
    specialize (Hsim I).
    destruct (istep p t' J' σ) as [t2 J2 σ2|] eqn:Hs'; [|done].
    destruct Hsim as (Ht2 & HJ2 & <-).
    destruct (IH Hno _ _ Ht2 HJ2) as (o' & Ho' & Hsim).
    exists o'. split; [by eapply exec_next | done].
Qed.

(** ** Determinism, and the bounded runner *)

Lemma exec_det {A} p (t : itree evt A) J σ o1 o2 :
  exec p t J σ o1 -> exec p t J σ o2 -> o1 = o2.
Proof.
  induction 1 as [t J σ o Hs | t J σ t1 J1 σ1 o Hs _ IH]; intros H2;
    inversion H2; subst; [congruence | congruence | congruence |].
  apply IH. congruence.
Qed.

Lemma run_exec {A} n p (t : itree evt A) J σ o :
  run n p t J σ = Some o -> exec p t J σ o.
Proof.
  revert t J σ. induction n as [|n IH]; simpl; intros t J σ Hr; [done|].
  destruct (istep p t J σ) eqn:Hs.
  - eapply exec_next; eauto.
  - apply exec_halt. congruence.
Qed.

Lemma exec_run {A} p (t : itree evt A) J σ o :
  exec p t J σ o -> exists n, run n p t J σ = Some o.
Proof.
  induction 1 as [t J σ o Hs | t J σ t1 J1 σ1 o Hs _ [n IH]].
  - exists 1%nat. simpl. by rewrite Hs.
  - exists (S n). simpl. by rewrite Hs.
Qed.

(** ** Sequential composition *)

(** The buffers of a program, as buffers of the program followed by [k]. *)
Definition bindJ {A B} (k : A -> itree evt B) (J : jtab A) : jtab B :=
  (fun mc => (mc.1, fun v => ITree.bind (mc.2 v) k)) <$> J.

Lemma bindJ_lookup {A B} (k : A -> itree evt B) (J : jtab A) b :
  bindJ k J !! b = match J !! b with
                   | Some (m, c) => Some (m, fun v => ITree.bind (c v) k)
                   | None => None
                   end.
Proof. unfold bindJ. rewrite lookup_fmap. by destruct (J !! b) as [[m c]|]. Qed.

Lemma deliver_bind {A B} p s m r (t u : itree evt A) (k : A -> itree evt B) J σ :
  match deliver p s m r t u J σ with
  | SNext t' J' σ' => ssim ∅ (SNext (ITree.bind t' k) (bindJ k J') σ')
      (deliver p s m r (ITree.bind t k) (ITree.bind u k) (bindJ k J) σ)
  | SHalt (OExit σ') =>
      deliver p s m r (ITree.bind t k) (ITree.bind u k) (bindJ k J) σ = SHalt (OExit σ')
  | SHalt _ => False
  end.
Proof.
  unfold deliver. destruct (sa_disp _).
  - destruct (default_ignored s); [|done].
    split; [reflexivity | split; [apply jsub_refl | done]].
  - split; [reflexivity | split; [apply jsub_refl | done]].
  - split; [|split; [apply jsub_refl | done]].
    rewrite bind_bind. apply eqit_bind; [reflexivity | intros ?].
    rewrite bind_bind. reflexivity.
Qed.

Lemma istep_bind {A B} p (t : itree evt A) (k : A -> itree evt B) J σ :
  let s' := istep p (ITree.bind t k) (bindJ k J) σ in
  match istep p t J σ with
  | SNext t' J' σ' => ssim ∅ (SNext (ITree.bind t' k) (bindJ k J') σ') s'
  | SHalt (ODone a J' σ') => observe t = RetF a /\ J' = J /\ σ' = σ
  | SHalt (OExit σ') => s' = SHalt (OExit σ')
  | SHalt (OSusp t' J' σ') => ssim ∅ (SHalt (OSusp (ITree.bind t' k) (bindJ k J') σ')) s'
  | SHalt (OJump b v J' σ') => s' = SHalt (OJump b v (bindJ k J') σ')
  | SHalt OFault => s' = SHalt OFault
  end.
Proof.
  intros s'. subst s'. unfold istep. rewrite observe_bind.
  destruct (observe t) as [a|t'|X e kk]; simpl.
  - done.
  - split; [reflexivity | split; [apply jsub_refl | done]].
  - destruct e as [X f|m|b save|b v|c]; simpl.
    + destruct (f p σ) as [[x σ']|]; simpl; [|done].
      split; [reflexivity | split; [apply jsub_refl | done]].
    + destruct (procs (krn σ) !! p) as [pr|]; simpl; [|done].
      destruct (pick_signal _ _) as [s|].
      * pose proof (deliver_bind p s m (pr_mask pr) (kk tt) (Vis (Sigsuspend m) kk) k J σ)
          as Hd.
        assert (Hv : eq_itree eq (ITree.bind (Vis (Sigsuspend m) kk) k)
                       (Vis (Sigsuspend m) (fun x => ITree.bind (kk x) k)))
          by (rewrite bind_vis; reflexivity).
        pose proof (deliver_sim ∅ p s m (pr_mask pr) (ITree.bind (kk tt) k) _ _ _
          (bindJ k J) _ σ (reflexivity _) Hv (jsub_refl _ _)) as Hs.
        destruct (deliver p s m (pr_mask pr) (kk tt) _ J σ) as [t1 J1 σ1|o1].
        -- destruct (deliver p s m _ _ _ (bindJ k J) σ) as [t2 J2 σ2|]; [|done].
           destruct (deliver p s m _ _ (Vis _ _) (bindJ k J) σ) as [t3 J3 σ3|]; [|done].
           destruct Hd as (Ht2 & HJ2 & <-), Hs as (Ht3 & HJ3 & <-).
           split; [by rewrite Ht2 | split; [|done]].
           intros b. specialize (HJ2 b). specialize (HJ3 b).
           destruct (bindJ k J1 !! b) as [[m1 c1]|].
           ++ destruct HJ2 as (c2 & E2 & Hc2). rewrite E2 in HJ3.
              destruct HJ3 as (c3 & E3 & Hc3). exists c3. split; [done|].
              intros v. by rewrite Hc2.
           ++ intros HD. rewrite (HJ2 HD) in HJ3. auto.
        -- destruct o1; try done. rewrite Hd in Hs.
           destruct (deliver p s m _ _ (Vis _ _) (bindJ k J) σ) as [|o3]; [done|].
           destruct o3; try done. simpl in Hs. by subst.
      * simpl. split; [|split; [apply jsub_refl | done]].
        rewrite bind_vis. reflexivity.
    + destruct (procs (krn σ) !! p) as [pr|]; simpl; [|done].
      split; [reflexivity|]. split; [|done].
      unfold bindJ. rewrite fmap_insert. apply jsub_refl.
    + pose proof (bindJ_lookup k J b) as Hl.
      destruct (J !! b) as [[m c]|]; rewrite Hl; [|done].
      split; [reflexivity | split; [apply jsub_refl | done]].
    + done.
Qed.

Lemma istep_bind_ret {A B} p (t : itree evt A) (k : A -> itree evt B) a J σ :
  observe t = RetF a -> istep p (ITree.bind t k) J σ = istep p (k a) J σ.
Proof. intros Ht. unfold istep. by rewrite observe_bind, Ht. Qed.

Lemma exec_eq_step {A} p (t t' : itree evt A) J σ o :
  istep p t J σ = istep p t' J σ -> exec p t' J σ o -> exec p t J σ o.
Proof.
  intros Hs He. inversion He; subst.
  - apply exec_halt. congruence.
  - eapply exec_next; eauto. congruence.
Qed.

Lemma no_jump_empty {A} (o : outcome A) : no_jump ∅ o.
Proof. destruct o; simpl; set_solver. Qed.

Lemma osim_trans {A} D (o1 o2 o3 : outcome A) :
  osim D o1 o2 -> osim D o2 o3 -> osim D o1 o3.
Proof.
  assert (HJ : forall J1 J2 J3 : jtab A, jsub D J1 J2 -> jsub D J2 J3 -> jsub D J1 J3).
  { intros J1 J2 J3 H1 H2 b. specialize (H1 b). specialize (H2 b).
    destruct (J1 !! b) as [[m c]|].
    - destruct H1 as (c' & E & Hc). rewrite E in H2. destruct H2 as (c2 & E2 & Hc2).
      exists c2. split; [done|]. intros v. by rewrite Hc.
    - intros Hb. by rewrite (H1 Hb) in H2; auto. }
  destruct o1, o2; simpl; try done; destruct o3; simpl; try done.
  - intros (-> & ? & ->) (-> & ? & ->). eauto.
  - by intros -> ->.
  - intros (H1 & ? & ->) (H2 & ? & ->). split; [by rewrite H1 | eauto].
  - intros (-> & -> & ? & ->) (-> & -> & ? & ->). eauto.
Qed.

(** What a run of [t] says about the runs of [t] followed by [k]. *)
Definition bind_outcome {A B} p (k : A -> itree evt B) (o : outcome A)
    (P : outcome B -> Prop) : Prop :=
  match o with
  | ODone a J σ => exists o2, exec p (k a) (bindJ k J) σ o2 /\ P o2
  | OExit σ => P (OExit σ)
  | OSusp t J σ => P (OSusp (ITree.bind t k) (bindJ k J) σ)
  | OJump b v J σ => P (OJump b v (bindJ k J) σ)
  | OFault => P OFault
  end.

Lemma exec_bind {A B} p (t : itree evt A) (k : A -> itree evt B) J σ o P :
  exec p t J σ o -> bind_outcome p k o P ->
  exists o2 o3, P o2 /\ exec p (ITree.bind t k) (bindJ k J) σ o3 /\ osim ∅ o2 o3.
Proof.
  induction 1 as [t J σ o Hs | t J σ t1 J1 σ1 o Hs He IH]; intros HP;
    pose proof (istep_bind p t k J σ) as Hb; rewrite Hs in Hb; cbv zeta in Hb.
  - destruct o; simpl in HP.
    + destruct Hb as (Hobs & -> & ->), HP as (o2 & He2 & HP).
      destruct (exec_sim ∅ p _ _ _ _ He2 (no_jump_empty o2) _ _
        (reflexivity _) (jsub_refl ∅ _)) as (o3 & He3 & Hsim).
      exists o2, o3. split; [done|]. split; [|done].
      eapply exec_eq_step; [by apply istep_bind_ret | done].
    + do 2 eexists. split; [exact HP|]. split; [by apply exec_halt | done].
    + destruct (istep p (ITree.bind t k) _ _) as [|o3] eqn:Hs3; [done|].
      exists (OSusp (ITree.bind t0 k) (bindJ k J0) σ0), o3.
      split; [done | split; [by apply exec_halt | done]].
    + do 2 eexists. split; [exact HP|]. split; [by apply exec_halt|].
      repeat split. apply jsub_refl.
    + do 2 eexists. split; [exact HP|]. split; [by apply exec_halt | done].
  - destruct (istep p (ITree.bind t k) _ _) as [t3 J3 σ3|] eqn:Hs3; [|done].
    destruct Hb as (Ht3 & HJ3 & <-), (IH HP) as (o2 & o3 & HP2 & He3 & Hsim).
    destruct (exec_sim ∅ p _ _ _ _ He3 (no_jump_empty o3) _ _ Ht3 HJ3)
      as (o4 & He4 & Hsim4).
    exists o2, o4. split; [done|].
    split; [by eapply exec_next | by eapply osim_trans].
Qed.

(** ** The judgement of the specifications *)

(** How a program can end when nothing interferes: it returns, its process
    terminates, it accesses memory that is not mapped, or it waits for a
    signal. *)
Inductive result (A : Type) :=
| Done (a : A) (σ : state)
| Exits (σ : state)
| Faults
| Blocks (σ : state).
#[global] Arguments Done {A}.
#[global] Arguments Exits {A}.
#[global] Arguments Faults {A}.
#[global] Arguments Blocks {A}.

Definition sat {A} (r : result A) (o : outcome A) : Prop :=
  match o, r with
  | ODone a _ σ, Done a' σ' => a = a' /\ σ = σ'
  | OExit σ, Exits σ' => σ = σ'
  | OFault, Faults => True
  | OSusp _ _ σ, Blocks σ' => σ = σ'
  | _, _ => False
  end.

Definition evalsJ {A} (p : pid_t) (t : itree evt A) (J : jtab A) (σ : state)
    (r : result A) : Prop :=
  exists o, exec p t J σ o /\ sat r o.

#[local] Abbreviation evals p t σ r := (evalsJ p t ∅ σ r).

(** The program performs a [siglongjmp] to a buffer it did not set. *)
Definition jumps {A} p (t : itree evt A) σ b v σ' : Prop :=
  exists J, exec p t ∅ σ (OJump b v J σ').

Lemma sat_osim {A} D (r : result A) o o' : osim D o o' -> sat r o -> sat r o'.
Proof.
  destruct o, o'; simpl; try done; destruct r; try done; simpl; intuition congruence.
Qed.

Lemma sat_no_jump {A} D (r : result A) o : sat r o -> no_jump D o.
Proof. by destruct o. Qed.

Lemma evalsJ_sim {A} p (t t' : itree evt A) J J' σ r :
  evalsJ p t J σ r -> eq_itree eq t t' -> jsub (dom J') J J' -> evalsJ p t' J' σ r.
Proof.
  intros (o & He & Hs) Ht HJ.
  destruct (exec_sim (dom J') p t J σ o He (sat_no_jump _ _ _ Hs) t' J' Ht HJ)
    as (o' & He' & Ho').
  exists o'. split; [done | by eapply sat_osim].
Qed.

Lemma jsub_from_empty {A} (J : jtab A) : jsub (dom J) ∅ J.
Proof. intros b. rewrite lookup_empty. intros Hb. by apply not_elem_of_dom. Qed.

#[export] Instance evalsJ_proper {A} p :
  Proper (eq_itree eq ==> eq ==> eq ==> eq ==> iff) (@evalsJ A p).
Proof.
  intros t t' Ht J ? <- σ ? <- r ? <-.
  split; intros He; (eapply evalsJ_sim; [exact He | | apply jsub_refl]); [done | by symmetry].
Qed.

Lemma evalsJ_empty {A} p (t : itree evt A) J σ r : evals p t σ r -> evalsJ p t J σ r.
Proof. intros He. eapply evalsJ_sim; [exact He | reflexivity | apply jsub_from_empty]. Qed.

Lemma evalsJ_det {A} p (t : itree evt A) J σ r r' :
  evalsJ p t J σ r -> evalsJ p t J σ r' -> r = r'.
Proof.
  intros (o & He & Hs) (o' & He' & Hs'). rewrite (exec_det _ _ _ _ _ _ He He') in Hs.
  destruct o', r, r'; simpl in *; try done; intuition congruence.
Qed.

Lemma evals_det {A} p (t : itree evt A) σ r r' :
  evals p t σ r -> evals p t σ r' -> r = r'.
Proof. apply evalsJ_det. Qed.

(** [run] decides [evals] on concrete inputs. *)
Definition run_result {A} n p (t : itree evt A) σ : option (result A) :=
  match run n p t ∅ σ with
  | Some (ODone a _ σ') => Some (Done a σ')
  | Some (OExit σ') => Some (Exits σ')
  | Some (OSusp _ _ σ') => Some (Blocks σ')
  | Some OFault => Some Faults
  | _ => None
  end.

Lemma run_evals {A} n p (t : itree evt A) σ r :
  run_result n p t σ = Some r -> evals p t σ r.
Proof.
  unfold run_result. destruct (run n p t ∅ σ) as [o|] eqn:Hr; [|done].
  intros E. exists o. split; [by eapply run_exec|]. by destruct o; simplify_eq.
Qed.

(** *** Rules *)

Lemma evals_ret {A} p (a : A) J σ : evalsJ p (Ret a) J σ (Done a σ).
Proof. exists (ODone a J σ). split; [by apply exec_halt | done]. Qed.

Lemma evals_tau {A} p (t : itree evt A) J σ r : evalsJ p t J σ r -> evalsJ p (Tau t) J σ r.
Proof. intros (o & He & Hs). exists o. split; [by eapply exec_next | done]. Qed.

Lemma evals_exit {A} p code J σ :
  evalsJ (A := A) p (_exit code) J σ (Exits (terminate p (exit_status code) σ)).
Proof. eexists. split; [by apply exec_halt | done]. Qed.

Lemma bindJ_empty {A B} (k : A -> itree evt B) : bindJ k ∅ = ∅.
Proof. unfold bindJ. apply fmap_empty. Qed.

Lemma evals_bind {A B} p (t : itree evt A) (k : A -> itree evt B) a J σ σ1 r :
  evals p t σ (Done a σ1) -> evals p (k a) σ1 r -> evalsJ p (ITree.bind t k) J σ r.
Proof.
  intros (o & He & Hs) Hk. destruct o; try done. destruct Hs as [-> ->].
  destruct (evalsJ_empty _ _ (bindJ k J0) _ _ Hk) as (o2 & He2 & Hs2).
  destruct (exec_bind p t k ∅ σ _ (sat r) He) as (o3 & o4 & Hs3 & He4 & Hsim).
  { simpl. eauto. }
  rewrite bindJ_empty in He4. apply evalsJ_empty.
  exists o4. split; [done | by eapply sat_osim].
Qed.

(** The monad laws, as rules. *)
Lemma evals_assoc {A B C} p (t : itree evt A) (k : A -> itree evt B) (h : B -> itree evt C)
    J σ r :
  evalsJ p (ITree.bind t (fun x => ITree.bind (k x) h)) J σ r ->
  evalsJ p (ITree.bind (ITree.bind t k) h) J σ r.
Proof. by rewrite bind_bind. Qed.

Lemma evals_bind_ret {A B} p (a : A) (k : A -> itree evt B) J σ r :
  evalsJ p (k a) J σ r -> evalsJ p (ITree.bind (Ret a) k) J σ r.
Proof. by rewrite bind_ret_l. Qed.

Lemma evals_unbind {A} p (t : itree evt A) J σ r :
  evalsJ p (ITree.bind t (fun x => Ret x)) J σ r -> evalsJ p t J σ r.
Proof. by rewrite bind_ret_r. Qed.

Lemma evals_bind_exit {A B} p (t : itree evt A) (k : A -> itree evt B) J σ σ1 :
  evals p t σ (Exits σ1) -> evalsJ p (ITree.bind t k) J σ (Exits σ1).
Proof.
  intros (o & He & Hs). destruct o; try done. simpl in Hs. subst.
  destruct (exec_bind p t k ∅ σ _ (sat (Exits σ1)) He) as (o3 & o4 & Hs3 & He4 & Hsim); [done|].
  rewrite bindJ_empty in He4. apply evalsJ_empty. exists o4. split; [done | by eapply sat_osim].
Qed.

Lemma evals_bind_fault {A B} p (t : itree evt A) (k : A -> itree evt B) J σ :
  evals p t σ Faults -> evalsJ p (ITree.bind t k) J σ Faults.
Proof.
  intros (o & He & Hs). destruct o; try done.
  destruct (exec_bind p t k ∅ σ _ (sat Faults) He) as (o3 & o4 & Hs3 & He4 & Hsim); [done|].
  rewrite bindJ_empty in He4. apply evalsJ_empty. exists o4. split; [done | by eapply sat_osim].
Qed.

Lemma evals_bind_block {A B} p (t : itree evt A) (k : A -> itree evt B) J σ σ1 :
  evals p t σ (Blocks σ1) -> evalsJ p (ITree.bind t k) J σ (Blocks σ1).
Proof.
  intros (o & He & Hs). destruct o; try done. simpl in Hs. subst.
  destruct (exec_bind p t k ∅ σ _ (sat (Blocks σ1)) He) as (o3 & o4 & Hs3 & He4 & Hsim); [done|].
  rewrite bindJ_empty in He4. apply evalsJ_empty. exists o4. split; [done | by eapply sat_osim].
Qed.

Lemma evals_act {A X} p f (k : X -> itree evt A) x J σ σ1 r :
  f p σ = Some (x, σ1) -> evalsJ p (k x) J σ1 r ->
  evalsJ p (ITree.bind (act f) k) J σ r.
Proof.
  intros Hf (o & He & Hs).
  assert (He' : evalsJ p (Vis (Act f) k) J σ r).
  { exists o. split; [|done]. eapply exec_next; [|exact He].
    unfold istep. simpl. by rewrite Hf. }
  eapply evalsJ_sim; [exact He' | | apply jsub_refl].
  unfold act. rewrite bind_trigger. reflexivity.
Qed.

Lemma evals_act_fault {A X} p f (k : X -> itree evt A) J σ :
  f p σ = None -> evalsJ p (ITree.bind (act f) k) J σ Faults.
Proof.
  intros Hf.
  assert (He' : evalsJ p (Vis (Act f) k) J σ Faults).
  { exists OFault. split; [|done]. apply exec_halt. unfold istep. simpl. by rewrite Hf. }
  eapply evalsJ_sim; [exact He' | | apply jsub_refl].
  unfold act. rewrite bind_trigger. reflexivity.
Qed.

Lemma evals_act_last {X} p f (x : X) J σ σ1 :
  f p σ = Some (x, σ1) -> evalsJ p (act f) J σ (Done x σ1).
Proof.
  intros Hf. eapply evalsJ_sim; [| apply bind_ret_r | apply jsub_refl].
  eapply evals_act; [exact Hf | apply evals_ret].
Qed.

Lemma evals_setjmp {A} p b (save : bool) (k : Z -> itree evt A) J σ pr r :
  procs (krn σ) !! p = Some pr ->
  evalsJ p (k 0) (<[b := (if save then Some (pr_mask pr) else None, k)]> J) σ r ->
  evalsJ p (ITree.bind (sigsetjmp b save) k) J σ r.
Proof.
  intros Hp (o & He & Hs).
  assert (He' : evalsJ p (Vis (Sigsetjmp b save) k) J σ r).
  { exists o. split; [|done]. eapply exec_next; [|exact He].
    unfold istep. simpl. by rewrite Hp. }
  eapply evalsJ_sim; [exact He' | | apply jsub_refl].
  unfold sigsetjmp. rewrite bind_trigger. reflexivity.
Qed.

(** Waiting for a signal with [m] blocked: no pending signal is admitted. *)
Lemma evals_sigsuspend_block {A} p m (k : unit -> itree evt A) J σ pr :
  procs (krn σ) !! p = Some pr -> pick_signal (pr_pending pr) m = None ->
  evalsJ p (ITree.bind (sigsuspend m) k) J σ (Blocks σ).
Proof.
  intros Hp Hs.
  assert (He' : evalsJ p (Vis (Sigsuspend m) k) J σ (Blocks σ)).
  { eexists. split; [apply exec_halt; unfold istep; simpl; by rewrite Hp, Hs | done]. }
  eapply evalsJ_sim; [exact He' | | apply jsub_refl].
  unfold sigsuspend. rewrite bind_trigger. reflexivity.
Qed.

(** ... or one is, and its handler runs. *)
Lemma evals_sigsuspend {A} p m (k : unit -> itree evt A) J σ pr s h r :
  procs (krn σ) !! p = Some pr -> pick_signal (pr_pending pr) m = Some s ->
  sa_disp (action_of σ s) = sa_handler h ->
  evalsJ p (handler_code h s ;;
            act (fun q σ => Some (tt, set_mask q (pr_mask pr) σ)) ;; k tt) J
    (set_mask p (m ∪ sa_mask (action_of σ s) ∪ {[s]}) (clear_signal p s σ)) r ->
  evalsJ p (ITree.bind (sigsuspend m) k) J σ r.
Proof.
  intros Hp Hs Hh (o & He & Hr).
  assert (He' : evalsJ p (Vis (Sigsuspend m) k) J σ r).
  { exists o. split; [|done]. eapply exec_next; [|exact He].
    unfold istep. simpl. rewrite Hp, Hs. unfold deliver. by rewrite Hh. }
  eapply evalsJ_sim; [exact He' | | apply jsub_refl].
  unfold sigsuspend. rewrite bind_trigger. reflexivity.
Qed.

(** A jump out of [t] to a buffer of the caller. *)
Lemma deliver_union {A} p s m r (t u : itree evt A) J0 J σ t' J' σ' :
  deliver p s m r t u J0 σ = SNext t' J' σ' ->
  deliver p s m r t u (J0 ∪ J) σ = SNext t' (J' ∪ J) σ'.
Proof.
  unfold deliver. destruct (sa_disp _); [destruct (default_ignored s)|..];
    intros E; by simplify_eq.
Qed.

Lemma istep_union {A} p (t : itree evt A) J0 J σ t' J' σ' :
  istep p t J0 σ = SNext t' J' σ' -> istep p t (J0 ∪ J) σ = SNext t' (J' ∪ J) σ'.
Proof.
  unfold istep. destruct (observe t) as [a|t1|X e k]; simpl; [done|by intros; simplify_eq|].
  destruct e as [X f|m|b save|b v|c]; simpl.
  - destruct (f p σ) as [[x σ1]|]; intros; by simplify_eq.
  - destruct (procs (krn σ) !! p); [|done].
    destruct (pick_signal _ _); [apply deliver_union | done].
  - destruct (procs (krn σ) !! p); [|done]. intros; simplify_eq.
    by rewrite insert_union_l.
  - destruct (J0 !! b) as [[m c]|] eqn:Hb; [|done]. intros E.
    rewrite (lookup_union_Some_l J0 J b (m, c) Hb). by simplify_eq.
  - done.
Qed.

Lemma deliver_no_jump {A} p s m r (t u : itree evt A) J0 σ b v J1 σ1 :
  deliver p s m r t u J0 σ <> SHalt (OJump b v J1 σ1).
Proof. unfold deliver. by destruct (sa_disp _); [destruct (default_ignored s)|..]. Qed.

Lemma istep_jump_into {A} p (t : itree evt A) J0 J σ b v J1 σ1 m c :
  istep p t J0 σ = SHalt (OJump b v J1 σ1) -> J !! b = Some (m, c) ->
  J1 = J0 /\ istep p t (J0 ∪ J) σ =
    SNext (c (if v =? 0 then 1 else v)) (J0 ∪ J)
      (match m with Some m => set_mask p m σ1 | None => σ1 end).
Proof.
  unfold istep. destruct (observe t) as [a|t1|X e k]; simpl; [done..|].
  destruct e as [X f|m'|b' save|b' v'|c']; simpl.
  - by destruct (f p σ) as [[x ?]|].
  - destruct (procs (krn σ) !! p); [|done].
    destruct (pick_signal _ _); [|done]. intros E. by apply deliver_no_jump in E.
  - by destruct (procs (krn σ) !! p).
  - destruct (J0 !! b') as [[m1 c1]|] eqn:Hb; [done|]. intros E HJ. simplify_eq.
    split; [done|]. by rewrite lookup_union_r, HJ.
  - done.
Qed.

Lemma exec_jump_into {A} p (t : itree evt A) J0 J σ b v J1 σ1 m c o :
  exec p t J0 σ (OJump b v J1 σ1) -> J !! b = Some (m, c) ->
  exec p (c (if v =? 0 then 1 else v)) (J1 ∪ J)
    (match m with Some m => set_mask p m σ1 | None => σ1 end) o ->
  exec p t (J0 ∪ J) σ o.
Proof.
  intros He HJ Ho. remember (OJump b v J1 σ1) as oj.
  induction He as [t J0 σ oj Hs | t J0 σ t' J' σ' oj Hs _ IH]; subst.
  - destruct (istep_jump_into _ _ _ _ _ _ _ _ _ _ _ Hs HJ) as [-> Hs'].
    by eapply exec_next.
  - eapply exec_next; [by apply istep_union | auto].
Qed.

Lemma evals_bind_jump {A B} p (t : itree evt A) (k : A -> itree evt B) J σ σ1 b v m c r :
  jumps p t σ b v σ1 -> J !! b = Some (m, c) ->
  evals p (c (if v =? 0 then 1 else v))
    (match m with Some m => set_mask p m σ1 | None => σ1 end) r ->
  evalsJ p (ITree.bind t k) J σ r.
Proof.
  intros (J1 & He) Hb Hc.
  destruct (exec_bind p t k ∅ σ _ (eq (OJump b v (bindJ k J1) σ1)) He)
    as (o2 & o3 & <- & He3 & Hsim); [done|].
  destruct o3 as [| | |b3 v3 J3 σ3|]; try done. destruct Hsim as (<- & <- & _ & <-).
  rewrite bindJ_empty in He3.
  destruct (evalsJ_empty _ _ (J3 ∪ J) _ _ Hc) as (o & Ho & Hs).
  exists o. split; [|done].
  rewrite <- (left_id_L ∅ (∪) J). by eapply exec_jump_into.
Qed.

Lemma jumps_act {A X} p f (k : X -> itree evt A) x σ σ1 b v σ2 :
  f p σ = Some (x, σ1) -> jumps p (k x) σ1 b v σ2 ->
  jumps p (ITree.bind (act f) k) σ b v σ2.
Proof.
  intros Hf (J & He).
  assert (He' : exec p (Vis (Act f) k) ∅ σ (OJump b v J σ2)).
  { eapply exec_next; [|exact He]. unfold istep. simpl. by rewrite Hf. }
  destruct (exec_sim ∅ p _ _ _ _ He' (no_jump_empty _) (ITree.bind (act f) k) ∅)
    as (o' & Ho' & Hsim).
  - unfold act. rewrite bind_trigger. reflexivity.
  - apply jsub_refl.
  - destruct o' as [| | |b3 v3 J3 σ3|]; try done. destruct Hsim as (<- & <- & _ & <-).
    by exists J3.
Qed.

Lemma jumps_eq {A} p (t t' : itree evt A) σ b v σ1 :
  eq_itree eq t t' -> jumps p t σ b v σ1 -> jumps p t' σ b v σ1.
Proof.
  intros Ht (J & He).
  destruct (exec_sim ∅ p t ∅ σ _ He (no_jump_empty _) t' ∅ Ht (jsub_refl _ _))
    as (o' & He' & Ho).
  destruct o'; simpl in Ho; try done. destruct Ho as (<- & <- & _ & <-). by exists J0.
Qed.

Lemma jumps_assoc {A B C} p (t : itree evt A) (k : A -> itree evt B) (h : B -> itree evt C)
    σ b v σ1 :
  jumps p (ITree.bind t (fun x => ITree.bind (k x) h)) σ b v σ1 ->
  jumps p (ITree.bind (ITree.bind t k) h) σ b v σ1.
Proof. apply jumps_eq. symmetry. apply bind_bind. Qed.

Lemma jumps_bind_ret {A B} p (a : A) (k : A -> itree evt B) σ b v σ1 :
  jumps p (k a) σ b v σ1 -> jumps p (ITree.bind (Ret a) k) σ b v σ1.
Proof. apply jumps_eq. symmetry. apply bind_ret_l. Qed.

Lemma jumps_siglongjmp {A} p b v σ : jumps (A := A) p (siglongjmp b v) σ b v σ.
Proof. exists ∅. apply exec_halt. unfold istep. simpl. by rewrite lookup_empty. Qed.

(** *** Programs that never return *)

(** [t] neither returns nor blocks nor fails, whatever buffers are set. *)
Definition hangs {A} p (t : itree evt A) σ : Prop := forall J o, ~ exec p t J σ o.

Lemma istep_bind_next {A B} p (t t' : itree evt A) (k : A -> itree evt B) u J J' Ju σ σ' :
  eq_itree eq (ITree.bind t k) u -> jsub (dom Ju) (bindJ k J) Ju ->
  istep p t J σ = SNext t' J' σ' ->
  exists u' Ju', istep p u Ju σ = SNext u' Ju' σ' /\
    eq_itree eq (ITree.bind t' k) u' /\ jsub (dom Ju') (bindJ k J') Ju'.
Proof.
  intros Hu HJ Hs. pose proof (istep_bind p t k J σ) as Hb. rewrite Hs in Hb. cbv zeta in Hb.
  destruct (istep p (ITree.bind t k) (bindJ k J) σ) as [t1 J1 σ1|] eqn:Hs1; [|done].
  destruct Hb as (Ht1 & HJ1 & <-).
  pose proof (istep_sim (dom Ju) p _ u _ Ju σ Hu HJ) as Hsim. rewrite Hs1 in Hsim.
  specialize (Hsim I). destruct (istep p u Ju σ) as [u' Ju' σ2|]; [|done].
  destruct Hsim as (Hu' & HJ' & <-). exists u', Ju'. split; [done|]. split; [by rewrite Ht1|].
  intros b. specialize (HJ1 b). specialize (HJ' b).
  destruct (bindJ k J' !! b) as [[m c]|].
  - destruct HJ1 as (c1 & E1 & Hc1). rewrite E1 in HJ'.
    destruct HJ' as (c2 & E2 & Hc2). exists c2. split; [done|]. intros v. by rewrite Hc1.
  - intros HD. by apply not_elem_of_dom in HD.
Qed.

Lemma run_sim {A} n p (t t' : itree evt A) J J' σ o :
  run n p t J σ = Some o -> eq_itree eq t t' -> jsub ∅ J J' ->
  exists o', run n p t' J' σ = Some o'.
Proof.
  revert t t' J J' σ. induction n as [|n IH]; simpl; intros t t' J J' σ Hr Ht HJ; [done|].
  pose proof (istep_sim ∅ p t t' J J' σ Ht HJ) as Hsim.
  destruct (istep p t J σ) as [t1 J1 σ1|o1].
  - specialize (Hsim I). destruct (istep p t' J' σ); [|done].
    destruct Hsim as (? & ? & <-). eauto.
  - specialize (Hsim (no_jump_empty o1)). destruct (istep p t' J' σ); [done|]. eauto.
Qed.

(** A bounded run of [t] followed by [k] goes through the end of [t]. *)
Lemma run_bind_inv {A B} p (t : itree evt A) (k : A -> itree evt B) J σ a J1 σ1 :
  exec p t J σ (ODone a J1 σ1) -> forall n u Ju o,
  eq_itree eq (ITree.bind t k) u -> jsub (dom Ju) (bindJ k J) Ju ->
  run n p u Ju σ = Some o ->
  exists m Ju' o', (m <= n)%nat /\ run m p (k a) Ju' σ1 = Some o'.
Proof.
  intros He. remember (ODone a J1 σ1) as od.
  induction He as [t J σ od Hs | t J σ t' J' σ' od Hs _ IH]; intros n u Ju o Hu HJ Ho; subst.
  - pose proof (istep_bind p t k J σ) as Hb. rewrite Hs in Hb. destruct Hb as (Hobs & -> & ->).
    destruct (run_sim n p u (k a) Ju Ju σ o Ho) as (o' & Ho').
    + rewrite <- Hu, (itree_eta t), Hobs, bind_ret_l. reflexivity.
    + apply jsub_refl.
    + eauto.
  - destruct (istep_bind_next p t t' k u J J' Ju σ σ' Hu HJ Hs) as (u' & Ju' & Hs' & Hu' & HJ').
    destruct n as [|n]; [done|]. simpl in Ho. rewrite Hs' in Ho.
    destruct (IH eq_refl n u' Ju' o Hu' HJ' Ho) as (m & Ju2 & o' & Hm & Ho').
    exists m, Ju2, o'. split; [lia | done].
Qed.

Lemma run_evals_bind_inv {A B} p (t : itree evt A) (k : A -> itree evt B) a σ σ1 n u J o :
  evals p t σ (Done a σ1) -> eq_itree eq (ITree.bind t k) u -> run n p u J σ = Some o ->
  exists m J' o', (m <= n)%nat /\ run m p (k a) J' σ1 = Some o'.
Proof.
  intros (od & He & Hs) Hu Hr. destruct od; try done. destruct Hs as [-> ->].
  eapply run_bind_inv; [exact He | exact Hu | | exact Hr].
  rewrite bindJ_empty. apply jsub_from_empty.
Qed.

Lemma hangs_bind_r {A B} p (t : itree evt A) (k : A -> itree evt B) σ a σ1 :
  evals p t σ (Done a σ1) -> hangs p (k a) σ1 -> hangs p (ITree.bind t k) σ.
Proof.
  intros Ht Hk J o Ho. apply exec_run in Ho as [n Hn].
  destruct (run_evals_bind_inv p t k a σ σ1 n _ J o Ht (reflexivity _) Hn)
    as (m & J' & o' & _ & Hr).
  eapply Hk, run_exec, Hr.
Qed.

Lemma hangs_bind_l {A B} p (t : itree evt A) (k : A -> itree evt B) σ :
  hangs p t σ -> hangs p (ITree.bind t k) σ.
Proof.
  intros Ht J o Ho.
  assert (Hgen : forall u Ju σ o, exec p u Ju σ o ->
    forall t J, (forall o', ~ exec p t J σ o') ->
    eq_itree eq (ITree.bind t k) u -> jsub (dom Ju) (bindJ k J) Ju -> False).
  { clear. induction 1 as [u Ju σ o Hs | u Ju σ u1 Ju1 σ1 o Hs _ IH]; intros t J Ht Hu HJ;
      (destruct (istep p t J σ) as [t' J' σ'|o'] eqn:Ht'; [|by eapply Ht, exec_halt]);
      destruct (istep_bind_next p t t' k u J J' Ju σ σ' Hu HJ Ht') as (u' & Ju' & E & Hu' & HJ');
      rewrite Hs in E; simplify_eq.
    eapply IH; [|exact Hu'|exact HJ']. intros o' Ho'. by eapply Ht, exec_next. }
  eapply (Hgen _ _ _ _ Ho t ∅ (Ht ∅)); [reflexivity|].
  rewrite bindJ_empty. apply jsub_from_empty.
Qed.

(** *** Loops *)

Lemma evals_loop_next {A B} p (body : A -> itree evt (A + B)) a a' J σ σ1 r :
  evals p (body a) σ (Done (inl a') σ1) -> evals p (c_loop body a') σ1 r ->
  evalsJ p (c_loop body a) J σ r.
Proof.
  intros Hb Hl. unfold c_loop.
  eapply evalsJ_sim; [| symmetry; apply unfold_iter | apply jsub_refl].
  eapply evals_bind; [exact Hb|]. simpl. by apply evals_tau.
Qed.

Lemma evals_loop_stop {A B} p (body : A -> itree evt (A + B)) a b J σ σ1 :
  evals p (body a) σ (Done (inr b) σ1) -> evalsJ p (c_loop body a) J σ (Done b σ1).
Proof.
  intros Hb. unfold c_loop.
  eapply evalsJ_sim; [| symmetry; apply unfold_iter | apply jsub_refl].
  eapply evals_bind; [exact Hb|]. simpl. apply evals_ret.
Qed.

Lemma evals_loop_exit {A B} p (body : A -> itree evt (A + B)) a J σ σ1 :
  evals p (body a) σ (Exits σ1) -> evalsJ p (c_loop body a) J σ (Exits σ1).
Proof.
  intros Hb. unfold c_loop.
  eapply evalsJ_sim; [| symmetry; apply unfold_iter | apply jsub_refl].
  by apply evals_bind_exit.
Qed.

Lemma evals_loop_block {A B} p (body : A -> itree evt (A + B)) a J σ σ1 :
  evals p (body a) σ (Blocks σ1) -> evalsJ p (c_loop body a) J σ (Blocks σ1).
Proof.
  intros Hb. unfold c_loop.
  eapply evalsJ_sim; [| symmetry; apply unfold_iter | apply jsub_refl].
  by apply evals_bind_block.
Qed.

(** A round that changes nothing is repeated forever. *)
Lemma hangs_loop {A B} p (body : A -> itree evt (A + B)) a σ :
  evals p (body a) σ (Done (inl a) σ) -> hangs p (c_loop body a) σ.
Proof.
  intros Hb J o Ho. apply exec_run in Ho as [n Hn]. revert J o Hn.
  induction n as [n IH] using lt_wf_ind. intros J o Hn.
  destruct (run_evals_bind_inv p (body a)
    (fun lr => ITree.on_left lr l (Tau (ITree.iter body l))) (inl a) σ σ n
    (c_loop body a) J o Hb) as (m & J' & o' & Hm & Hr); [|done|].
  - symmetry. apply unfold_iter.
  - destruct m as [|m]; [done|]. simpl in Hr. apply (IH m) in Hr; [done | lia].
Qed.

Lemma hangs_eq {A} p (t t' : itree evt A) σ : eq_itree eq t t' -> hangs p t σ -> hangs p t' σ.
Proof.
  intros Ht Hh J o Ho. symmetry in Ht.
  destruct (exec_sim ∅ p t' J σ o Ho (no_jump_empty o) t J Ht (jsub_refl _ _)) as (o' & Ho' & _).
  by eapply Hh.
Qed.

(** The first turn of a loop. *)
Lemma evals_loop_unfold {A B C} p (body : A -> itree evt (A + B)) a (k : B -> itree evt C) J σ r :
  evalsJ p (ab <- body a ;;
            match ab with
            | inl a' => Tau (ITree.bind (c_loop body a') k)
            | inr b => k b
            end) J σ r ->
  evalsJ p (ITree.bind (c_loop body a) k) J σ r.
Proof.
  intros He. eapply evalsJ_sim; [exact He | | apply jsub_refl]. symmetry.
  unfold c_loop. rewrite unfold_iter, bind_bind. apply eqit_bind; [reflexivity|].
  intros [a'|b]; [rewrite bind_tau; reflexivity | apply bind_ret_l].
Qed.

(** A loop whose body never returns. *)
Lemma hangs_loop_l {A B} p (body : A -> itree evt (A + B)) a σ :
  hangs p (body a) σ -> hangs p (c_loop body a) σ.
Proof.
  intros Hb. eapply hangs_eq; [symmetry; apply unfold_iter|]. by apply hangs_bind_l.
Qed.
End facts.

(** Runs that start with no jump buffer set. *)
Abbreviation evals p t σ r := (evalsJ p t ∅ σ r).

