(* ===== verification/Platform.v ===== *)
(** * The machine-dependent layer

    What pt-machine.h and semaphorebits.h give to the rest of the library is
    the class [Platform]: the atomic operations, the width of [long], the
    sizes of the stack segments and the addresses the linker gives to the
    static objects.  [PlatformOk] states what the machine-independent files
    rely on; the instances of sysdeps/ are checked against it.  The file also
    holds the address arithmetic of internals.h and manager.c: [thread_self]
    and the mapping between descriptors and stack segments. *)

From S2P Require Import Prelude Types.

(** [tas_op v]: the value [testandset] returns on a lock that holds [v], and
    the value it leaves there; [release_op v]: what [release] leaves there;
    [cas_op v old new]: the same for [__compare_and_swap], where the machine
    has it. *)
Class Platform := {
  tas_op : Z -> Z * Z;
  release_op : Z -> Z;
  cas_op : option (Z -> Z -> Z -> Z * Z);
  long_bits : Z;
  PAGE_SIZE : Z;
  STACK_SIZE : Z;
  stack_start : option addr;
  sizeof_pthread : Z;
  addr_initial_thread : addr;
  addr_manager_thread : addr;
  addr_keys_mutex : addr;
  addr_atfork_lock : addr
}.

(** The interface the machine-independent code relies on: a free lock is 0
    and [testandset] returns 0 exactly when it took it; a taken lock holds
    [locked] and stays so; [release] frees it; compare-and-swap, where there
    is one, replaces the old value and reports exactly that. *)
Class PlatformOk (P : Platform) := {
  locked : Z;
  locked_nonzero : locked <> 0;
  tas_free : tas_op 0 = (0, locked);
  tas_taken : (tas_op locked).1 <> 0 /\ (tas_op locked).2 = locked;
  release_taken : release_op locked = 0;
  cas_spec f v old new : cas_op = Some f ->
    istrue (f v old new).1 = (v =? old) /\
    (f v old new).2 = (if v =? old then new else v);
  long_bits_wide : 32 <= long_bits;
  stack_size_pow2 : exists n, 12 <= n < long_bits /\ STACK_SIZE = 2 ^ n;
  sizeof_small : 0 < sizeof_pthread < STACK_SIZE;
  static_descriptors : addr_initial_thread <> NULL /\ addr_manager_thread <> NULL /\
    addr_initial_thread <> addr_manager_thread;
  static_mutexes : addr_keys_mutex <> addr_atfork_lock
}.

(** ** sysdeps: the atomic operations *)

(** i386, [xchgl]: the lock is exchanged with 1. *)
Definition i386_testandset (v : Z) : Z * Z := (v, 1).

(** i486, [lock; cmpxchg; sete] *)
Definition i486_compare_and_swap (v oldval newval : Z) : Z * Z :=
  if v =? oldval then (1, newval) else (0, v).

(** Alpha and MIPS: load-linked; leave if the lock is taken; else store 1
    conditionally, and again if the reservation was lost. *)
Definition llsc_testandset (v : Z) : Z * Z :=
  if v =? 0 then (0, 1) else (v, v).

(** Alpha: [ldq_l; cmpeq; beq out; mov; stq_c; beq again; out:] *)
Definition alpha_compare_and_swap (v oldval newval : Z) : Z * Z :=
  let ret := c_bool (v =? oldval) in
  if ret =? 0 then (ret, v) else (1, newval).

(** MIPS: [ll ret; bne ret,old,out; move ret,new (branch delay slot);
    sc ret; beqz again; out:]. The move in the delay slot is executed whether
    or not the branch is taken. *)
Definition mips_compare_and_swap (v oldval newval : Z) : Z * Z :=
  let ret := newval in
  if v =? oldval then (1, newval) else (ret, v).

(** Sparc, [ldstub]: the first (most significant) byte of the lock is read
    and set to all ones; RELEASE clears that byte. *)
Definition sparc_testandset (v : Z) : Z * Z :=
  (Z.land (Z.shiftr v 24) 255, int_of (Z.lor v (Z.shiftl 255 24))).
Definition sparc_release (v : Z) : Z := Z.land v (2 ^ 24 - 1).

(** m68k, [tas; sne]: the first byte is compared with 0 and its high bit
    set; the result is a [char] of all ones if the byte was not 0. *)
Definition m68k_testandset (v : Z) : Z * Z :=
  (if Z.land (Z.shiftr v 24) 255 =? 0 then 0 else -1,
   int_of (Z.lor v (2 ^ 31))).

(** m68k, [casl; seq] *)
Definition m68k_compare_and_swap (v oldval newval : Z) : Z * Z :=
  if v =? oldval then (-1, newval) else (0, v).

(** spinlock.h: the default [release]. *)
Definition default_release (v : Z) : Z := 0.

(** Stack constants of internals.h, and static addresses; the descriptor is
    712 bytes with 4-byte pointers and 128-byte signal sets. *)
Definition DEFAULT_STACK_SIZE : Z := 2 * 1024 * 1024.

Definition mk32 tas rel cas : Platform := {|
  tas_op := tas; release_op := rel; cas_op := cas; long_bits := 32;
  PAGE_SIZE := 4096; STACK_SIZE := DEFAULT_STACK_SIZE; stack_start := None;
  sizeof_pthread := 712;
  addr_initial_thread := 134520832; addr_manager_thread := 134521600;
  addr_keys_mutex := 134523904; addr_atfork_lock := 134523936 |}.

Definition i386 : Platform := mk32 i386_testandset default_release None.
Definition i486 : Platform :=
  mk32 i386_testandset default_release (Some i486_compare_and_swap).
Definition sparc : Platform := mk32 sparc_testandset sparc_release None.
Definition m68k : Platform :=
  mk32 m68k_testandset default_release (Some m68k_compare_and_swap).
Definition mips : Platform :=
  mk32 llsc_testandset default_release (Some mips_compare_and_swap).
(** Alpha: 64-bit longs, 8 Kb pages, thread stacks at a fixed address. *)
Definition alpha : Platform := {|
  tas_op := llsc_testandset; release_op := default_release;
  cas_op := Some alpha_compare_and_swap; long_bits := 64;
  PAGE_SIZE := 8192; STACK_SIZE := DEFAULT_STACK_SIZE;
  stack_start := Some 4398046511104; sizeof_pthread := 1304;
  addr_initial_thread := 5368709120; addr_manager_thread := 5368710424;
  addr_keys_mutex := 5368713216; addr_atfork_lock := 5368713280 |}.

Ltac platform_ok l :=
  refine {| locked := l |}; cbn; unfold DEFAULT_STACK_SIZE, NULL;
  [ by vm_compute | reflexivity | split; [by vm_compute | reflexivity] | reflexivity
  | intros f v old new [= <-]
  | lia | exists 21; split; [lia | reflexivity] | lia | lia | lia ].

#[export] Instance i386_ok : PlatformOk i386.
Proof. platform_ok 1. Defined.

#[export] Instance i486_ok : PlatformOk i486.
Proof. platform_ok 1. unfold i486_compare_and_swap. by destruct (v =? old). Defined.

#[export] Instance sparc_ok : PlatformOk sparc.
Proof. platform_ok (- 2 ^ 24). Defined.

#[export] Instance m68k_ok : PlatformOk m68k.
Proof. platform_ok (- 2 ^ 31). unfold m68k_compare_and_swap. by destruct (v =? old). Defined.

#[export] Instance alpha_ok : PlatformOk alpha.
Proof. platform_ok 1. unfold alpha_compare_and_swap. by destruct (v =? old). Defined.

(** ** Descriptors and stacks *)

Section layout.
Context {P : Platform}.

(** THREAD_STACK_START_ADDRESS *)
Definition THREAD_STACK_START_ADDRESS (g : globals) : addr :=
  default (__pthread_initial_thread_bos g) stack_start.

Definition INITIAL_STACK_SIZE : Z := 4 * PAGE_SIZE.
Definition THREAD_MANAGER_STACK_SIZE : Z := 2 * PAGE_SIZE - 32.

(** internals.h: [thread_self], from the stack pointer. *)
Definition thread_self_at (g : globals) (sp : addr) : addr :=
  if sp >=? __pthread_initial_thread_bos g then addr_initial_thread
  else if (sp >=? __pthread_manager_thread_bos g)
          && (sp <? __pthread_manager_thread_tos g) then addr_manager_thread
  else wrapU long_bits (wrapU long_bits (Z.lor sp (STACK_SIZE - 1) + 1) - sizeof_pthread).

(** manager.c: THREAD_SEG and SEG_THREAD *)
Definition THREAD_SEG (g : globals) (seg : Z) : addr :=
  wrapU long_bits (THREAD_STACK_START_ADDRESS g - seg * STACK_SIZE - sizeof_pthread).
Definition SEG_THREAD (g : globals) (thr : addr) : Z :=
  wrapU long_bits (THREAD_STACK_START_ADDRESS g - wrapU long_bits (thr + sizeof_pthread))
    / STACK_SIZE.

(** The addresses of segment [seg] below its descriptor: the thread's stack. *)
Definition in_stack (g : globals) (seg : Z) (sp : addr) : Prop :=
  THREAD_STACK_START_ADDRESS g - (seg + 1) * STACK_SIZE <= sp
    < THREAD_STACK_START_ADDRESS g - seg * STACK_SIZE - sizeof_pthread.

(** Layout of a process: the segments lie below the initial thread's stack,
    aligned, inside the address space, clear of the manager's stack. *)
Record layout_ok (g : globals) (nseg : Z) : Prop := {
  lo_start : THREAD_STACK_START_ADDRESS g <= __pthread_initial_thread_bos g;
  lo_aligned : (STACK_SIZE | THREAD_STACK_START_ADDRESS g);
  lo_room : nseg * STACK_SIZE <= THREAD_STACK_START_ADDRESS g;
  lo_top : THREAD_STACK_START_ADDRESS g < 2 ^ long_bits;
  lo_manager : forall seg sp, 0 <= seg < nseg -> in_stack g seg sp ->
    sp < __pthread_manager_thread_bos g \/ __pthread_manager_thread_tos g <= sp
}.
End layout.
