(* ===== verification/Layout.v ===== *)
(** * Layout of stacks and descriptors

    The address arithmetic of thread_self (internals.h) and of THREAD_SEG and
    SEG_THREAD (manager.c): a thread finds its own descriptor from any address
    of its stack, and descriptors and segments correspond one to one. *)

From S2P Require Import Prelude Types Platform.

Lemma lor_pow2_pred n a : 0 <= n -> Z.lor a (2 ^ n - 1) = a - a mod 2 ^ n + 2 ^ n - 1.
Proof.
  intros Hn. pose proof (Z.add_lor_land a (2 ^ n - 1)) as Hs.
  replace (2 ^ n - 1) with (Z.ones n) in * by (rewrite Z.ones_equiv; lia).
  rewrite (Z.land_ones a n Hn) in Hs. rewrite Z.ones_equiv in *. lia.
Qed.

Lemma land_lnot_pow2 n a : 0 <= n -> Z.land a (Z.lnot (2 ^ n - 1)) = a - a mod 2 ^ n.
Proof.
  intros Hn. replace (2 ^ n - 1) with (Z.ones n) by (rewrite Z.ones_equiv; lia).
  rewrite <- Z.ldiff_land, Z.ldiff_ones_r, Z.shiftr_div_pow2, Z.shiftl_mul_pow2 by lia.
  pose proof (Z.div_mod a (2 ^ n)). lia.
Qed.

Section layout.
Context {P : Platform} {Pok : PlatformOk P}.

Lemma stack_size_pos : 0 < STACK_SIZE.
Proof. pose proof sizeof_small. lia. Qed.

(** Rounding up an address of segment [seg] gives the end of the segment. *)
Lemma segment_end g nseg seg sp :
  layout_ok g nseg -> 0 <= seg < nseg -> in_stack g seg sp ->
  Z.lor sp (STACK_SIZE - 1) + 1 = THREAD_STACK_START_ADDRESS g - seg * STACK_SIZE.
Proof.
  intros [_ [q Hq] _ _ _] Hseg [Hlo Hhi]. destruct stack_size_pow2 as (n & Hn & HS).
  pose proof sizeof_small. rewrite HS in *. rewrite lor_pow2_pred by lia.
  assert (Hm : sp mod 2 ^ n = sp - (q - seg - 1) * 2 ^ n); [|lia].
  symmetry. apply (Z.mod_unique_pos _ _ (q - seg - 1)); lia.
Qed.

Lemma segment_bounds g nseg seg :
  layout_ok g nseg -> 0 <= seg < nseg ->
  STACK_SIZE <= THREAD_STACK_START_ADDRESS g - seg * STACK_SIZE < 2 ^ long_bits.
Proof. intros [_ _ Hr Ht _] Hs. pose proof stack_size_pos. nia. Qed.

Lemma THREAD_SEG_eq g nseg seg :
  layout_ok g nseg -> 0 <= seg < nseg ->
  THREAD_SEG g seg = THREAD_STACK_START_ADDRESS g - seg * STACK_SIZE - sizeof_pthread.
Proof.
  intros Hl Hs. pose proof (segment_bounds g nseg seg Hl Hs). pose proof sizeof_small.
  unfold THREAD_SEG. apply wrapU_small. lia.
Qed.

Lemma thread_self_of_stack g nseg seg sp :
  layout_ok g nseg -> 0 <= seg < nseg -> in_stack g seg sp ->
  thread_self_at g sp = THREAD_SEG g seg.
Proof.
  intros Hl Hs Hsp. pose proof (segment_end g nseg seg sp Hl Hs Hsp) as He.
  pose proof (segment_bounds g nseg seg Hl Hs). pose proof sizeof_small.
  rewrite (THREAD_SEG_eq g nseg seg Hl Hs). unfold thread_self_at.
  pose proof (lo_start _ _ Hl). pose proof (lo_manager _ _ Hl seg sp Hs Hsp).
  destruct Hsp as [Hlo Hhi].
  replace (sp >=? __pthread_initial_thread_bos g) with false by nia.
  replace ((sp >=? __pthread_manager_thread_bos g) &&
           (sp <? __pthread_manager_thread_tos g)) with false by lia.
  rewrite He, (wrapU_small _ (_ - seg * STACK_SIZE)), wrapU_small; lia.
Qed.

Lemma seg_thread_seg g nseg seg :
  layout_ok g nseg -> 0 <= seg < nseg -> SEG_THREAD g (THREAD_SEG g seg) = seg.
Proof.
  intros Hl Hs. pose proof (segment_bounds g nseg seg Hl Hs). pose proof sizeof_small.
  pose proof stack_size_pos. pose proof (lo_top _ _ Hl). pose proof (lo_room _ _ Hl).
  unfold SEG_THREAD. rewrite (THREAD_SEG_eq g nseg seg Hl Hs).
  rewrite Z.sub_add, (wrapU_small _ (_ - seg * STACK_SIZE)) by lia.
  replace (_ - (_ - _)) with (seg * STACK_SIZE) by lia.
  rewrite wrapU_small by nia. apply Z.div_mul. lia.
Qed.

Lemma thread_seg_inj g nseg s1 s2 :
  layout_ok g nseg -> 0 <= s1 < nseg -> 0 <= s2 < nseg ->
  THREAD_SEG g s1 = THREAD_SEG g s2 -> s1 = s2.
Proof.
  intros Hl H1 H2 He. rewrite <- (seg_thread_seg g nseg s1), He by done.
  by apply (seg_thread_seg g nseg).
Qed.

(** The initial thread is the one above its limit. *)
Lemma thread_self_initial g sp :
  __pthread_initial_thread_bos g <= sp -> thread_self_at g sp = addr_initial_thread.
Proof.
  intros Hs. unfold thread_self_at.
  by replace (sp >=? __pthread_initial_thread_bos g) with true by lia.
Qed.

(** C22: from any address of its stack a thread finds its own descriptor, the
    one that manager.c gives to its segment, and from the descriptor the
    manager finds the segment again; threads of different segments have
    different descriptors. *)
Theorem thread_self_correct g nseg seg sp :
  layout_ok g nseg -> 0 <= seg < nseg -> in_stack g seg sp ->
  thread_self_at g sp = THREAD_SEG g seg /\
  SEG_THREAD g (thread_self_at g sp) = seg /\
  forall seg' sp', 0 <= seg' < nseg -> in_stack g seg' sp' ->
    thread_self_at g sp' = thread_self_at g sp -> seg' = seg.
Proof.
  intros Hl Hs Hsp. pose proof (thread_self_of_stack g nseg seg sp Hl Hs Hsp) as E.
  split; [done|]. rewrite E. split; [by eapply seg_thread_seg|].
  intros seg' sp' Hs' Hsp'. rewrite (thread_self_of_stack g nseg seg' sp' Hl Hs' Hsp').
  by apply (thread_seg_inj g nseg).
Qed.
End layout.
