(* ===== verification/Memory.v ===== *)
(** * Memory accesses and system calls

    The statements of the C code, one [act] each: reads and writes of a
    field of an object, of an [int] through a pointer, of a waiting queue
    through a pointer, of a global variable; and the system calls the library
    makes, as far as it uses them. *)

From S2P Require Import Prelude Types Machine MachineFacts Platform.

(** ** Fields of objects and global variables *)

(** [a->fld], for an object of the memory [M] *)
Definition load {O X} (M : state -> gmap Z O) (a : addr) (fld : O -> X) : itree evt X :=
  act (fun _ σ => match M σ !! a with
                  | Some o => Some (fld o, σ)
                  | None => None
                  end).

(** [a->fld = v] *)
Definition store {O X} (M : state -> gmap Z O) `{!Setter M} (a : addr)
    (fld : O -> X) `{!Setter fld} (v : X) : itree evt unit :=
  act (fun _ σ => match M σ !! a with
                  | Some o => Some (tt, setf M (<[a := setf fld v o]> (M σ)) σ)
                  | None => None
                  end).

(** The object at [a] as a whole: structure assignment. *)
Definition load_obj {O} (M : state -> gmap Z O) (a : addr) : itree evt O :=
  load M a id.
Definition store_obj {O} (M : state -> gmap Z O) `{!Setter M} (a : addr) (o : O)
    : itree evt unit :=
  act (fun _ σ => match M σ !! a with
                  | Some _ => Some (tt, setf M (<[a := o]> (M σ)) σ)
                  | None => None
                  end).

Definition get_glb {X} (fld : globals -> X) : itree evt X :=
  act (fun _ σ => Some (fld (glb σ), σ)).
Definition set_glb {X} (fld : globals -> X) `{!Setter fld} (v : X) : itree evt unit :=
  act (fun _ σ => Some (tt, setf glb (setf fld v (glb σ)) σ)).

(** [if (p != NULL) *p = v] *)
Definition store_opt (p : addr) (v : Z) : itree evt unit :=
  if p =? NULL then Ret tt else
  act (fun _ σ => match words σ !! p with
                  | Some _ => Some (tt, setf words (<[p := v]> (words σ)) σ)
                  | None => None
                  end).

(** [*p = v] *)
Definition store_word (p : addr) (v : Z) : itree evt unit :=
  act (fun _ σ => match words σ !! p with
                  | Some _ => Some (tt, setf words (<[p := v]> (words σ)) σ)
                  | None => None
                  end).

(** ** Pointers to [int]: the spinlocks *)

Inductive intptr :=
| m_spinlock_at (mutex : addr)
| c_spinlock_at (cond : addr)
| p_spinlock_at (th : addr)
| sem_spinlock_at (sem : addr)
| int_at (a : addr).

Definition get_int (r : intptr) (σ : state) : option Z :=
  match r with
  | m_spinlock_at a => m_spinlock <$> mtx σ !! a
  | c_spinlock_at a => c_spinlock <$> cnd σ !! a
  | p_spinlock_at a => p_spinlock <$> thr σ !! a
  | sem_spinlock_at a => sem_spinlock <$> sms σ !! a
  | int_at a => words σ !! a
  end.

Definition put_int (r : intptr) (v : Z) (σ : state) : state :=
  match r with
  | m_spinlock_at a => setf mtx (alter (setf m_spinlock v) a (mtx σ)) σ
  | c_spinlock_at a => setf cnd (alter (setf c_spinlock v) a (cnd σ)) σ
  | p_spinlock_at a => setf thr (alter (setf p_spinlock v) a (thr σ)) σ
  | sem_spinlock_at a => setf sms (alter (setf sem_spinlock v) a (sms σ)) σ
  | int_at a => setf words (<[a := v]> (words σ)) σ
  end.

(** ** Pointers to [pthread_queue] *)

Inductive queueptr :=
| m_waiting_at (mutex : addr)
| c_waiting_at (cond : addr)
| auto_queue (p : pid_t).

Definition get_queue (q : queueptr) (σ : state) : option _pthread_queue :=
  match q with
  | m_waiting_at a => m_waiting <$> mtx σ !! a
  | c_waiting_at a => c_waiting <$> cnd σ !! a
  | auto_queue p => locq σ !! p
  end.

Definition put_queue (q : queueptr) (v : _pthread_queue) (σ : state) : state :=
  match q with
  | m_waiting_at a => setf mtx (alter (setf m_waiting v) a (mtx σ)) σ
  | c_waiting_at a => setf cnd (alter (setf c_waiting v) a (cnd σ)) σ
  | auto_queue p => setf locq (<[p := v]> (locq σ)) σ
  end.

Definition load_queue {X} (q : queueptr) (fld : _pthread_queue -> X) : itree evt X :=
  act (fun _ σ => match get_queue q σ with
                  | Some v => Some (fld v, σ)
                  | None => None
                  end).

Definition store_queue {X} (q : queueptr) (fld : _pthread_queue -> X) `{!Setter fld} (x : X)
    : itree evt unit :=
  act (fun _ σ => match get_queue q σ with
                  | Some v => Some (tt, put_queue q (setf fld x v) σ)
                  | None => None
                  end).

Section calls.
Context {P : Platform}.

(** internals.h *)
Definition thread_self : itree evt addr :=
  act (fun p σ => match procs (krn σ) !! p with
                  | Some pr => Some (thread_self_at (glb σ) (pr_sp pr), σ)
                  | None => None
                  end).

(** [errno = e]: errno is [*__errno_location()]. *)
Definition set_errno (e : Z) : itree evt unit :=
  self <- thread_self ;;
  store thr self p_errno e.

Definition get_errno : itree evt Z :=
  self <- thread_self ;;
  load thr self p_errno.

(** A system call that failed: -1, with the reason in errno. *)
Definition fail_with (e : Z) : itree evt Z :=
  set_errno e ;; Ret (-1).

(** *** Processes and signals *)

Definition getpid : itree evt pid_t := act (fun p σ => Some (p, σ)).

Definition getppid : itree evt pid_t :=
  act (fun p σ => match procs (krn σ) !! p with
                  | Some pr => Some (pr_ppid pr, σ)
                  | None => None
                  end).

(** kill(2): ESRCH if there is no such process, EINVAL if there is no such
    signal; signal 0 only checks. *)
Definition kill (pid : pid_t) (sig : Z) : itree evt Z :=
  r <- act (fun _ σ =>
    if (sig <? 0) || (sig >=? NSIG) then Some (EINVAL, σ)
    else match procs (krn σ) !! pid with
         | None => Some (ESRCH, σ)
         | Some _ => Some (0, if sig =? 0 then σ else post_signal pid sig σ)
         end) ;;
  if r =? 0 then Ret 0 else fail_with r.

(** sigprocmask(2): the result and the old mask. *)
Definition new_mask (how : Z) (set old : sigset) : option sigset :=
  if how =? SIG_BLOCK then Some (old ∪ set)
  else if how =? SIG_UNBLOCK then Some (old ∖ set)
  else if how =? SIG_SETMASK then Some set
  else None.

Definition sigprocmask (how : Z) (set : option sigset) : itree evt (Z * gset Z) :=
  r <- act (fun p σ =>
    match procs (krn σ) !! p with
    | None => None
    | Some pr =>
        match set with
        | None => Some ((true, pr_mask pr), σ)
        | Some s => match new_mask how s (pr_mask pr) with
                    | Some m => Some ((true, pr_mask pr), set_mask p m σ)
                    | None => Some ((false, pr_mask pr), σ)
                    end
        end
    end) ;;
  if (r : bool * gset Z).1 then Ret (0, r.2)
  else e <- fail_with EINVAL ;; Ret (e, r.2).

(** The signal sets of <signal.h>. *)
Definition sigemptyset : sigset := ∅.
Definition sigfillset : sigset := list_to_set (seqZ 1 (NSIG - 1)).
Definition sigaddset (s : sigset) (sig : Z) : sigset := {[sig]} ∪ s.
Definition sigdelset (s : sigset) (sig : Z) : sigset := s ∖ {[sig]}.
Definition sigismember (s : sigset) (sig : Z) : bool := bool_decide (sig ∈ s).

(** sigaction(2): the old action. *)
Definition sigaction (sig : Z) (a : sigaction_t) : itree evt sigaction_t :=
  act (fun _ σ => Some (action_of σ sig,
    upd_krn (fun k => setf sigactions (<[sig := a]> (sigactions k)) k) σ)).

(** *** The pipe to the thread manager *)

Definition write_request (fd : Z) (r : pthread_request) : itree evt unit :=
  act (fun _ σ => Some (tt, upd_krn (fun k => setf pipe_data (pipe_data k ++ [r]) k) σ)).

Definition close (fd : Z) : itree evt unit :=
  act (fun _ σ => Some (tt, upd_krn (fun k => setf open_fds (open_fds k ∖ {[fd]}) k) σ)).

(** *** Calls answered by the environment

    malloc(3) and realloc(3): an address or NULL; mmap(2): an address or
    -1; clone(2), fork(2), select(2), nanosleep(2), waitpid(2),
    gettimeofday(2), sched_*(2), geteuid(2): their result. *)
Definition ask : itree evt Z :=
  act (fun _ σ => match envt (krn σ) with
                  | z :: l => Some (z, upd_krn (setf envt l) σ)
                  | [] => None
                  end).

(** *** Signals in blocking system calls

    The mask in force, and whether a pending signal gets through it. *)
Definition getmask : itree evt sigset :=
  act (fun p σ => match procs (krn σ) !! p with
                  | Some pr => Some (pr_mask pr, σ)
                  | None => None
                  end).

Definition signal_waiting : itree evt bool :=
  act (fun p σ => match procs (krn σ) !! p with
                  | Some pr =>
                      Some (bool_decide (is_Some (pick_signal (pr_pending pr) (pr_mask pr))), σ)
                  | None => None
                  end).

(** The signals that get through the mask are handled before the call; if
    there are none the call ends by itself or a signal interrupts it. *)
Definition take_signal : itree evt bool :=
  b <- signal_waiting ;;
  if b : bool then m <- getmask ;; sigsuspend m ;; Ret true else Ret false.

(** Waiting for a signal under the mask in force. *)
Definition await_signal : itree evt unit := m <- getmask ;; sigsuspend m.

(** *** Time and scheduling *)

Definition sched_yield : itree evt unit := act (fun _ σ => Some (tt, σ)).

(** *** Automatic variables

    of type [int] and [struct _pthread_cleanup_buffer], and the end of their
    life. *)
Definition auto_int : itree evt addr :=
  act (fun _ σ => let a := fresh ({[NULL]} ∪ dom (words σ)) in
                  Some (a, setf words (<[a := 0]> (words σ)) σ)).
Definition auto_end (a : addr) : itree evt unit :=
  act (fun _ σ => Some (tt, setf words (delete a (words σ)) σ)).

Definition auto_buffer : itree evt addr :=
  act (fun _ σ => let a := fresh ({[NULL]} ∪ dom (bufs σ)) in
                  Some (a, setf bufs (<[a := mk_cleanup NULL 0 0 NULL]> (bufs σ)) σ)).
Definition auto_buffer_end (a : addr) : itree evt unit :=
  act (fun _ σ => Some (tt, setf bufs (delete a (bufs σ)) σ)).
End calls.

(** ** Rules for the accesses *)

Section rules.
Context {H : Handlers} {P : Platform}.

Lemma evals_load {O X A} (M : state -> gmap Z O) a (fld : O -> X) (k : X -> itree evt A)
    p J σ o r :
  M σ !! a = Some o -> evalsJ p (k (fld o)) J σ r ->
  evalsJ p (ITree.bind (load M a fld) k) J σ r.
Proof. intros Ho. eapply evals_act. simpl. by rewrite Ho. Qed.

Lemma evals_load_fault {O X A} (M : state -> gmap Z O) a (fld : O -> X)
    (k : X -> itree evt A) p J σ :
  M σ !! a = None -> evalsJ p (ITree.bind (load M a fld) k) J σ Faults.
Proof. intros Ho. apply evals_act_fault. simpl. by rewrite Ho. Qed.

Lemma evals_store {O X A} (M : state -> gmap Z O) `{!Setter M} a (fld : O -> X)
    `{!Setter fld} v (k : unit -> itree evt A) p J σ o r :
  M σ !! a = Some o ->
  evalsJ p (k tt) J (setf M (<[a := setf fld v o]> (M σ)) σ) r ->
  evalsJ p (ITree.bind (store M a fld v) k) J σ r.
Proof. intros Ho. eapply evals_act. simpl. by rewrite Ho. Qed.

Lemma evals_store_obj {O A} (M : state -> gmap Z O) `{!Setter M} a (o' : O)
    (k : unit -> itree evt A) p J σ o r :
  M σ !! a = Some o ->
  evalsJ p (k tt) J (setf M (<[a := o']> (M σ)) σ) r ->
  evalsJ p (ITree.bind (store_obj M a o') k) J σ r.
Proof. intros Ho. eapply evals_act. simpl. by rewrite Ho. Qed.

Lemma evals_get_glb {X A} (fld : globals -> X) (k : X -> itree evt A) p J σ r :
  evalsJ p (k (fld (glb σ))) J σ r -> evalsJ p (ITree.bind (get_glb fld) k) J σ r.
Proof. by eapply evals_act. Qed.

Lemma evals_set_glb {X A} (fld : globals -> X) `{!Setter fld} v (k : unit -> itree evt A)
    p J σ r :
  evalsJ p (k tt) J (setf glb (setf fld v (glb σ)) σ) r ->
  evalsJ p (ITree.bind (set_glb fld v) k) J σ r.
Proof. by eapply evals_act. Qed.

Lemma evals_store_word {A} a v (k : unit -> itree evt A) p J σ o r :
  words σ !! a = Some o ->
  evalsJ p (k tt) J (setf words (<[a := v]> (words σ)) σ) r ->
  evalsJ p (ITree.bind (store_word a v) k) J σ r.
Proof. intros Ho. eapply evals_act. simpl. by rewrite Ho. Qed.

Lemma evals_store_opt_null {A} v (k : unit -> itree evt A) p J σ r :
  evalsJ p (k tt) J σ r -> evalsJ p (ITree.bind (store_opt NULL v) k) J σ r.
Proof. intros He. unfold store_opt. simpl. by apply evals_bind_ret. Qed.

Lemma evals_store_opt {A} a v (k : unit -> itree evt A) p J σ o r :
  a <> NULL -> words σ !! a = Some o ->
  evalsJ p (k tt) J (setf words (<[a := v]> (words σ)) σ) r ->
  evalsJ p (ITree.bind (store_opt a v) k) J σ r.
Proof.
  intros Ha Ho. unfold store_opt. rewrite (proj2 (Z.eqb_neq _ _) Ha).
  eapply evals_act. simpl. by rewrite Ho.
Qed.

Lemma evals_load_queue {X A} q (fld : _pthread_queue -> X) (k : X -> itree evt A)
    p J σ v r :
  get_queue q σ = Some v -> evalsJ p (k (fld v)) J σ r ->
  evalsJ p (ITree.bind (load_queue q fld) k) J σ r.
Proof. intros Ho. eapply evals_act. simpl. by rewrite Ho. Qed.

Lemma evals_store_queue {X A} q (fld : _pthread_queue -> X) `{!Setter fld} x
    (k : unit -> itree evt A) p J σ v r :
  get_queue q σ = Some v -> evalsJ p (k tt) J (put_queue q (setf fld x v) σ) r ->
  evalsJ p (ITree.bind (store_queue q fld x) k) J σ r.
Proof. intros Ho. eapply evals_act. simpl. by rewrite Ho. Qed.

Lemma evals_thread_self {A} (k : addr -> itree evt A) p J σ pr r :
  procs (krn σ) !! p = Some pr ->
  evalsJ p (k (thread_self_at (glb σ) (pr_sp pr))) J σ r ->
  evalsJ p (ITree.bind thread_self k) J σ r.
Proof. intros Ho. eapply evals_act. simpl. by rewrite Ho. Qed.

Lemma evals_ask {A} (k : Z -> itree evt A) p J σ z l r :
  envt (krn σ) = z :: l -> evalsJ p (k z) J (upd_krn (setf envt l) σ) r ->
  evalsJ p (ITree.bind ask k) J σ r.
Proof. intros Ho. eapply evals_act. simpl. by rewrite Ho. Qed.

Lemma evals_kill {A} pid sig (k : Z -> itree evt A) p J σ pr r :
  0 < sig < NSIG -> procs (krn σ) !! pid = Some pr ->
  evalsJ p (k 0) J (post_signal pid sig σ) r ->
  evalsJ p (ITree.bind (kill pid sig) k) J σ r.
Proof.
  intros Hs Hp He. unfold kill. apply evals_assoc.
  eapply evals_act; simpl.
  - replace (sig <? 0) with false by lia. replace (sig >=? NSIG) with false by lia.
    rewrite Hp. replace (sig =? 0) with false by lia. reflexivity.
  - simpl. by apply evals_bind_ret.
Qed.

Lemma evals_ret_eq {A} (a a' : A) p J σ σ' :
  a = a' -> σ = σ' -> evalsJ p (Ret a) J σ (Done a' σ').
Proof. intros -> ->. apply evals_ret. Qed.
End rules.

(** ** Laws of the pointers to queues *)

Lemma get_put_queue q v0 v σ :
  get_queue q σ = Some v0 -> get_queue q (put_queue q v σ) = Some v.
Proof.
  destruct q as [a|a|a]; simpl; intros Hq.
  - destruct (mtx σ !! a) as [mu|] eqn:Hm; [|done].
    fields. by rewrite lookup_alter_eq, Hm.
  - destruct (cnd σ !! a) as [c|] eqn:Hm; [|done].
    fields. by rewrite lookup_alter_eq, Hm.
  - fields. apply lookup_insert_eq.
Qed.

Lemma put_put_queue q v v' σ : put_queue q v' (put_queue q v σ) = put_queue q v' σ.
Proof.
  destruct q as [a|a|a]; simpl; fields.
  - by rewrite alter_alter_eq.
  - by rewrite alter_alter_eq.
  - by rewrite insert_insert_eq.
Qed.

Lemma put_queue_id q v σ : get_queue q σ = Some v -> put_queue q v σ = σ.
Proof.
  destruct σ as [T M C S B A MA HL LQ W G K], q as [a|a|a]; simpl; intros Hq; fields.
  - rewrite alter_id; [done|]. intros [] Hx. rewrite Hx in Hq. by simplify_eq/=.
  - rewrite alter_id; [done|]. intros [] Hx. rewrite Hx in Hq. by simplify_eq/=.
  - by rewrite insert_id.
Qed.

Lemma get_queue_thr q T σ : get_queue q (setf thr T σ) = get_queue q σ.
Proof. by destruct q. Qed.

Lemma put_queue_thr q v T σ :
  put_queue q v (setf thr T σ) = setf thr T (put_queue q v σ).
Proof. by destruct q. Qed.

Lemma thr_put_queue q v σ : thr (put_queue q v σ) = thr σ.
Proof. by destruct q. Qed.

#[export] Hint Rewrite get_queue_thr put_queue_thr put_put_queue thr_put_queue : cthreads.

(** ** The tactic [cstep]

    Evaluates the first statement of the program of the goal.  The lookups
    it needs are found among the hypotheses, through the updates made so
    far. *)

Ltac lookup_tac :=
  autorewrite with cthreads; fields;
  first [ eassumption
        | reflexivity
        | rewrite lookup_insert_eq; reflexivity
        | rewrite lookup_insert_ne by congruence; lookup_tac
        | simplify_map_eq; reflexivity
        | simplify_map_eq; eassumption ].

Ltac queue_tac :=
  rewrite ?get_queue_thr;
  first [ eassumption
        | eapply get_put_queue; queue_tac ].

(** Computes in the program of the goal, not in its state. *)
Ltac cred :=
  lazymatch goal with
  | |- evalsJ ?p ?t ?J ?σ ?r =>
      let t' := fields_term t in change (evalsJ p t' J σ r)
  | |- _ => idtac
  end.

(** Decides the test [b] of an [if]: by computation, by a hypothesis, or by
    arithmetic. *)
Ltac decide_test b :=
  first
  [ let v := eval cbn in b in
    lazymatch v with
    | true => replace b with true by reflexivity
    | false => replace b with false by reflexivity
    end
  | match goal with Hb : b = _ |- _ => rewrite Hb end
  | replace b with false by (unfold NULL in *; symmetry; lia)
  | replace b with true by (unfold NULL in *; symmetry; lia)
  | replace b with false by (symmetry; apply Z.eqb_neq; congruence)
  | replace b with true by (symmetry; apply Z.eqb_eq; congruence) ];
  cbv iota.

(** Calls of functions with a specification: extended by the components. *)
Ltac ccall := fail 1 "no rule for this statement".

Ltac cstep1 :=
  lazymatch goal with
  | |- evalsJ _ (if ?b then _ else _) _ _ _ => decide_test b
  | |- evalsJ _ (ITree.bind (if ?b then _ else _) _) _ _ _ => decide_test b
  | |- evalsJ _ (ITree.bind (when ?b _) _) _ _ _ => unfold when at 1; decide_test b
  | |- evalsJ _ (when ?b _) _ _ _ => unfold when at 1; decide_test b
  | |- evalsJ _ (ITree.bind (ITree.bind _ _) _) _ _ _ => apply evals_assoc
  | |- evalsJ _ (ITree.bind (Ret _) _) _ _ _ => apply evals_bind_ret
  | |- evalsJ _ (ITree.bind (load_obj _ _) _) _ _ _ => unfold load_obj at 1
  | |- evalsJ _ (ITree.bind (load _ _ _) _) _ _ _ => eapply evals_load; [lookup_tac|]
  | |- evalsJ _ (ITree.bind (store _ _ _ _) _) _ _ _ => eapply evals_store; [lookup_tac|]
  | |- evalsJ _ (ITree.bind (store_obj _ _ _) _) _ _ _ =>
      eapply evals_store_obj; [lookup_tac|]
  | |- evalsJ _ (ITree.bind (get_glb _) _) _ _ _ => apply evals_get_glb
  | |- evalsJ _ (ITree.bind (set_glb _ _) _) _ _ _ => apply evals_set_glb
  | |- evalsJ _ (ITree.bind (store_word _ _) _) _ _ _ =>
      eapply evals_store_word; [lookup_tac|]
  | |- evalsJ _ (ITree.bind (store_opt NULL _) _) _ _ _ => apply evals_store_opt_null
  | |- evalsJ _ (ITree.bind (store_opt _ _) _) _ _ _ =>
      eapply evals_store_opt; [eassumption | lookup_tac|]
  | |- evalsJ _ (ITree.bind (load_queue _ _) _) _ _ _ =>
      eapply evals_load_queue; [queue_tac|]
  | |- evalsJ _ (ITree.bind (store_queue _ _ _) _) _ _ _ =>
      eapply evals_store_queue; [queue_tac|]
  | |- evalsJ _ (ITree.bind thread_self _) _ _ _ => eapply evals_thread_self; [lookup_tac|]
  | |- evalsJ _ (ITree.bind (act _) _) _ _ _ => eapply evals_act; [reflexivity|]
  | |- evalsJ _ (Ret _) _ _ _ => apply evals_ret_eq; [try reflexivity | try reflexivity]
  | |- evalsJ _ (ITree.bind _ _) _ _ _ => ccall
  | |- evalsJ _ (load _ _ _) _ _ _ => apply evals_unbind
  | |- evalsJ _ (store _ _ _ _) _ _ _ => apply evals_unbind
  | |- evalsJ _ (store_queue _ _ _) _ _ _ => apply evals_unbind
  | |- evalsJ _ (set_glb _ _) _ _ _ => apply evals_unbind
  | |- evalsJ _ (store_word _ _) _ _ _ => apply evals_unbind
  | |- evalsJ _ (act _) _ _ _ => apply evals_unbind
  | |- evalsJ _ (Tau _) _ _ _ => apply evals_tau
  end.

Ltac cstep := cstep1; cred.
Ltac csteps := repeat cstep.

(** Normalises the states of the goal: one update per memory. *)
Ltac collapse :=
  fields;
  repeat match goal with
  | |- context [setf ?M ?A (setf ?M ?B ?s)] =>
      change (setf M A (setf M B s)) with (setf M A s)
  | |- context [setf ?M ?A (setf ?N ?B (setf ?M ?C ?s))] =>
      change (setf M A (setf N B (setf M C s))) with (setf M A (setf N B s))
  | |- context [setf ?M ?A (setf ?N ?B (setf ?N' ?B' (setf ?M ?C ?s)))] =>
      change (setf M A (setf N B (setf N' B' (setf M C s))))
        with (setf M A (setf N B (setf N' B' s)))
  end;
  fields; rewrite ?insert_insert_eq; fields.
