(* ===== verification/Queue.v ===== *)
(** * Waiting queues (queue.h, and remove_from_queue of condvar.c)

    The threads waiting on a mutex or a condition are chained through the
    field [p_nextwaiting] of their descriptors.  [queue_rep] relates such a
    chain to the list of the waiting threads; each operation is shown to
    implement the operation on lists. *)

From S2P Require Import Prelude Types Machine MachineFacts Platform Memory.

(** ** Operations *)

Definition queue_init (q : queueptr) : itree evt unit :=
  store_queue q q_tail NULL ;;
  store_queue q q_head NULL.

Definition enqueue (q : queueptr) (th : addr) : itree evt unit :=
  t <- load_queue q q_tail ;;
  if t =? NULL then
    store_queue q q_head th ;;
    store_queue q q_tail th
  else
    t <- load_queue q q_tail ;;
    store thr t p_nextwaiting th ;;
    store_queue q q_tail th.

Definition dequeue (q : queueptr) : itree evt addr :=
  th <- load_queue q q_head ;;
  (if th =? NULL then Ret tt else
    n <- load thr th p_nextwaiting ;;
    store_queue q q_head n ;;
    h <- load_queue q q_head ;;
    when (h =? NULL) (store_queue q q_tail NULL) ;;
    store thr th p_nextwaiting NULL) ;;
  Ret th.

(** condvar.c: the [for] loop of remove_from_queue, at node [t]. *)
Definition remove_body (q : queueptr) (th : addr) (t : addr) : itree evt (addr + unit) :=
  n <- load thr t p_nextwaiting ;;
  if n =? NULL then Ret (inr tt) else
  n <- load thr t p_nextwaiting ;;
  if n =? th then
    n <- load thr th p_nextwaiting ;;
    store thr t p_nextwaiting n ;;
    n <- load thr th p_nextwaiting ;;
    when (n =? NULL) (store_queue q q_tail t) ;;
    store thr th p_nextwaiting NULL ;;
    Ret (inr tt)
  else
    n <- load thr t p_nextwaiting ;;
    Ret (inl n).

Definition remove_from_queue (q : queueptr) (th : addr) : itree evt unit :=
  h <- load_queue q q_head ;;
  if h =? NULL then Ret tt else
  h <- load_queue q q_head ;;
  if h =? th then
    n <- load thr th p_nextwaiting ;;
    store_queue q q_head n ;;
    h <- load_queue q q_head ;;
    when (h =? NULL) (store_queue q q_tail NULL) ;;
    store thr th p_nextwaiting NULL
  else
    t <- load_queue q q_head ;;
    c_loop (remove_body q th) t.

(** ** Representation *)

Definition next_of (T : gmap Z _pthread) (a : addr) : option addr :=
  p_nextwaiting <$> T !! a.

(** [l] is the chain from its first element to [NULL]. *)
Fixpoint linked (T : gmap Z _pthread) (l : list addr) : Prop :=
  match l with
  | [] => True
  | x :: l' => next_of T x = Some (default NULL (head l')) /\ linked T l'
  end.

Record queue_rep (T : gmap Z _pthread) (v : _pthread_queue) (l : list addr) : Prop := {
  qr_nodup : NoDup l;
  qr_null : NULL ∉ l;
  qr_linked : linked T l;
  qr_head : q_head v = default NULL (head l);
  qr_tail : q_tail v = default NULL (last l)
}.

(** ** Facts about chains *)

Lemma next_of_insert T a d x :
  next_of (<[a := d]> T) x = if decide (a = x) then Some (p_nextwaiting d) else next_of T x.
Proof. unfold next_of. rewrite lookup_insert. by case_decide. Qed.

Lemma next_of_lookup T x n :
  next_of T x = Some n -> exists d, T !! x = Some d /\ p_nextwaiting d = n.
Proof. unfold next_of. destruct (T !! x) as [d|]; simpl; [|done]. intros [= <-]. eauto. Qed.

Lemma linked_insert_notin T a d l : a ∉ l -> linked (<[a := d]> T) l <-> linked T l.
Proof.
  induction l as [|x l IH]; simpl; [done|]. intros Ha.
  rewrite next_of_insert, decide_False by set_solver. rewrite IH by set_solver. done.
Qed.

Lemma linked_lookup T l x : linked T l -> x ∈ l -> exists d, T !! x = Some d.
Proof.
  induction l as [|y l IH]; simpl; [set_solver|]. intros [Hy Hl] [->|Hx]%elem_of_cons; [|auto].
  destruct (next_of_lookup _ _ _ Hy) as (d & Hd & _). eauto.
Qed.

(** Setting the link of the last element of a chain extends the chain. *)
Lemma linked_snoc T l t d th :
  NoDup (l ++ [t]) -> linked T (l ++ [t]) -> th ∉ l ++ [t] -> T !! t = Some d ->
  next_of T th = Some NULL ->
  linked (<[t := setf p_nextwaiting th d]> T) ((l ++ [t]) ++ [th]).
Proof.
  induction l as [|x l IH]; intros Hnd Hl Hth Hd Hn.
  - simpl in *. rewrite !next_of_insert, decide_True, decide_False by set_solver. done.
  - simpl in *. destruct Hl as [Hx Hl]. apply NoDup_cons in Hnd as [Hxl Hnd].
    rewrite next_of_insert, decide_False by set_solver. split.
    + rewrite Hx. by destruct l.
    + apply IH; set_solver.
Qed.

Lemma queue_rep_nil T : queue_rep T (mk_queue NULL NULL) [].
Proof. constructor; simpl; auto using NoDup_nil_2. set_solver. Qed.

Lemma queue_rep_head_cons T v x l : queue_rep T v (x :: l) -> q_head v = x /\ x <> NULL.
Proof. intros [? Hn ? Hh ?]. simpl in Hh. split; [done|]. set_solver. Qed.

Lemma queue_rep_lookup T v l x :
  queue_rep T v l -> x ∈ l -> exists d, T !! x = Some d.
Proof. intros [? ? Hl ? ?]. by apply linked_lookup. Qed.

Lemma queue_rep_insert_notin T v l a d :
  a ∉ l -> queue_rep T v l -> queue_rep (<[a := d]> T) v l.
Proof. intros Ha [? ? ? ? ?]. constructor; auto. by apply linked_insert_notin. Qed.

(** The representation depends on the links only. *)
Lemma linked_ext T T' l :
  (forall x, x ∈ l -> next_of T' x = next_of T x) -> linked T l -> linked T' l.
Proof.
  induction l as [|x l IH]; simpl; [done|]. intros Ht [Hx Hl].
  rewrite Ht by set_solver. split; [done|]. apply IH; [set_solver|done].
Qed.

Lemma queue_rep_ext T T' v l :
  (forall x, x ∈ l -> next_of T' x = next_of T x) -> queue_rep T v l -> queue_rep T' v l.
Proof. intros Ht [? ? ? ? ?]. constructor; auto. by eapply linked_ext. Qed.

(** Adding at the end and taking the first, on the representation. *)
Lemma queue_rep_singleton T th :
  th <> NULL -> next_of T th = Some NULL -> queue_rep T (mk_queue th th) [th].
Proof.
  intros Hn Hnx. constructor; simpl; [apply NoDup_singleton | set_solver | done | done | done].
Qed.

Lemma queue_rep_snoc T v l t th :
  queue_rep T v l -> last l = Some t -> th ∉ l -> th <> NULL -> next_of T th = Some NULL ->
  queue_rep (alter (setf p_nextwaiting th) t T) (mk_queue (q_head v) th) (l ++ [th]).
Proof.
  intros [Hnd Hnu Hl Hh Ht] [l' ->]%last_Some Hth Hn Hnx.
  destruct (linked_lookup _ _ t Hl) as [d Hd]; [set_solver|].
  rewrite <- (insert_alter (setf p_nextwaiting th) T t d Hd).
  constructor; simpl.
  - apply NoDup_app. repeat split; [done | set_solver | apply NoDup_singleton].
  - set_solver.
  - by apply linked_snoc.
  - rewrite Hh. by destruct l'.
  - by rewrite last_snoc.
Qed.

Lemma queue_rep_tail T v x l :
  queue_rep T v (x :: l) ->
  let n := default NULL (head l) in
  let T' := alter (setf p_nextwaiting NULL) x T in
  queue_rep T' (mk_queue n (if n =? NULL then NULL else q_tail v)) l /\ next_of T' x = Some NULL.
Proof.
  intros [Hnd Hnu [Hn Hl] Hh Ht] n T'.
  destruct (next_of_lookup _ _ _ Hn) as (d & Hd & Hdn).
  apply NoDup_cons in Hnd as [Hx Hnd]. unfold T', n.
  rewrite <- (insert_alter (setf p_nextwaiting NULL) T x d Hd).
  split; [|by rewrite next_of_insert, decide_True].
  constructor; simpl; [done | set_solver | by apply linked_insert_notin | done |].
  destruct l as [|y l]; simpl in *; [done|].
  assert (Hy : y <> NULL) by set_solver. ztest. by rewrite Ht.
Qed.

(** ** Specifications *)

Section specs.
Context {H : Handlers} {P : Platform}.

Lemma queue_init_spec p q v σ :
  get_queue q σ = Some v ->
  evals p (queue_init q) σ (Done tt (put_queue q (mk_queue NULL NULL) σ)).
Proof.
  intros Hq. unfold queue_init. csteps.
  by rewrite put_put_queue.
Qed.

(** The state after [enqueue]: the former last thread is linked to [th]. *)
Definition enqueued (q : queueptr) (th : addr) (v : _pthread_queue) (l : list addr)
    (σ : state) : state :=
  match last l with
  | None => put_queue q (mk_queue th th) σ
  | Some t => put_queue q (mk_queue (q_head v) th)
                (setf thr (alter (setf p_nextwaiting th) t (thr σ)) σ)
  end.

Lemma enqueue_spec p q v l th σ :
  get_queue q σ = Some v -> queue_rep (thr σ) v l ->
  evals p (enqueue q th) σ (Done tt (enqueued q th v l σ)).
Proof.
  intros Hq Hrep. unfold enqueue, enqueued.
  pose proof (qr_tail _ _ _ Hrep) as Ht. cstep.
  destruct (last l) as [t|] eqn:Hlast; cbn in Ht; rewrite Ht.
  - assert (Hin : t ∈ l) by by apply last_Some_elem_of.
    assert (Htn : t <> NULL) by (intros ->; by apply (qr_null _ _ _ Hrep)).
    destruct (queue_rep_lookup _ _ _ _ Hrep Hin) as [d Hd].
    csteps. rewrite Ht. csteps.
    rewrite !put_queue_thr. by rewrite (insert_alter (setf p_nextwaiting th) (thr σ) t d Hd).
  - csteps. by rewrite put_put_queue.
Qed.

Lemma enqueued_rep q v l th σ :
  get_queue q σ = Some v -> queue_rep (thr σ) v l ->
  th ∉ l -> th <> NULL -> next_of (thr σ) th = Some NULL ->
  exists v', get_queue q (enqueued q th v l σ) = Some v' /\
    queue_rep (thr (enqueued q th v l σ)) v' (l ++ [th]).
Proof.
  intros Hq Hrep Hth Hn Hnx. unfold enqueued.
  destruct (last l) as [t|] eqn:Hlast.
  - eexists. split; [eapply get_put_queue; by rewrite get_queue_thr|].
    rewrite thr_put_queue. by apply queue_rep_snoc.
  - apply last_None in Hlast as ->.
    eexists. split; [by eapply get_put_queue|]. rewrite thr_put_queue.
    by apply queue_rep_singleton.
Qed.

(** The state after [dequeue] of the first thread [x], followed by [n]. *)
Definition dequeued (q : queueptr) (x n : addr) (v : _pthread_queue) (σ : state) : state :=
  put_queue q (mk_queue n (if n =? NULL then NULL else q_tail v))
    (setf thr (alter (setf p_nextwaiting NULL) x (thr σ)) σ).

Lemma dequeue_nil_spec p q v σ :
  get_queue q σ = Some v -> queue_rep (thr σ) v [] ->
  evals p (dequeue q) σ (Done NULL σ).
Proof.
  intros Hq Hrep. unfold dequeue. cstep. rewrite (qr_head _ _ _ Hrep). by csteps.
Qed.

Lemma dequeue_cons_spec p q v x l σ :
  get_queue q σ = Some v -> queue_rep (thr σ) v (x :: l) ->
  evals p (dequeue q) σ (Done x (dequeued q x (default NULL (head l)) v σ)).
Proof.
  intros Hq Hrep. destruct (queue_rep_head_cons _ _ _ _ Hrep) as [Hh Hx].
  destruct (qr_linked _ _ _ Hrep) as [Hn _].
  destruct (next_of_lookup _ _ _ Hn) as (d & Hd & Hdn).
  unfold dequeue, dequeued. cstep. rewrite Hh. csteps. rewrite Hdn. csteps.
  rewrite !put_queue_thr, <- (insert_alter (setf p_nextwaiting NULL) (thr σ) x d Hd).
  destruct (default NULL (head l) =? NULL) eqn:Hl.
  - csteps. by autorewrite with cthreads.
  - csteps. by autorewrite with cthreads.
Qed.

Lemma dequeued_rep q v x l σ :
  get_queue q σ = Some v -> queue_rep (thr σ) v (x :: l) ->
  let σ' := dequeued q x (default NULL (head l)) v σ in
  (exists v', get_queue q σ' = Some v' /\ queue_rep (thr σ') v' l) /\
  next_of (thr σ') x = Some NULL.
Proof.
  intros Hq Hrep σ'. subst σ'. unfold dequeued. rewrite thr_put_queue. fields.
  destruct (queue_rep_tail _ _ _ _ Hrep) as [Hrep' Hx]. split; [|exact Hx].
  eexists. split; [eapply get_put_queue; by rewrite get_queue_thr | exact Hrep'].
Qed.

(** *** remove_from_queue *)

(** The state after unlinking [th], whose predecessor is [pred] and whose
    successor is [nxt]. *)
Definition unlinked (q : queueptr) (th pred nxt : addr) (v : _pthread_queue)
    (σ : state) : state :=
  put_queue q (mk_queue (q_head v) (if nxt =? NULL then pred else q_tail v))
    (setf thr (alter (setf p_nextwaiting NULL) th
                (alter (setf p_nextwaiting nxt) pred (thr σ))) σ).

Lemma remove_loop_absent p q th t l σ :
  linked (thr σ) (t :: l) -> NULL ∉ l -> th ∉ l ->
  evals p (c_loop (remove_body q th) t) σ (Done tt σ).
Proof.
  revert t. induction l as [|n l IH]; intros t [Ht Hl] Hnu Hth;
    destruct (next_of_lookup _ _ _ Ht) as (d & Hd & Hdn); simpl in Hdn.
  - eapply evals_loop_stop. unfold remove_body. cstep. rewrite Hdn. by csteps.
  - assert (n <> NULL /\ n <> th) as [Hn Hne] by set_solver.
    eapply evals_loop_next.
    + unfold remove_body. cstep. rewrite Hdn. do 2 cstep. rewrite Hdn.
      do 2 cstep. rewrite Hdn. by csteps.
    + apply IH; set_solver.
Qed.

Lemma remove_loop_found p q th t a b v σ :
  get_queue q σ = Some v -> linked (thr σ) (t :: a ++ th :: b) ->
  NULL ∉ t :: a ++ th :: b -> NoDup (t :: a ++ th :: b) ->
  evals p (c_loop (remove_body q th) t) σ
    (Done tt (unlinked q th (default t (last a)) (default NULL (head b)) v σ)).
Proof.
  intros Hq. revert t. induction a as [|n a IH]; intros t [Ht Hl] Hnu Hnd;
    destruct (next_of_lookup _ _ _ Ht) as (d & Hd & Hdn); simpl in Hdn.
  - destruct Hl as [Hth _]. destruct (next_of_lookup _ _ _ Hth) as (e & He & Hen).
    assert (th <> NULL /\ t <> th) as [Hn Hne] by list_solver.
    eapply evals_loop_stop. unfold remove_body. cstep. rewrite Hdn. do 2 cstep. rewrite Hdn.
    do 2 cstep. rewrite Hen. do 2 cstep. rewrite Hen. simpl.
    unfold unlinked. rewrite !put_queue_thr.
    rewrite <- (insert_alter (setf p_nextwaiting (default NULL (head b))) (thr σ) t d Hd).
    rewrite <- (insert_alter (setf p_nextwaiting NULL) _ th e) by lookup_tac.
    destruct (default NULL (head b) =? NULL) eqn:Hb.
    + csteps. by autorewrite with cthreads.
    + csteps. replace (mk_queue (q_head v) (q_tail v)) with v by (by destruct v).
      by rewrite (put_queue_id q v σ Hq).
  - assert (n <> NULL /\ n <> th) as [Hn Hne] by list_solver.
    eapply evals_loop_next.
    + unfold remove_body. cstep. rewrite Hdn. do 2 cstep. rewrite Hdn.
      do 2 cstep. rewrite Hdn. by csteps.
    + replace (default t (last (n :: a))) with (default n (last a))
        by (rewrite last_cons; by destruct (last a)).
      apply IH; [done | set_solver | by apply NoDup_cons in Hnd as [_ Hnd]].
Qed.

Lemma linked_unlink T l pred th b d e :
  linked T (l ++ pred :: th :: b) -> NoDup (l ++ pred :: th :: b) ->
  T !! pred = Some d -> T !! th = Some e ->
  linked (<[th := setf p_nextwaiting NULL e]>
           (<[pred := setf p_nextwaiting (default NULL (head b)) d]> T)) (l ++ pred :: b).
Proof.
  intros Hl Hnd Hd He.
  assert (Hth : th ∉ l ++ pred :: b) by list_solver.
  apply linked_insert_notin; [done|]. revert Hl Hnd. clear He Hth.
  induction l as [|x l IH]; simpl.
  - intros (_ & _ & Hb) Hnd. rewrite next_of_insert, decide_True by done.
    split; [done|]. apply linked_insert_notin; [|done].
    list_solver.
  - intros [Hx Hl] [Hxl Hnd]%NoDup_cons.
    rewrite next_of_insert, decide_False by set_solver. split; [|auto].
    rewrite Hx. by destruct l.
Qed.

Lemma snoc_last (t : Z) a : exists l, t :: a = l ++ [default t (last a)].
Proof.
  destruct (last a) as [z|] eqn:Ha; simpl.
  - apply last_Some in Ha as [l ->]. by exists (t :: l).
  - apply last_None in Ha as ->. by exists [].
Qed.

(** Only links change. *)
Definition links_only (l : list addr) (T T' : gmap Z _pthread) : Prop :=
  (forall x, x ∉ l -> T' !! x = T !! x) /\
  (forall x d', T' !! x = Some d' ->
    exists d n, T !! x = Some d /\ d' = setf p_nextwaiting n d).

Lemma links_only_refl l T : links_only l T T.
Proof.
  split; [done|]. intros x d Hx. exists d, (p_nextwaiting d).
  split; [done | by destruct d].
Qed.

Lemma links_only_alter l T T' y n :
  links_only l T T' -> y ∈ l -> links_only l T (alter (setf p_nextwaiting n) y T').
Proof.
  intros [H1 H2] Hy. split.
  - intros x Hx. rewrite lookup_alter_ne by set_solver. auto.
  - intros x d'. rewrite lookup_alter. case_decide; [subst|by apply H2].
    destruct (T' !! x) as [d1|] eqn:Hd1; simpl; [|done]. intros [= <-].
    destruct (H2 _ _ Hd1) as (d & n' & Hd & ->). by exists d, n.
Qed.

Lemma unlinked_rep q v t a th b σ :
  get_queue q σ = Some v -> queue_rep (thr σ) v (t :: a ++ th :: b) ->
  let pred := default t (last a) in
  let nxt := default NULL (head b) in
  let T' := alter (setf p_nextwaiting NULL) th (alter (setf p_nextwaiting nxt) pred (thr σ)) in
  queue_rep T' (mk_queue (q_head v) (if nxt =? NULL then pred else q_tail v)) (t :: a ++ b) /\
  next_of T' th = Some NULL /\ links_only (t :: a ++ th :: b) (thr σ) T'.
Proof.
  intros Hq [Hnd Hnu Hl Hh Ht] pred nxt T'.
  destruct (snoc_last t a) as [l0 Hl0]. fold pred in Hl0.
  assert (Eth : t :: a ++ th :: b = l0 ++ pred :: th :: b)
    by (rewrite app_comm_cons, Hl0, <- app_assoc; done).
  assert (Eb : t :: a ++ b = l0 ++ pred :: b)
    by (rewrite app_comm_cons, Hl0, <- app_assoc; done).
  assert (Hpin : pred ∈ t :: a ++ th :: b) by (rewrite Eth; set_solver).
  destruct (linked_lookup _ _ th Hl) as [e He]; [set_solver|].
  destruct (linked_lookup _ _ pred Hl Hpin) as [d Hd].
  assert (Hne : pred <> th) by (rewrite Eth in Hnd; list_solver).
  assert (ET : T' = <[th := setf p_nextwaiting NULL e]>
                     (<[pred := setf p_nextwaiting nxt d]> (thr σ))).
  { subst T'. rewrite <- (insert_alter _ (thr σ) pred d Hd).
    symmetry. apply insert_alter. lookup_tac. }
  split; [|split].
  - constructor; fields.
    + rewrite Eth in Hnd. rewrite Eb. rewrite !NoDup_app, !NoDup_cons in *. set_solver.
    + set_solver.
    + rewrite ET, Eb. apply linked_unlink; [by rewrite <- Eth | by rewrite <- Eth | done | done].
    + done.
    + rewrite Eb. rewrite Eth in Ht. subst nxt. destruct b as [|y b]; simpl.
      * by rewrite last_snoc.
      * assert (y <> NULL) by (rewrite Eth in Hnu; set_solver). ztest. rewrite Ht.
        rewrite !last_app_cons. by rewrite !last_cons; destruct (last b).
  - rewrite ET, next_of_insert, decide_True; done.
  - apply links_only_alter; [apply links_only_alter; [apply links_only_refl|done]|set_solver].
Qed.

(** [remove_from_queue] removes exactly [th], keeps the order of the other
    threads, and touches nothing but the queue and the links of its
    threads. *)
Lemma remove_from_queue_correct p q v l th σ :
  get_queue q σ = Some v -> queue_rep (thr σ) v l ->
  exists v' T', evals p (remove_from_queue q th) σ
                  (Done tt (put_queue q v' (setf thr T' σ))) /\
    queue_rep T' v' (filter (fun x => x <> th) l) /\
    (th ∈ l -> next_of T' th = Some NULL) /\ links_only l (thr σ) T'.
Proof.
  intros Hq Hrep. pose proof Hrep as [Hnd Hnu Hl Hh Ht].
  assert (Hself : put_queue q v (setf thr (thr σ) σ) = σ).
  { rewrite put_queue_thr, (put_queue_id q v σ Hq). by destruct σ. }
  destruct (decide (th ∈ l)) as [Hin|Hin].
  - apply list_elem_of_split in Hin as (a & b & ->).
    rewrite (filter_ne_middle a b th Hnd).
    destruct a as [|t a]; simpl in Hh.
    + destruct (dequeued_rep q v th b σ Hq Hrep) as [(v' & Hv' & Hr') Hn'].
      unfold dequeued in Hv', Hr', Hn'. rewrite thr_put_queue in Hr', Hn'.
      erewrite get_put_queue in Hv' by (by rewrite get_queue_thr). injection Hv' as <-.
      fields_in Hr'. fields_in Hn'.
      do 2 eexists. split; [|split; [exact Hr'|split; [done|]]].
      2:{ apply links_only_alter; [apply links_only_refl | set_solver]. }
      destruct Hl as [Hn _]. destruct (next_of_lookup _ _ _ Hn) as (d & Hd & Hdn).
      assert (th <> NULL) by set_solver.
      unfold remove_from_queue. cstep. rewrite Hh. do 2 cstep. rewrite Hh.
      do 2 cstep. rewrite Hdn. do 2 cstep.
      rewrite put_queue_thr, <- (insert_alter (setf p_nextwaiting NULL) (thr σ) th d Hd).
      destruct (default NULL (head b) =? NULL) eqn:Hb;
        csteps; by autorewrite with cthreads.
    + destruct (unlinked_rep q v t a th b σ Hq Hrep) as (Hr' & Hn' & Hlo).
      do 2 eexists. split; [|split; [exact Hr'|split; [done | exact Hlo]]].
      unfold remove_from_queue. cstep. rewrite Hh.
      assert (t <> NULL /\ t <> th) as [? ?] by list_solver.
      do 2 cstep. rewrite Hh. do 2 cstep. rewrite Hh.
      pose proof (remove_loop_found p q th t a b v σ Hq Hl Hnu Hnd) as Hf.
      unfold unlinked in Hf. by rewrite Hh in Hf.
  - exists v, (thr σ). rewrite Hself, (filter_ne_absent l th Hin).
    split; [|split; [done | split; [done | apply links_only_refl]]].
    unfold remove_from_queue. cstep. rewrite Hh.
    destruct l as [|x l]; [by csteps|]. simpl in Hh |- *.
    assert (x <> NULL /\ x <> th) as [Hn Hne] by set_solver.
    do 2 cstep. rewrite Hh. do 2 cstep. rewrite Hh.
    apply (remove_loop_absent p q th x l σ); [done | set_solver..].
Qed.

(** [enqueue] adds the thread at the end; [dequeue] takes the first one and
    clears its link. *)
Lemma enqueue_correct p q v l th σ :
  get_queue q σ = Some v -> queue_rep (thr σ) v l ->
  th ∉ l -> th <> NULL -> next_of (thr σ) th = Some NULL ->
  exists v' T', evals p (enqueue q th) σ (Done tt (put_queue q v' (setf thr T' σ))) /\
    queue_rep T' v' (l ++ [th]) /\ links_only l (thr σ) T'.
Proof.
  intros Hq Hrep Hth Hn Hnx.
  pose proof (enqueue_spec p q v l th σ Hq Hrep) as He.
  destruct (enqueued_rep q v l th σ Hq Hrep Hth Hn Hnx) as (v' & Hv' & Hr').
  unfold enqueued in *. destruct (last l) as [t|] eqn:Hlast; rewrite thr_put_queue in Hr'.
  - erewrite get_put_queue in Hv' by (by rewrite get_queue_thr). injection Hv' as <-.
    do 2 eexists. split; [exact He|]. split; [exact Hr'|].
    apply links_only_alter; [apply links_only_refl | by apply last_Some_elem_of].
  - erewrite get_put_queue in Hv' by done. injection Hv' as <-.
    exists (mk_queue th th), (thr σ). split; [|split; [exact Hr' | apply links_only_refl]].
    replace (setf thr (thr σ) σ) with σ by by destruct σ. exact He.
Qed.

Lemma dequeue_correct p q v x l σ :
  get_queue q σ = Some v -> queue_rep (thr σ) v (x :: l) ->
  exists v' T', evals p (dequeue q) σ (Done x (put_queue q v' (setf thr T' σ))) /\
    queue_rep T' v' l /\ T' = alter (setf p_nextwaiting NULL) x (thr σ) /\
    next_of T' x = Some NULL.
Proof.
  intros Hq Hrep. pose proof (dequeue_cons_spec p q v x l σ Hq Hrep) as He.
  destruct (dequeued_rep q v x l σ Hq Hrep) as [(v' & Hv' & Hr') Hn'].
  unfold dequeued in *. rewrite thr_put_queue in Hr', Hn'.
  erewrite get_put_queue in Hv' by (by rewrite get_queue_thr). injection Hv' as <-.
  eauto 10.
Qed.

(** Fields other than the link are the same before and after. *)
Lemma links_only_field {X} (f : _pthread -> X) l T T' x :
  (forall n d, f (setf p_nextwaiting n d) = f d) -> links_only l T T' ->
  (exists d, T' !! x = Some d) -> f <$> T' !! x = f <$> T !! x.
Proof.
  intros Hf [_ Hl] [d' Hd']. destruct (Hl _ _ Hd') as (d & n & Hd & ->).
  rewrite Hd', Hd. simpl. by rewrite Hf.
Qed.
End specs.

(** ** A queue gives back what was put into it, in order *)

Fixpoint enqueue_all (q : queueptr) (l : list addr) : itree evt unit :=
  match l with
  | [] => Ret tt
  | th :: l' => enqueue q th ;; enqueue_all q l'
  end.

Fixpoint dequeue_n (q : queueptr) (n : nat) : itree evt (list addr) :=
  match n with
  | O => Ret []
  | S n' => th <- dequeue q ;; l <- dequeue_n q n' ;; Ret (th :: l)
  end.

Section fifo.
Context {H : Handlers} {P : Platform}.

Lemma put_queue_twice q v1 v2 T1 T2 σ :
  put_queue q v2 (setf thr T2 (put_queue q v1 (setf thr T1 σ))) = put_queue q v2 (setf thr T2 σ).
Proof. by rewrite !put_queue_thr, put_put_queue. Qed.

Lemma enqueue_all_spec p q v l0 l σ :
  get_queue q σ = Some v -> queue_rep (thr σ) v l0 ->
  NoDup (l0 ++ l) -> NULL ∉ l -> (forall x, x ∈ l -> next_of (thr σ) x = Some NULL) ->
  exists v' T', evals p (enqueue_all q l) σ (Done tt (put_queue q v' (setf thr T' σ))) /\
    queue_rep T' v' (l0 ++ l) /\ (forall x, x ∉ l0 ++ l -> T' !! x = thr σ !! x).
Proof.
  revert v l0 σ. induction l as [|x l IH]; intros v l0 σ Hq Hr Hnd Hnull Hx.
  - exists v, (thr σ). rewrite app_nil_r. split; [|done].
    rewrite put_queue_thr, put_queue_id by done. destruct σ. apply evals_ret.
  - destruct (enqueue_correct p q v l0 x σ Hq Hr) as (v1 & T1 & He & Hr1 & Hl);
      [list_solver | set_solver | apply Hx; left |].
    destruct (IH v1 (l0 ++ [x]) (put_queue q v1 (setf thr T1 σ))) as (v2 & T2 & He2 & Hr2 & Hf2).
    + apply (get_put_queue q v). by rewrite get_queue_thr.
    + by rewrite thr_put_queue.
    + by rewrite <- (assoc_L (++)).
    + set_solver.
    + intros y Hy. rewrite thr_put_queue. fields. unfold next_of.
      rewrite (proj1 Hl y); [apply Hx; by right | list_solver].
    + exists v2, T2. rewrite <- (assoc_L (++)) in Hr2, Hf2. split; [|split; [done|]].
      * simpl enqueue_all. eapply evals_bind; [exact He|]. by rewrite put_queue_twice in He2.
      * intros y Hy. rewrite (Hf2 y Hy), thr_put_queue. fields. apply Hl. set_solver.
Qed.

Lemma dequeue_n_spec p q v l σ :
  get_queue q σ = Some v -> queue_rep (thr σ) v l ->
  exists v' T', evals p (dequeue_n q (length l)) σ (Done l (put_queue q v' (setf thr T' σ))) /\
    queue_rep T' v' [] /\ (forall x, x ∈ l -> next_of T' x = Some NULL) /\
    (forall x, x ∉ l -> T' !! x = thr σ !! x).
Proof.
  revert v σ. induction l as [|x l IH]; intros v σ Hq Hr.
  - exists v, (thr σ). split; [|split; [done | split; [set_solver | done]]].
    rewrite put_queue_thr, put_queue_id by done. destruct σ. apply evals_ret.
  - destruct (dequeue_correct p q v x l σ Hq Hr) as (v1 & T1 & He & Hr1 & HT & Hn).
    pose proof (qr_nodup _ _ _ Hr) as Hnd.
    destruct (IH v1 (put_queue q v1 (setf thr T1 σ))) as (v2 & T2 & He2 & Hr2 & Hn2 & Hf2).
    + apply (get_put_queue q v). by rewrite get_queue_thr.
    + by rewrite thr_put_queue.
    + exists v2, T2. split; [|split; [done|]].
      * simpl. eapply evals_bind; [exact He|]. eapply evals_bind; [exact He2|].
        rewrite put_queue_twice. apply evals_ret.
      * rewrite thr_put_queue in Hf2. split.
        -- intros y [->|Hy]%elem_of_cons; [|by apply Hn2].
           unfold next_of in *. by rewrite (Hf2 x) by (by apply NoDup_cons in Hnd as []).
        -- intros y Hy. rewrite (Hf2 y) by set_solver. fields. subst T1.
           apply lookup_alter_ne. set_solver.
Qed.

(** C10: the queues of waiting threads are first in, first out.  Threads [l]
    put one after the other on a queue that holds the threads [l0] come out
    as [l0 ++ l]; at the end the queue is empty again, every one of these
    threads has a clear link, so that it may wait again, and no descriptor of
    another thread has been touched. *)
Theorem queue_fifo p q v l0 l σ :
  get_queue q σ = Some v -> queue_rep (thr σ) v l0 ->
  NoDup (l0 ++ l) -> NULL ∉ l -> (forall x, x ∈ l -> next_of (thr σ) x = Some NULL) ->
  exists σ1 σ2 v2, evals p (enqueue_all q l) σ (Done tt σ1) /\
    evals p (dequeue_n q (length (l0 ++ l))) σ1 (Done (l0 ++ l) σ2) /\
    get_queue q σ2 = Some v2 /\ queue_rep (thr σ2) v2 [] /\
    (forall x, x ∈ l0 ++ l -> next_of (thr σ2) x = Some NULL) /\
    (forall x, x ∉ l0 ++ l -> thr σ2 !! x = thr σ !! x).
Proof.
  intros Hq Hr Hnd Hnull Hx.
  destruct (enqueue_all_spec p q v l0 l σ Hq Hr Hnd Hnull Hx) as (v1 & T1 & He1 & Hr1 & Hf1).
  assert (Hq1 : get_queue q (put_queue q v1 (setf thr T1 σ)) = Some v1)
    by (apply (get_put_queue q v); by rewrite get_queue_thr).
  destruct (dequeue_n_spec p q v1 (l0 ++ l) _ Hq1) as (v2 & T2 & He2 & Hr2 & Hn2 & Hf2);
    [by rewrite thr_put_queue|].
  eexists _, _, v2. split; [exact He1|]. split; [exact He2|]. rewrite put_queue_twice, thr_put_queue.
  split; [apply (get_put_queue q v); by rewrite get_queue_thr|].
  split; [done|]. split; [done|]. intros x Hx'. fields. rewrite (Hf2 x Hx'), thr_put_queue.
  fields. by apply Hf1.
Qed.

(** C11: [remove_from_queue] takes the thread out of the queue wherever it
    is: the other threads keep their order, the link of the thread is clear,
    and of all descriptors only links change. *)
Theorem remove_from_queue_refines p q v l th σ :
  get_queue q σ = Some v -> queue_rep (thr σ) v l ->
  exists σ' v', evals p (remove_from_queue q th) σ (Done tt σ') /\
    get_queue q σ' = Some v' /\ queue_rep (thr σ') v' (filter (fun x => x <> th) l) /\
    (th ∈ l -> next_of (thr σ') th = Some NULL) /\
    (forall x d, thr σ !! x = Some d -> exists n, thr σ' !! x = Some (setf p_nextwaiting n d)) /\
    krn σ' = krn σ /\ glb σ' = glb σ.
Proof.
  intros Hq Hr.
  destruct (remove_from_queue_correct p q v l th σ Hq Hr) as (v' & T' & He & Hr' & Hn & Hl).
  eexists _, v'. split; [exact He|]. rewrite thr_put_queue. fields.
  split; [apply (get_put_queue q v); by rewrite get_queue_thr|].
  split; [done|]. split; [done|]. split; [|by destruct q].
  intros x d Hx. destruct (decide (x ∈ l)) as [Hi|Hi].
  - assert (exists d', T' !! x = Some d') as [d' Hd'].
    { destruct (decide (x = th)) as [->|Hne].
      - destruct (next_of_lookup T' th NULL (Hn Hi)) as (d' & Hd' & _). by exists d'.
      - eapply queue_rep_lookup; [exact Hr'|]. by apply list_elem_of_filter. }
    destruct (proj2 Hl x d' Hd') as (d0 & n & Hd0 & ->). simplify_eq. by exists n.
  - exists (p_nextwaiting d). rewrite (proj1 Hl x Hi), Hx. by destruct d.
Qed.
End fifo.
