(* ===== verification/Spinlock.v ===== *)
(** * Spin locks (spinlock.h, testandset of pt-machine.h)

    [acquire] and [release], and the three facts the other components use:
    a free lock is taken, a lock that is held is freed, and [acquire] of a
    lock that nobody frees never returns. *)

From S2P Require Import Prelude Types Machine MachineFacts Platform Memory.

Section spinlock.
Context {P : Platform}.

(** The atomic test-and-set of the machine, on an [int]. *)
Definition testandset (r : intptr) : itree evt Z :=
  act (fun _ σ => match get_int r σ with
                  | Some v => Some ((tas_op v).1, put_int r (tas_op v).2 σ)
                  | None => None
                  end).

Definition acquire (r : intptr) : itree evt unit :=
  c_while (v <- testandset r ;;
           if istrue v then sched_yield ;; Ret true else Ret false).

Definition release (r : intptr) : itree evt unit :=
  act (fun _ σ => match get_int r σ with
                  | Some v => Some (tt, put_int r (release_op v) σ)
                  | None => None
                  end).
End spinlock.

(** ** Laws of the pointers to [int] *)

Lemma get_put_int r v0 v σ : get_int r σ = Some v0 -> get_int r (put_int r v σ) = Some v.
Proof.
  destruct r as [a|a|a|a|a]; simpl; intros Hq; fields;
    try (rewrite lookup_alter_eq; by destruct (_ !! a)).
  apply lookup_insert_eq.
Qed.

Lemma put_put_int r v v' σ : put_int r v' (put_int r v σ) = put_int r v' σ.
Proof.
  destruct r as [a|a|a|a|a]; simpl; fields;
    first [by rewrite alter_alter_eq | by rewrite insert_insert_eq].
Qed.

Lemma put_int_id r v σ : get_int r σ = Some v -> put_int r v σ = σ.
Proof.
  destruct σ as [T M C S B A MA HL LQ W G K], r as [a|a|a|a|a]; simpl; intros Hq; fields.
  all: try (rewrite alter_id; [done|]; intros [] Hx; rewrite Hx in Hq; by simplify_eq/=).
  by rewrite insert_id.
Qed.

Lemma get_queue_put_int q r v σ : get_queue q (put_int r v σ) = get_queue q σ.
Proof.
  destruct q as [a|a|a], r as [b|b|b|b|b]; simpl; fields; try done;
    rewrite lookup_alter; case_decide; subst; try done;
    match goal with |- context [?M !! ?x] => by destruct (M !! x) end.
Qed.

Lemma get_int_put_queue q r v σ : get_int r (put_queue q v σ) = get_int r σ.
Proof.
  destruct q as [a|a|a], r as [b|b|b|b|b]; simpl; fields; try done;
    rewrite lookup_alter; case_decide; subst; try done;
    match goal with |- context [?M !! ?x] => by destruct (M !! x) end.
Qed.

Lemma put_int_put_queue q r v w σ :
  put_int r v (put_queue q w σ) = put_queue q w (put_int r v σ).
Proof.
  destruct q as [a|a|a], r as [b|b|b|b|b]; simpl; fields; try done;
    (destruct (decide (a = b)) as [->|Hne];
     [by rewrite !alter_alter_eq | by rewrite alter_alter_ne]).
Qed.

(** The object that holds the spinlock [r], with the spinlock set. *)
Lemma mtx_put_int_ne m r v σ : r <> m_spinlock_at m -> mtx (put_int r v σ) !! m = mtx σ !! m.
Proof.
  destruct r as [b|b|b|b|b]; simpl; intros Hr; fields; try done.
  rewrite lookup_alter_ne; congruence.
Qed.

Lemma mtx_put_int m v σ :
  mtx (put_int (m_spinlock_at m) v σ) !! m = setf m_spinlock v <$> mtx σ !! m.
Proof. simpl. fields. apply lookup_alter_eq. Qed.

Lemma krn_put_int r v σ : krn (put_int r v σ) = krn σ.
Proof. by destruct r. Qed.
Lemma glb_put_int r v σ : glb (put_int r v σ) = glb σ.
Proof. by destruct r. Qed.
Lemma krn_put_queue q v σ : krn (put_queue q v σ) = krn σ.
Proof. by destruct q. Qed.
Lemma glb_put_queue q v σ : glb (put_queue q v σ) = glb σ.
Proof. by destruct q. Qed.

#[export] Hint Rewrite put_put_int get_queue_put_int get_int_put_queue put_int_put_queue
  krn_put_int glb_put_int krn_put_queue glb_put_queue : cthreads.

(** ** Specifications *)

Section specs.
Context {H : Handlers} {P : Platform} {Pok : PlatformOk P}.

Lemma acquire_spec p r σ :
  get_int r σ = Some 0 -> evals p (acquire r) σ (Done tt (put_int r locked σ)).
Proof.
  intros Hr. unfold acquire, c_while. eapply (evals_loop_stop p _ tt tt).
  apply evals_assoc. eapply evals_act.
  { cbn. rewrite Hr, tas_free. reflexivity. }
  cbn. by csteps.
Qed.

Lemma release_spec p r σ :
  get_int r σ = Some locked -> evals p (release r) σ (Done tt (put_int r 0 σ)).
Proof. intros Hr. eapply evals_act_last. cbn. by rewrite Hr, release_taken. Qed.

(** Spinning on a lock that is held, and that nobody releases. *)
Lemma acquire_hangs p r σ : get_int r σ = Some locked -> hangs p (acquire r) σ.
Proof.
  intros Hr. destruct tas_taken as [Hret Hnew]. apply hangs_loop.
  apply evals_assoc. eapply evals_act.
  { cbn. rewrite Hr, Hnew, (put_int_id r locked σ Hr). reflexivity. }
  cbn. rewrite (istrue_nonzero _ Hret). unfold sched_yield. by csteps.
Qed.
End specs.

(** ** Spinlocks inside objects

    The same facts with the object written out: [SpinField M fld at] says
    that [at a] points to the lock field [fld] of the object at [a]. *)

Class SpinField {O} (M : state -> gmap Z O) `{!Setter M} (fld : O -> Z) `{!Setter fld}
    (lock_at : addr -> intptr) := {
  sf_get a σ : get_int (lock_at a) σ = fld <$> M σ !! a;
  sf_put a v σ : put_int (lock_at a) v σ = setf M (alter (setf fld v) a (M σ)) σ
}.

#[export] Instance mtx_spin : SpinField mtx m_spinlock m_spinlock_at.
Proof. by split. Qed.
#[export] Instance cnd_spin : SpinField cnd c_spinlock c_spinlock_at.
Proof. by split. Qed.
#[export] Instance thr_spin : SpinField thr p_spinlock p_spinlock_at.
Proof. by split. Qed.
#[export] Instance sms_spin : SpinField sms sem_spinlock sem_spinlock_at.
Proof. by split. Qed.

Section in_objects.
Context {H : Handlers} {P : Platform} {Pok : PlatformOk P}.
Context {O : Type} (M : state -> gmap Z O) `{!Setter M} (fld : O -> Z) `{!Setter fld}.
Context (lock_at : addr -> intptr) `{!SpinField M fld lock_at}.

Lemma evals_acquire {A} a o (k : unit -> itree evt A) p J σ r :
  M σ !! a = Some o -> fld o = 0 ->
  evals p (k tt) (setf M (<[a := setf fld locked o]> (M σ)) σ) r ->
  evalsJ p (ITree.bind (acquire (lock_at a)) k) J σ r.
Proof.
  intros Ho Hl Hk. eapply evals_bind; [apply acquire_spec|].
  - by rewrite sf_get, Ho, <- Hl.
  - by rewrite sf_put, <- (insert_alter (setf fld locked) _ _ _ Ho).
Qed.

Lemma evals_release {A} a o (k : unit -> itree evt A) p J σ r :
  M σ !! a = Some o -> fld o = locked ->
  evals p (k tt) (setf M (<[a := setf fld 0 o]> (M σ)) σ) r ->
  evalsJ p (ITree.bind (release (lock_at a)) k) J σ r.
Proof.
  intros Ho Hl Hk. eapply evals_bind; [apply release_spec|].
  - by rewrite sf_get, Ho, <- Hl.
  - by rewrite sf_put, <- (insert_alter (setf fld 0) _ _ _ Ho).
Qed.

(** An operation that starts with [acquire] of a lock that is held. *)
Lemma acquire_held_hangs {A} a o (k : unit -> itree evt A) p σ :
  M σ !! a = Some o -> fld o = locked ->
  hangs p (ITree.bind (acquire (lock_at a)) k) σ.
Proof.
  intros Ho Hl. apply hangs_bind_l, acquire_hangs. by rewrite sf_get, Ho, <- Hl.
Qed.
End in_objects.

(** mutual exclusion of the spinlocks.  A free lock is taken by [acquire];
    from then on [acquire] by any process does not return, until [release]
    puts back the state from before. *)
Theorem spinlock_exclusion {H : Handlers} {P : Platform} {Pok : PlatformOk P} p r σ :
  get_int r σ = Some 0 ->
  exists σ1, evals p (acquire r) σ (Done tt σ1) /\ (forall q, hangs q (acquire r) σ1) /\
    evals p (release r) σ1 (Done tt σ).
Proof.
  intros H0. exists (put_int r locked σ). split; [by apply acquire_spec|].
  assert (Hl : get_int r (put_int r locked σ) = Some locked) by by eapply get_put_int.
  split; [intros q; by apply acquire_hangs|].
  rewrite <- (put_int_id r 0 σ H0) at 2. rewrite <- (put_put_int r locked 0 σ).
  by apply release_spec.
Qed.

Ltac lock_field_tac := fields; first [eassumption | reflexivity].

Ltac ccall_spin :=
  lazymatch goal with
  | |- evalsJ _ (ITree.bind (acquire (m_spinlock_at _)) _) _ _ _ =>
      eapply (evals_acquire mtx m_spinlock m_spinlock_at); [lookup_tac | lock_field_tac |]
  | |- evalsJ _ (ITree.bind (release (m_spinlock_at _)) _) _ _ _ =>
      eapply (evals_release mtx m_spinlock m_spinlock_at); [lookup_tac | lock_field_tac |]
  | |- evalsJ _ (ITree.bind (acquire (c_spinlock_at _)) _) _ _ _ =>
      eapply (evals_acquire cnd c_spinlock c_spinlock_at); [lookup_tac | lock_field_tac |]
  | |- evalsJ _ (ITree.bind (release (c_spinlock_at _)) _) _ _ _ =>
      eapply (evals_release cnd c_spinlock c_spinlock_at); [lookup_tac | lock_field_tac |]
  | |- evalsJ _ (ITree.bind (acquire (p_spinlock_at _)) _) _ _ _ =>
      eapply (evals_acquire thr p_spinlock p_spinlock_at); [lookup_tac | lock_field_tac |]
  | |- evalsJ _ (ITree.bind (release (p_spinlock_at _)) _) _ _ _ =>
      eapply (evals_release thr p_spinlock p_spinlock_at); [lookup_tac | lock_field_tac |]
  | |- evalsJ _ (ITree.bind (acquire (sem_spinlock_at _)) _) _ _ _ =>
      eapply (evals_acquire sms sem_spinlock sem_spinlock_at); [lookup_tac | lock_field_tac |]
  | |- evalsJ _ (ITree.bind (release (sem_spinlock_at _)) _) _ _ _ =>
      eapply (evals_release sms sem_spinlock sem_spinlock_at); [lookup_tac | lock_field_tac |]
  end.
Ltac ccall ::= ccall_spin.
