(* ===== verification/Restart.v ===== *)
(** * Suspending and restarting threads (restart.h, and the handler of
    PTHREAD_SIG_RESTART of pthread.c)

    A thread waits with [suspend] or [suspend_with_cancellation] for the
    signal PTHREAD_SIG_RESTART that [restart] sends to its process; the
    handler of the signal records it in the descriptor of the thread. *)

From S2P Require Import Prelude Types Machine MachineFacts Platform Memory Spinlock Queue.

(** The code addresses of the library's own signal handlers. *)
Definition addr_pthread_sighandler : addr := 1001.
Definition addr_pthread_handle_sigcancel : addr := 1002.

(** The jump buffers are automatic variables; each function that has one
    gets an address for it. *)
Definition jmpbuf_suspend : addr := 2001.
Definition jmpbuf_timedwait : addr := 2002.
Definition jmpbuf_sigwait : addr := 2003.

Section restart.
Context {P : Platform}.

Definition restart (th : addr) : itree evt unit :=
  pid <- load thr th p_pid ;;
  kill pid PTHREAD_SIG_RESTART ;;
  Ret tt.

(** [do sigsuspend(&mask); while (self->p_signal != PTHREAD_SIG_RESTART);] *)
Definition wait_restart (self : addr) (mask : sigset) : itree evt unit :=
  c_while (sigsuspend mask ;;
           s <- load thr self p_signal ;;
           Ret (negb (s =? PTHREAD_SIG_RESTART))).

Definition suspend (self : addr) : itree evt unit :=
  r <- sigprocmask SIG_SETMASK None ;;
  let mask := sigdelset (snd r) PTHREAD_SIG_RESTART in
  wait_restart self mask.

(** [self->p_canceled && self->p_cancelstate == PTHREAD_CANCEL_ENABLE] *)
Definition cancel_pending (self : addr) : itree evt bool :=
  c <- load thr self p_canceled ;;
  if istrue c then
    s <- load thr self p_cancelstate ;;
    Ret (s =? PTHREAD_CANCEL_ENABLE)
  else Ret false.

(** What follows the [sigsetjmp], with the value it returns. *)
Definition after_setjmp (self : addr) (mask : sigset) (j : Z) : itree evt unit :=
  if j =? 0 then
    store thr self p_cancel_jmp jmpbuf_suspend ;;
    c <- cancel_pending self ;;
    when (negb c) (wait_restart self mask) ;;
    store thr self p_cancel_jmp NULL
  else
    let mask := sigaddset mask PTHREAD_SIG_RESTART in
    sigprocmask SIG_SETMASK (Some mask) ;;
    Ret tt.

Definition suspend_with_cancellation (self : addr) : itree evt unit :=
  r <- sigprocmask SIG_SETMASK None ;;
  let mask := sigdelset (snd r) PTHREAD_SIG_RESTART in
  j <- sigsetjmp jmpbuf_suspend false ;;
  after_setjmp self mask j.

(** manager.c: in the manager, the signal says that a child has died. *)
Definition __pthread_manager_sighandler (sig : Z) : itree evt unit :=
  set_glb terminated_children 1.

Definition __pthread_sighandler (sig : Z) : itree evt unit :=
  self <- thread_self ;;
  if self =? addr_manager_thread then __pthread_manager_sighandler sig
  else
    store thr self p_signal sig ;;
    j <- load thr self p_signal_jmp ;;
    if j =? NULL then Ret tt
    else j <- load thr self p_signal_jmp ;; siglongjmp j 1.
End restart.

(** The code the signals of the library are handled with: what the library
    installs is what runs. *)
Class RestartHandler (H : Handlers) (P : Platform) :=
  restart_handler : forall s, handler_code addr_pthread_sighandler s = __pthread_sighandler s.

(** Code of the program the library is linked with, called through pointers:
    start routines, cleanup and destruction functions, atfork handlers, the
    argument of [pthread_once]. *)
Class UserCode := call_fn : addr -> Z -> itree evt Z.

(** ** Laws of the kernel state *)

Lemma procs_upd_proc p f σ : procs (krn (upd_proc p f σ)) = alter f p (procs (krn σ)).
Proof. reflexivity. Qed.

Lemma upd_proc_upd_proc p f g σ :
  upd_proc p f (upd_proc p g σ) = upd_proc p (f ∘ g) σ.
Proof. unfold upd_proc, upd_krn. fields. by rewrite alter_alter_eq. Qed.

Lemma upd_proc_thr p f T σ : upd_proc p f (setf thr T σ) = setf thr T (upd_proc p f σ).
Proof. reflexivity. Qed.

Lemma setf_thr_thr T T' σ : setf thr T (setf thr T' σ) = setf thr T σ.
Proof. reflexivity. Qed.

Lemma upd_proc_ext p f g pr σ :
  procs (krn σ) !! p = Some pr -> f pr = g pr -> upd_proc p f σ = upd_proc p g σ.
Proof.
  intros Hp Hfg. unfold upd_proc, upd_krn. do 2 f_equal.
  apply alter_ext. intros x Hx. congruence.
Qed.

Lemma upd_proc_id p f pr σ :
  procs (krn σ) !! p = Some pr -> f pr = pr -> upd_proc p f σ = σ.
Proof.
  intros Hp Hf. unfold upd_proc, upd_krn. rewrite alter_id by (intros; congruence).
  by destruct σ as [? ? ? ? ? ? ? ? ? ? ? []].
Qed.

(** Handling a signal with a handler that changes neither the mask nor the
    pending signals leaves only the signal cleared. *)
Lemma mask_restored p s m pr σ :
  procs (krn σ) !! p = Some pr ->
  set_mask p (pr_mask pr) (set_mask p m (clear_signal p s σ)) = clear_signal p s σ.
Proof.
  intros Hp. unfold set_mask, clear_signal. rewrite !upd_proc_upd_proc.
  eapply upd_proc_ext; [exact Hp|]. by destruct pr.
Qed.

(** Taking a posted signal gives the state from before. *)
Lemma clear_post p s pr σ :
  procs (krn σ) !! p = Some pr -> s ∉ pr_pending pr -> clear_signal p s (post_signal p s σ) = σ.
Proof.
  intros Hp Hs. unfold clear_signal, post_signal. rewrite upd_proc_upd_proc.
  apply (upd_proc_id _ _ pr); [done|]. clear Hp.
  assert (He : ({[s]} ∪ pr_pending pr) ∖ {[s]} = pr_pending pr) by set_solver.
  unfold compose. fields. rewrite He. by destruct pr.
Qed.

(** ** Specifications *)

(** Process [p] runs the thread with the descriptor [d] at [self]. *)
Record runs_thread `{P : Platform} (p : pid_t) (self : addr) (pr : proc) (d : _pthread)
    (σ : state) : Prop := {
  rt_proc : procs (krn σ) !! p = Some pr;
  rt_self : thread_self_at (glb σ) (pr_sp pr) = self;
  rt_desc : thr σ !! self = Some d
}.

(** The action __pthread_initialize installs for the restart signal. *)
Definition restart_installed (σ : state) : Prop :=
  action_of σ PTHREAD_SIG_RESTART = mk_sigaction (sa_handler addr_pthread_sighandler) ∅.

Section specs.
Context {H : Handlers} {P : Platform} {Hr : RestartHandler H P}.

Lemma restart_spec p th d pr σ :
  thr σ !! th = Some d -> procs (krn σ) !! p_pid d = Some pr ->
  evals p (restart th) σ (Done tt (post_signal (p_pid d) PTHREAD_SIG_RESTART σ)).
Proof.
  intros Hd Hp. unfold restart. cstep.
  eapply evals_kill; [done | exact Hp |]. by csteps.
Qed.

Lemma evals_sigprocmask_get {A} how (k : Z * gset Z -> itree evt A) p J σ pr r :
  procs (krn σ) !! p = Some pr ->
  evalsJ p (k (0, pr_mask pr)) J σ r ->
  evalsJ p (ITree.bind (sigprocmask how None) k) J σ r.
Proof.
  intros Hp Hk. unfold sigprocmask. apply evals_assoc.
  eapply evals_act; [cbn; by rewrite Hp|]. cbn. by apply evals_bind_ret.
Qed.

Lemma evals_sigprocmask_set {A} how s m (k : Z * gset Z -> itree evt A) p J σ pr r :
  procs (krn σ) !! p = Some pr -> new_mask how s (pr_mask pr) = Some m ->
  evalsJ p (k (0, pr_mask pr)) J (set_mask p m σ) r ->
  evalsJ p (ITree.bind (sigprocmask how (Some s)) k) J σ r.
Proof.
  intros Hp Hm Hk. unfold sigprocmask. apply evals_assoc.
  eapply evals_act; [cbn; by rewrite Hp, Hm|]. cbn. by apply evals_bind_ret.
Qed.

(** The handler, in a thread that has no jump buffer for the signal. *)
Lemma sighandler_spec p self pr d s σ :
  runs_thread p self pr d σ -> self <> addr_manager_thread -> p_signal_jmp d = NULL ->
  evals p (__pthread_sighandler s) σ
    (Done tt (setf thr (<[self := setf p_signal s d]> (thr σ)) σ)).
Proof.
  intros [Hp Hs Hd] Hm Hj. unfold __pthread_sighandler. cstep. rewrite Hs. by csteps.
Qed.

Lemma sighandler_manager_spec p pr s σ :
  procs (krn σ) !! p = Some pr ->
  thread_self_at (glb σ) (pr_sp pr) = addr_manager_thread ->
  evals p (__pthread_sighandler s) σ
    (Done tt (setf glb (setf terminated_children 1 (glb σ)) σ)).
Proof.
  intros Hp Hs. unfold __pthread_sighandler. cstep. rewrite Hs.
  rewrite Z.eqb_refl. unfold __pthread_manager_sighandler. by csteps.
Qed.

(** With a jump buffer ([pthread_cond_timedwait]), it jumps. *)
Lemma sighandler_jumps p self pr d s σ :
  runs_thread p self pr d σ -> self <> addr_manager_thread -> p_signal_jmp d <> NULL ->
  jumps p (__pthread_sighandler s) σ (p_signal_jmp d) 1
    (setf thr (<[self := setf p_signal s d]> (thr σ)) σ).
Proof.
  intros [Hp Hs Hd] Hm Hj. unfold __pthread_sighandler, thread_self, store, load.
  eapply jumps_act; [cbn; by rewrite Hp|]. rewrite Hs, (proj2 (Z.eqb_neq _ _) Hm).
  eapply jumps_act; [cbn; by rewrite Hd|].
  eapply jumps_act; [cbn; fields; by rewrite lookup_insert_eq|]. fields.
  rewrite (proj2 (Z.eqb_neq _ _) Hj).
  eapply jumps_act; [cbn; fields; by rewrite lookup_insert_eq|]. fields.
  apply jumps_siglongjmp.
Qed.

(** The state after the restart signal has been taken. *)
Definition woken (p : pid_t) (self : addr) (σ : state) : state :=
  setf thr (alter (setf p_signal PTHREAD_SIG_RESTART) self (thr σ))
    (clear_signal p PTHREAD_SIG_RESTART σ).

(** One signal handled while the thread waits. *)
Lemma wait_restart_taken {A} p self pr d mask (k : unit -> itree evt A) J σ r :
  runs_thread p self pr d σ -> self <> addr_manager_thread -> p_signal_jmp d = NULL ->
  restart_installed σ ->
  pick_signal (pr_pending pr) mask = Some PTHREAD_SIG_RESTART ->
  evals p (k tt) (woken p self σ) r ->
  evalsJ p (ITree.bind (sigsuspend mask) k) J σ r.
Proof.
  intros [Hp Hs Hd] Hm Hj Hact Hpick Hk.
  eapply (evals_sigsuspend p mask k J σ pr); [done | done | by rewrite Hact |].
  rewrite Hact, restart_handler. set (m := mask ∪ _ ∪ _). cbn.
  eapply evals_bind.
  - apply (sighandler_spec p self
      (setf pr_mask m (setf pr_pending (pr_pending pr ∖ {[PTHREAD_SIG_RESTART]}) pr)) d);
      [constructor | done | done]; cbn.
    + by rewrite !lookup_alter_eq, Hp.
    + exact Hs.
    + exact Hd.
  - eapply evals_act; [reflexivity|].
    unfold woken in Hk. rewrite <- (insert_alter _ _ _ _ Hd) in Hk.
    change (set_mask p ?a (setf thr ?T ?σ)) with (setf thr T (set_mask p a σ)).
    rewrite (mask_restored p _ _ pr) by done. exact Hk.
Qed.

Lemma wait_restart_spec p self pr d mask σ :
  runs_thread p self pr d σ -> self <> addr_manager_thread -> p_signal_jmp d = NULL ->
  restart_installed σ ->
  pick_signal (pr_pending pr) mask = Some PTHREAD_SIG_RESTART ->
  evals p (wait_restart self mask) σ (Done tt (woken p self σ)).
Proof.
  intros Hrt Hm Hj Hact Hpick. unfold wait_restart, c_while.
  eapply (evals_loop_stop p _ tt tt). apply evals_assoc.
  eapply wait_restart_taken; eauto. apply evals_assoc.
  eapply (evals_load thr self p_signal _ p _ _ (setf p_signal PTHREAD_SIG_RESTART d)).
  { cbn. by rewrite lookup_alter_eq, (rt_desc _ _ _ _ _ Hrt). }
  cbn. by csteps.
Qed.

Lemma suspend_spec p self pr d σ :
  runs_thread p self pr d σ -> self <> addr_manager_thread -> p_signal_jmp d = NULL ->
  restart_installed σ ->
  pick_signal (pr_pending pr) (sigdelset (pr_mask pr) PTHREAD_SIG_RESTART)
    = Some PTHREAD_SIG_RESTART ->
  evals p (suspend self) σ (Done tt (woken p self σ)).
Proof.
  intros Hrt Hm Hj Hact Hpick. unfold suspend.
  eapply evals_sigprocmask_get; [apply Hrt|]. cbn. by eapply wait_restart_spec.
Qed.

Lemma wait_restart_blocks p self pr mask σ :
  procs (krn σ) !! p = Some pr -> pick_signal (pr_pending pr) mask = None ->
  evals p (wait_restart self mask) σ (Blocks σ).
Proof.
  intros Hp Hpick. apply evals_loop_block. apply evals_assoc.
  by eapply evals_sigsuspend_block.
Qed.

Lemma suspend_blocks p self pr σ :
  procs (krn σ) !! p = Some pr ->
  pick_signal (pr_pending pr) (sigdelset (pr_mask pr) PTHREAD_SIG_RESTART) = None ->
  evals p (suspend self) σ (Blocks σ).
Proof.
  intros Hp Hpick. unfold suspend.
  eapply evals_sigprocmask_get; [done|]. cbn. by eapply wait_restart_blocks.
Qed.

Lemma evals_cancel_pending {A} self d (k : bool -> itree evt A) p J σ r :
  thr σ !! self = Some d ->
  evalsJ p (k (istrue (p_canceled d) && (p_cancelstate d =? PTHREAD_CANCEL_ENABLE))) J σ r ->
  evalsJ p (ITree.bind (cancel_pending self) k) J σ r.
Proof.
  intros Hd Hk. unfold cancel_pending. csteps.
  destruct (istrue (p_canceled d)) eqn:Hc; simpl in Hk; csteps; exact Hk.
Qed.

(** The state of a thread that waits with [suspend_with_cancellation]. *)
Definition waiting_cancel (self : addr) (σ : state) : state :=
  setf thr (alter (setf p_cancel_jmp jmpbuf_suspend) self (thr σ)) σ.

Lemma next_of_cancel_jmp self σ x :
  next_of (thr (waiting_cancel self σ)) x = next_of (thr σ) x.
Proof.
  unfold next_of, waiting_cancel. simpl. rewrite lookup_alter. case_decide; [subst|done].
  by destruct (thr σ !! x).
Qed.

Definition no_cancel_jmp (self : addr) (σ : state) : state :=
  setf thr (alter (setf p_cancel_jmp NULL) self (thr σ)) σ.

Definition to_cancel (d : _pthread) : bool :=
  istrue (p_canceled d) && (p_cancelstate d =? PTHREAD_CANCEL_ENABLE).

(** Cancellation requested beforehand: it does not wait. *)
Lemma suspend_with_cancellation_canceled p self pr d σ :
  runs_thread p self pr d σ -> to_cancel d = true ->
  evals p (suspend_with_cancellation self) σ (Done tt (no_cancel_jmp self σ)).
Proof.
  intros [Hp Hs Hd] Hc. unfold suspend_with_cancellation, no_cancel_jmp.
  eapply evals_sigprocmask_get; [done|]. cbv zeta.
  eapply evals_setjmp; [done|]. unfold after_setjmp at 1. csteps.
  eapply evals_cancel_pending; [lookup_tac|]. fields. unfold to_cancel in Hc. rewrite Hc.
  csteps. fields. by rewrite insert_insert_eq, <- (insert_alter _ _ _ _ Hd).
Qed.

(** Otherwise it waits until it is restarted. *)
Lemma suspend_with_cancellation_blocks p self pr d σ :
  runs_thread p self pr d σ -> to_cancel d = false ->
  pick_signal (pr_pending pr) (sigdelset (pr_mask pr) PTHREAD_SIG_RESTART) = None ->
  evals p (suspend_with_cancellation self) σ (Blocks (waiting_cancel self σ)).
Proof.
  intros [Hp Hs Hd] Hc Hpick. unfold suspend_with_cancellation, waiting_cancel.
  eapply evals_sigprocmask_get; [done|]. cbv zeta.
  eapply evals_setjmp; [done|]. unfold after_setjmp at 1. csteps.
  eapply evals_cancel_pending; [lookup_tac|]. fields. unfold to_cancel in Hc. rewrite Hc.
  cbn [negb]. cstep. apply evals_bind_block. rewrite <- (insert_alter _ _ _ _ Hd).
  by eapply wait_restart_blocks.
Qed.

Lemma suspend_with_cancellation_spec p self pr d σ :
  runs_thread p self pr d σ -> to_cancel d = false ->
  self <> addr_manager_thread -> p_signal_jmp d = NULL -> restart_installed σ ->
  pick_signal (pr_pending pr) (sigdelset (pr_mask pr) PTHREAD_SIG_RESTART)
    = Some PTHREAD_SIG_RESTART ->
  evals p (suspend_with_cancellation self) σ (Done tt (no_cancel_jmp self (woken p self σ))).
Proof.
  intros [Hp Hs Hd] Hc Hm Hj Hact Hpick. unfold suspend_with_cancellation, no_cancel_jmp.
  eapply evals_sigprocmask_get; [done|]. cbv zeta.
  eapply evals_setjmp; [done|]. unfold after_setjmp at 1. csteps.
  eapply evals_cancel_pending; [lookup_tac|]. fields. unfold to_cancel in Hc. rewrite Hc.
  cbn [negb]. cstep. eapply evals_bind.
  - eapply (wait_restart_spec p self pr (setf p_cancel_jmp jmpbuf_suspend d)); try done.
    constructor; [exact Hp | exact Hs |]. fields. apply lookup_insert_eq.
  - unfold woken. fields. apply evals_unbind.
    eapply (evals_store thr self p_cancel_jmp NULL _ p _ _
      (setf p_signal PTHREAD_SIG_RESTART (setf p_cancel_jmp jmpbuf_suspend d))).
    { cbn. by rewrite lookup_alter_eq, lookup_insert_eq. }
    csteps. unfold clear_signal. rewrite upd_proc_thr. fields.
    rewrite !setf_thr_thr. f_equal.
    rewrite alter_alter_eq, <- !(insert_alter _ _ _ _ Hd).
    rewrite <- (insert_alter _ _ _ _ (lookup_insert_eq _ _ _)), !insert_insert_eq.
    by destruct d.
Qed.

(** [suspend] does not reset [p_signal]: once the thread has been restarted
    for the first time, any signal it handles ends a later [suspend], with
    nobody having restarted it. *)
Lemma suspend_stale p self pr d s h σ σ1 :
  runs_thread p self pr d σ -> p_signal d = PTHREAD_SIG_RESTART ->
  pick_signal (pr_pending pr) (sigdelset (pr_mask pr) PTHREAD_SIG_RESTART) = Some s ->
  sa_disp (action_of σ s) = sa_handler h ->
  (* the handler of [s] returns and leaves the thread's descriptor alone *)
  evals p (handler_code h s)
    (set_mask p (sigdelset (pr_mask pr) PTHREAD_SIG_RESTART ∪ sa_mask (action_of σ s)
                 ∪ {[s]}) (clear_signal p s σ)) (Done tt σ1) ->
  thr σ1 !! self = Some d ->
  evals p (suspend self) σ (Done tt (set_mask p (pr_mask pr) σ1)).
Proof.
  intros [Hp Hs Hd] Hsig Hpick Hh Hrun Hd1. unfold suspend.
  eapply evals_sigprocmask_get; [done|]. cbv zeta. unfold wait_restart, c_while.
  eapply (evals_loop_stop p _ tt tt). apply evals_assoc.
  eapply evals_sigsuspend; [done | exact Hpick | exact Hh |].
  eapply evals_bind; [exact Hrun|]. eapply evals_act; [reflexivity|].
  apply evals_assoc.
  eapply (evals_load thr self p_signal _ p _ _ d); [done|]. rewrite Hsig. by csteps.
Qed.

(** *** Several threads restarted one after the other *)

(** The threads [l], each taken off its queue and restarted. *)
Fixpoint woken_all (l : list addr) (σ : state) : state :=
  match l with
  | [] => σ
  | x :: l' => woken_all l' (post_signal (default 0 (p_pid <$> thr σ !! x)) PTHREAD_SIG_RESTART
                 (setf thr (alter (setf p_nextwaiting NULL) x (thr σ)) σ))
  end.

(** Each of [l] is a thread with a running process. *)
Definition all_running (l : list addr) (σ : state) : Prop :=
  forall x, x ∈ l -> exists d pr, thr σ !! x = Some d /\ procs (krn σ) !! p_pid d = Some pr.

Lemma all_running_step x l σ pid :
  all_running l σ ->
  all_running l (post_signal pid PTHREAD_SIG_RESTART
    (setf thr (alter (setf p_nextwaiting NULL) x (thr σ)) σ)).
Proof.
  intros Hl y Hy. destruct (Hl y Hy) as (d & pr & Hd & Hp). simpl.
  rewrite lookup_alter.
  assert (Hpr : exists pr', alter (fun pr => setf pr_pending ({[PTHREAD_SIG_RESTART]} ∪
      pr_pending pr) pr) pid (procs (krn σ)) !! p_pid d = Some pr').
  { rewrite lookup_alter. case_decide; subst; rewrite Hp; simpl; eauto. }
  destruct Hpr as [pr' Hpr]. case_decide; [subst|eauto].
  rewrite Hd. simpl. eauto.
Qed.

(** *** A wake-up is not lost *)

(** A signal posted to a process that had none to deliver is the one it
    takes next. *)
Lemma pick_posted pending mask s :
  pick_signal pending mask = None -> 1 <= s < NSIG -> blocked mask s = false ->
  s ∉ pending /\ pick_signal ({[s]} ∪ pending) mask = Some s.
Proof.
  unfold pick_signal. intros Hn Hs Hb. apply head_None in Hn.
  assert (Hin : s ∈ seqZ 1 (NSIG - 1)) by (apply elem_of_seqZ; lia).
  assert (Hnone : forall x, x ∈ seqZ 1 (NSIG - 1) -> ~ (x ∈ pending /\ blocked mask x = false)).
  { intros x Hx Hp. apply (not_elem_of_nil x). rewrite <- Hn. by apply list_elem_of_filter. }
  split; [intros Hp; by apply (Hnone s)|]. clear Hn.
  induction (seqZ 1 (NSIG - 1)) as [|x l IH]; [by apply not_elem_of_nil in Hin|].
  rewrite filter_cons. case_decide as Hd.
  - destruct Hd as [Hd Hbx]. apply elem_of_union in Hd as [Hd|Hd]; [set_solver|].
    destruct (Hnone x); [left|done].
  - apply IH; [|intros y Hy; apply Hnone; by right].
    apply elem_of_cons in Hin as [->|Hin]; [|done].
    destruct Hd. split; [set_solver | done].
Qed.

(** The signal taken is pending and not blocked; if none is taken there is
    no such signal. *)
Lemma pick_signal_Some pending mask s :
  pick_signal pending mask = Some s -> s ∈ pending /\ blocked mask s = false.
Proof.
  unfold pick_signal. intros Hp. apply head_Some_elem_of, list_elem_of_filter in Hp. tauto.
Qed.

Lemma pick_signal_None pending mask s :
  pick_signal pending mask = None -> 1 <= s < NSIG -> s ∈ pending -> blocked mask s = true.
Proof.
  unfold pick_signal. intros Hn%head_None Hs Hp.
  destruct (blocked mask s) eqn:Hb; [done|]. exfalso. apply (not_elem_of_nil s). rewrite <- Hn.
  apply list_elem_of_filter. split; [done|]. apply elem_of_seqZ. lia.
Qed.

Lemma restart_unblocked m : blocked (sigdelset m PTHREAD_SIG_RESTART) PTHREAD_SIG_RESTART = false.
Proof. unfold blocked, sigdelset. rewrite bool_decide_eq_false_2; [done | set_solver]. Qed.

(** C12: [restart] and [suspend] lose no wake-up.  A thread with nothing to
    deliver that calls [suspend] waits.  If any process [q] restarts it
    first, [suspend] returns; it consumes the signal, so that the kernel is
    in the state from before the [restart], and only [p_signal] of the
    thread has changed. *)
Theorem restart_wakes_suspend q p self pr d σ :
  runs_thread p self pr d σ -> p_pid d = p ->
  self <> addr_manager_thread -> p_signal_jmp d = NULL -> restart_installed σ ->
  pick_signal (pr_pending pr) (sigdelset (pr_mask pr) PTHREAD_SIG_RESTART) = None ->
  evals p (suspend self) σ (Blocks σ) /\
  exists σ1, evals q (restart self) σ (Done tt σ1) /\
    evals p (suspend self) σ1
      (Done tt (setf thr (<[self := setf p_signal PTHREAD_SIG_RESTART d]> (thr σ)) σ)).
Proof.
  intros Hrt Hpid Hm Hj Hi Hn. pose proof Hrt as [Hp Hs Hd].
  split; [by eapply suspend_blocks|].
  exists (post_signal p PTHREAD_SIG_RESTART σ).
  split; [rewrite <- Hpid; eapply restart_spec; [done | by rewrite Hpid]|].
  destruct (pick_posted (pr_pending pr) (sigdelset (pr_mask pr) PTHREAD_SIG_RESTART)
              PTHREAD_SIG_RESTART Hn) as [Hnp Hpk]; [done | apply restart_unblocked |].
  set (pr1 := setf pr_pending ({[PTHREAD_SIG_RESTART]} ∪ pr_pending pr) pr).
  assert (Hrt1 : runs_thread p self pr1 d (post_signal p PTHREAD_SIG_RESTART σ)).
  { constructor; [|done|done]. unfold post_signal. rewrite procs_upd_proc, lookup_alter_eq.
    by rewrite Hp. }
  replace (setf thr _ σ) with (woken p self (post_signal p PTHREAD_SIG_RESTART σ)).
  { by eapply suspend_spec. }
  pose proof (clear_post p PTHREAD_SIG_RESTART pr σ Hp Hnp) as Hid.
  unfold woken. rewrite Hid. by rewrite (insert_alter (setf p_signal PTHREAD_SIG_RESTART) _ _ d Hd).
Qed.

Lemma sms_woken_all l σ : sms (woken_all l σ) = sms σ.
Proof. revert σ. induction l as [|x l IH]; intros σ; [done|]. simpl. by rewrite IH. Qed.

Lemma woken_all_pending_mono l σ pid pr :
  procs (krn σ) !! pid = Some pr -> PTHREAD_SIG_RESTART ∈ pr_pending pr ->
  exists pr', procs (krn (woken_all l σ)) !! pid = Some pr' /\
              PTHREAD_SIG_RESTART ∈ pr_pending pr'.
Proof.
  revert σ pr. induction l as [|x l IH]; intros σ pr Hp Hin; [eauto|]. simpl.
  set (q := default 0 _). destruct (decide (q = pid)) as [<-|Hne].
  - eapply IH; [simpl; rewrite lookup_alter_eq, Hp; done|]. simpl. set_solver.
  - eapply IH; [simpl; rewrite lookup_alter_ne by done; exact Hp|done].
Qed.

(** Every one of them has the restart signal pending. *)
Lemma woken_all_pending l σ x d pr :
  x ∈ l -> NoDup l -> thr σ !! x = Some d -> procs (krn σ) !! p_pid d = Some pr ->
  exists pr', procs (krn (woken_all l σ)) !! p_pid d = Some pr' /\
              PTHREAD_SIG_RESTART ∈ pr_pending pr'.
Proof.
  revert σ pr. induction l as [|y l IH]; intros σ pr Hin Hnd Hd Hp; [set_solver|].
  apply NoDup_cons in Hnd as [Hy Hnd]. simpl.
  destruct (decide (x = y)) as [->|Hne].
  - rewrite Hd. simpl. eapply woken_all_pending_mono.
    + simpl. by rewrite lookup_alter_eq, Hp.
    + simpl. set_solver.
  - assert (Hp' : exists pr', procs (krn (post_signal (default 0 (p_pid <$> thr σ !! y))
        PTHREAD_SIG_RESTART (setf thr (alter (setf p_nextwaiting NULL) y (thr σ)) σ)))
        !! p_pid d = Some pr').
    { simpl. rewrite lookup_alter. case_decide as Hq; [rewrite Hq|]; rewrite Hp; simpl; eauto. }
    destruct Hp' as [pr' Hp']. eapply IH; [set_solver | done | | exact Hp'].
    simpl. by rewrite lookup_alter_ne.
Qed.

Lemma woken_all_locq l L σ : woken_all l (setf locq L σ) = setf locq L (woken_all l σ).
Proof.
  revert σ. induction l as [|x l IH]; intros σ; [done|].
  cbn [woken_all]. rewrite <- IH. done.
Qed.

Lemma woken_all_cnd l σ : cnd (woken_all l σ) = cnd σ.
Proof. revert σ. induction l as [|x l IH]; intros σ; [done|]. simpl. by rewrite IH. Qed.
End specs.

Ltac ccall_restart :=
  lazymatch goal with
  | |- evalsJ _ (ITree.bind (sigprocmask _ None) _) _ _ _ =>
      eapply evals_sigprocmask_get; [lookup_tac|]; cbv zeta
  | |- evalsJ _ (ITree.bind (cancel_pending _) _) _ _ _ =>
      eapply evals_cancel_pending; [lookup_tac|]; fields
  | |- _ => ccall_spin
  end.
Ltac ccall ::= ccall_restart.
