(* ===== verification/Mutex.v ===== *)
(** * Mutexes (mutex.c) *)

From S2P Require Import Prelude Types Machine MachineFacts Platform Memory Spinlock Queue.
From S2P Require Import Restart.

Section mutex.
Context {P : Platform}.

Definition __pthread_mutex_init (mutex mutex_attr : addr) : itree evt Z :=
  store mtx mutex m_spinlock 0 ;;
  store mtx mutex m_count 0 ;;
  store mtx mutex m_owner NULL ;;
  k <- (if mutex_attr =? NULL then Ret PTHREAD_MUTEX_FAST_NP
        else load mattrs mutex_attr mutexkind) ;;
  store mtx mutex m_kind k ;;
  queue_init (m_waiting_at mutex) ;;
  Ret 0.

Definition __pthread_mutex_destroy (mutex : addr) : itree evt Z :=
  acquire (m_spinlock_at mutex) ;;
  count <- load mtx mutex m_count ;;
  release (m_spinlock_at mutex) ;;
  if count >? 0 then Ret EBUSY else Ret 0.

Definition __pthread_mutex_trylock (mutex : addr) : itree evt Z :=
  acquire (m_spinlock_at mutex) ;;
  kind <- load mtx mutex m_kind ;;
  if kind =? PTHREAD_MUTEX_FAST_NP then
    c <- load mtx mutex m_count ;;
    if c =? 0 then
      store mtx mutex m_count 1 ;;
      release (m_spinlock_at mutex) ;;
      Ret 0
    else
      release (m_spinlock_at mutex) ;;
      Ret EBUSY
  else if kind =? PTHREAD_MUTEX_RECURSIVE_NP then
    self <- thread_self ;;
    c <- load mtx mutex m_count ;;
    o <- load mtx mutex m_owner ;;
    if (c =? 0) || (o =? self) then
      c <- load mtx mutex m_count ;;
      store mtx mutex m_count (int_of (c + 1)) ;;
      store mtx mutex m_owner self ;;
      release (m_spinlock_at mutex) ;;
      Ret 0
    else
      release (m_spinlock_at mutex) ;;
      Ret EBUSY
  else Ret EINVAL.

(** The end of the loop body of [__pthread_mutex_lock]: wait, then try
    again. *)
Definition lock_wait (mutex self : addr) : itree evt (unit + Z) :=
  enqueue (m_waiting_at mutex) self ;;
  release (m_spinlock_at mutex) ;;
  suspend self ;;
  Ret (inl tt).

Definition lock_body (mutex : addr) (_ : unit) : itree evt (unit + Z) :=
  acquire (m_spinlock_at mutex) ;;
  kind <- load mtx mutex m_kind ;;
  if kind =? PTHREAD_MUTEX_FAST_NP then
    c <- load mtx mutex m_count ;;
    if c =? 0 then
      store mtx mutex m_count 1 ;;
      release (m_spinlock_at mutex) ;;
      Ret (inr 0)
    else
      self <- thread_self ;;
      lock_wait mutex self
  else if kind =? PTHREAD_MUTEX_RECURSIVE_NP then
    self <- thread_self ;;
    c <- load mtx mutex m_count ;;
    o <- load mtx mutex m_owner ;;
    if (c =? 0) || (o =? self) then
      c <- load mtx mutex m_count ;;
      store mtx mutex m_count (int_of (c + 1)) ;;
      store mtx mutex m_owner self ;;
      release (m_spinlock_at mutex) ;;
      Ret (inr 0)
    else lock_wait mutex self
  else Ret (inr EINVAL).

Definition __pthread_mutex_lock (mutex : addr) : itree evt Z :=
  c_loop (lock_body mutex) tt.

(** The end of [__pthread_mutex_unlock]: wake the first waiting thread. *)
Definition unlock_wake (mutex : addr) : itree evt Z :=
  th <- dequeue (m_waiting_at mutex) ;;
  release (m_spinlock_at mutex) ;;
  when (negb (th =? NULL)) (restart th) ;;
  Ret 0.

Definition __pthread_mutex_unlock (mutex : addr) : itree evt Z :=
  acquire (m_spinlock_at mutex) ;;
  kind <- load mtx mutex m_kind ;;
  if kind =? PTHREAD_MUTEX_FAST_NP then
    store mtx mutex m_count 0 ;;
    unlock_wake mutex
  else if kind =? PTHREAD_MUTEX_RECURSIVE_NP then
    c <- load mtx mutex m_count ;;
    store mtx mutex m_count (int_of (c - 1)) ;;
    c <- load mtx mutex m_count ;;
    if c >? 0 then
      release (m_spinlock_at mutex) ;;
      Ret 0
    else
      store mtx mutex m_count 0 ;;
      unlock_wake mutex
  else Ret EINVAL.

Definition __pthread_mutexattr_init (attr : addr) : itree evt Z :=
  store mattrs attr mutexkind PTHREAD_MUTEX_FAST_NP ;;
  Ret 0.

Definition __pthread_mutexattr_destroy (attr : addr) : itree evt Z := Ret 0.

Definition __pthread_mutexattr_setkind_np (attr : addr) (kind : Z) : itree evt Z :=
  if negb (kind =? PTHREAD_MUTEX_FAST_NP) && negb (kind =? PTHREAD_MUTEX_RECURSIVE_NP)
  then Ret EINVAL
  else
    store mattrs attr mutexkind kind ;;
    Ret 0.

Definition __pthread_mutexattr_getkind_np (attr kind : addr) : itree evt Z :=
  k <- load mattrs attr mutexkind ;;
  store_word kind k ;;
  Ret 0.

(** [once_control] is the address of the [int] the caller provides. *)
Definition pthread_once {U : UserCode} (once_control init_routine : addr) : itree evt Z :=
  v <- testandset (int_at once_control) ;;
  (if v =? 0 then call_fn init_routine 0 ;; Ret tt else Ret tt) ;;
  Ret 0.
End mutex.

(** ** The abstract mutex

    A mutex as its user sees it: its kind, the lock count, the owner of a
    recursive mutex and the threads that wait for it, first come first. *)

Record mutex_st := mk_mutex_st {
  ms_kind : Z;
  ms_count : Z;
  ms_owner : addr;
  ms_waiting : list addr
}.

Definition ms_valid (s : mutex_st) : Prop :=
  ms_kind s = PTHREAD_MUTEX_FAST_NP \/ ms_kind s = PTHREAD_MUTEX_RECURSIVE_NP.

(** Thread [self] takes the mutex, if it may. *)
Definition ms_take (self : addr) (s : mutex_st) : option mutex_st :=
  if ms_kind s =? PTHREAD_MUTEX_FAST_NP then
    if ms_count s =? 0 then Some (mk_mutex_st (ms_kind s) 1 (ms_owner s) (ms_waiting s))
    else None
  else
    if (ms_count s =? 0) || (ms_owner s =? self)
    then Some (mk_mutex_st (ms_kind s) (int_of (ms_count s + 1)) self (ms_waiting s))
    else None.

Definition ms_wait (self : addr) (s : mutex_st) : mutex_st :=
  mk_mutex_st (ms_kind s) (ms_count s) (ms_owner s) (ms_waiting s ++ [self]).

(** Unlocking: the new state and the thread to wake up. *)
Definition ms_drop (s : mutex_st) : mutex_st * option addr :=
  if (ms_kind s =? PTHREAD_MUTEX_RECURSIVE_NP) && (int_of (ms_count s - 1) >? 0)
  then (mk_mutex_st (ms_kind s) (int_of (ms_count s - 1)) (ms_owner s) (ms_waiting s), None)
  else (mk_mutex_st (ms_kind s) 0 (ms_owner s) (tail (ms_waiting s)), head (ms_waiting s)).

(** The [pthread_mutex_t] at [m] implements the abstract mutex [s], and
    nobody is in the middle of an operation on it. *)
Record mutex_rep (σ : state) (m : addr) (s : mutex_st) : Prop := {
  mr_queue : exists v, mtx σ !! m =
      Some (mk_mutex 0 (ms_count s) (ms_owner s) (ms_kind s) v) /\
    queue_rep (thr σ) v (ms_waiting s)
}.

(** The mutex at [m] with its data replaced. *)
Definition put_mutex (m : addr) (mu : pthread_mutex_t) (σ : state) : state :=
  setf mtx (<[m := mu]> (mtx σ)) σ.

Lemma put_queue_mtx m v mu σ : mtx σ !! m = Some mu ->
  put_queue (m_waiting_at m) v σ = put_mutex m (setf m_waiting v mu) σ.
Proof.
  intros Hm. unfold put_mutex. simpl.
  by rewrite (insert_alter (setf m_waiting v) (mtx σ) m mu Hm).
Qed.

Lemma put_mutex_id m mu σ : mtx σ !! m = Some mu -> put_mutex m mu σ = σ.
Proof. intros Hm. unfold put_mutex. rewrite insert_id by done. by destruct σ. Qed.

Section specs.
Context {H : Handlers} {P : Platform} {Pok : PlatformOk P} {Hr : RestartHandler H P}.

Lemma mutex_init_spec p m a mu σ k :
  mtx σ !! m = Some mu ->
  (a = NULL /\ k = PTHREAD_MUTEX_FAST_NP \/
   a <> NULL /\ mutexkind <$> mattrs σ !! a = Some k) ->
  let σ' := put_mutex m (mk_mutex 0 0 NULL k (mk_queue NULL NULL)) σ in
  evals p (__pthread_mutex_init m a) σ (Done 0 σ') /\
  mutex_rep σ' m (mk_mutex_st k 0 NULL []).
Proof.
  intros Hm Ha σ'. split.
  - unfold __pthread_mutex_init. csteps. eapply evals_bind with (a := k).
    + destruct Ha as [[-> ->]|[Hn Hk]]; [by csteps|].
      destruct (mattrs σ !! a) as [ma|] eqn:Hma; simplify_eq/=. by csteps.
    + cred. csteps. fields. eapply evals_bind; [eapply queue_init_spec; simpl; lookup_tac|].
      csteps. erewrite put_queue_mtx by lookup_tac. unfold σ', put_mutex. fields.
      by rewrite !insert_insert_eq.
  - constructor. eexists. split; [apply lookup_insert_eq|]. apply queue_rep_nil.
Qed.

(** [pthread_mutex_trylock] implements the abstract mutex without waiting: it
    takes the mutex exactly when [pthread_mutex_lock] would not wait, and
    otherwise returns EBUSY in an unchanged state. *)
Lemma mutex_trylock_refines p self pr m s σ :
  procs (krn σ) !! p = Some pr -> thread_self_at (glb σ) (pr_sp pr) = self ->
  mutex_rep σ m s -> ms_valid s ->
  match ms_take self s with
  | Some s' => exists mu, evals p (__pthread_mutex_trylock m) σ (Done 0 (put_mutex m mu σ)) /\
                          mutex_rep (put_mutex m mu σ) m s'
  | None => evals p (__pthread_mutex_trylock m) σ (Done EBUSY σ)
  end.
Proof.
  intros Hp Hs [(v & Hm & Hq)] Hv. unfold ms_take, __pthread_mutex_trylock.
  destruct s as [kind c o l]; simpl in *. unfold ms_valid in Hv; simpl in Hv.
  destruct Hv as [->| ->]; cbn [Z.eqb PTHREAD_MUTEX_FAST_NP PTHREAD_MUTEX_RECURSIVE_NP].
  - destruct (c =? 0) eqn:Hc.
    + exists (mk_mutex 0 1 o PTHREAD_MUTEX_FAST_NP v). split.
      * csteps. unfold put_mutex. by collapse.
      * constructor. exists v. split; [apply lookup_insert_eq | done].
    + csteps. collapse. by apply put_mutex_id.
  - destruct ((c =? 0) || (o =? self)) eqn:Hc.
    + exists (mk_mutex 0 (int_of (c + 1)) self PTHREAD_MUTEX_RECURSIVE_NP v). split.
      * csteps. rewrite Hs. csteps. unfold put_mutex. by collapse.
      * constructor. exists v. split; [apply lookup_insert_eq | done].
    + csteps. collapse. by apply put_mutex_id.
Qed.

(** lock, when the mutex may be taken *)
Lemma mutex_lock_takes p self pr m s s' σ :
  procs (krn σ) !! p = Some pr -> thread_self_at (glb σ) (pr_sp pr) = self ->
  mutex_rep σ m s -> ms_valid s -> ms_take self s = Some s' ->
  exists mu, evals p (__pthread_mutex_lock m) σ (Done 0 (put_mutex m mu σ)) /\
             mutex_rep (put_mutex m mu σ) m s'.
Proof.
  intros Hp Hs [(v & Hm & Hq)] Hv Ht. unfold ms_take in Ht.
  destruct s as [kind c o l]; simpl in *. unfold ms_valid in Hv; simpl in Hv.
  destruct Hv as [->| ->]; cbn in Ht.
  - destruct (c =? 0) eqn:Hc; simplify_eq/=.
    exists (mk_mutex 0 1 o PTHREAD_MUTEX_FAST_NP v). split.
    + eapply evals_loop_stop. unfold lock_body. csteps. unfold put_mutex. by collapse.
    + constructor. exists v. split; [apply lookup_insert_eq | done].
  - destruct ((c =? 0) || (o =? self)) eqn:Hc; simplify_eq/=.
    exists (mk_mutex 0 (int_of (c + 1)) (thread_self_at (glb σ) (pr_sp pr))
              PTHREAD_MUTEX_RECURSIVE_NP v). split.
    + eapply evals_loop_stop. unfold lock_body. csteps. unfold put_mutex. by collapse.
    + constructor. exists v. split; [apply lookup_insert_eq | done].
Qed.

(** The part of [lock] before it suspends, when the mutex is taken: the
    thread is last in the queue, and the mutex is otherwise unchanged. *)
Lemma lock_body_waits p self pr d m s σ :
  runs_thread p self pr d σ -> self <> NULL -> p_nextwaiting d = NULL ->
  mutex_rep σ m s -> ms_valid s -> ms_take self s = None -> self ∉ ms_waiting s ->
  exists mu T, mutex_rep (put_mutex m mu (setf thr T σ)) m (ms_wait self s) /\
    links_only (ms_waiting s) (thr σ) T /\
    forall r, evals p (suspend self ;; Ret (inl tt)) (put_mutex m mu (setf thr T σ)) r ->
              evals p (lock_body m tt) σ r.
Proof.
  intros [Hp Hs Hd] Hnn Hnw [(v & Hm & Hq)] Hv Ht Hin.
  destruct s as [kind c o l]; simpl in *. unfold ms_valid in Hv; simpl in Hv.
  set (σ1 := put_mutex m (mk_mutex locked c o kind v) σ).
  destruct (enqueue_correct p (m_waiting_at m) v l self σ1) as (v' & T & He & Hr' & Hl);
    [unfold σ1; simpl; lookup_tac | exact Hq | done | done | |].
  { unfold next_of. simpl. by rewrite Hd, <- Hnw. }
  exists (mk_mutex 0 c o kind v'), T. split; [|split; [exact Hl|]].
  { constructor. exists v'. split; [apply lookup_insert_eq | exact Hr']. }
  intros r Hr0.
  assert (Hw : evals p (lock_wait m self) σ1 r).
  { unfold lock_wait. eapply evals_bind; [exact He|].
    erewrite put_queue_mtx by (unfold σ1; lookup_tac). unfold σ1, put_mutex.
    csteps. unfold put_mutex in Hr0. collapse. exact Hr0. }
  unfold ms_take in Ht. simpl in Ht. unfold lock_body.
  destruct Hv as [->| ->]; cbn in Ht.
  - destruct (c =? 0) eqn:Hc; [done|]. csteps. rewrite Hs. exact Hw.
  - destruct ((c =? 0) || (o =? self)) eqn:Hc; [done|]. csteps. rewrite Hs.
    cbn [orb]. csteps. exact Hw.
Qed.

(** lock, when the mutex is taken and no signal is there to wake the thread *)
Lemma mutex_lock_blocks p self pr d m s σ :
  runs_thread p self pr d σ -> self <> NULL -> p_nextwaiting d = NULL ->
  mutex_rep σ m s -> ms_valid s -> ms_take self s = None -> self ∉ ms_waiting s ->
  pick_signal (pr_pending pr) (sigdelset (pr_mask pr) PTHREAD_SIG_RESTART) = None ->
  exists σ', evals p (__pthread_mutex_lock m) σ (Blocks σ') /\
    mutex_rep σ' m (ms_wait self s) /\ links_only (ms_waiting s) (thr σ) (thr σ') /\
    krn σ' = krn σ.
Proof.
  intros Hrt Hnn Hnw Hrep Hv Ht Hin Hpick.
  destruct (lock_body_waits p self pr d m s σ) as (mu & T & Hr' & Hl & Hb); try done.
  eexists. split; [|split; [exact Hr' | split; [exact Hl | done]]].
  apply evals_loop_block, Hb, evals_bind_block. eapply suspend_blocks; [apply Hrt | done].
Qed.

(** The descriptors after the first thread has left the queue. *)
Definition unlinked_head (x : option addr) (T : gmap Z _pthread) : gmap Z _pthread :=
  match x with Some x => alter (setf p_nextwaiting NULL) x T | None => T end.

(** unlock: [unlock_wake] with the queue it finds *)
Lemma unlock_wake_spec p m c o kind v l σ :
  mtx σ !! m = Some (mk_mutex locked c o kind v) -> queue_rep (thr σ) v l ->
  (forall x, head l = Some x -> exists d pr,
     thr σ !! x = Some d /\ procs (krn σ) !! p_pid d = Some pr) ->
  exists v' T, queue_rep T v' (tail l) /\ T = unlinked_head (head l) (thr σ) /\
    evals p (unlock_wake m) σ
      (Done 0 (let σ1 := put_mutex m (mk_mutex 0 c o kind v') (setf thr T σ) in
               match head l ≫= fun x => thr σ !! x with
               | Some d => post_signal (p_pid d) PTHREAD_SIG_RESTART σ1
               | None => σ1
               end)).
Proof.
  intros Hm Hq Hw. unfold unlock_wake. destruct l as [|x l].
  - exists v, (thr σ). split; [done|]. split; [done|]. simpl.
    eapply evals_bind; [eapply dequeue_nil_spec; [simpl; by rewrite Hm | exact Hq]|].
    by csteps.
  - destruct (Hw x eq_refl) as (d & pr & Hd & Hp).
    destruct (dequeue_correct p (m_waiting_at m) v x l σ) as (v' & T & He & Hr' & -> & Hn);
      [simpl; by rewrite Hm | done |].
    do 2 eexists. split; [exact Hr'|]. split; [done|]. simpl. rewrite Hd.
    eapply evals_bind; [exact He|]. erewrite put_queue_mtx by lookup_tac.
    assert (x <> NULL) by (pose proof (qr_null _ _ _ Hq); set_solver).
    unfold put_mutex. csteps. eapply evals_bind.
    + eapply (restart_spec p x (setf p_nextwaiting NULL d) pr); [|exact Hp].
      fields. by rewrite lookup_alter_eq, Hd.
    + csteps. by collapse.
Qed.

Lemma mutex_unlock_refines p m s σ :
  mutex_rep σ m s -> ms_valid s ->
  (forall x, (ms_drop s).2 = Some x -> exists d pr,
     thr σ !! x = Some d /\ procs (krn σ) !! p_pid d = Some pr) ->
  exists σ', evals p (__pthread_mutex_unlock m) σ (Done 0 σ') /\
    mutex_rep σ' m (ms_drop s).1 /\
    thr σ' = unlinked_head (ms_drop s).2 (thr σ) /\ cnd σ' = cnd σ /\ glb σ' = glb σ /\
    krn σ' = match (ms_drop s).2 ≫= fun x => thr σ !! x with
             | Some d => krn (post_signal (p_pid d) PTHREAD_SIG_RESTART σ)
             | None => krn σ
             end.
Proof.
  intros [(v & Hm & Hq)] Hv Hw. destruct s as [kind c o l].
  unfold ms_valid, ms_drop in *. simpl in *.
  destruct ((kind =? PTHREAD_MUTEX_RECURSIVE_NP) && (int_of (c - 1) >? 0)) eqn:Hc;
    simpl in *.
  - apply andb_prop in Hc as [->%Z.eqb_eq Hc].
    exists (put_mutex m (mk_mutex 0 (int_of (c - 1)) o PTHREAD_MUTEX_RECURSIVE_NP v) σ).
    split; [|split; [|done]].
    + unfold __pthread_mutex_unlock. csteps. unfold put_mutex. by collapse.
    + constructor. exists v. split; [apply lookup_insert_eq | done].
  - assert (Hpre : forall r, evals p (unlock_wake m)
      (put_mutex m (mk_mutex locked 0 o kind v) σ) r -> evals p (__pthread_mutex_unlock m) σ r).
    { intros r He. destruct Hv as [->| ->]; unfold __pthread_mutex_unlock; csteps;
        unfold put_mutex in He; collapse; exact He. }
    destruct (unlock_wake_spec p m 0 o kind v l
      (put_mutex m (mk_mutex locked 0 o kind v) σ)) as (v' & T & Hr' & -> & He);
      [apply lookup_insert_eq | exact Hq | exact Hw |].
    eexists. split; [|split].
    + eapply Hpre, He.
    + constructor. exists v'. simpl. split; [|by destruct (head l ≫= _)].
      destruct (head l ≫= _); apply lookup_insert_eq.
    + simpl. by destruct (head l ≫= _).
Qed.

Lemma mutex_destroy_spec p m s σ :
  mutex_rep σ m s ->
  evals p (__pthread_mutex_destroy m) σ
    (Done (if ms_count s >? 0 then EBUSY else 0) σ).
Proof.
  intros [(v & Hm & Hq)]. unfold __pthread_mutex_destroy. csteps.
  destruct (ms_count s >? 0) eqn:Hc; csteps; collapse; by apply put_mutex_id.
Qed.

(** *** A mutex of an unknown kind

    [lock], [trylock] and [unlock] return EINVAL without releasing the
    spinlock: the next operation on the mutex never returns. *)
Lemma mutex_held_hangs p m mu σ :
  mtx σ !! m = Some mu -> m_spinlock mu = locked ->
  hangs p (__pthread_mutex_lock m) σ /\ hangs p (__pthread_mutex_trylock m) σ /\
  hangs p (__pthread_mutex_unlock m) σ /\ hangs p (__pthread_mutex_destroy m) σ.
Proof.
  intros Hm Hl.
  assert (Hh : forall A (k : unit -> itree evt A),
    hangs p (ITree.bind (acquire (m_spinlock_at m)) k) σ).
  { intros A k. by eapply (acquire_held_hangs mtx m_spinlock m_spinlock_at). }
  split; [apply hangs_loop_l; apply Hh|]. repeat split; apply Hh.
Qed.

Lemma mutex_bad_kind p m mu σ :
  mtx σ !! m = Some mu -> m_spinlock mu = 0 ->
  m_kind mu <> PTHREAD_MUTEX_FAST_NP -> m_kind mu <> PTHREAD_MUTEX_RECURSIVE_NP ->
  let σ' := put_mutex m (setf m_spinlock locked mu) σ in
  evals p (__pthread_mutex_lock m) σ (Done EINVAL σ') /\
  evals p (__pthread_mutex_trylock m) σ (Done EINVAL σ') /\
  evals p (__pthread_mutex_unlock m) σ (Done EINVAL σ').
Proof.
  intros Hm Hl H0 H1 σ'. split; [eapply evals_loop_stop|split].
  - unfold lock_body. by csteps.
  - unfold __pthread_mutex_trylock. by csteps.
  - unfold __pthread_mutex_unlock. by csteps.
Qed.

(** *** Attributes *)

Lemma mutexattr_setkind_spec p a kind ma σ :
  mattrs σ !! a = Some ma ->
  evals p (__pthread_mutexattr_setkind_np a kind) σ
    (if bool_decide (kind = PTHREAD_MUTEX_FAST_NP \/ kind = PTHREAD_MUTEX_RECURSIVE_NP)
     then Done 0 (setf mattrs (<[a := mk_mutexattr kind]> (mattrs σ)) σ)
     else Done EINVAL σ).
Proof.
  intros Ha. unfold __pthread_mutexattr_setkind_np. case_bool_decide as Hk.
  - by destruct Hk as [->| ->]; csteps.
  - by csteps.
Qed.

(** *** The library's own mutexes: fast, and nobody waits *)

Definition fast_mutex (count : Z) (o : addr) : pthread_mutex_t :=
  mk_mutex 0 count o PTHREAD_MUTEX_FAST_NP (mk_queue NULL NULL).

Lemma evals_fast_lock {A} m o (k : Z -> itree evt A) p J σ r :
  mtx σ !! m = Some (fast_mutex 0 o) ->
  evals p (k 0) (put_mutex m (fast_mutex 1 o) σ) r ->
  evalsJ p (ITree.bind (__pthread_mutex_lock m) k) J σ r.
Proof.
  intros Hm Hk. eapply evals_bind; [|exact Hk]. eapply evals_loop_stop.
  unfold lock_body, fast_mutex in *. csteps. unfold put_mutex. by collapse.
Qed.

Lemma evals_fast_unlock {A} m c o (k : Z -> itree evt A) p J σ r :
  mtx σ !! m = Some (fast_mutex c o) ->
  evals p (k 0) (put_mutex m (fast_mutex 0 o) σ) r ->
  evalsJ p (ITree.bind (__pthread_mutex_unlock m) k) J σ r.
Proof.
  intros Hm Hk. eapply evals_bind; [|exact Hk].
  unfold __pthread_mutex_unlock, fast_mutex, unlock_wake in *. csteps.
  eapply evals_bind; [eapply dequeue_nil_spec; [simpl; lookup_tac | apply queue_rep_nil]|].
  csteps. unfold put_mutex. by collapse.
Qed.

(** *** Locking and unlocking several times *)

Lemma ms_take_drop self s s' :
  ms_valid s -> ms_waiting s = [] -> ms_count s = 0 -> ms_take self s = Some s' ->
  (ms_drop s').1 = mk_mutex_st (ms_kind s) 0 (ms_owner s') [].
Proof.
  destruct s as [k c o l]. unfold ms_valid, ms_take. simpl. intros [->| ->] -> -> E;
    simpl in E; injection E as <-; reflexivity.
Qed.

(** ** The theorems *)

(** C8: [pthread_mutex_lock] implements the abstract mutex.  If the calling
    thread may take the mutex (a free mutex, or a recursive one it owns), it
    returns 0 with the mutex taken and nothing else changed; if not, the
    thread is put behind the threads that already wait, the mutex is
    otherwise unchanged, and the thread sleeps. *)
Theorem mutex_lock_correct p self pr d m s σ :
  runs_thread p self pr d σ -> self <> NULL -> p_nextwaiting d = NULL ->
  mutex_rep σ m s -> ms_valid s -> self ∉ ms_waiting s ->
  pick_signal (pr_pending pr) (sigdelset (pr_mask pr) PTHREAD_SIG_RESTART) = None ->
  match ms_take self s with
  | Some s' => exists σ', evals p (__pthread_mutex_lock m) σ (Done 0 σ') /\
      mutex_rep σ' m s' /\ thr σ' = thr σ /\ krn σ' = krn σ
  | None => exists σ', evals p (__pthread_mutex_lock m) σ (Blocks σ') /\
      mutex_rep σ' m (ms_wait self s) /\ links_only (ms_waiting s) (thr σ) (thr σ') /\
      krn σ' = krn σ
  end.
Proof.
  intros Hrt Hnull Hw Hrep Hv Hni Hp. destruct (ms_take self s) as [s'|] eqn:Ht.
  - destruct Hrt as [Hpr Hs Hd].
    destruct (mutex_lock_takes p self pr m s s' σ Hpr Hs Hrep Hv Ht) as (mu & He & Hrep').
    by exists (put_mutex m mu σ).
  - by eapply mutex_lock_blocks.
Qed.

(** C9: [pthread_mutex_unlock] implements the abstract mutex: it drops one
    level of a recursive mutex, or frees the mutex, takes the thread that has
    waited longest off the queue and posts the restart signal to it, and to
    nobody else. *)
Theorem mutex_unlock_correct p m s σ :
  mutex_rep σ m s -> ms_valid s ->
  (forall x, head (ms_waiting s) = Some x -> exists d pr,
     thr σ !! x = Some d /\ procs (krn σ) !! p_pid d = Some pr) ->
  exists σ', evals p (__pthread_mutex_unlock m) σ (Done 0 σ') /\
    mutex_rep σ' m (ms_drop s).1 /\
    match (ms_drop s).2 with
    | Some x => exists d pr, thr σ !! x = Some d /\ procs (krn σ) !! p_pid d = Some pr /\
        krn σ' = krn (post_signal (p_pid d) PTHREAD_SIG_RESTART σ) /\
        thr σ' = alter (setf p_nextwaiting NULL) x (thr σ)
    | None => krn σ' = krn σ /\ thr σ' = thr σ
    end.
Proof.
  intros Hrep Hv Hh.
  assert (Hh' : forall x, (ms_drop s).2 = Some x -> exists d pr,
     thr σ !! x = Some d /\ procs (krn σ) !! p_pid d = Some pr).
  { intros x Hx. apply Hh. unfold ms_drop in Hx. by destruct (_ && _). }
  destruct (mutex_unlock_refines p m s σ Hrep Hv Hh') as (σ' & He & Hrep' & HT & _ & _ & Hk).
  exists σ'. split; [done|]. split; [done|]. destruct (ms_drop s).2 as [x|]; [|done].
  destruct (Hh' x eq_refl) as (d & pr & Hd & Hp). simpl in Hk. rewrite Hd in Hk.
  by exists d, pr.
Qed.

(** C39: an operation on a mutex of an unknown kind returns EINVAL and leaves
    the spinlock of the mutex held; from then on no operation on the mutex
    returns, in any process. *)
Theorem mutex_bad_kind_hangs p m mu σ :
  mtx σ !! m = Some mu -> m_spinlock mu = 0 ->
  m_kind mu <> PTHREAD_MUTEX_FAST_NP -> m_kind mu <> PTHREAD_MUTEX_RECURSIVE_NP ->
  exists σ', evals p (__pthread_mutex_lock m) σ (Done EINVAL σ') /\
    evals p (__pthread_mutex_trylock m) σ (Done EINVAL σ') /\
    evals p (__pthread_mutex_unlock m) σ (Done EINVAL σ') /\
    forall q, hangs q (__pthread_mutex_lock m) σ' /\ hangs q (__pthread_mutex_trylock m) σ' /\
              hangs q (__pthread_mutex_unlock m) σ' /\ hangs q (__pthread_mutex_destroy m) σ'.
Proof.
  intros Hm Hs H1 H2. destruct (mutex_bad_kind p m mu σ Hm Hs H1 H2) as (E1 & E2 & E3).
  eexists. split; [exact E1|]. split; [exact E2|]. split; [exact E3|].
  intros q. eapply mutex_held_hangs; [apply lookup_insert_eq | done].
Qed.

(** *** Recursive mutexes *)

Fixpoint times (n : nat) (t : itree evt Z) : itree evt unit :=
  match n with
  | O => Ret tt
  | S n' => t ;; times n' t
  end.

Lemma recursive_lock_times p self pr m c o w n σ :
  procs (krn σ) !! p = Some pr -> thread_self_at (glb σ) (pr_sp pr) = self ->
  mutex_rep σ m (mk_mutex_st PTHREAD_MUTEX_RECURSIVE_NP c o w) -> (c = 0 \/ o = self) ->
  0 <= c -> c + Z.of_nat n <= INT_MAX -> (0 < n)%nat ->
  exists σ', evals p (times n (__pthread_mutex_lock m)) σ (Done tt σ') /\
    mutex_rep σ' m (mk_mutex_st PTHREAD_MUTEX_RECURSIVE_NP (c + Z.of_nat n) self w) /\
    thr σ' = thr σ /\ krn σ' = krn σ /\ glb σ' = glb σ.
Proof.
  revert c o σ. induction n as [|n IH]; intros c o σ Hp Hs Hrep Ho Hc Hn Hpos; [lia|].
  unfold INT_MAX in Hn.
  destruct (mutex_lock_takes p self pr m _ (mk_mutex_st PTHREAD_MUTEX_RECURSIVE_NP (c + 1) self w)
              σ Hp Hs Hrep) as (mu & He & Hrep'); [by right | |].
  { unfold ms_take. simpl. rewrite int_of_small by lia.
    destruct Ho as [-> | ->]; [done|]. by rewrite Z.eqb_refl, orb_true_r. }
  destruct n as [|n].
  - exists (put_mutex m mu σ). simpl times. split; [|done].
    eapply evals_bind; [exact He|]. apply evals_ret.
  - destruct (IH (c + 1) self (put_mutex m mu σ)) as (σ' & He' & Hr2 & F);
      [done | done | done | by right | lia | unfold INT_MAX; lia | lia |].
    exists σ'. split; [eapply evals_bind; [exact He | exact He']|].
    replace (c + Z.of_nat (S (S n))) with (c + 1 + Z.of_nat (S n)) by lia. done.
Qed.

Lemma recursive_unlock_times p m c o w n σ :
  mutex_rep σ m (mk_mutex_st PTHREAD_MUTEX_RECURSIVE_NP c o w) ->
  Z.of_nat n < c <= INT_MAX ->
  exists σ', evals p (times n (__pthread_mutex_unlock m)) σ (Done tt σ') /\
    mutex_rep σ' m (mk_mutex_st PTHREAD_MUTEX_RECURSIVE_NP (c - Z.of_nat n) o w) /\
    thr σ' = thr σ /\ krn σ' = krn σ.
Proof.
  revert c σ. induction n as [|n IH]; intros c σ Hrep Hc; unfold INT_MAX in Hc.
  - exists σ. simpl. rewrite Z.sub_0_r. split; [apply evals_ret | done].
  - assert (Hd : ms_drop (mk_mutex_st PTHREAD_MUTEX_RECURSIVE_NP c o w) =
                 (mk_mutex_st PTHREAD_MUTEX_RECURSIVE_NP (c - 1) o w, None)).
    { unfold ms_drop. cbn [ms_kind ms_count ms_owner ms_waiting]. rewrite Z.eqb_refl, int_of_small by lia. simpl.
      by replace (c - 1 >? 0) with true by lia. }
    destruct (mutex_unlock_refines p m _ σ Hrep) as (σ1 & He & Hr1 & HT & _ & _ & Hk);
      [by right | by rewrite Hd |].
    rewrite Hd in *. simpl in HT, Hk, Hr1.
    destruct (IH (c - 1) σ1 Hr1) as (σ' & He' & Hrep' & HT' & Hk'); [unfold INT_MAX; lia|].
    exists σ'. split; [eapply evals_bind; [exact He | exact He']|].
    replace (c - Z.of_nat (S n)) with (c - 1 - Z.of_nat n) by lia.
    split; [done|]. split; congruence.
Qed.

(** a recursive mutex counts.  A thread that locks a free recursive mutex
    [n + 1] times holds it with that count, after [n] unlocks it still holds
    it with count 1, and nobody has been woken up; the last unlock frees it,
    with the owner field unchanged and the first waiting thread gone from the
    queue. *)
Theorem mutex_recursive p self pr m o w n σ :
  procs (krn σ) !! p = Some pr -> thread_self_at (glb σ) (pr_sp pr) = self ->
  mutex_rep σ m (mk_mutex_st PTHREAD_MUTEX_RECURSIVE_NP 0 o w) ->
  (forall x, head w = Some x -> exists d pr,
     thr σ !! x = Some d /\ procs (krn σ) !! p_pid d = Some pr) ->
  Z.of_nat n < INT_MAX ->
  exists σ1 σ2 σ3, evals p (times (S n) (__pthread_mutex_lock m)) σ (Done tt σ1) /\
    mutex_rep σ1 m (mk_mutex_st PTHREAD_MUTEX_RECURSIVE_NP (Z.of_nat n + 1) self w) /\
    evals p (times n (__pthread_mutex_unlock m)) σ1 (Done tt σ2) /\
    mutex_rep σ2 m (mk_mutex_st PTHREAD_MUTEX_RECURSIVE_NP 1 self w) /\ krn σ2 = krn σ /\
    evals p (__pthread_mutex_unlock m) σ2 (Done 0 σ3) /\
    mutex_rep σ3 m (mk_mutex_st PTHREAD_MUTEX_RECURSIVE_NP 0 self (tail w)).
Proof.
  intros Hp Hs Hrep Hw Hn.
  destruct (recursive_lock_times p self pr m 0 o w (S n) σ Hp Hs Hrep)
    as (σ1 & E1 & R1 & T1 & K1 & _); [by left | lia.. |].
  replace (0 + Z.of_nat (S n)) with (Z.of_nat n + 1) in R1 by lia.
  destruct (recursive_unlock_times p m _ self w n σ1 R1) as (σ2 & E2 & R2 & T2 & K2); [lia|].
  replace (Z.of_nat n + 1 - Z.of_nat n) with 1 in R2 by lia.
  destruct (mutex_unlock_refines p m _ σ2 R2) as (σ3 & E3 & R3 & _); [by right | |].
  { rewrite T2, T1, K2, K1. exact Hw. }
  exists σ1, σ2, σ3. repeat split; try done; try congruence; apply R2 || apply R3 || apply R1.
Qed.
End specs.
