(* ===== verification/Cleanup.v ===== *)
(** * Cleanup handlers (the stack of cleanup buffers of cancel.c)

    The buffers are linked through [prev], the last one pushed first; its
    head is the field [p_cleanup] of the thread. *)

From S2P Require Import Prelude Types Machine MachineFacts Platform Memory Spinlock Queue.
From S2P Require Import Restart.

Section cleanup.
Context {P : Platform} {U : UserCode}.

Definition _pthread_cleanup_push (buffer routine_ arg_ : addr) : itree evt unit :=
  self <- thread_self ;;
  store bufs buffer routine routine_ ;;
  store bufs buffer cl_arg arg_ ;;
  c <- load thr self p_cleanup ;;
  store bufs buffer prev c ;;
  store thr self p_cleanup buffer.

(** [buffer->routine(buffer->arg)] *)
Definition call_cleanup (buffer : addr) : itree evt unit :=
  f <- load bufs buffer routine ;;
  a <- load bufs buffer cl_arg ;;
  call_fn f a ;;
  Ret tt.

Definition _pthread_cleanup_pop (buffer : addr) (execute : Z) : itree evt unit :=
  self <- thread_self ;;
  when (istrue execute) (call_cleanup buffer) ;;
  c <- load bufs buffer prev ;;
  store thr self p_cleanup c.

(** The macros of pthread.h: the block that pthread_cleanup_push opens has an
    automatic buffer, and ends at the matching pthread_cleanup_pop. *)
Definition pthread_cleanup_push (routine arg : addr) : itree evt addr :=
  _buffer <- auto_buffer ;;
  _pthread_cleanup_push _buffer routine arg ;;
  Ret _buffer.

Definition pthread_cleanup_pop (_buffer : addr) (execute : Z) : itree evt unit :=
  _pthread_cleanup_pop _buffer execute ;;
  auto_buffer_end _buffer.

Definition _pthread_cleanup_push_defer (buffer routine_ arg_ : addr) : itree evt unit :=
  self <- thread_self ;;
  store bufs buffer routine routine_ ;;
  store bufs buffer cl_arg arg_ ;;
  t <- load thr self p_canceltype ;;
  store bufs buffer canceltype t ;;
  c <- load thr self p_cleanup ;;
  store bufs buffer prev c ;;
  store thr self p_canceltype PTHREAD_CANCEL_DEFERRED ;;
  store thr self p_cleanup buffer.

Definition pthread_cleanup_push_defer_np (routine arg : addr) : itree evt addr :=
  _buffer <- auto_buffer ;;
  _pthread_cleanup_push_defer _buffer routine arg ;;
  Ret _buffer.

Definition perform_cleanup_body (c : addr) : itree evt (addr + unit) :=
  if c =? NULL then Ret (inr tt) else
  call_cleanup c ;;
  c <- load bufs c prev ;;
  Ret (inl c).

Definition __pthread_perform_cleanup : itree evt unit :=
  self <- thread_self ;;
  c <- load thr self p_cleanup ;;
  c_loop perform_cleanup_body c.
End cleanup.

(** ** The stack of handlers *)

(** The handlers a thread would call, from the buffer [c] on. *)
Fixpoint cleanup_chain (B : gmap Z _pthread_cleanup_buffer) (c : addr) (l : list (addr * Z))
    : Prop :=
  match l with
  | [] => c = NULL
  | (f, a) :: l' => c <> NULL /\ exists b, B !! c = Some b /\ routine b = f /\ cl_arg b = a /\
                    cleanup_chain B (prev b) l'
  end.

(** The same with the addresses of the buffers. *)
Fixpoint cleanup_bufs (B : gmap Z _pthread_cleanup_buffer) (c : addr) (l : list addr) : Prop :=
  match l with
  | [] => c = NULL
  | x :: l' => c = x /\ x <> NULL /\ exists b, B !! x = Some b /\ cleanup_bufs B (prev b) l'
  end.

Section specs.
Context {H : Handlers} {P : Platform} {U : UserCode}.

(** Calls of the functions [l], in that order, each of which returns and
    leaves the buffers alone. *)
Inductive calls_run (p : pid_t) : list (addr * Z) -> state -> state -> Prop :=
| calls_nil σ : calls_run p [] σ σ
| calls_cons f a l z σ σ1 σ2 :
    evals p (call_fn f a) σ (Done z σ1) -> bufs σ1 = bufs σ ->
    calls_run p l σ1 σ2 -> calls_run p ((f, a) :: l) σ σ2.

(** When a thread terminates, all its cleanup handlers are called, each with
    its argument, the last pushed first. *)
Lemma perform_cleanup_spec p self pr d l σ σ' :
  runs_thread p self pr d σ -> cleanup_chain (bufs σ) (p_cleanup d) l ->
  calls_run p l σ σ' -> evals p __pthread_perform_cleanup σ (Done tt σ').
Proof.
  intros [Hp Hs Hd] Hc Hrun. unfold __pthread_perform_cleanup. cstep. rewrite Hs. csteps.
  clear Hd Hp Hs. revert Hc. generalize (p_cleanup d) as c.
  induction Hrun as [σ|f a l z σ σ1 σ2 Hf Hb Hrun IH]; simpl; intros c Hc.
  - eapply evals_loop_stop. unfold perform_cleanup_body. subst. by csteps.
  - destruct Hc as (Hn & b & Hb0 & Hbf & Hba & Hc).
    eapply evals_loop_next; [|apply IH; by rewrite Hb].
    unfold perform_cleanup_body, call_cleanup. csteps. rewrite Hbf, Hba.
    eapply evals_bind; [exact Hf|]. rewrite <- Hb in Hb0. by csteps.
Qed.

Lemma cleanup_push_spec p self pr d b0 buffer f a σ :
  runs_thread p self pr d σ -> bufs σ !! buffer = Some b0 ->
  evals p (_pthread_cleanup_push buffer f a) σ
    (Done tt (setf thr (<[self := setf p_cleanup buffer d]> (thr σ))
      (setf bufs (<[buffer := mk_cleanup f a (canceltype b0) (p_cleanup d)]> (bufs σ)) σ))).
Proof.
  intros [Hp Hs Hd] Hb. unfold _pthread_cleanup_push. cstep. rewrite Hs. csteps.
  by collapse.
Qed.

Lemma cleanup_pop_spec p self pr d b buffer σ :
  runs_thread p self pr d σ -> bufs σ !! buffer = Some b ->
  evals p (_pthread_cleanup_pop buffer 0) σ
    (Done tt (setf thr (<[self := setf p_cleanup (prev b) d]> (thr σ)) σ)).
Proof.
  intros [Hp Hs Hd] Hb. unfold _pthread_cleanup_pop. cstep. rewrite Hs. by csteps.
Qed.

(** With [execute], the handler is called before it is taken off. *)
Lemma cleanup_pop_execute p self pr d b buffer e z σ σ1 d1 :
  runs_thread p self pr d σ -> bufs σ !! buffer = Some b -> e <> 0 ->
  evals p (call_fn (routine b) (cl_arg b)) σ (Done z σ1) ->
  bufs σ1 = bufs σ -> thr σ1 !! self = Some d1 ->
  evals p (_pthread_cleanup_pop buffer e) σ
    (Done tt (setf thr (<[self := setf p_cleanup (prev b) d1]> (thr σ1)) σ1)).
Proof.
  intros [Hp Hs Hd] Hb He Hf Hb1 Hd1. unfold _pthread_cleanup_pop. cstep. rewrite Hs.
  rewrite (istrue_nonzero e He). cstep. unfold call_cleanup. csteps.
  eapply evals_bind; [exact Hf|]. rewrite <- Hb1 in Hb. by csteps.
Qed.

Lemma cleanup_chain_push B c l buffer b f a bs :
  cleanup_chain B c l -> cleanup_bufs B c bs -> buffer ∉ bs -> buffer <> NULL ->
  routine b = f -> cl_arg b = a -> prev b = c ->
  cleanup_chain (<[buffer := b]> B) buffer ((f, a) :: l).
Proof.
  intros Hc Hbs Hin Hn Hf Ha Hp. split; [done|]. exists b. rewrite lookup_insert_eq.
  repeat (split; [done|]). rewrite Hp. clear Hp. revert c l Hc Hbs Hin.
  induction bs as [|x bs IH]; intros c l Hc Hbs Hin.
  - simpl in Hbs. subst. destruct l as [|[f' a'] l]; [done|]. by destruct Hc.
  - destruct Hbs as (-> & Hx & b1 & Hb1 & Hbs). destruct l as [|[f' a'] l]; [done|].
    destruct Hc as (_ & b2 & Hb2 & ? & ? & Hc). simplify_eq.
    split; [done|]. eexists. rewrite lookup_insert_ne by set_solver.
    split; [eassumption|]. repeat (split; [done|]). apply IH; [done | done | set_solver].
Qed.

(** A buffer that is not on the stack does not matter. *)
Lemma cleanup_chain_frame B c bs l buffer b :
  cleanup_bufs B c bs -> buffer ∉ bs -> cleanup_chain B c l -> cleanup_chain (<[buffer := b]> B) c l.
Proof.
  revert c bs. induction l as [|[f a] l IH]; intros c bs Hbs Hni Hc; [done|].
  destruct Hc as (Hn & b' & Hb' & Hf & Ha & Hc). split; [done|]. exists b'.
  destruct bs as [|x bs]; [by destruct Hbs|]. destruct Hbs as (-> & _ & b2 & Hb2 & Hbs).
  simplify_eq. rewrite lookup_insert_ne by set_solver.
  split; [done|]. split; [done|]. split; [done|]. eapply IH; [exact Hbs | set_solver | done].
Qed.

(** the cleanup buffers form a stack.  After [pthread_cleanup_push] the
    handler is the first that would be called, before those that were there;
    [pthread_cleanup_pop] without execution puts the thread back exactly as
    it was, with the earlier handlers. *)
Theorem cleanup_push_pop p self pr d b0 buffer f a l bs σ :
  runs_thread p self pr d σ -> bufs σ !! buffer = Some b0 ->
  cleanup_chain (bufs σ) (p_cleanup d) l -> cleanup_bufs (bufs σ) (p_cleanup d) bs ->
  buffer ∉ bs -> buffer <> NULL ->
  exists σ1 d1 σ2, evals p (_pthread_cleanup_push buffer f a) σ (Done tt σ1) /\
    thr σ1 !! self = Some d1 /\ cleanup_chain (bufs σ1) (p_cleanup d1) ((f, a) :: l) /\
    evals p (_pthread_cleanup_pop buffer 0) σ1 (Done tt σ2) /\
    thr σ2 = thr σ /\ cleanup_chain (bufs σ2) (p_cleanup d) l.
Proof.
  intros Hrt Hb Hc Hbs Hni Hnull. pose proof Hrt as [Hp Hs Hd].
  set (b := mk_cleanup f a (canceltype b0) (p_cleanup d)).
  eexists _, _, _. split; [by eapply cleanup_push_spec|].
  split; [apply lookup_insert_eq|]. split; [by eapply cleanup_chain_push|]. split.
  { eapply (cleanup_pop_spec p self pr (setf p_cleanup buffer d) b);
      [constructor; [done | done | apply lookup_insert_eq] | apply lookup_insert_eq]. }
  fields. split.
  - rewrite insert_insert_eq. apply insert_id. rewrite Hd. by destruct d.
  - by apply (cleanup_chain_frame _ _ bs).
Qed.
End specs.
