(* ===== verification/Specific.v ===== *)
(** * Thread-specific data (specific.c) *)

From S2P Require Import Prelude Types Machine MachineFacts Platform Memory Spinlock Queue.
From S2P Require Import Restart Mutex.

Section specific.
Context {P : Platform} {U : UserCode}.

(** [pthread_keys[i].fld] and [pthread_keys[i] = k] *)
Definition get_key {X} (i : Z) (fld : pthread_key_struct -> X) : itree evt X :=
  act (fun _ σ => match pthread_keys (glb σ) !! Z.to_nat i with
                  | Some k => Some (fld k, σ)
                  | None => None
                  end).

Definition set_key {X} (i : Z) (fld : pthread_key_struct -> X) `{!Setter fld} (v : X)
    : itree evt unit :=
  act (fun _ σ => match pthread_keys (glb σ) !! Z.to_nat i with
                  | Some k => Some (tt, setf glb (setf pthread_keys
                      (<[Z.to_nat i := setf fld v k]> (pthread_keys (glb σ))) (glb σ)) σ)
                  | None => None
                  end).

(** [self->p_specific[i]] and [self->p_specific[i] = v] *)
Definition get_specific (self : addr) (i : Z) : itree evt Z :=
  act (fun _ σ => match thr σ !! self with
                  | Some d => match p_specific d !! Z.to_nat i with
                              | Some v => Some (v, σ)
                              | None => None
                              end
                  | None => None
                  end).

Definition set_specific (self : addr) (i : Z) (v : Z) : itree evt unit :=
  act (fun _ σ => match thr σ !! self with
                  | Some d => match p_specific d !! Z.to_nat i with
                              | Some _ => Some (tt, setf thr (<[self := setf p_specific
                                  (<[Z.to_nat i := v]> (p_specific d)) d]> (thr σ)) σ)
                              | None => None
                              end
                  | None => None
                  end).

Definition key_create_body (key destr_ : addr) (i : Z) : itree evt (Z + Z) :=
  if negb (i <? PTHREAD_KEYS_MAX) then
    __pthread_mutex_unlock addr_keys_mutex ;;
    Ret (inr EAGAIN)
  else
    u <- get_key i in_use ;;
    if istrue u then Ret (inl (int_of (i + 1)))
    else
      set_key i in_use 1 ;;
      set_key i destr destr_ ;;
      __pthread_mutex_unlock addr_keys_mutex ;;
      store_word key i ;;
      Ret (inr 0).

Definition __pthread_key_create (key destr_ : addr) : itree evt Z :=
  __pthread_mutex_lock addr_keys_mutex ;;
  c_loop (key_create_body key destr_) 0.

(** [pthread_key_t] is [unsigned int]: [key] is not negative. *)
Definition pthread_key_delete (key : Z) : itree evt Z :=
  __pthread_mutex_lock addr_keys_mutex ;;
  bad <- (if key >=? PTHREAD_KEYS_MAX then Ret true
          else u <- get_key key in_use ;; Ret (negb (istrue u))) ;;
  if bad : bool then
    __pthread_mutex_unlock addr_keys_mutex ;;
    Ret EINVAL
  else
    set_key key in_use 0 ;;
    set_key key destr NULL ;;
    __pthread_mutex_unlock addr_keys_mutex ;;
    Ret 0.

Definition __pthread_setspecific (key : Z) (pointer : addr) : itree evt Z :=
  self <- thread_self ;;
  if key >=? PTHREAD_KEYS_MAX then Ret EINVAL
  else
    set_specific self key pointer ;;
    Ret 0.

Definition __pthread_getspecific (key : Z) : itree evt addr :=
  self <- thread_self ;;
  if key >=? PTHREAD_KEYS_MAX then Ret NULL
  else get_specific self key.

Definition destroy_body (self : addr) (i : Z) : itree evt (Z + unit) :=
  if negb (i <? PTHREAD_KEYS_MAX) then Ret (inr tt) else
  destr_ <- get_key i destr ;;
  data <- get_specific self i ;;
  (if negb (destr_ =? NULL) && negb (data =? NULL)
   then call_fn destr_ data ;; Ret tt else Ret tt) ;;
  Ret (inl (int_of (i + 1))).

Definition __pthread_destroy_specifics : itree evt unit :=
  self <- thread_self ;;
  c_loop (destroy_body self) 0.
End specific.

(** ** Specifications *)

(** The first key that is not in use, from [i] on. *)
Fixpoint first_free (keys : list pthread_key_struct) (i : Z) : option Z :=
  match keys with
  | [] => None
  | k :: keys' => if istrue (in_use k) then first_free keys' (i + 1) else Some i
  end.

Lemma first_free_spec keys i j :
  first_free keys i = Some j ->
  i <= j < i + Z.of_nat (length keys) /\
  (exists k, keys !! Z.to_nat (j - i) = Some k /\ in_use k = 0) /\
  forall n k, (n < Z.to_nat (j - i))%nat -> keys !! n = Some k -> in_use k <> 0.
Proof.
  revert i. induction keys as [|k keys IH]; intros i; simpl; [done|].
  destruct (istrue (in_use k)) eqn:Hk.
  - intros Hf. destruct (IH _ Hf) as (Hr & (k' & Hk' & Hu) & Hb). split; [lia|].
    replace (Z.to_nat (j - i)) with (S (Z.to_nat (j - (i + 1)))) by lia. split; [by exists k'|].
    intros [|n] k0 Hn; simpl.
    + intros [= <-]. intros E. by rewrite E in Hk.
    + apply Hb. lia.
  - intros [= <-]. split; [lia|]. rewrite Z.sub_diag. split; [|lia].
    exists k. split; [done|]. unfold istrue in Hk. lia.
Qed.

Section specs.
Context {H : Handlers} {P : Platform} {Pok : PlatformOk P} {U : UserCode}
  {Hr : RestartHandler H P}.

Definition put_keys (keys : list pthread_key_struct) (σ : state) : state :=
  setf glb (setf pthread_keys keys (glb σ)) σ.

Definition keys_full (σ : state) : Prop :=
  length (pthread_keys (glb σ)) = Z.to_nat PTHREAD_KEYS_MAX.

Lemma evals_get_key {A X} i kk (fld : pthread_key_struct -> X) (k : X -> itree evt A) p J σ r :
  pthread_keys (glb σ) !! Z.to_nat i = Some kk -> evalsJ p (k (fld kk)) J σ r ->
  evalsJ p (ITree.bind (get_key i fld) k) J σ r.
Proof. intros Hk. eapply evals_act. simpl. by rewrite Hk. Qed.

Lemma evals_set_key {A X} i kk (fld : pthread_key_struct -> X) `{!Setter fld} v
    (k : unit -> itree evt A) p J σ r :
  pthread_keys (glb σ) !! Z.to_nat i = Some kk ->
  evalsJ p (k tt) J (put_keys (<[Z.to_nat i := setf fld v kk]> (pthread_keys (glb σ))) σ) r ->
  evalsJ p (ITree.bind (set_key i fld v) k) J σ r.
Proof. intros Hk. eapply evals_act. simpl. by rewrite Hk. Qed.

Lemma evals_get_specific {A} self i d v (k : Z -> itree evt A) p J σ r :
  thr σ !! self = Some d -> p_specific d !! Z.to_nat i = Some v ->
  evalsJ p (k v) J σ r -> evalsJ p (ITree.bind (get_specific self i) k) J σ r.
Proof. intros Hd Hv. eapply evals_act. simpl. by rewrite Hd, Hv. Qed.

(** Both fields of a key set. *)
Lemma evals_fill_key {A} i kk u f (k : unit -> itree evt A) p J σ r :
  pthread_keys (glb σ) !! Z.to_nat i = Some kk ->
  evalsJ p (k tt) J (put_keys (<[Z.to_nat i := mk_key u f]> (pthread_keys (glb σ))) σ) r ->
  evalsJ p (set_key i in_use u ;; x <- set_key i destr f ;; k x) J σ r.
Proof.
  intros Hk Hr0. eapply evals_set_key; [exact Hk|]. eapply evals_set_key.
  - unfold put_keys. fields. by apply list_lookup_insert_eq, lookup_lt_is_Some_1.
  - unfold put_keys in *. collapse. rewrite list_insert_insert_eq. exact Hr0.
Qed.

(** The loop of key_create, from [i] on, with the mutex held. *)
Lemma key_create_loop p key f o w i σ :
  keys_full σ -> 0 <= i <= PTHREAD_KEYS_MAX ->
  mtx σ !! addr_keys_mutex = Some (fast_mutex 1 o) -> words σ !! key = Some w ->
  evals p (c_loop (key_create_body key f) i) σ
    (let σ1 := put_mutex addr_keys_mutex (fast_mutex 0 o) σ in
     match first_free (drop (Z.to_nat i) (pthread_keys (glb σ))) i with
     | Some j => Done 0 (setf words (<[key := j]> (words σ))
         (put_keys (<[Z.to_nat j := mk_key 1 f]> (pthread_keys (glb σ))) σ1))
     | None => Done EAGAIN σ1
     end).
Proof.
  intros Hlen Hi Hm Hw. remember (Z.to_nat (PTHREAD_KEYS_MAX - i)) as n eqn:Hn.
  revert i Hi Hn. induction n as [|n IH]; intros i Hi Hn.
  - rewrite drop_ge by (rewrite Hlen; lia). eapply evals_loop_stop.
    unfold key_create_body. csteps. eapply evals_fast_unlock; [done|]. by csteps.
  - assert (Hlt : (Z.to_nat i < length (pthread_keys (glb σ)))%nat) by (rewrite Hlen; lia).
    apply lookup_lt_is_Some in Hlt as [k Hk]. rewrite (drop_S _ _ _ Hk). simpl.
    destruct (istrue (in_use k)) eqn:Hu.
    + eapply evals_loop_next with (a' := i + 1).
      * unfold key_create_body. csteps.
        eapply evals_get_key; [done|]. rewrite Hu. csteps.
        f_equal. apply int_of_small. unfold PTHREAD_KEYS_MAX in *. lia.
      * replace (S (Z.to_nat i)) with (Z.to_nat (i + 1)) by lia. apply IH; lia.
    + eapply evals_loop_stop. unfold key_create_body. csteps.
      eapply evals_get_key; [done|]. rewrite Hu. eapply evals_fill_key; [done|].
      cred. eapply evals_fast_unlock; [done|]. by csteps.
Qed.

Lemma put_fast_mutex_back m o c σ :
  mtx σ !! m = Some (fast_mutex 0 o) ->
  put_mutex m (fast_mutex 0 o) (put_mutex m (fast_mutex c o) σ) = σ.
Proof.
  intros Hm. unfold put_mutex. collapse. rewrite insert_id by done. by destruct σ.
Qed.

(** The first free key is allocated and its number stored; with all keys in
    use, EAGAIN and nothing changes. *)
Lemma key_create_spec p key f o w σ :
  keys_full σ -> mtx σ !! addr_keys_mutex = Some (fast_mutex 0 o) ->
  words σ !! key = Some w ->
  evals p (__pthread_key_create key f) σ
    match first_free (pthread_keys (glb σ)) 0 with
    | Some j => Done 0 (setf words (<[key := j]> (words σ))
        (put_keys (<[Z.to_nat j := mk_key 1 f]> (pthread_keys (glb σ))) σ))
    | None => Done EAGAIN σ
    end.
Proof.
  intros Hlen Hm Hw. unfold __pthread_key_create. eapply evals_fast_lock; [done|].
  pose proof (key_create_loop p key f o w 0 (put_mutex addr_keys_mutex (fast_mutex 1 o) σ))
    as Hl.
  simpl in Hl. rewrite put_fast_mutex_back in Hl by done.
  apply Hl; [done | by vm_compute | apply lookup_insert_eq | done].
Qed.

Lemma key_delete_spec p key o σ :
  keys_full σ -> mtx σ !! addr_keys_mutex = Some (fast_mutex 0 o) -> 0 <= key ->
  evals p (pthread_key_delete key) σ
    match pthread_keys (glb σ) !! Z.to_nat key with
    | Some k => if istrue (in_use k)
                then Done 0 (put_keys (<[Z.to_nat key := mk_key 0 NULL]>
                              (pthread_keys (glb σ))) σ)
                else Done EINVAL σ
    | None => Done EINVAL σ
    end.
Proof.
  intros Hlen Hm Hk. unfold pthread_key_delete. eapply evals_fast_lock; [done|].
  set (σ1 := put_mutex addr_keys_mutex (fast_mutex 1 o) σ).
  assert (Hm1 : mtx σ1 !! addr_keys_mutex = Some (fast_mutex 1 o)) by apply lookup_insert_eq.
  destruct (key >=? PTHREAD_KEYS_MAX) eqn:Hge.
  - rewrite (proj2 (lookup_ge_None _ _)) by (rewrite Hlen; unfold PTHREAD_KEYS_MAX in *; lia).
    csteps. eapply evals_fast_unlock; [done|]. csteps. by apply put_fast_mutex_back.
  - assert (Hlt : (Z.to_nat key < length (pthread_keys (glb σ)))%nat)
      by (rewrite Hlen; unfold PTHREAD_KEYS_MAX in *; lia).
    apply lookup_lt_is_Some in Hlt as [k Hkk]. rewrite Hkk. csteps.
    eapply evals_get_key; [exact Hkk|].
    destruct (istrue (in_use k)) eqn:Hu; csteps.
    + cbn [negb]. cbv iota. eapply evals_fill_key; [exact Hkk|].
      eapply evals_fast_unlock; [exact Hm1|]. csteps.
      unfold σ1, put_keys, put_mutex. collapse. f_equal. rewrite insert_id by done.
      by destruct σ.
    + cbn [negb]. cbv iota. eapply evals_fast_unlock; [exact Hm1|]. csteps.
      by apply put_fast_mutex_back.
Qed.

(** *** Values *)

Lemma setspecific_spec p self pr d key v σ :
  runs_thread p self pr d σ -> length (p_specific d) = Z.to_nat PTHREAD_KEYS_MAX ->
  0 <= key ->
  evals p (__pthread_setspecific key v) σ
    (if key >=? PTHREAD_KEYS_MAX then Done EINVAL σ
     else Done 0 (setf thr (<[self := setf p_specific (<[Z.to_nat key := v]> (p_specific d)) d]>
                             (thr σ)) σ)).
Proof.
  intros [Hp Hs Hd] Hlen Hk. unfold __pthread_setspecific. cstep. rewrite Hs.
  destruct (key >=? PTHREAD_KEYS_MAX) eqn:Hge; [by csteps|].
  assert (Hlt : (Z.to_nat key < length (p_specific d))%nat)
    by (rewrite Hlen; unfold PTHREAD_KEYS_MAX in *; lia).
  apply lookup_lt_is_Some in Hlt as [v0 Hv0].
  eapply evals_act; [cbn; by rewrite Hd, Hv0|]. by csteps.
Qed.

Lemma getspecific_spec p self pr d key σ :
  runs_thread p self pr d σ -> length (p_specific d) = Z.to_nat PTHREAD_KEYS_MAX ->
  0 <= key ->
  evals p (__pthread_getspecific key) σ
    (Done (default NULL (p_specific d !! Z.to_nat key)) σ).
Proof.
  intros [Hp Hs Hd] Hlen Hk. unfold __pthread_getspecific. cstep. rewrite Hs.
  destruct (key >=? PTHREAD_KEYS_MAX) eqn:Hge.
  - rewrite (proj2 (lookup_ge_None _ _)) by (rewrite Hlen; unfold PTHREAD_KEYS_MAX in *; lia).
    by csteps.
  - assert (Hlt : (Z.to_nat key < length (p_specific d))%nat)
      by (rewrite Hlen; unfold PTHREAD_KEYS_MAX in *; lia).
    apply lookup_lt_is_Some in Hlt as [v0 Hv0]. rewrite Hv0.
    apply evals_unbind. eapply evals_get_specific; [done | done |]. by csteps.
Qed.

(** *** Destruction *)

(** The destructors to call: key by key, those with a function and a
    value. *)
Fixpoint destructors (keys : list pthread_key_struct) (vals : list Z) : list (addr * Z) :=
  match keys, vals with
  | k :: keys', v :: vals' =>
      if negb (destr k =? NULL) && negb (v =? NULL)
      then (destr k, v) :: destructors keys' vals' else destructors keys' vals'
  | _, _ => []
  end.

(** Calls that leave the table of keys and the values of the thread alone. *)
Inductive destr_run (p : pid_t) (self : addr) : list (addr * Z) -> state -> state -> Prop :=
| destr_nil σ : destr_run p self [] σ σ
| destr_cons f a l z σ σ1 σ2 :
    evals p (call_fn f a) σ (Done z σ1) -> pthread_keys (glb σ1) = pthread_keys (glb σ) ->
    p_specific <$> thr σ1 !! self = p_specific <$> thr σ !! self ->
    destr_run p self l σ1 σ2 -> destr_run p self ((f, a) :: l) σ σ2.

Lemma destroy_loop p self i σ σ' vals :
  keys_full σ -> p_specific <$> thr σ !! self = Some vals ->
  length vals = Z.to_nat PTHREAD_KEYS_MAX -> 0 <= i <= PTHREAD_KEYS_MAX ->
  destr_run p self (destructors (drop (Z.to_nat i) (pthread_keys (glb σ)))
                      (drop (Z.to_nat i) vals)) σ σ' ->
  evals p (c_loop (destroy_body self) i) σ (Done tt σ').
Proof.
  intros Hlen Hvals Hvl Hi Hrun. remember (Z.to_nat (PTHREAD_KEYS_MAX - i)) as n eqn:Hn.
  revert i σ Hlen Hvals Hi Hn Hrun. induction n as [|n IH]; intros i σ Hlen Hvals Hi Hn Hrun.
  - rewrite drop_ge in Hrun by (rewrite Hlen; lia). inversion Hrun; subst.
    eapply evals_loop_stop. unfold destroy_body. by csteps.
  - assert (exists k, pthread_keys (glb σ) !! Z.to_nat i = Some k) as [k Hk]
      by (apply lookup_lt_is_Some; rewrite Hlen; lia).
    assert (exists v, vals !! Z.to_nat i = Some v) as [v Hv]
      by (apply lookup_lt_is_Some; rewrite Hvl; lia).
    rewrite (drop_S _ _ _ Hk), (drop_S _ _ _ Hv) in Hrun. simpl in Hrun.
    destruct (thr σ !! self) as [d|] eqn:Hd; [|done]. injection Hvals as Hvals.
    assert (Hi1 : int_of (i + 1) = i + 1)
      by (apply int_of_small; unfold PTHREAD_KEYS_MAX in *; lia).
    replace (S (Z.to_nat i)) with (Z.to_nat (i + 1)) in Hrun by lia.
    destruct (negb (destr k =? NULL) && negb (v =? NULL)) eqn:Hc.
    + inversion Hrun as [|f a l z σ0 σ1 σ2 Hf Hkeys Hsp Hrest]; subst.
      eapply evals_loop_next with (a' := i + 1).
      * unfold destroy_body. csteps. eapply evals_get_key; [exact Hk|].
        eapply evals_get_specific; [exact Hd | exact Hv |]. rewrite Hc. csteps.
        eapply evals_bind; [exact Hf|]. csteps. by rewrite Hi1.
      * apply IH; [by unfold keys_full; rewrite Hkeys | by rewrite Hsp, Hd | lia | lia |].
        by rewrite Hkeys.
    + eapply evals_loop_next with (a' := i + 1).
      * unfold destroy_body. csteps. eapply evals_get_key; [exact Hk|].
        eapply evals_get_specific; [exact Hd | by rewrite Hvals |]. rewrite Hc. csteps.
        by rewrite Hi1.
      * apply IH; [done | by rewrite Hd, <- Hvals | lia | lia | done].
Qed.

(** ** The theorems *)

Lemma first_free_none keys i :
  first_free keys i = None -> Forall (fun k => in_use k <> 0) keys.
Proof.
  revert i. induction keys as [|k keys IH]; intros i; [constructor|]. simpl.
  destruct (istrue (in_use k)) eqn:Hu; [|done]. intros Hn. constructor; [|by eapply IH].
  by intros E; rewrite E in Hu.
Qed.

Lemma first_free_at keys i n k :
  keys !! n = Some k -> in_use k = 0 ->
  (forall j k', (j < n)%nat -> keys !! j = Some k' -> in_use k' <> 0) ->
  first_free keys i = Some (i + Z.of_nat n).
Proof.
  revert i n. induction keys as [|k0 keys IH]; intros i n Hk Hu Hlt; [done|]. simpl.
  destruct n as [|n]; simpl in Hk.
  - injection Hk as ->. rewrite Hu. simpl. f_equal. lia.
  - rewrite istrue_nonzero by (by apply (Hlt 0%nat k0); [lia|]).
    rewrite (IH (i + 1) n Hk Hu); [f_equal; lia|]. intros j k' Hj. apply (Hlt (S j)). lia.
Qed.

(** [pthread_key_create] allocates the lowest free key: a key that was
    not in use is marked and gets the destructor, its number is stored, and
    the other keys keep their state; only if all 128 keys are in use does it
    fail, with EAGAIN and no effect. *)
Theorem key_create_correct p key f o w σ :
  keys_full σ -> mtx σ !! addr_keys_mutex = Some (fast_mutex 0 o) -> words σ !! key = Some w ->
  (exists j k σ', pthread_keys (glb σ) !! j = Some k /\ in_use k = 0 /\
     (forall i k', (i < j)%nat -> pthread_keys (glb σ) !! i = Some k' -> in_use k' <> 0) /\
     evals p (__pthread_key_create key f) σ (Done 0 σ') /\
     words σ' !! key = Some (Z.of_nat j) /\
     pthread_keys (glb σ') = <[j := mk_key 1 f]> (pthread_keys (glb σ)) /\
     mtx σ' = mtx σ /\ thr σ' = thr σ /\ krn σ' = krn σ) \/
  (Forall (fun k => in_use k <> 0) (pthread_keys (glb σ)) /\
   evals p (__pthread_key_create key f) σ (Done EAGAIN σ)).
Proof.
  intros Hf Hm Hw. pose proof (key_create_spec p key f o w σ Hf Hm Hw) as He.
  destruct (first_free (pthread_keys (glb σ)) 0) as [j|] eqn:Hj.
  - left. apply first_free_spec in Hj as (Hj & (k & Hk & Hu) & Hlt).
    rewrite Z.sub_0_r in Hk, Hlt. eexists (Z.to_nat j), k, _.
    split; [done|]. split; [done|]. split; [done|]. split; [exact He|].
    rewrite Z2Nat.id by lia. split; [apply lookup_insert_eq | done].
  - right. split; [by eapply first_free_none | done].
Qed.

(** The key has been created and not deleted since. *)
Definition allocated (key : Z) (σ : state) : Prop :=
  0 <= key /\ exists k, pthread_keys (glb σ) !! Z.to_nat key = Some k /\ in_use k <> 0.

Lemma allocated_range key σ : keys_full σ -> allocated key σ -> 0 <= key < PTHREAD_KEYS_MAX.
Proof.
  intros Hf (Hk & k & Hl%lookup_lt_Some & _). unfold keys_full in Hf. rewrite Hf in Hl. lia.
Qed.

(** Storing and reading, whether the key is allocated or not: only its range is
    tested. *)
Lemma specific_stored p self pr d key v σ :
  runs_thread p self pr d σ -> length (p_specific d) = Z.to_nat PTHREAD_KEYS_MAX ->
  0 <= key < PTHREAD_KEYS_MAX ->
  let d' := setf p_specific (<[Z.to_nat key := v]> (p_specific d)) d in
  let σ' := setf thr (<[self := d']> (thr σ)) σ in
  evals p (__pthread_setspecific key v) σ (Done 0 σ') /\
  runs_thread p self pr d' σ' /\
  length (p_specific d') = Z.to_nat PTHREAD_KEYS_MAX /\
  forall key', 0 <= key' -> evals p (__pthread_getspecific key') σ'
    (Done (default NULL (p_specific d' !! Z.to_nat key')) σ').
Proof.
  intros Hrt Hl Hk d' σ'. split.
  { pose proof (setspecific_spec p self pr d key v σ Hrt Hl (proj1 Hk)) as E.
    replace (key >=? PTHREAD_KEYS_MAX) with false in E by lia. exact E. }
  assert (Hrt' : runs_thread p self pr d' σ').
  { destruct Hrt as [Hp Hs Hd]. constructor; [done | done | apply lookup_insert_eq]. }
  assert (Hl' : length (p_specific d') = Z.to_nat PTHREAD_KEYS_MAX).
  { unfold d'. fields. by rewrite length_insert. }
  split; [done|]. split; [done|]. intros key' Hk'. by apply (getspecific_spec p self pr d').
Qed.

(** C23: a thread reads back the value it has stored under an allocated key;
    storing under one key changes neither the values of its other allocated
    keys nor those of other threads, and the keys stay allocated. *)
Theorem specific_roundtrip p self pr d key v σ :
  runs_thread p self pr d σ -> length (p_specific d) = Z.to_nat PTHREAD_KEYS_MAX ->
  keys_full σ -> allocated key σ ->
  exists σ', evals p (__pthread_setspecific key v) σ (Done 0 σ') /\
    evals p (__pthread_getspecific key) σ' (Done v σ') /\
    (forall key', allocated key' σ -> key' <> key ->
       exists v', evals p (__pthread_getspecific key') σ (Done v' σ) /\
                  evals p (__pthread_getspecific key') σ' (Done v' σ')) /\
    (forall th, th <> self -> thr σ' !! th = thr σ !! th) /\ glb σ' = glb σ.
Proof.
  intros Hrt Hl Hf Ha. pose proof (allocated_range key σ Hf Ha) as Hk.
  destruct (specific_stored p self pr d key v σ Hrt Hl Hk) as (E & _ & _ & Eg).
  eexists. split; [exact E|]. split; [|split; [|split; [|done]]].
  - specialize (Eg key (proj1 Hk)). fields_in Eg. rewrite list_lookup_insert_eq in Eg by lia. exact Eg.
  - intros key' [Hk' _] Hne. eexists. split; [by apply (getspecific_spec p self pr d)|].
    specialize (Eg key' Hk'). fields_in Eg. rewrite list_lookup_insert_ne in Eg by lia. exact Eg.
  - intros th Hne. by apply lookup_insert_ne.
Qed.

(** A key that is not allocated is not refused: the value is stored, 0 is
    returned, and the value is read back. *)
Theorem setspecific_unallocated p self pr d key k v σ :
  runs_thread p self pr d σ -> length (p_specific d) = Z.to_nat PTHREAD_KEYS_MAX ->
  0 <= key < PTHREAD_KEYS_MAX -> pthread_keys (glb σ) !! Z.to_nat key = Some k -> in_use k = 0 ->
  exists σ', evals p (__pthread_setspecific key v) σ (Done 0 σ') /\
    evals p (__pthread_getspecific key) σ' (Done v σ').
Proof.
  intros Hrt Hl Hk _ _.
  destruct (specific_stored p self pr d key v σ Hrt Hl Hk) as (E & _ & _ & Eg).
  eexists. split; [exact E|]. specialize (Eg key (proj1 Hk)). fields_in Eg.
  rewrite list_lookup_insert_eq in Eg by lia. exact Eg.
Qed.

(** C24: at the end of a thread the destructors are called in the order of the
    keys, each with the value of the thread, exactly for the keys that have
    a destructor and a value. *)
Theorem destroy_specifics_correct p self pr d σ σ' :
  runs_thread p self pr d σ -> keys_full σ ->
  length (p_specific d) = Z.to_nat PTHREAD_KEYS_MAX ->
  destr_run p self (destructors (pthread_keys (glb σ)) (p_specific d)) σ σ' ->
  evals p __pthread_destroy_specifics σ (Done tt σ').
Proof.
  intros [Hp Hs Hd] Hf Hl Hrun. unfold __pthread_destroy_specifics.
  eapply evals_thread_self; [done|]. rewrite Hs.
  eapply (destroy_loop p self 0 σ σ' (p_specific d)); [done | by rewrite Hd | done | done | done].
Qed.

(** a key that is deleted and created again still holds the old values:
    [pthread_key_create] does not reset them to NULL, although the manual
    page says that a new key has the value NULL in all threads. *)
Theorem key_reuse_keeps_value p self pr d key kk f o w ka σ :
  runs_thread p self pr d σ -> length (p_specific d) = Z.to_nat PTHREAD_KEYS_MAX ->
  keys_full σ -> mtx σ !! addr_keys_mutex = Some (fast_mutex 0 o) -> words σ !! ka = Some w ->
  0 <= key < PTHREAD_KEYS_MAX ->
  pthread_keys (glb σ) !! Z.to_nat key = Some kk -> in_use kk <> 0 ->
  (forall j k', (j < Z.to_nat key)%nat -> pthread_keys (glb σ) !! j = Some k' -> in_use k' <> 0) ->
  exists σ', evals p (pthread_key_delete key ;; __pthread_key_create ka f) σ (Done 0 σ') /\
    words σ' !! ka = Some key /\
    evals p (__pthread_getspecific key) σ'
      (Done (default NULL (p_specific d !! Z.to_nat key)) σ').
Proof.
  intros Hrt Hl Hf Hm Hw Hkr Hk Hu Hlt.
  assert (Hlen : (Z.to_nat key < length (pthread_keys (glb σ)))%nat) by (apply lookup_lt_Some in Hk; lia).
  set (keys1 := <[Z.to_nat key := mk_key 0 NULL]> (pthread_keys (glb σ))).
  assert (Hf1 : keys_full (put_keys keys1 σ)).
  { unfold keys_full, put_keys. fields. unfold keys1. by rewrite length_insert. }
  assert (Hff : first_free keys1 0 = Some key).
  { rewrite (first_free_at keys1 0 (Z.to_nat key) (mk_key 0 NULL)); [f_equal; lia | | done |].
    - unfold keys1. by rewrite list_lookup_insert_eq.
    - intros j k' Hj. unfold keys1. rewrite list_lookup_insert_ne by lia. by apply Hlt. }
  eexists. split; [|split].
  - eapply evals_bind.
    { pose proof (key_delete_spec p key o σ Hf Hm (proj1 Hkr)) as E.
      rewrite Hk, (istrue_nonzero _ Hu) in E. exact E. }
    pose proof (key_create_spec p ka f o w (put_keys keys1 σ) Hf1 Hm Hw) as E.
    change (pthread_keys (glb (put_keys keys1 σ))) with keys1 in E. rewrite Hff in E. exact E.
  - apply lookup_insert_eq.
  - eapply (getspecific_spec p self pr d); [|done|lia].
    destruct Hrt as [Hp Hs Hd]. by constructor.
Qed.
End specs.
