(* ===== verification/Join.v ===== *)
(** * Termination, joining and detaching (join.c) *)

From S2P Require Import Prelude Types Machine MachineFacts Platform Memory Spinlock Queue.
From S2P Require Import Restart Mutex Cleanup Specific.

Section join.
Context {P : Platform} {U : UserCode}.

(** It does not return: the type of the result is arbitrary. *)
Definition pthread_exit {X} (retval : Z) : itree evt X :=
  self <- thread_self ;;
  store thr self p_canceled 0 ;;
  __pthread_perform_cleanup ;;
  __pthread_destroy_specifics ;;
  acquire (p_spinlock_at self) ;;
  store thr self p_retval retval ;;
  store thr self p_terminated 1 ;;
  joining <- load thr self p_joining ;;
  release (p_spinlock_at self) ;;
  when (negb (joining =? NULL)) (restart joining) ;;
  main <- get_glb __pthread_main_thread ;;
  req_fd <- get_glb __pthread_manager_request ;;
  when ((self =? main) && (req_fd >=? 0))
    (fd <- get_glb __pthread_manager_request ;;
     write_request fd (mk_request self REQ_MAIN_THREAD_EXIT) ;;
     suspend self) ;;
  _exit 0.

(** The notification at the end of [pthread_join] and [pthread_detach]. *)
Definition request_free (self th : addr) : itree evt unit :=
  fd <- get_glb __pthread_manager_request ;;
  write_request fd (mk_request self (REQ_FREE th)).

Definition pthread_join (th thread_return : addr) : itree evt Z :=
  self <- thread_self ;;
  if th =? self then Ret EDEADLK else
  acquire (p_spinlock_at th) ;;
  det <- load thr th p_detached ;;
  joining <- load thr th p_joining ;;
  if istrue det || negb (joining =? NULL) then
    release (p_spinlock_at th) ;;
    Ret EINVAL
  else
  terminated <- load thr th p_terminated ;;
  (if istrue terminated then Ret tt else
     store thr th p_joining self ;;
     release (p_spinlock_at th) ;;
     suspend_with_cancellation self ;;
     acquire (p_spinlock_at th) ;;
     c <- cancel_pending self ;;
     if c : bool then
       store thr th p_joining NULL ;;
       release (p_spinlock_at th) ;;
       pthread_exit PTHREAD_CANCELED
     else Ret tt) ;;
  (if thread_return =? NULL then Ret tt else
     v <- load thr th p_retval ;;
     store_word thread_return v) ;;
  release (p_spinlock_at th) ;;
  req_fd <- get_glb __pthread_manager_request ;;
  when (req_fd >=? 0) (request_free self th) ;;
  Ret 0.

Definition pthread_detach (th : addr) : itree evt Z :=
  acquire (p_spinlock_at th) ;;
  det <- load thr th p_detached ;;
  if istrue det then
    release (p_spinlock_at th) ;;
    Ret EINVAL
  else
  joining <- load thr th p_joining ;;
  if negb (joining =? NULL) then
    release (p_spinlock_at th) ;;
    Ret 0
  else
  store thr th p_detached 1 ;;
  terminated <- load thr th p_terminated ;;
  release (p_spinlock_at th) ;;
  req_fd <- get_glb __pthread_manager_request ;;
  when (istrue terminated && (req_fd >=? 0))
    (self <- thread_self ;; request_free self th) ;;
  Ret 0.
End join.

(** ** Specifications *)

Section specs.
Context {H : Handlers} {P : Platform} {Pok : PlatformOk P} {U : UserCode}
  {Hr : RestartHandler H P}.

Definition put_thr (a : addr) (d : _pthread) (σ : state) : state :=
  setf thr (<[a := d]> (thr σ)) σ.

(** A request in the pipe of the manager. *)
Definition requested (r : pthread_request) (σ : state) : state :=
  upd_krn (fun k => setf pipe_data (pipe_data k ++ [r]) k) σ.

(** [pthread_join] of a thread that has terminated. *)
Lemma join_terminated p self pr th d rp w σ :
  procs (krn σ) !! p = Some pr -> thread_self_at (glb σ) (pr_sp pr) = self ->
  th <> self -> thr σ !! th = Some d -> p_spinlock d = 0 ->
  p_detached d = 0 -> p_joining d = NULL -> p_terminated d <> 0 ->
  rp <> NULL -> words σ !! rp = Some w -> 0 <= __pthread_manager_request (glb σ) ->
  evals p (pthread_join th rp) σ
    (Done 0 (requested (mk_request self (REQ_FREE th))
               (setf words (<[rp := p_retval d]> (words σ)) σ))).
Proof.
  intros Hp Hs Hne Hd Hl Hdet Hj Ht Hrp Hw Hreq. unfold pthread_join. cstep. rewrite Hs.
  csteps. rewrite Hdet, Hj. csteps. rewrite (istrue_nonzero _ Ht). csteps.
  unfold request_free, write_request. csteps. unfold requested. collapse.
  rewrite <- Hl. replace (setf p_spinlock (p_spinlock d) d) with d by by destruct d.
  rewrite insert_id by done. by destruct σ.
Qed.

(** Joining oneself; joining a thread that is detached or already joined. *)
Lemma join_self p pr rp σ :
  procs (krn σ) !! p = Some pr ->
  evals p (pthread_join (thread_self_at (glb σ) (pr_sp pr)) rp) σ (Done EDEADLK σ).
Proof. intros Hp. unfold pthread_join. by csteps. Qed.

Lemma join_refused p pr th d rp σ :
  procs (krn σ) !! p = Some pr -> th <> thread_self_at (glb σ) (pr_sp pr) ->
  thr σ !! th = Some d -> p_spinlock d = 0 -> p_detached d <> 0 \/ p_joining d <> NULL ->
  evals p (pthread_join th rp) σ (Done EINVAL σ).
Proof.
  intros Hp Hne Hd Hl Hdj. unfold pthread_join. csteps.
  assert (Hc : istrue (p_detached d) || negb (p_joining d =? NULL) = true).
  { destruct Hdj as [Hx|Hx]; [by rewrite istrue_nonzero|].
    rewrite (proj2 (Z.eqb_neq _ _) Hx). apply orb_true_r. }
  rewrite Hc. csteps. collapse. rewrite <- Hl.
  replace (setf p_spinlock (p_spinlock d) d) with d by by destruct d.
  rewrite insert_id by done. by destruct σ.
Qed.

(** Joining a running thread: the joiner is recorded and waits. *)
Lemma join_blocks p self pr ds th d rp σ :
  runs_thread p self pr ds σ -> to_cancel ds = false ->
  pick_signal (pr_pending pr) (sigdelset (pr_mask pr) PTHREAD_SIG_RESTART) = None ->
  th <> self -> thr σ !! th = Some d -> p_spinlock d = 0 ->
  p_detached d = 0 -> p_joining d = NULL -> p_terminated d = 0 ->
  evals p (pthread_join th rp) σ
    (Blocks (waiting_cancel self (put_thr th (setf p_joining self d) σ))).
Proof.
  intros [Hp Hs Hds] Hc Hpick Hne Hd Hl Hdet Hj Ht. unfold pthread_join. cstep. rewrite Hs.
  csteps. rewrite Hdet, Hj. csteps. rewrite Ht. csteps. collapse. apply evals_bind_block.
  replace (setf p_spinlock 0 _) with (setf p_joining self d).
  2:{ rewrite <- Hl at 1. by destruct d. }
  eapply (suspend_with_cancellation_blocks p self pr ds); [|done | done].
  constructor; [done | done |]. unfold put_thr. fields. by rewrite lookup_insert_ne.
Qed.

(** *** detach *)

Lemma detach_refused p th d σ :
  thr σ !! th = Some d -> p_spinlock d = 0 -> p_detached d <> 0 ->
  evals p (pthread_detach th) σ (Done EINVAL σ).
Proof.
  intros Hd Hl Hdet. unfold pthread_detach. csteps. rewrite (istrue_nonzero _ Hdet).
  csteps. collapse. rewrite <- Hl.
  replace (setf p_spinlock (p_spinlock d) d) with d by by destruct d.
  rewrite insert_id by done. by destruct σ.
Qed.

(** A running thread is only marked; one that has terminated is reported to
    the manager. *)
Lemma detach_spec p self pr th d σ :
  procs (krn σ) !! p = Some pr -> thread_self_at (glb σ) (pr_sp pr) = self ->
  thr σ !! th = Some d -> p_spinlock d = 0 -> p_detached d = 0 -> p_joining d = NULL ->
  0 <= __pthread_manager_request (glb σ) ->
  evals p (pthread_detach th) σ
    (Done 0 (let σ1 := put_thr th (setf p_detached 1 d) σ in
             if istrue (p_terminated d) then requested (mk_request self (REQ_FREE th)) σ1
             else σ1)).
Proof.
  intros Hp Hs Hd Hl Hdet Hj Hreq. unfold pthread_detach. csteps. rewrite Hdet. csteps.
  assert (Hd' : setf p_spinlock 0 (setf p_detached 1 d) =
    setf p_detached 1 d) by (rewrite <- Hl at 1; by destruct d).
  destruct (istrue (p_terminated d)) eqn:Ht.
  - csteps. rewrite Hs. unfold request_free, write_request. csteps.
    unfold requested, put_thr. collapse. by rewrite Hd'.
  - csteps. unfold put_thr. collapse. by rewrite Hd'.
Qed.

(** *** exit *)

(** The last part of [pthread_exit], after the handlers: [σ] with the
    descriptor [d] of the thread. *)
Definition exit_marked (self retval : Z) (d : _pthread) (σ : state) : state :=
  put_thr self (setf p_terminated 1 (setf p_retval retval d)) σ.

Definition joiner_woken (d : _pthread) (σ : state) : state :=
  match thr σ !! p_joining d with
  | Some dj => if p_joining d =? NULL then σ
               else post_signal (p_pid dj) PTHREAD_SIG_RESTART σ
  | None => σ
  end.

(** A thread other than the main one: its result is stored, the thread that
    joins it is restarted, and its process exits. *)
Lemma pthread_exit_spec {X} p self pr d0 retval d σ σ1 σ2 :
  runs_thread p self pr d0 σ -> self <> __pthread_main_thread (glb σ2) ->
  evals p __pthread_perform_cleanup (put_thr self (setf p_canceled 0 d0) σ) (Done tt σ1) ->
  evals p __pthread_destroy_specifics σ1 (Done tt σ2) ->
  thr σ2 !! self = Some d -> p_spinlock d = 0 -> p_joining d <> self ->
  (p_joining d <> NULL -> exists dj prj, thr σ2 !! p_joining d = Some dj /\
     procs (krn σ2) !! p_pid dj = Some prj) ->
  evals p (pthread_exit (X := X) retval) σ
    (Exits (terminate p (exit_status 0) (joiner_woken d (exit_marked self retval d σ2)))).
Proof.
  intros [Hp Hs Hd0] Hmain Hcl Hds Hd Hl Hjs Hj. unfold pthread_exit. cstep. rewrite Hs.
  csteps. eapply evals_bind; [exact Hcl|]. eapply evals_bind; [exact Hds|]. csteps.
  assert (Hd' : setf p_spinlock 0 (setf p_terminated 1 (setf p_retval retval d)) =
    setf p_terminated 1 (setf p_retval retval d))
    by (rewrite <- Hl at 1; by destruct d).
  collapse. rewrite Hd'. unfold exit_marked, joiner_woken, put_thr in *. fields.
  destruct (p_joining d =? NULL) eqn:Hjn.
  - csteps. replace (match _ with Some _ => _ | None => _ end) with
      (setf thr (<[self := setf p_terminated 1 (setf p_retval retval d)]> (thr σ2)) σ2)
      by by case_match.
    apply evals_exit.
  - apply Z.eqb_neq in Hjn. destruct (Hj Hjn) as (dj & prj & Hdj & Hpj).
    rewrite lookup_insert_ne by done. rewrite Hdj. csteps.
    eapply evals_bind; [eapply restart_spec; [|exact Hpj]; fields; by rewrite lookup_insert_ne|].
    csteps. change (glb (post_signal _ _ ?s)) with (glb s). fields. csteps. apply evals_exit.
Qed.

(** ** The theorems *)

(** The death of a process changes neither memory nor the stacks of others. *)
Lemma terminate_others p st q pr σ :
  q <> p -> procs (krn σ) !! q = Some pr ->
  exists pr', procs (krn (terminate p st σ)) !! q = Some pr' /\ pr_sp pr' = pr_sp pr.
Proof.
  intros Hne Hq. unfold terminate. destruct (procs (krn σ) !! p) as [pp|]; [|by exists pr].
  set (re := fun pr' : proc => if pr_ppid pr' =? p then setf pr_ppid 1 pr' else pr').
  assert (Hre : forall x, pr_sp (re x) = pr_sp x) by (intros x; unfold re; by destruct (_ =? p)).
  assert (H1 : (re <$> delete p (procs (krn σ))) !! q = Some (re pr)).
  { rewrite lookup_fmap, lookup_delete_ne by done. by rewrite Hq. }
  destruct (pr_exit_signal pp =? 0); [exists (re pr); by rewrite Hre|].
  unfold post_signal. rewrite procs_upd_proc. unfold upd_krn. fields.
  destruct (decide (pr_ppid pp = q)) as [->|Hpq].
  - rewrite lookup_alter_eq, H1. eexists. split; [done | apply Hre].
  - rewrite lookup_alter_ne, H1 by done. exists (re pr). by rewrite Hre.
Qed.

Lemma terminate_memory p st σ :
  thr (terminate p st σ) = thr σ /\ glb (terminate p st σ) = glb σ /\
  words (terminate p st σ) = words σ.
Proof. unfold terminate. destruct (procs (krn σ) !! p); [|done]. by destruct (_ =? 0). Qed.

(** the value a thread exits with is the value its joiner gets.  After a
    thread that nobody waits for has run [pthread_exit], a [pthread_join] by
    another thread returns 0, has stored the value, and has asked the manager
    to free the thread. *)
Theorem exit_then_join p self pr d0 retval d q prq rp w σ σ1 σ2 :
  runs_thread p self pr d0 σ -> self <> __pthread_main_thread (glb σ2) ->
  evals p __pthread_perform_cleanup (put_thr self (setf p_canceled 0 d0) σ) (Done tt σ1) ->
  evals p __pthread_destroy_specifics σ1 (Done tt σ2) ->
  thr σ2 !! self = Some d -> p_spinlock d = 0 -> p_joining d = NULL -> p_detached d = 0 ->
  self <> NULL -> q <> p -> procs (krn σ2) !! q = Some prq ->
  thread_self_at (glb σ2) (pr_sp prq) <> self -> rp <> NULL -> words σ2 !! rp = Some w ->
  0 <= __pthread_manager_request (glb σ2) ->
  exists σe σ', evals p (pthread_exit (X := unit) retval) σ (Exits σe) /\
    evals q (pthread_join self rp) σe (Done 0 σ') /\ words σ' !! rp = Some retval /\
    pipe_data (krn σ') = pipe_data (krn σe) ++
      [mk_request (thread_self_at (glb σ2) (pr_sp prq)) (REQ_FREE self)].
Proof.
  intros Hrt Hmain Hcl Hds Hd Hsp Hj Hdet Hnull Hqp Hq Hne Hrp Hw Hreq.
  pose proof (pthread_exit_spec (X := unit) p self pr d0 retval d σ σ1 σ2 Hrt Hmain Hcl Hds Hd Hsp)
    as He.
  assert (Hjw : joiner_woken d (exit_marked self retval d σ2) = exit_marked self retval d σ2).
  { unfold joiner_woken. rewrite Hj. by case_match. }
  rewrite Hjw in He. specialize (He ltac:(congruence) ltac:(congruence)).
  destruct (terminate_others p (exit_status 0) q prq (exit_marked self retval d σ2) Hqp Hq)
    as (prq' & Hq' & Hsp').
  destruct (terminate_memory p (exit_status 0) (exit_marked self retval d σ2)) as (HT & HG & HW).
  eexists _, _. split; [exact He|]. split.
  { eapply (join_terminated q (thread_self_at (glb σ2) (pr_sp prq)) prq' self
             (setf p_terminated 1 (setf p_retval retval d)) rp w); try done.
    - by rewrite HG, Hsp'.
    - rewrite HT. apply lookup_insert_eq.
    - by rewrite HW.
    - by rewrite HG. }
  split; [apply lookup_insert_eq | done].
Qed.

(** what [pthread_join] and [pthread_detach] refuse: EDEADLK for oneself,
    EINVAL for a thread that is detached or that is joined already; nothing
    changes. *)
Theorem join_detach_errors p pr th d rp σ :
  procs (krn σ) !! p = Some pr -> thr σ !! th = Some d -> p_spinlock d = 0 ->
  (th = thread_self_at (glb σ) (pr_sp pr) -> evals p (pthread_join th rp) σ (Done EDEADLK σ)) /\
  (th <> thread_self_at (glb σ) (pr_sp pr) -> p_detached d <> 0 \/ p_joining d <> NULL ->
     evals p (pthread_join th rp) σ (Done EINVAL σ)) /\
  (p_detached d <> 0 -> evals p (pthread_detach th) σ (Done EINVAL σ)).
Proof.
  intros Hp Hd Hs. split; [intros ->; by apply join_self|].
  split; [intros; by eapply join_refused | intros; by eapply detach_refused].
Qed.
End specs.
