(* ===== verification/Cancel.v ===== *)
(** * Cancellation (cancel.c, and the handler of PTHREAD_SIG_CANCEL of
    pthread.c) *)

From S2P Require Import Prelude Types Machine MachineFacts Platform Memory Spinlock Queue.
From S2P Require Import Restart Mutex Cleanup Specific Join.

Section cancel.
Context {P : Platform} {U : UserCode}.

(** [if (self->p_canceled && self->p_cancelstate == PTHREAD_CANCEL_ENABLE &&
    self->p_canceltype == PTHREAD_CANCEL_ASYNCHRONOUS)
    pthread_exit(PTHREAD_CANCELED);] *)
Definition exit_if_async (self : addr) : itree evt unit :=
  c <- cancel_pending self ;;
  if c : bool then
    t <- load thr self p_canceltype ;;
    if t =? PTHREAD_CANCEL_ASYNCHRONOUS then pthread_exit PTHREAD_CANCELED
    else Ret tt
  else Ret tt.

Definition pthread_setcancelstate (state_ : Z) (oldstate : addr) : itree evt Z :=
  self <- thread_self ;;
  if (state_ <? PTHREAD_CANCEL_ENABLE) || (state_ >? PTHREAD_CANCEL_DISABLE)
  then Ret EINVAL
  else
    (if oldstate =? NULL then Ret tt else
       s <- load thr self p_cancelstate ;; store_word oldstate s) ;;
    store thr self p_cancelstate state_ ;;
    exit_if_async self ;;
    Ret 0.

Definition pthread_setcanceltype (type_ : Z) (oldtype : addr) : itree evt Z :=
  self <- thread_self ;;
  if (type_ <? PTHREAD_CANCEL_DEFERRED) || (type_ >? PTHREAD_CANCEL_ASYNCHRONOUS)
  then Ret EINVAL
  else
    (if oldtype =? NULL then Ret tt else
       t <- load thr self p_canceltype ;; store_word oldtype t) ;;
    store thr self p_canceltype type_ ;;
    exit_if_async self ;;
    Ret 0.

Definition pthread_cancel (thread : addr) : itree evt Z :=
  store thr thread p_canceled 1 ;;
  pid <- load thr thread p_pid ;;
  kill pid PTHREAD_SIG_CANCEL ;;
  Ret 0.

Definition pthread_testcancel : itree evt unit :=
  self <- thread_self ;;
  c <- cancel_pending self ;;
  if c : bool then pthread_exit PTHREAD_CANCELED else Ret tt.

Definition _pthread_cleanup_pop_restore (buffer : addr) (execute : Z) : itree evt unit :=
  self <- thread_self ;;
  when (istrue execute) (call_cleanup buffer) ;;
  c <- load bufs buffer prev ;;
  store thr self p_cleanup c ;;
  t <- load bufs buffer canceltype ;;
  store thr self p_canceltype t ;;
  exit_if_async self.

(** pthread.h *)
Definition pthread_cleanup_pop_restore_np (_buffer : addr) (execute : Z) : itree evt unit :=
  _pthread_cleanup_pop_restore _buffer execute ;;
  auto_buffer_end _buffer.

(** pthread.c *)
Definition pthread_handle_sigcancel (sig : Z) : itree evt unit :=
  self <- thread_self ;;
  e <- get_glb __pthread_exit_requested ;;
  if istrue e then c <- get_glb __pthread_exit_code ;; _exit c else
  c <- cancel_pending self ;;
  if c : bool then
    t <- load thr self p_canceltype ;;
    if t =? PTHREAD_CANCEL_ASYNCHRONOUS then pthread_exit PTHREAD_CANCELED else
    jmpbuf <- load thr self p_cancel_jmp ;;
    if jmpbuf =? NULL then Ret tt else
    store thr self p_cancel_jmp NULL ;;
    siglongjmp jmpbuf 1
  else Ret tt.
End cancel.

(** The code the cancellation signal is handled with. *)
Class CancelHandler (H : Handlers) (P : Platform) (U : UserCode) :=
  cancel_handler : forall s,
    handler_code addr_pthread_handle_sigcancel s = pthread_handle_sigcancel s.

(** ** Specifications *)

Section specs.
Context {H : Handlers} {P : Platform} {Pok : PlatformOk P} {U : UserCode}
  {Hr : RestartHandler H P} {Hch : CancelHandler H P U}.

Lemma cancel_spec p th d pr σ :
  thr σ !! th = Some d -> procs (krn σ) !! p_pid d = Some pr ->
  evals p (pthread_cancel th) σ
    (Done 0 (post_signal (p_pid d) PTHREAD_SIG_CANCEL (put_thr th (setf p_canceled 1 d) σ))).
Proof.
  intros Hd Hp. unfold pthread_cancel. csteps.
  eapply evals_kill; [done | exact Hp |]. by csteps.
Qed.

(** *** The handler of the cancellation signal *)

(** Somebody called exit: the process ends with the code of that call. *)
Lemma sigcancel_exit p pr sig σ :
  procs (krn σ) !! p = Some pr -> __pthread_exit_requested (glb σ) <> 0 ->
  evals p (pthread_handle_sigcancel sig) σ
    (Exits (terminate p (exit_status (__pthread_exit_code (glb σ))) σ)).
Proof.
  intros Hp He. unfold pthread_handle_sigcancel. csteps. rewrite (istrue_nonzero _ He).
  csteps. apply evals_exit.
Qed.

(** No request, cancellation disabled, or deferred with nothing to
    interrupt: the signal has no effect. *)
Lemma sigcancel_ignored p self pr d sig σ :
  runs_thread p self pr d σ -> __pthread_exit_requested (glb σ) = 0 ->
  to_cancel d = false \/
    p_canceltype d <> PTHREAD_CANCEL_ASYNCHRONOUS /\ p_cancel_jmp d = NULL ->
  evals p (pthread_handle_sigcancel sig) σ (Done tt σ).
Proof.
  intros [Hp Hs Hd] He Hc. unfold pthread_handle_sigcancel. cstep. rewrite Hs. cstep.
  rewrite He. csteps. fold (to_cancel d). destruct (to_cancel d) eqn:Ht; [|by csteps].
  destruct Hc as [|[Hty Hj]]; [done|]. by csteps.
Qed.

(** Deferred, in a cancellation point that waits: the wait is left. *)
Lemma sigcancel_jumps p self pr d sig σ :
  runs_thread p self pr d σ -> __pthread_exit_requested (glb σ) = 0 ->
  to_cancel d = true -> p_canceltype d <> PTHREAD_CANCEL_ASYNCHRONOUS ->
  p_cancel_jmp d <> NULL ->
  jumps p (pthread_handle_sigcancel sig) σ (p_cancel_jmp d) 1
    (put_thr self (setf p_cancel_jmp NULL d) σ).
Proof.
  intros [Hp Hs Hd] He Ht Hty Hj. unfold pthread_handle_sigcancel, thread_self, get_glb,
    cancel_pending, load, store, put_thr.
  unfold to_cancel in Ht. apply andb_prop in Ht as [Hc He'].
  eapply jumps_act; [cbn; by rewrite Hp|]. rewrite Hs.
  eapply jumps_act; [reflexivity|]. rewrite He. cbn [istrue negb Z.eqb].
  apply jumps_assoc.
  eapply jumps_act; [cbn; by rewrite Hd|]. rewrite Hc.
  apply jumps_assoc.
  eapply jumps_act; [cbn; by rewrite Hd|].
  apply jumps_bind_ret. rewrite He'.
  eapply jumps_act; [cbn; by rewrite Hd|]. rewrite (proj2 (Z.eqb_neq _ _) Hty).
  eapply jumps_act; [cbn; by rewrite Hd|]. rewrite (proj2 (Z.eqb_neq _ _) Hj).
  eapply jumps_act; [cbn; by rewrite Hd|]. apply jumps_siglongjmp.
Qed.

(** A thread that waits in [suspend_with_cancellation], with the mask
    [mask] and the jump buffer it has set, when it is canceled: the wait
    ends, the restart signal is blocked again. *)
Lemma suspend_canceled p self pr d mask σ :
  runs_thread p self pr d σ -> __pthread_exit_requested (glb σ) = 0 ->
  to_cancel d = true -> p_canceltype d <> PTHREAD_CANCEL_ASYNCHRONOUS ->
  p_cancel_jmp d = jmpbuf_suspend ->
  action_of σ PTHREAD_SIG_CANCEL = mk_sigaction (sa_handler addr_pthread_handle_sigcancel) ∅ ->
  pick_signal (pr_pending pr) mask = Some PTHREAD_SIG_CANCEL ->
  evalsJ p (wait_restart self mask ;; store thr self p_cancel_jmp NULL)
    {[jmpbuf_suspend := (None, after_setjmp self mask)]} σ
    (Done tt (set_mask p (sigaddset mask PTHREAD_SIG_RESTART)
      (put_thr self (setf p_cancel_jmp NULL d) (clear_signal p PTHREAD_SIG_CANCEL σ)))).
Proof.
  intros [Hp Hs Hd] He Ht Hty Hj Hact Hpick. unfold wait_restart, c_while.
  apply evals_loop_unfold. apply evals_assoc, evals_assoc.
  eapply evals_sigsuspend; [exact Hp | exact Hpick | by rewrite Hact |].
  rewrite Hact, cancel_handler. set (m := mask ∪ _ ∪ _).
  eapply (evals_bind_jump p _ _ _ _
    (put_thr self (setf p_cancel_jmp NULL d)
      (set_mask p m (clear_signal p PTHREAD_SIG_CANCEL σ))) jmpbuf_suspend 1 None).
  - rewrite <- Hj. apply (sigcancel_jumps p self (setf pr_mask m
      (setf pr_pending (pr_pending pr ∖ {[PTHREAD_SIG_CANCEL]}) pr)));
      [constructor | done | done | done | by rewrite Hj].
    + simpl. by rewrite !lookup_alter_eq, Hp.
    + exact Hs.
    + exact Hd.
  - apply lookup_singleton_eq.
  - unfold after_setjmp. cbn [Z.eqb]. cbv zeta.
    eapply evals_sigprocmask_set; [simpl; by rewrite !lookup_alter_eq, Hp | reflexivity|].
    csteps. change (put_thr self ?d (set_mask p ?a ?s)) with (set_mask p a (put_thr self d s)).
    unfold set_mask. rewrite upd_proc_upd_proc. eapply upd_proc_ext; [|reflexivity].
    simpl. by rewrite lookup_alter_eq, Hp.
Qed.

(** *** State and type *)

Lemma exit_if_async_spec p self d σ :
  thr σ !! self = Some d ->
  to_cancel d = false \/ p_canceltype d <> PTHREAD_CANCEL_ASYNCHRONOUS ->
  evals p (exit_if_async self) σ (Done tt σ).
Proof.
  intros Hd Hc. unfold exit_if_async. csteps. fold (to_cancel d).
  destruct (to_cancel d) eqn:Ht; [|by csteps].
  destruct Hc as [|Hty]; [done|]. by csteps.
Qed.

Lemma exit_if_async_exits p self d σ σx :
  thr σ !! self = Some d -> to_cancel d = true ->
  p_canceltype d = PTHREAD_CANCEL_ASYNCHRONOUS ->
  evals p (pthread_exit (X := unit) PTHREAD_CANCELED) σ (Exits σx) ->
  evals p (exit_if_async self) σ (Exits σx).
Proof.
  intros Hd Ht Hty Hx. unfold exit_if_async. csteps. fold (to_cancel d). rewrite Ht.
  csteps. exact Hx.
Qed.

Definition cancel_valid (z : Z) : bool := (0 <=? z) && (z <=? 1).

(** setcanceltype: the range check, the old value, and cancellation at once
    when it becomes possible. *)
Lemma setcanceltype_invalid p pr ty old σ :
  procs (krn σ) !! p = Some pr -> cancel_valid ty = false ->
  evals p (pthread_setcanceltype ty old) σ (Done EINVAL σ).
Proof.
  intros Hp Hv. unfold pthread_setcanceltype, cancel_valid in *. cstep.
  unfold PTHREAD_CANCEL_DEFERRED, PTHREAD_CANCEL_ASYNCHRONOUS in *. by csteps.
Qed.

Definition old_stored (old v : Z) (σ : state) : state :=
  if old =? NULL then σ else setf words (<[old := v]> (words σ)) σ.

(** Up to the check: the old type is stored and the new one set. *)
Lemma setcanceltype_prefix p self pr d ty old σ r :
  runs_thread p self pr d σ -> cancel_valid ty = true ->
  (old <> NULL -> exists w, words σ !! old = Some w) ->
  evals p (exit_if_async self ;; Ret 0)
    (put_thr self (setf p_canceltype ty d) (old_stored old (p_canceltype d) σ)) r ->
  evals p (pthread_setcanceltype ty old) σ r.
Proof.
  intros [Hp Hs Hd] Hv Hw Hk. unfold pthread_setcanceltype, cancel_valid in *. cstep.
  rewrite Hs. unfold PTHREAD_CANCEL_DEFERRED, PTHREAD_CANCEL_ASYNCHRONOUS. cstep.
  unfold old_stored in Hk. destruct (old =? NULL) eqn:Ho.
  - csteps. exact Hk.
  - destruct (Hw ltac:(lia)) as [w Hw']. csteps. exact Hk.
Qed.

Lemma setcanceltype_spec p self pr d ty old σ :
  runs_thread p self pr d σ -> cancel_valid ty = true ->
  (old <> NULL -> exists w, words σ !! old = Some w) ->
  to_cancel d = false \/ ty <> PTHREAD_CANCEL_ASYNCHRONOUS ->
  evals p (pthread_setcanceltype ty old) σ
    (Done 0 (put_thr self (setf p_canceltype ty d) (old_stored old (p_canceltype d) σ))).
Proof.
  intros Hrt Hv Hw Hc. eapply setcanceltype_prefix; [done..|].
  eapply evals_bind; [eapply exit_if_async_spec; [apply lookup_insert_eq | exact Hc] | by csteps].
Qed.

Lemma setcanceltype_exits p self pr d old σ σx :
  runs_thread p self pr d σ -> to_cancel d = true ->
  (old <> NULL -> exists w, words σ !! old = Some w) ->
  evals p (pthread_exit (X := unit) PTHREAD_CANCELED)
    (put_thr self (setf p_canceltype PTHREAD_CANCEL_ASYNCHRONOUS d)
      (old_stored old (p_canceltype d) σ)) (Exits σx) ->
  evals p (pthread_setcanceltype PTHREAD_CANCEL_ASYNCHRONOUS old) σ (Exits σx).
Proof.
  intros Hrt Hc Hw Hx. eapply setcanceltype_prefix; [done..|]. apply evals_bind_exit.
  eapply exit_if_async_exits; [apply lookup_insert_eq | done | done | done].
Qed.

Lemma setcancelstate_spec p self pr d st σ :
  runs_thread p self pr d σ -> cancel_valid st = true ->
  to_cancel (setf p_cancelstate st d) = false \/ p_canceltype d <> PTHREAD_CANCEL_ASYNCHRONOUS ->
  evals p (pthread_setcancelstate st NULL) σ (Done 0 (put_thr self (setf p_cancelstate st d) σ)).
Proof.
  intros [Hp Hs Hd] Hv Hc. unfold pthread_setcancelstate, cancel_valid in *. cstep. rewrite Hs.
  unfold PTHREAD_CANCEL_ENABLE, PTHREAD_CANCEL_DISABLE. csteps.
  eapply evals_bind; [eapply exit_if_async_spec; [apply lookup_insert_eq | exact Hc] | by csteps].
Qed.

Lemma testcancel_spec p self pr d σ :
  runs_thread p self pr d σ -> to_cancel d = false ->
  evals p pthread_testcancel σ (Done tt σ).
Proof.
  intros [Hp Hs Hd] Hc. unfold pthread_testcancel. cstep. rewrite Hs. csteps.
  fold (to_cancel d). rewrite Hc. by csteps.
Qed.

Lemma testcancel_exits p self pr d σ σx :
  runs_thread p self pr d σ -> to_cancel d = true ->
  evals p (pthread_exit (X := unit) PTHREAD_CANCELED) σ (Exits σx) ->
  evals p pthread_testcancel σ (Exits σx).
Proof.
  intros [Hp Hs Hd] Hc Hx. unfold pthread_testcancel. cstep. rewrite Hs. csteps.
  fold (to_cancel d). rewrite Hc. exact Hx.
Qed.

(** *** Regions with deferred cancellation *)

Lemma push_defer_spec p self pr d b0 buffer f a σ :
  runs_thread p self pr d σ -> bufs σ !! buffer = Some b0 ->
  evals p (_pthread_cleanup_push_defer buffer f a) σ
    (Done tt (put_thr self (setf p_cleanup buffer (setf p_canceltype PTHREAD_CANCEL_DEFERRED d))
      (setf bufs (<[buffer := mk_cleanup f a (p_canceltype d) (p_cleanup d)]> (bufs σ)) σ))).
Proof.
  intros [Hp Hs Hd] Hb. unfold _pthread_cleanup_push_defer, put_thr. cstep. rewrite Hs.
  csteps. by collapse.
Qed.

Lemma pop_restore_spec p self pr d b buffer σ :
  runs_thread p self pr d σ -> bufs σ !! buffer = Some b ->
  to_cancel d = false \/ canceltype b <> PTHREAD_CANCEL_ASYNCHRONOUS ->
  evals p (_pthread_cleanup_pop_restore buffer 0) σ
    (Done tt (put_thr self (setf p_canceltype (canceltype b) (setf p_cleanup (prev b) d)) σ)).
Proof.
  intros [Hp Hs Hd] Hb Hc. unfold _pthread_cleanup_pop_restore. cstep. rewrite Hs. csteps.
  collapse. unfold put_thr.
  eapply exit_if_async_spec; [fields; apply lookup_insert_eq | exact Hc].
Qed.

(** ** The theorems *)

Lemma sigcancel_async p self pr d sig σ σx :
  runs_thread p self pr d σ -> __pthread_exit_requested (glb σ) = 0 -> to_cancel d = true ->
  p_canceltype d = PTHREAD_CANCEL_ASYNCHRONOUS ->
  evals p (pthread_exit (X := unit) PTHREAD_CANCELED) σ (Exits σx) ->
  evals p (pthread_handle_sigcancel sig) σ (Exits σx).
Proof.
  intros [Hp Hs Hd] He Hc Ht Hx. unfold pthread_handle_sigcancel. cstep. rewrite Hs.
  cstep. rewrite He. csteps. fold (to_cancel d). rewrite Hc. by csteps.
Qed.

(** C25: what the handler of the cancellation signal does, in every case: if
    the process is exiting, it exits with the code of [exit]; without a
    request, with cancellation disabled, or with deferred cancellation
    outside a cancellation point, nothing; with asynchronous cancellation the
    thread exits at once; in a cancellation point that waits, the wait is
    left by a jump, after the jump buffer has been reset. *)
Theorem sigcancel_correct p self pr d sig σ σx :
  runs_thread p self pr d σ ->
  (__pthread_exit_requested (glb σ) <> 0 ->
     evals p (pthread_handle_sigcancel sig) σ
       (Exits (terminate p (exit_status (__pthread_exit_code (glb σ))) σ))) /\
  (__pthread_exit_requested (glb σ) = 0 ->
     (to_cancel d = false -> evals p (pthread_handle_sigcancel sig) σ (Done tt σ)) /\
     (to_cancel d = true -> p_canceltype d = PTHREAD_CANCEL_ASYNCHRONOUS ->
        evals p (pthread_exit (X := unit) PTHREAD_CANCELED) σ (Exits σx) ->
        evals p (pthread_handle_sigcancel sig) σ (Exits σx)) /\
     (to_cancel d = true -> p_canceltype d <> PTHREAD_CANCEL_ASYNCHRONOUS ->
        (p_cancel_jmp d = NULL -> evals p (pthread_handle_sigcancel sig) σ (Done tt σ)) /\
        (p_cancel_jmp d <> NULL ->
           jumps p (pthread_handle_sigcancel sig) σ (p_cancel_jmp d) 1
             (put_thr self (setf p_cancel_jmp NULL d) σ)))).
Proof.
  intros Hrt. split; [intros He; eapply sigcancel_exit; [apply Hrt | done]|]. intros He.
  split; [intros Hc; eapply sigcancel_ignored; [done | done | by left]|].
  split; [intros; by eapply sigcancel_async|]. intros Hc Ht. split.
  - intros Hj. eapply sigcancel_ignored; [done | done | by right].
  - intros Hj. by apply sigcancel_jumps with (pr := pr).
Qed.

(** C26: [pthread_cancel] interrupts a cancellation point.  The thread waits in
    [suspend_with_cancellation], with the mask [mask] and its jump buffer
    set; another process calls [pthread_cancel].  The wait ends, the jump
    buffer is reset, the thread is marked as canceled and has the restart
    signal blocked again; the cancellation signal has been consumed. *)
Theorem cancel_ends_wait q p self pr d mask σ :
  runs_thread p self pr d σ -> p_pid d = p -> __pthread_exit_requested (glb σ) = 0 ->
  p_cancelstate d = PTHREAD_CANCEL_ENABLE -> p_canceltype d <> PTHREAD_CANCEL_ASYNCHRONOUS ->
  p_cancel_jmp d = jmpbuf_suspend ->
  action_of σ PTHREAD_SIG_CANCEL = mk_sigaction (sa_handler addr_pthread_handle_sigcancel) ∅ ->
  pick_signal (pr_pending pr) mask = None -> PTHREAD_SIG_CANCEL ∉ mask ->
  exists σ1, evals q (pthread_cancel self) σ (Done 0 σ1) /\
    evalsJ p (wait_restart self mask ;; store thr self p_cancel_jmp NULL)
      {[jmpbuf_suspend := (None, after_setjmp self mask)]} σ1
      (Done tt (set_mask p (sigaddset mask PTHREAD_SIG_RESTART)
        (put_thr self (setf p_cancel_jmp NULL (setf p_canceled 1 d)) σ))).
Proof.
  intros Hrt Hpid He Hcs Hct Hj Ha Hn Hm. pose proof Hrt as [Hp Hs Hd].
  exists (post_signal p PTHREAD_SIG_CANCEL (put_thr self (setf p_canceled 1 d) σ)).
  split; [rewrite <- Hpid; eapply cancel_spec; [done | by rewrite Hpid]|].
  destruct (pick_posted (pr_pending pr) mask PTHREAD_SIG_CANCEL Hn) as [Hnp Hpk]; [done | |].
  { unfold blocked. by rewrite bool_decide_eq_false_2. }
  set (σ1 := put_thr self (setf p_canceled 1 d) σ).
  pose proof (clear_post p PTHREAD_SIG_CANCEL pr σ1 Hp Hnp) as Hid.
  set (pr1 := setf pr_pending ({[PTHREAD_SIG_CANCEL]} ∪ pr_pending pr) pr).
  pose proof (suspend_canceled p self pr1 (setf p_canceled 1 d) mask
                (post_signal p PTHREAD_SIG_CANCEL σ1)) as E.
  assert (Hput : forall e, put_thr self e σ1 = put_thr self e σ).
  { intros e. unfold σ1, put_thr. fields. by rewrite insert_insert_eq. }
  rewrite Hid, Hput in E. apply E; try done.
  - constructor; [|done|apply lookup_insert_eq].
    unfold post_signal. rewrite procs_upd_proc. unfold σ1, put_thr. fields.
    by rewrite lookup_alter_eq, Hp.
  - unfold to_cancel. fields. by rewrite Hcs.
Qed.

(** [pthread_setcanceltype]: a type out of range is refused; otherwise the
    old type is stored through the pointer, if there is one, and the new type
    set; if cancellation is pending and has just become possible, the thread
    exits instead of returning. *)
Theorem setcanceltype_correct p self pr d ty old σ σx :
  runs_thread p self pr d σ -> (old <> NULL -> exists w, words σ !! old = Some w) ->
  let σ1 := put_thr self (setf p_canceltype ty d) (old_stored old (p_canceltype d) σ) in
  (cancel_valid ty = false -> evals p (pthread_setcanceltype ty old) σ (Done EINVAL σ)) /\
  (cancel_valid ty = true -> to_cancel d = false \/ ty <> PTHREAD_CANCEL_ASYNCHRONOUS ->
     evals p (pthread_setcanceltype ty old) σ (Done 0 σ1)) /\
  (ty = PTHREAD_CANCEL_ASYNCHRONOUS -> to_cancel d = true ->
     evals p (pthread_exit (X := unit) PTHREAD_CANCELED) σ1 (Exits σx) ->
     evals p (pthread_setcanceltype ty old) σ (Exits σx)).
Proof.
  intros Hrt Ho. split; [intros; eapply setcanceltype_invalid; [apply Hrt | done]|].
  split; [intros; by eapply setcanceltype_spec|]. intros -> Hc Hx. by eapply setcanceltype_exits.
Qed.
End specs.
