(* ===== verification/Cond.v ===== *)
(** * Condition variables (condvar.c)

    [remove_from_queue], the auxiliary function on queues of condvar.c, is in
    [Queue]. *)

From S2P Require Import Prelude Types Machine MachineFacts Platform Memory Spinlock Queue.
From S2P Require Import Restart Mutex Cleanup Specific Join.

(** The two structs of <sys/time.h> and <time.h>. *)
Record timespec := mk_timespec { tv_sec : Z; tv_nsec : Z }.
Record timeval := mk_timeval { now_sec : Z; now_usec : Z }.

Section cond.
Context {P : Platform} {U : UserCode}.

Definition pthread_cond_init (cond cond_attr : addr) : itree evt Z :=
  store cnd cond c_spinlock 0 ;;
  queue_init (c_waiting_at cond) ;;
  Ret 0.

Definition pthread_cond_destroy (cond : addr) : itree evt Z :=
  acquire (c_spinlock_at cond) ;;
  head <- load_queue (c_waiting_at cond) q_head ;;
  release (c_spinlock_at cond) ;;
  if negb (head =? NULL) then Ret EBUSY else Ret 0.

Definition pthread_cond_wait (cond mutex : addr) : itree evt Z :=
  self <- thread_self ;;
  acquire (c_spinlock_at cond) ;;
  enqueue (c_waiting_at cond) self ;;
  release (c_spinlock_at cond) ;;
  __pthread_mutex_unlock mutex ;;
  suspend_with_cancellation self ;;
  __pthread_mutex_lock mutex ;;
  c <- cancel_pending self ;;
  if c : bool then
    acquire (c_spinlock_at cond) ;;
    remove_from_queue (c_waiting_at cond) self ;;
    release (c_spinlock_at cond) ;;
    pthread_exit PTHREAD_CANCELED
  else Ret 0.

(** nanosleep(2): 0 if the time is over, -1 if a signal was handled.  The
    environment answers 0 if no signal comes before the time is over. *)
Definition __libc_nanosleep (reltime : timespec) : itree evt Z :=
  b <- take_signal ;;
  if b : bool then fail_with EINTR else
  z <- ask ;;
  if z =? 0 then Ret 0 else
  await_signal ;;
  fail_with EINTR.

(** The end of [pthread_cond_timedwait_relative], after the sleep. *)
Definition timedwait_finish (cond mutex self : addr) (retsleep : Z) : itree evt Z :=
  store thr self p_signal_jmp NULL ;;
  acquire (c_spinlock_at cond) ;;
  c <- cancel_pending self ;;
  if c : bool then
    remove_from_queue (c_waiting_at cond) self ;;
    release (c_spinlock_at cond) ;;
    __pthread_mutex_lock mutex ;;
    pthread_exit PTHREAD_CANCELED
  else
  s <- load thr self p_signal ;;
  if s =? 0 then
    remove_from_queue (c_waiting_at cond) self ;;
    release (c_spinlock_at cond) ;;
    __pthread_mutex_lock mutex ;;
    Ret (if retsleep =? 0 then ETIMEDOUT else EINTR)
  else
  release (c_spinlock_at cond) ;;
  __pthread_mutex_lock mutex ;;
  Ret 0.

(** The sleep, which the restart signal ends with a jump. *)
Definition timedwait_sleep (cond mutex self : addr) (reltime : timespec) : itree evt Z :=
  j <- sigsetjmp jmpbuf_timedwait false ;;
  retsleep <-
    (if j =? 0 then
       store thr self p_signal_jmp jmpbuf_timedwait ;;
       store thr self p_signal 0 ;;
       c <- cancel_pending self ;;
       if c : bool then Ret (-1)
       else
         let unblock := sigaddset sigemptyset PTHREAD_SIG_RESTART in
         r <- sigprocmask SIG_UNBLOCK (Some unblock) ;;
         let initial_mask := snd r in
         retsleep <- __libc_nanosleep reltime ;;
         sigprocmask SIG_SETMASK (Some initial_mask) ;;
         Ret retsleep
     else Ret (-1)) ;;
  timedwait_finish cond mutex self retsleep.

Definition pthread_cond_timedwait_relative (cond mutex : addr) (reltime : timespec)
    : itree evt Z :=
  self <- thread_self ;;
  acquire (c_spinlock_at cond) ;;
  enqueue (c_waiting_at cond) self ;;
  release (c_spinlock_at cond) ;;
  __pthread_mutex_unlock mutex ;;
  timedwait_sleep cond mutex self reltime.

(** The time from [now] to [abstime], in [long]s. *)
Definition relative_time (abstime : timespec) (now : timeval) : timespec :=
  let sec := wrapS long_bits (tv_sec abstime - now_sec now) in
  let nsec := wrapS long_bits (tv_nsec abstime - wrapS long_bits (now_usec now * 1000)) in
  if nsec <? 0
  then mk_timespec (wrapS long_bits (sec - 1)) (wrapS long_bits (nsec + 1000000000))
  else mk_timespec sec nsec.

Definition gettimeofday : itree evt timeval :=
  s <- ask ;; u <- ask ;; Ret (mk_timeval s u).

Definition pthread_cond_timedwait (cond mutex : addr) (abstime : timespec) : itree evt Z :=
  now <- gettimeofday ;;
  let reltime := relative_time abstime now in
  if tv_sec reltime <? 0 then Ret ETIMEDOUT
  else pthread_cond_timedwait_relative cond mutex reltime.

Definition pthread_cond_signal (cond : addr) : itree evt Z :=
  acquire (c_spinlock_at cond) ;;
  th <- dequeue (c_waiting_at cond) ;;
  release (c_spinlock_at cond) ;;
  when (negb (th =? NULL)) (restart th) ;;
  Ret 0.

(** [while ((th = dequeue(&tosignal)) != NULL) restart(th);] *)
Definition broadcast_loop (tosignal : queueptr) : itree evt unit :=
  c_while (th <- dequeue tosignal ;;
           if th =? NULL then Ret false
           else restart th ;; Ret true).

(** The structure assignment [tosignal = cond->c_waiting] to the automatic
    variable [tosignal]. *)
Definition copy_queue (from to : queueptr) : itree evt unit :=
  act (fun _ σ => match get_queue from σ with
                  | Some v => Some (tt, put_queue to v σ)
                  | None => None
                  end).

Definition pthread_cond_broadcast (cond : addr) : itree evt Z :=
  p <- getpid ;;
  let tosignal := auto_queue p in
  acquire (c_spinlock_at cond) ;;
  copy_queue (c_waiting_at cond) tosignal ;;
  queue_init (c_waiting_at cond) ;;
  release (c_spinlock_at cond) ;;
  broadcast_loop tosignal ;;
  Ret 0.

Definition pthread_condattr_init (attr : addr) : itree evt Z := Ret 0.
Definition pthread_condattr_destroy (attr : addr) : itree evt Z := Ret 0.
End cond.

(** ** The time to wait *)

(** C15: The relative time of [pthread_cond_timedwait], computed in [long]s without
    overflow: its nanoseconds are normalized, added to the current time it
    gives exactly the absolute time, and it is negative exactly when the
    absolute time has passed. *)
Lemma relative_time_spec {P : Platform} {Pok : PlatformOk P} abstime now :
  0 <= tv_sec abstime < 2 ^ 31 -> 0 <= tv_nsec abstime < 10 ^ 9 ->
  0 <= now_sec now < 2 ^ 31 -> 0 <= now_usec now < 10 ^ 6 ->
  let t := relative_time abstime now in
  0 <= tv_nsec t < 10 ^ 9 /\
  (now_sec now + tv_sec t) * 10 ^ 9 + now_usec now * 1000 + tv_nsec t =
    tv_sec abstime * 10 ^ 9 + tv_nsec abstime /\
  (tv_sec t < 0 <->
   tv_sec abstime * 10 ^ 9 + tv_nsec abstime < now_sec now * 10 ^ 9 + now_usec now * 1000).
Proof.
  intros Hs Hn Hs' Hu. unfold relative_time.
  assert (Hw : forall z, - 2 ^ 31 <= z < 2 ^ 31 -> wrapS long_bits z = z).
  { intros z Hz. pose proof long_bits_wide. apply wrapS_small; [lia|].
    pose proof (Z.pow_le_mono_r 2 31 (long_bits - 1)). lia. }
  rewrite (Hw (now_usec now * 1000)), (Hw (tv_sec abstime - _)), (Hw (tv_nsec abstime - _)) by lia.
  destruct (tv_nsec abstime - now_usec now * 1000 <? 0) eqn:Hneg; cbn [tv_sec tv_nsec].
  - rewrite !Hw by lia. lia.
  - lia.
Qed.

(** ** Specifications *)

(** The condition at [c], with the threads [l] waiting on it. *)
Definition cond_rep (σ : state) (c : addr) (l : list addr) : Prop :=
  exists v, cnd σ !! c = Some (mk_cond 0 v) /\ queue_rep (thr σ) v l.

Definition put_cond (c : addr) (o : pthread_cond_t) (σ : state) : state :=
  setf cnd (<[c := o]> (cnd σ)) σ.

Lemma put_queue_cnd c v o σ : cnd σ !! c = Some o ->
  put_queue (c_waiting_at c) v σ = put_cond c (setf c_waiting v o) σ.
Proof.
  intros Hm. unfold put_cond. simpl.
  by rewrite (insert_alter (setf c_waiting v) (cnd σ) c o Hm).
Qed.

Section specs.
Context {H : Handlers} {P : Platform} {Pok : PlatformOk P} {U : UserCode}
  {Hr : RestartHandler H P}.

Lemma cond_init_spec p c a o σ :
  cnd σ !! c = Some o ->
  let σ' := put_cond c PTHREAD_COND_INITIALIZER σ in
  evals p (pthread_cond_init c a) σ (Done 0 σ') /\ cond_rep σ' c [].
Proof.
  intros Hc σ'. split.
  - unfold pthread_cond_init. csteps.
    eapply evals_bind; [eapply queue_init_spec; simpl; lookup_tac|]. csteps.
    erewrite put_queue_cnd by lookup_tac. unfold σ', put_cond. by collapse.
  - eexists. split; [apply lookup_insert_eq | apply queue_rep_nil].
Qed.

Lemma cond_signal_empty p c σ :
  cond_rep σ c [] -> evals p (pthread_cond_signal c) σ (Done 0 σ).
Proof.
  intros (v & Hc & Hq). unfold pthread_cond_signal. csteps.
  eapply evals_bind; [eapply dequeue_nil_spec; [simpl; lookup_tac | exact Hq]|].
  csteps. collapse. rewrite insert_id by done. by destruct σ.
Qed.

(** The first thread that waits is taken off the queue and restarted. *)
Lemma cond_signal_first p c x l d pr σ :
  cond_rep σ c (x :: l) -> thr σ !! x = Some d -> procs (krn σ) !! p_pid d = Some pr ->
  exists σ', evals p (pthread_cond_signal c) σ (Done 0 σ') /\ cond_rep σ' c l /\
    krn σ' = krn (post_signal (p_pid d) PTHREAD_SIG_RESTART σ) /\
    thr σ' = alter (setf p_nextwaiting NULL) x (thr σ) /\ glb σ' = glb σ /\ mtx σ' = mtx σ.
Proof.
  intros (v & Hc & Hq) Hd Hp.
  destruct (dequeue_correct p (c_waiting_at c) v x l (put_cond c (mk_cond locked v) σ))
    as (v' & T & He & Hr' & -> & Hn); [unfold put_cond; simpl; lookup_tac | exact Hq |].
  exists (post_signal (p_pid d) PTHREAD_SIG_RESTART (put_cond c (mk_cond 0 v')
    (setf thr (alter (setf p_nextwaiting NULL) x (thr σ)) σ))).
  split; [|split; [|done]].
  - unfold pthread_cond_signal. csteps. eapply evals_bind; [exact He|].
    erewrite put_queue_cnd by (unfold put_cond; lookup_tac). unfold put_cond.
    assert (x <> NULL) by (pose proof (qr_null _ _ _ Hq); set_solver).
    csteps. eapply evals_bind.
    + eapply (restart_spec p x (setf p_nextwaiting NULL d) pr); [|exact Hp].
      fields. by rewrite lookup_alter_eq, Hd.
    + csteps. by collapse.
  - exists v'. split; [apply lookup_insert_eq | exact Hr'].
Qed.

Lemma broadcast_loop_spec p v l σ :
  locq σ !! p = Some v -> queue_rep (thr σ) v l -> all_running l σ ->
  evals p (broadcast_loop (auto_queue p)) σ
    (Done tt (setf locq (<[p := mk_queue NULL NULL]> (locq σ)) (woken_all l σ))).
Proof.
  revert v σ. induction l as [|x l IH]; intros v σ Hv Hq Hrun.
  - eapply (evals_loop_stop p _ tt tt). apply evals_assoc.
    eapply evals_bind; [eapply dequeue_nil_spec; [exact Hv | exact Hq]|]. csteps.
    destruct Hq as [_ _ _ Hh Ht]. destruct v as [h t]. simpl in *. subst.
    rewrite insert_id by done. by destruct σ.
  - destruct (Hrun x ltac:(set_solver)) as (d & pr & Hd & Hp).
    assert (x <> NULL) by (pose proof (qr_null _ _ _ Hq); set_solver).
    destruct (dequeue_correct p (auto_queue p) v x l σ Hv Hq) as (v' & T & He & Hr' & -> & _).
    eapply (evals_loop_next p _ tt tt).
    + apply evals_assoc. eapply evals_bind; [exact He|]. csteps.
      eapply evals_bind;
        [eapply (restart_spec p x (setf p_nextwaiting NULL d) pr); [|exact Hp]|by csteps].
      simpl. by rewrite lookup_alter_eq, Hd.
    + cbn [woken_all]. rewrite Hd. cbn [fmap option_fmap option_map default].
      match goal with |- evals _ _ ?s _ => set (σ2 := s) end.
      replace (Done _ _) with (Done tt (setf locq (<[p := mk_queue NULL NULL]> (locq σ2))
        (woken_all l σ2))).
      * eapply (IH v'); [apply lookup_insert_eq | exact Hr' |].
        unfold σ2. eapply (all_running_step x l σ). intros z Hz. apply Hrun. set_solver.
      * f_equal. unfold σ2. cbn [put_queue].
        set (σ3 := setf thr _ σ).
        change (post_signal ?a ?b (setf locq ?L σ3)) with (setf locq L (post_signal a b σ3)).
        rewrite woken_all_locq. change (locq (setf locq ?L ?s)) with L.
        by rewrite insert_insert_eq.
Qed.

Lemma woken_all_setf_cnd l C σ : woken_all l (setf cnd C σ) = setf cnd C (woken_all l σ).
Proof.
  revert σ. induction l as [|x l IH]; intros σ; [done|].
  cbn [woken_all]. rewrite <- IH. done.
Qed.

(** All the threads that wait are restarted, first come first, and nobody
    waits on the condition any more. *)
Lemma cond_broadcast_spec p c l σ :
  cond_rep σ c l -> all_running l σ ->
  evals p (pthread_cond_broadcast c) σ
    (Done 0 (setf locq (<[p := mk_queue NULL NULL]> (locq σ))
              (put_cond c PTHREAD_COND_INITIALIZER (woken_all l σ)))).
Proof.
  intros (v & Hc & Hq) Hrun. unfold pthread_cond_broadcast, getpid, copy_queue. csteps.
  eapply evals_act; [simpl; rewrite lookup_insert_eq; reflexivity|]. cred.
  eapply evals_bind; [eapply queue_init_spec; simpl; lookup_tac|].
  erewrite put_queue_cnd by (simpl; lookup_tac). unfold put_cond. csteps.
  collapse. eapply evals_bind.
  - apply (broadcast_loop_spec p v l); [fields; apply lookup_insert_eq | exact Hq | exact Hrun].
  - csteps. rewrite woken_all_setf_cnd, woken_all_locq, woken_all_cnd. by collapse.
Qed.

(** *** wait *)

(** The thread joins the queue of the condition. *)
Lemma cond_enqueue p c l self d σ :
  cond_rep σ c l -> thr σ !! self = Some d -> p_nextwaiting d = NULL ->
  self ∉ l -> self <> NULL ->
  exists v T, cond_rep (put_cond c (mk_cond 0 v) (setf thr T σ)) c (l ++ [self]) /\
    links_only l (thr σ) T /\
    forall A (t : itree evt A) r, evals p t (put_cond c (mk_cond 0 v) (setf thr T σ)) r ->
      evals p (acquire (c_spinlock_at c) ;; enqueue (c_waiting_at c) self ;;
               release (c_spinlock_at c) ;; t) σ r.
Proof.
  intros (v & Hc & Hq) Hd Hnw Hin Hnn.
  destruct (enqueue_correct p (c_waiting_at c) v l self (put_cond c (mk_cond locked v) σ))
    as (v' & T & He & Hr' & Hl); [unfold put_cond; simpl; lookup_tac | exact Hq | done | done | |].
  { unfold next_of. simpl. by rewrite Hd, <- Hnw. }
  exists v', T. split; [exists v'; split; [apply lookup_insert_eq | exact Hr']|].
  split; [exact Hl|]. intros A t r Ht. csteps. eapply evals_bind; [exact He|].
  erewrite put_queue_cnd by (unfold put_cond; lookup_tac). unfold put_cond in *. csteps.
  collapse. exact Ht.
Qed.

(** The threads that wait for the mutex: other threads, alive, that do not
    wait on the condition. *)
Definition mutex_others (p : pid_t) (self : addr) (l : list addr) (s : mutex_st)
    (σ : state) : Prop :=
  forall x, x ∈ ms_waiting s -> x ∉ l /\ x <> self /\ exists d pr,
    thr σ !! x = Some d /\ procs (krn σ) !! p_pid d = Some pr /\ p_pid d <> p.

Lemma ms_drop_waiting s x : (ms_drop s).2 = Some x -> x ∈ ms_waiting s.
Proof.
  unfold ms_drop. case_match; simpl; [done|]. destruct (ms_waiting s); simpl; [done|].
  intros [= ->]. set_solver.
Qed.

(** [pthread_cond_wait] puts the thread behind the threads that already wait
    on the condition, releases one level of the mutex, restarting the first
    thread that waits for it if the mutex becomes free, and sleeps. *)
Lemma cond_wait_blocks p self pr d c l m s σ :
  runs_thread p self pr d σ -> self <> NULL -> p_nextwaiting d = NULL -> to_cancel d = false ->
  pick_signal (pr_pending pr) (sigdelset (pr_mask pr) PTHREAD_SIG_RESTART) = None ->
  cond_rep σ c l -> self ∉ l -> mutex_rep σ m s -> ms_valid s -> mutex_others p self l s σ ->
  exists σ', evals p (pthread_cond_wait c m) σ (Blocks σ') /\
    cond_rep σ' c (l ++ [self]) /\ mutex_rep σ' m (ms_drop s).1 /\
    krn σ' = match (ms_drop s).2 ≫= fun x => thr σ !! x with
             | Some d => krn (post_signal (p_pid d) PTHREAD_SIG_RESTART σ)
             | None => krn σ
             end.
Proof.
  intros [Hp Hs Hd] Hnn Hnw Hc Hpick Hcr Hin Hmr Hmv Hoth.
  destruct (cond_enqueue p c l self d σ) as (v & T & Hcr1 & Hl & Hpre); try done.
  set (σ1 := put_cond c (mk_cond 0 v) (setf thr T σ)) in *.
  assert (HT : forall x, x ∉ l -> T !! x = thr σ !! x) by apply Hl.
  assert (Hmr1 : mutex_rep σ1 m s).
  { destruct Hmr as [(w & Hm & Hq)]. constructor. exists w. split; [exact Hm|].
    eapply queue_rep_ext; [|exact Hq]. intros x Hx. unfold next_of. simpl.
    by rewrite HT by apply (Hoth x Hx). }
  destruct (mutex_unlock_refines p m s σ1) as (σ2 & He & Hmr2 & Hthr & Hcnd & Hglb & Hkrn);
    [done | done | |].
  { intros x Hx%ms_drop_waiting. destruct (Hoth x Hx) as (Hxl & _ & d' & pr' & Hd' & Hp' & _).
    exists d', pr'. simpl. by rewrite HT. }
  assert (Hk2 : krn σ2 = match (ms_drop s).2 ≫= fun x => thr σ !! x with
    | Some d => krn (post_signal (p_pid d) PTHREAD_SIG_RESTART σ) | None => krn σ end).
  { rewrite Hkrn. destruct (ms_drop s).2 as [x|] eqn:Hx; [|done]. simpl.
    rewrite HT; [by destruct (thr σ !! x)|]. by apply Hoth, ms_drop_waiting. }
  assert (Hth2 : forall x, x ∉ ms_waiting s -> thr σ2 !! x = T !! x).
  { intros x Hx. rewrite Hthr. destruct (ms_drop s).2 as [h|] eqn:Hh; [|done].
    simpl. rewrite lookup_alter_ne; [done|]. intros <-. by apply Hx, ms_drop_waiting. }
  assert (Hsw : self ∉ ms_waiting s) by (intros Hx; by destruct (Hoth self Hx) as (_ & ? & _)).
  assert (Hrt2 : runs_thread p self pr d σ2).
  { constructor; [|by rewrite Hglb|by rewrite Hth2, HT].
    rewrite Hk2. destruct (ms_drop s).2 as [x|] eqn:Hx; [|done].
    destruct (Hoth x (ms_drop_waiting _ _ Hx)) as (_ & _ & d' & pr' & Hd' & _ & Hne).
    simpl. rewrite Hd'. simpl. by rewrite lookup_alter_ne. }
  exists (waiting_cancel self σ2). split; [|split; [|split; [|exact Hk2]]].
  - unfold pthread_cond_wait. cstep. rewrite Hs. apply Hpre.
    eapply evals_bind; [exact He|]. apply evals_bind_block.
    by eapply suspend_with_cancellation_blocks.
  - destruct Hcr1 as (v1 & Hv1 & Hq1). exists v1. split; [simpl; by rewrite Hcnd|].
    eapply queue_rep_ext; [|exact Hq1]. intros x Hx. rewrite next_of_cancel_jmp.
    unfold next_of. rewrite Hth2; [done|]. intros Hxw. destruct (Hoth x Hxw) as (? & ? & _).
    set_solver.
  - destruct Hmr2 as [(w & Hm & Hq)]. constructor. exists w. split; [exact Hm|].
    eapply queue_rep_ext; [|exact Hq]. intros x Hx. apply next_of_cancel_jmp.
Qed.

(** *** timedwait *)

(** A time in the past: nothing happens. *)
Lemma cond_timedwait_expired p c m abstime sec usec l σ :
  envt (krn σ) = sec :: usec :: l ->
  tv_sec (relative_time abstime (mk_timeval sec usec)) < 0 ->
  evals p (pthread_cond_timedwait c m abstime) σ
    (Done ETIMEDOUT (upd_krn (setf envt l) σ)).
Proof.
  intros He Hneg. unfold pthread_cond_timedwait, gettimeofday. csteps.
  eapply evals_ask; [exact He|]. csteps. eapply evals_ask; [reflexivity|].
  by csteps.
Qed.

(** A sleep that no signal interrupts. *)
Lemma evals_nanosleep_over {A} t (k : Z -> itree evt A) p J σ pr l r :
  procs (krn σ) !! p = Some pr -> pick_signal (pr_pending pr) (pr_mask pr) = None ->
  envt (krn σ) = 0 :: l -> evalsJ p (k 0) J (upd_krn (setf envt l) σ) r ->
  evalsJ p (ITree.bind (__libc_nanosleep t) k) J σ r.
Proof.
  intros Hp Hpick He Hk. unfold __libc_nanosleep, take_signal, signal_waiting. csteps.
  eapply evals_act; [cbn; rewrite Hp, Hpick; reflexivity|]. cbn [bool_decide is_Some_dec].
  csteps. eapply evals_ask; [exact He|]. csteps. exact Hk.
Qed.

(** [timedwait_finish] when neither cancellation nor the restart signal came:
    the thread leaves the queue of the condition and takes the mutex. *)
Lemma timedwait_finish_over p self pr d c l m s s' z σ :
  runs_thread p self pr d σ -> to_cancel d = false -> p_signal d = 0 ->
  cond_rep σ c l ->
  mutex_rep σ m s -> ms_valid s -> ms_waiting s = [] -> ms_take self s = Some s' ->
  exists σ', evals p (timedwait_finish c m self z) σ
      (Done (if z =? 0 then ETIMEDOUT else EINTR) σ') /\
    cond_rep σ' c (filter (.≠ self) l) /\ mutex_rep σ' m s' /\ krn σ' = krn σ.
Proof.
  intros [Hp Hs Hd] Hc Hsig (v & Hcv & Hq) [(w & Hm & Hw)] Hmv Hmw Ht.
  set (d1 := setf p_signal_jmp NULL d).
  set (σ1 := put_cond c (mk_cond locked v) (setf thr (<[self := d1]> (thr σ)) σ)).
  assert (Hq1 : queue_rep (thr σ1) v l).
  { eapply queue_rep_ext; [|exact Hq]. intros x _. unfold σ1. simpl.
    rewrite next_of_insert. case_decide; [subst|done]. unfold next_of. by rewrite Hd. }
  destruct (remove_from_queue_correct p (c_waiting_at c) v l self σ1)
    as (v' & T & He & Hr' & _ & Hl); [unfold σ1, put_cond; simpl; lookup_tac | done |].
  set (σ2 := put_cond c (mk_cond 0 v') (setf thr T σ)).
  destruct (mutex_lock_takes p self pr m s s' σ2) as (mu & Hlk & Hmr); [done | done | | done..|].
  { constructor. exists w. rewrite Hmw in *. split; [exact Hm|].
    destruct Hw. constructor; done. }
  exists (put_mutex m mu σ2). split; [|split; [exists v'; split; [apply lookup_insert_eq | exact Hr']|]].
  - unfold timedwait_finish. csteps. unfold to_cancel in Hc. rewrite Hc. csteps.
    unfold σ1, put_cond, d1 in He. collapse.
    eapply evals_bind; [exact He|]. erewrite put_queue_cnd by (fields; lookup_tac).
    unfold put_cond. csteps. collapse. eapply evals_bind; [exact Hlk|].
    by destruct (z =? 0); csteps.
  - split; [exact Hmr | done].
Qed.

(** [timedwait_finish] after the restart signal: the thread that sent it has
    already taken this one off the queue. *)
Lemma timedwait_finish_restarted p self pr d c l m s s' z σ :
  runs_thread p self pr d σ -> to_cancel d = false -> p_signal d <> 0 ->
  cond_rep σ c l -> mutex_rep σ m s -> ms_valid s -> ms_waiting s = [] ->
  ms_take self s = Some s' ->
  exists σ', evals p (timedwait_finish c m self z) σ (Done 0 σ') /\
    cond_rep σ' c l /\ mutex_rep σ' m s' /\ krn σ' = krn σ.
Proof.
  intros [Hp Hs Hd] Hc Hsig (v & Hcv & Hq) [(w & Hm & Hw)] Hmv Hmw Ht.
  set (T := <[self := setf p_signal_jmp NULL d]> (thr σ)).
  set (σ2 := put_cond c (mk_cond 0 v) (setf thr T σ)).
  destruct (mutex_lock_takes p self pr m s s' σ2) as (mu & Hlk & Hmr); [done | done | | done..|].
  { constructor. exists w. rewrite Hmw in *. split; [exact Hm|].
    destruct Hw. constructor; done. }
  exists (put_mutex m mu σ2). split; [|split; [|split; [exact Hmr | done]]].
  - unfold timedwait_finish. csteps. unfold to_cancel in Hc. rewrite Hc. csteps.
    collapse. eapply evals_bind; [exact Hlk|]. by csteps.
  - exists v. split; [apply lookup_insert_eq|]. eapply queue_rep_ext; [|exact Hq].
    intros x _. unfold σ2, T. simpl. rewrite next_of_insert. case_decide; [subst|done].
    unfold next_of. by rewrite Hd.
Qed.

(** A sleep that the restart signal ends: its handler jumps out of it, to the
    continuation of the [sigsetjmp], with the signal blocked. *)
Lemma evals_nanosleep_restarted {A} t (k : Z -> itree evt A) p self pr d J c σ r :
  runs_thread p self pr d σ -> self <> addr_manager_thread -> restart_installed σ ->
  p_signal_jmp d <> NULL -> J !! p_signal_jmp d = Some (None, c) ->
  pick_signal (pr_pending pr) (pr_mask pr) = Some PTHREAD_SIG_RESTART ->
  evals p (c 1)
    (put_thr self (setf p_signal PTHREAD_SIG_RESTART d)
      (set_mask p (pr_mask pr ∪ {[PTHREAD_SIG_RESTART]})
        (clear_signal p PTHREAD_SIG_RESTART σ))) r ->
  evalsJ p (ITree.bind (__libc_nanosleep t) k) J σ r.
Proof.
  intros [Hp Hs Hd] Hm Hact Hj HJ Hpick Hk.
  unfold __libc_nanosleep, take_signal, signal_waiting, getmask. csteps.
  eapply evals_act; [cbn; rewrite Hp, Hpick; reflexivity|]. cbn [bool_decide is_Some_dec]. csteps.
  eapply evals_act; [cbn; rewrite Hp; reflexivity|]. csteps.
  eapply evals_sigsuspend; [exact Hp | exact Hpick | by rewrite Hact |].
  rewrite Hact, restart_handler. cbn [sa_mask]. rewrite (right_id_L ∅ (∪)).
  eapply (evals_bind_jump p _ _ _ _ _ (p_signal_jmp d) 1 None c); [|exact HJ|exact Hk].
  apply (sighandler_jumps p self (setf pr_mask (pr_mask pr ∪ {[PTHREAD_SIG_RESTART]})
    (setf pr_pending (pr_pending pr ∖ {[PTHREAD_SIG_RESTART]}) pr))); [constructor | done | done].
  - simpl. by rewrite !lookup_alter_eq, Hp.
  - exact Hs.
  - exact Hd.
Qed.

Lemma mask_put_back p env M pr σ :
  procs (krn σ) !! p = Some pr ->
  set_mask p (pr_mask pr) (upd_krn (setf envt env) (set_mask p M σ)) =
  upd_krn (setf envt env) σ.
Proof.
  intros Hp. change (upd_krn (setf envt env) (set_mask p M σ))
    with (set_mask p M (upd_krn (setf envt env) σ)).
  unfold set_mask. rewrite upd_proc_upd_proc. eapply upd_proc_id; [exact Hp|]. by destruct pr.
Qed.

(** The thread after a sleep that no signal has interrupted: the mask is as
    before, the descriptor ready for the restart signal. *)
Definition slept (self : addr) (d : _pthread) (env : list Z) (σ : state) : state :=
  put_thr self (setf p_signal 0 (setf p_signal_jmp jmpbuf_timedwait d)) (upd_krn (setf envt env) σ).

(** The time runs out: the thread comes to [timedwait_finish] with 0. *)
Lemma timedwait_sleep_over p self pr d c m reltime env σ r :
  runs_thread p self pr d σ -> to_cancel d = false ->
  pick_signal (pr_pending pr) (pr_mask pr ∖ {[PTHREAD_SIG_RESTART]}) = None ->
  envt (krn σ) = 0 :: env ->
  evals p (timedwait_finish c m self 0) (slept self d env σ) r ->
  evals p (timedwait_sleep c m self reltime) σ r.
Proof.
  intros [Hp Hs Hd] Hc Hpick Henv He.
  unfold timedwait_sleep. eapply evals_setjmp; [done|]. csteps.
  unfold to_cancel in Hc. rewrite Hc. csteps. cbv zeta.
  eapply evals_sigprocmask_set; [exact Hp | reflexivity|]. csteps.
  eapply evals_nanosleep_over; [simpl; by rewrite lookup_alter_eq, Hp | | exact Henv |].
  { simpl. unfold sigaddset, sigemptyset. by rewrite (right_id_L ∅ (∪)). }
  csteps. eapply evals_sigprocmask_set;
    [simpl; by rewrite lookup_alter_eq, Hp | reflexivity|].
  csteps. apply evalsJ_empty. cbn [pr_mask]. collapse.
  rewrite (mask_put_back p _ _ pr) by exact Hp. exact He.
Qed.

(** What [slept] leaves alone. *)
Lemma slept_rep p self pr d c l m s env σ :
  runs_thread p self pr d σ -> cond_rep σ c l -> mutex_rep σ m s -> ms_waiting s = [] ->
  runs_thread p self pr (setf p_signal 0 (setf p_signal_jmp jmpbuf_timedwait d)) (slept self d env σ) /\
  cond_rep (slept self d env σ) c l /\ mutex_rep (slept self d env σ) m s.
Proof.
  intros [Hp Hs Hd] (v & Hv & Hq) [(w & Hm & Hw)] Hmw. split; [|split].
  - constructor; [exact Hp | exact Hs | apply lookup_insert_eq].
  - exists v. split; [exact Hv|]. eapply queue_rep_ext; [|exact Hq]. intros x _. unfold slept. simpl.
    rewrite next_of_insert. case_decide; [subst|done]. unfold next_of. by rewrite Hd.
  - constructor. exists w. split; [exact Hm|]. rewrite Hmw in *. destruct Hw. constructor; done.
Qed.

(** When the time of a [pthread_cond_timedwait] runs out, it returns
    ETIMEDOUT: the thread no longer waits on the condition, the other threads
    still do, it holds the mutex again, and its signal mask is as
    before. *)
Lemma timedwait_over p self pr d c l l' m reltime env s s' σ :
  runs_thread p self pr d σ -> to_cancel d = false ->
  pick_signal (pr_pending pr) (pr_mask pr ∖ {[PTHREAD_SIG_RESTART]}) = None ->
  envt (krn σ) = 0 :: env -> cond_rep σ c (l ++ self :: l') ->
  mutex_rep σ m s -> ms_valid s -> ms_waiting s = [] -> ms_take self s = Some s' ->
  exists σ', evals p (timedwait_sleep c m self reltime) σ (Done ETIMEDOUT σ') /\
    cond_rep σ' c (l ++ l') /\ mutex_rep σ' m s' /\ procs (krn σ') = procs (krn σ).
Proof.
  intros Hrt Hc Hpick Henv Hcr Hmr Hmv Hmw Ht.
  destruct (slept_rep p self pr d c _ m s env σ Hrt Hcr Hmr Hmw) as (Hrt1 & Hcr1 & Hmr1).
  destruct (timedwait_finish_over p self pr _ c (l ++ self :: l') m s s' 0 _ Hrt1)
    as (σ' & He & Hcr' & Hmr' & Hk); [done | done | exact Hcr1 | done..|].
  rewrite filter_ne_middle in Hcr' by (destruct Hcr as (? & _ & []); done).
  exists σ'. split; [by eapply timedwait_sleep_over|]. split; [done|]. split; [done|]. by rewrite Hk.
Qed.

(** The restart signal comes before or during the sleep. *)
Lemma timedwait_restarted p self pr d c l m reltime s s' σ :
  runs_thread p self pr d σ -> self <> addr_manager_thread -> restart_installed σ ->
  to_cancel d = false -> PTHREAD_SIG_RESTART ∈ pr_mask pr ->
  pick_signal (pr_pending pr) (pr_mask pr ∖ {[PTHREAD_SIG_RESTART]}) = Some PTHREAD_SIG_RESTART ->
  cond_rep σ c l -> mutex_rep σ m s -> ms_valid s -> ms_waiting s = [] ->
  ms_take self s = Some s' ->
  exists σ', evals p (timedwait_sleep c m self reltime) σ (Done 0 σ') /\
    cond_rep σ' c l /\ mutex_rep σ' m s' /\
    procs (krn σ') = procs (krn (clear_signal p PTHREAD_SIG_RESTART σ)).
Proof.
  intros [Hp Hs Hd] Hm Hact Hc Hrm Hpick Hcr Hmr Hmv Hmw Ht.
  set (d1 := setf p_signal PTHREAD_SIG_RESTART (setf p_signal_jmp jmpbuf_timedwait d)).
  set (σ1 := put_thr self d1 (clear_signal p PTHREAD_SIG_RESTART σ)).
  destruct (timedwait_finish_restarted p self
              (setf pr_pending (pr_pending pr ∖ {[PTHREAD_SIG_RESTART]}) pr) d1 c l m s s' (-1) σ1)
    as (σ' & He & Hcr' & Hmr' & Hk); [constructor | done | done | | | done..|].
  - simpl. by rewrite lookup_alter_eq, Hp.
  - exact Hs.
  - apply lookup_insert_eq.
  - destruct Hcr as (v & Hv & Hq). exists v. split; [exact Hv|].
    eapply queue_rep_ext; [|exact Hq]. intros x _. unfold σ1. simpl.
    rewrite next_of_insert. case_decide; [subst|done]. unfold next_of. by rewrite Hd.
  - destruct Hmr as [(w & Hw & Hq)]. constructor. exists w. split; [exact Hw|].
    rewrite Hmw in *. destruct Hq. constructor; done.
  - exists σ'. split; [|split; [done | split; [done|by rewrite Hk]]].
    unfold timedwait_sleep. eapply evals_setjmp; [done|]. csteps.
    unfold to_cancel in Hc. rewrite Hc. csteps. cbv zeta.
    eapply evals_sigprocmask_set; [exact Hp | reflexivity|]. csteps. collapse.
    unfold sigaddset, sigemptyset. rewrite (right_id_L ∅ (∪)).
    eapply (evals_nanosleep_restarted _ _ p self
      (setf pr_mask (pr_mask pr ∖ {[PTHREAD_SIG_RESTART]}) pr)
      (setf p_signal 0 (setf p_signal_jmp jmpbuf_timedwait d)));
      [constructor | done | exact Hact | done | apply lookup_insert_eq | exact Hpick |].
    + simpl. by rewrite lookup_alter_eq, Hp.
    + exact Hs.
    + apply lookup_insert_eq.
    + cbn [Z.eqb]. csteps.
      match goal with |- evalsJ _ _ _ ?s2 _ => replace s2 with σ1; [exact He|] end.
      unfold σ1, put_thr, d1, set_mask, clear_signal. rewrite upd_proc_thr, !upd_proc_thr.
      rewrite !upd_proc_upd_proc. fields. rewrite setf_thr_thr, insert_insert_eq.
      f_equal. eapply upd_proc_ext; [exact Hp|]. unfold compose. fields.
      rewrite difference_union_L.
      replace (pr_mask pr ∪ {[PTHREAD_SIG_RESTART]}) with (pr_mask pr) by set_solver.
      by destruct pr.
Qed.

(** ** The theorems *)

(** The signal is sent before the sleep. *)
Lemma timedwait_before p q self pr d c l m reltime s s' σ :
  runs_thread p self pr d σ -> p_pid d = p -> self <> addr_manager_thread ->
  restart_installed σ -> to_cancel d = false -> PTHREAD_SIG_RESTART ∈ pr_mask pr ->
  pick_signal (pr_pending pr) (pr_mask pr ∖ {[PTHREAD_SIG_RESTART]}) = None ->
  cond_rep σ c (self :: l) ->
  mutex_rep σ m s -> ms_valid s -> ms_waiting s = [] -> ms_take self s = Some s' ->
  exists σ1 σ', evals q (pthread_cond_signal c) σ (Done 0 σ1) /\
    evals p (timedwait_sleep c m self reltime) σ1 (Done 0 σ') /\
    cond_rep σ' c l /\ mutex_rep σ' m s' /\ procs (krn σ') = procs (krn σ).
Proof.
  intros Hrt Hpid Hm Hact Hc Hrm Hpick Hcr Hmr Hmv Hmw Ht. pose proof Hrt as [Hp Hs Hd].
  destruct (cond_signal_first q c self l d pr σ Hcr Hd) as (σ1 & E1 & Hcr1 & Hk & HT & Hg & Hx);
    [by rewrite Hpid|]. rewrite Hpid in Hk.
  destruct (pick_posted (pr_pending pr) (pr_mask pr ∖ {[PTHREAD_SIG_RESTART]})
              PTHREAD_SIG_RESTART Hpick) as [Hnp Hpk]; [done | apply restart_unblocked |].
  destruct (timedwait_restarted p self
      (setf pr_pending ({[PTHREAD_SIG_RESTART]} ∪ pr_pending pr) pr)
      (setf p_nextwaiting NULL d) c l m reltime s s' σ1)
    as (σ' & E2 & Hcr2 & Hmr2 & Hk2); try done.
  - constructor; [|by rewrite Hg|by rewrite HT, lookup_alter_eq, Hd].
    rewrite Hk. simpl. by rewrite lookup_alter_eq, Hp.
  - unfold restart_installed, action_of in *. by rewrite Hk.
  - destruct Hmr as [(w & Hw & Hq)]. constructor. exists w. rewrite Hx. split; [exact Hw|].
    rewrite Hmw in *. destruct Hq. constructor; done.
  - exists σ1, σ'. do 4 (split; [done|]). rewrite Hk2.
    transitivity (procs (krn (clear_signal p PTHREAD_SIG_RESTART
      (post_signal p PTHREAD_SIG_RESTART σ)))); [by simpl; rewrite Hk|].
    by rewrite (clear_post p _ pr σ Hp Hnp).
Qed.

(** A signal that finds the thread asleep no longer, but not yet at the
    spinlock: it takes the thread off the queue, and the thread, which has not
    seen it, times out with the restart signal pending. *)
Lemma timedwait_late p q self pr d c l m s s' σ :
  runs_thread p self pr d σ -> p_pid d = p -> to_cancel d = false -> p_signal d = 0 ->
  cond_rep σ c (self :: l) -> mutex_rep σ m s -> ms_valid s -> ms_waiting s = [] ->
  ms_take self s = Some s' ->
  exists σ1 σ', evals q (pthread_cond_signal c) σ (Done 0 σ1) /\
    evals p (timedwait_finish c m self 0) σ1 (Done ETIMEDOUT σ') /\
    cond_rep σ' c l /\ mutex_rep σ' m s' /\
    krn σ' = krn (post_signal p PTHREAD_SIG_RESTART σ).
Proof.
  intros [Hp Hs Hd] Hpid Hc Hsig Hcr Hmr Hmv Hmw Ht.
  destruct (cond_signal_first q c self l d pr σ Hcr Hd) as (σ1 & E1 & Hcr1 & Hk & HT & Hg & Hx);
    [by rewrite Hpid|]. rewrite Hpid in Hk.
  destruct (timedwait_finish_over p self (setf pr_pending ({[PTHREAD_SIG_RESTART]} ∪ pr_pending pr) pr)
      (setf p_nextwaiting NULL d) c l m s s' 0 σ1) as (σ' & E2 & Hcr2 & Hmr2 & Hk2); try done.
  - constructor; [|by rewrite Hg|by rewrite HT, lookup_alter_eq, Hd].
    rewrite Hk. simpl. by rewrite lookup_alter_eq, Hp.
  - destruct Hmr as [(w & Hw & Hq)]. constructor. exists w. rewrite Hx. split; [exact Hw|].
    rewrite Hmw in *. destruct Hq. constructor; done.
  - rewrite filter_ne_absent in Hcr2
      by (destruct Hcr as (? & _ & [Hnd]); by apply NoDup_cons in Hnd as []).
    exists σ1, σ'. do 4 (split; [done|]). by rewrite Hk2.
Qed.

(** C14: the orders in which a [pthread_cond_signal] and the sleep of a
    [pthread_cond_timedwait] can come, for the thread that waits first.  If the
    signal is sent before the sleep, the wait returns 0; if there is no signal
    until the time is over, it returns ETIMEDOUT.  In both cases the thread is off
    the queue and the others still on it, the mutex is held again, and mask and
    pending signals of every process are as before.  If the signal is sent after
    the sleep (in the state [slept], from which the wait goes on with
    [timedwait_finish]) and before the thread has taken the spinlock, it is lost:
    the thread is taken off the queue, nobody else is woken, and the wait
    returns ETIMEDOUT all the same, with the restart signal left pending. *)
Theorem timedwait_correct p q self pr d c l m reltime env s s' σ :
  runs_thread p self pr d σ -> p_pid d = p -> self <> addr_manager_thread ->
  restart_installed σ -> to_cancel d = false -> PTHREAD_SIG_RESTART ∈ pr_mask pr ->
  pick_signal (pr_pending pr) (pr_mask pr ∖ {[PTHREAD_SIG_RESTART]}) = None ->
  envt (krn σ) = 0 :: env -> cond_rep σ c (self :: l) ->
  mutex_rep σ m s -> ms_valid s -> ms_waiting s = [] -> ms_take self s = Some s' ->
  (exists σ1 σ', evals q (pthread_cond_signal c) σ (Done 0 σ1) /\
     evals p (timedwait_sleep c m self reltime) σ1 (Done 0 σ') /\
     cond_rep σ' c l /\ mutex_rep σ' m s' /\ procs (krn σ') = procs (krn σ)) /\
  (exists σ', evals p (timedwait_sleep c m self reltime) σ (Done ETIMEDOUT σ') /\
     cond_rep σ' c l /\ mutex_rep σ' m s' /\ procs (krn σ') = procs (krn σ)) /\
  (forall r, evals p (timedwait_finish c m self 0) (slept self d env σ) r ->
             evals p (timedwait_sleep c m self reltime) σ r) /\
  (exists σ1 σ', evals q (pthread_cond_signal c) (slept self d env σ) (Done 0 σ1) /\
     evals p (timedwait_finish c m self 0) σ1 (Done ETIMEDOUT σ') /\
     cond_rep σ' c l /\ mutex_rep σ' m s' /\
     procs (krn σ') = procs (krn (post_signal p PTHREAD_SIG_RESTART σ))).
Proof.
  intros Hrt Hpid Hm Hact Hc Hrm Hpick He Hcr Hmr Hmv Hmw Ht.
  split; [|split; [by eapply (timedwait_over p self pr d c [] l)|split]].
  - by eapply timedwait_before.
  - intros r. by eapply timedwait_sleep_over.
  - destruct (slept_rep p self pr d c _ m s env σ Hrt Hcr Hmr Hmw) as (Hrt1 & Hcr1 & Hmr1).
    destruct (timedwait_late p q self pr _ c l m s s' _ Hrt1)
      as (σ1 & σ' & E1 & E2 & Hcr2 & Hmr2 & Hk); try done.
    exists σ1, σ'. do 4 (split; [done|]). by rewrite Hk.
Qed.

(** C13: [pthread_cond_signal] wakes one thread: with nobody waiting it does
    nothing at all; otherwise the thread that has waited longest is taken off
    the queue, with its link cleared, and gets the restart signal. *)
Theorem cond_signal_correct p c l σ :
  cond_rep σ c l -> all_running l σ ->
  match l with
  | [] => evals p (pthread_cond_signal c) σ (Done 0 σ)
  | x :: l' => exists d σ', thr σ !! x = Some d /\
      evals p (pthread_cond_signal c) σ (Done 0 σ') /\ cond_rep σ' c l' /\
      krn σ' = krn (post_signal (p_pid d) PTHREAD_SIG_RESTART σ) /\
      thr σ' = alter (setf p_nextwaiting NULL) x (thr σ)
  end.
Proof.
  intros Hc Hrun. destruct l as [|x l]; [by apply cond_signal_empty|].
  destruct (Hrun x) as (d & pr & Hd & Hp); [left|]. exists d.
  destruct (cond_signal_first p c x l d pr σ Hc Hd Hp) as (σ' & He & Hc' & Hk & HT & _).
  by exists σ'.
Qed.

(** [pthread_cond_broadcast] wakes every thread that waits: afterwards
    nobody waits on the condition, and the process of every one of them has
    the restart signal pending. *)
Theorem cond_broadcast_correct p c l σ :
  cond_rep σ c l -> all_running l σ ->
  exists σ', evals p (pthread_cond_broadcast c) σ (Done 0 σ') /\ cond_rep σ' c [] /\
    forall x d, x ∈ l -> thr σ !! x = Some d ->
      exists pr, procs (krn σ') !! p_pid d = Some pr /\ PTHREAD_SIG_RESTART ∈ pr_pending pr.
Proof.
  intros Hc Hrun. eexists. split; [by apply cond_broadcast_spec|]. split.
  - exists (mk_queue NULL NULL). split; [apply lookup_insert_eq | apply queue_rep_nil].
  - intros x d Hx Hd. destruct (Hrun x Hx) as (d' & pr & Hd' & Hp). simplify_eq.
    destruct Hc as (v & _ & Hq). eapply woken_all_pending; [done | apply Hq | done | done].
Qed.
End specs.
