(* ===== verification/Semaphore.v ===== *)
(** * Semaphores (semaphore.c)

    The status of a semaphore is a [long]: [2 n + 1] for the count [n], or
    the address of the thread that came last to wait, whose link leads to
    the thread before it, and so on down to the number 1. *)

From S2P Require Import Prelude Types Machine MachineFacts Platform Memory Spinlock Queue.
From S2P Require Import Restart Mutex Cleanup Specific Join.

Section semaphore.
Context {P : Platform} {U : UserCode}.

(** [(long) p] and [(pthread_t) l] *)
Definition long_of (a : addr) : Z := wrapS long_bits a.
Definition ptr_of (l : Z) : addr := wrapU long_bits l.

(** [l & 1] as a condition *)
Definition is_count (l : Z) : bool := istrue (Z.land l 1).

Definition compare_and_swap (sem : addr) (oldval newval : Z) : itree evt Z :=
  match cas_op with
  | Some f =>
      act (fun _ σ => match sms σ !! sem with
                      | Some s => Some ((f (sem_status s) oldval newval).1,
                          setf sms (<[sem := setf sem_status
                            (f (sem_status s) oldval newval).2 s]> (sms σ)) σ)
                      | None => None
                      end)
  | None =>
      acquire (sem_spinlock_at sem) ;;
      s <- load sms sem sem_status ;;
      let ret := c_bool (s =? oldval) in
      when (istrue ret) (store sms sem sem_status newval) ;;
      release (sem_spinlock_at sem) ;;
      Ret ret
  end.

(** [value] is [unsigned int]: not negative. *)
Definition sem_init (sem : addr) (pshared value : Z) : itree evt Z :=
  if value >? SEM_VALUE_MAX then fail_with EINVAL
  else if istrue pshared then fail_with ENOSYS
  else
    store sms sem sem_status (wrapS long_bits (wrapS long_bits (Z.shiftl value 1) + 1)) ;;
    Ret 0.

(** The inner loop of [sem_wait]: it leaves the new status. *)
Definition sem_wait_try (sem self : addr) (_ : unit) : itree evt (unit + Z) :=
  oldstatus <- load sms sem sem_status ;;
  newstatus <-
    (if is_count oldstatus && negb (oldstatus =? 1)
     then Ret (wrapS long_bits (oldstatus - 2))
     else
       store thr self p_nextwaiting (ptr_of oldstatus) ;;
       Ret (long_of self)) ;;
  ok <- compare_and_swap sem oldstatus newstatus ;;
  Ret (if istrue ok then inr newstatus else inl tt).

(** Removal of a canceled thread: first from the head of the list ... *)
Definition sem_remove_head (sem self : addr) (_ : unit) : itree evt (unit + Z) :=
  oldstatus <- load sms sem sem_status ;;
  if negb (oldstatus =? long_of self) then Ret (inr oldstatus) else
  n <- load thr self p_nextwaiting ;;
  ok <- compare_and_swap sem oldstatus (long_of n) ;;
  Ret (if istrue ok then inr oldstatus else inl tt).

(** ... then from the rest: [th] points to the link of the thread [t]. *)
Definition sem_remove_rest (self : addr) (t : addr) : itree evt (addr + unit) :=
  n <- load thr t p_nextwaiting ;;
  if (n =? 1) || (n =? NULL) then Ret (inr tt) else
  n <- load thr t p_nextwaiting ;;
  if n =? self then
    n <- load thr self p_nextwaiting ;;
    store thr t p_nextwaiting n ;;
    Ret (inr tt)
  else
    n <- load thr t p_nextwaiting ;;
    Ret (inl n).

Definition sem_unqueue (sem self : addr) : itree evt unit :=
  oldstatus <- c_loop (sem_remove_head sem self) tt ;;
  when (negb (oldstatus =? long_of self) && negb (is_count oldstatus))
    (c_loop (sem_remove_rest self) (ptr_of oldstatus)).

Definition sem_wait_canceled {X} (sem self : addr) : itree evt X :=
  sem_unqueue sem self ;;
  pthread_exit PTHREAD_CANCELED.

Definition sem_wait_body (sem self : addr) (_ : unit) : itree evt (unit + Z) :=
  newstatus <- c_loop (sem_wait_try sem self) tt ;;
  if is_count newstatus then Ret (inr 0) else
  suspend_with_cancellation self ;;
  c <- cancel_pending self ;;
  if c : bool then sem_wait_canceled sem self
  else Ret (inl tt).

Definition sem_wait (sem : addr) : itree evt Z :=
  self <- thread_self ;;
  c_loop (sem_wait_body sem self) tt.

Definition sem_trywait_body (sem : addr) (_ : unit) : itree evt (unit + Z) :=
  oldstatus <- load sms sem sem_status ;;
  if negb (is_count oldstatus) || (oldstatus =? 1) then
    r <- fail_with EAGAIN ;; Ret (inr r)
  else
    ok <- compare_and_swap sem oldstatus (wrapS long_bits (oldstatus - 2)) ;;
    Ret (if istrue ok then inr 0 else inl tt).

Definition sem_trywait (sem : addr) : itree evt Z := c_loop (sem_trywait_body sem) tt.

(** The loop of [sem_post]: the status it replaced, or the failure. *)
Definition sem_post_try (sem : addr) (_ : unit) : itree evt (unit + (Z + Z)) :=
  oldstatus <- load sms sem sem_status ;;
  if negb (is_count oldstatus) then
    ok <- compare_and_swap sem oldstatus 3 ;;
    Ret (if istrue ok then inr (inl oldstatus) else inl tt)
  else if oldstatus >=? SEM_VALUE_MAX then
    r <- fail_with ERANGE ;; Ret (inr (inr r))
  else
    ok <- compare_and_swap sem oldstatus (wrapS long_bits (oldstatus + 2)) ;;
    Ret (if istrue ok then inr (inl oldstatus) else inl tt).

(** The threads on the list are restarted, last come first. *)
Definition sem_post_wake (th : addr) : itree evt (addr + unit) :=
  next_th <- load thr th p_nextwaiting ;;
  store thr th p_nextwaiting NULL ;;
  restart th ;;
  Ret (if negb (next_th =? 1) then inl next_th else inr tt).

Definition sem_post (sem : addr) : itree evt Z :=
  r <- c_loop (sem_post_try sem) tt ;;
  match r with
  | inr err => Ret err
  | inl oldstatus =>
      when (negb (is_count oldstatus)) (c_loop sem_post_wake (ptr_of oldstatus)) ;;
      Ret 0
  end.

Definition sem_getvalue (sem sval : addr) : itree evt Z :=
  status <- load sms sem sem_status ;;
  store_word sval (if is_count status
                   then int_of (Z.shiftr (wrapU long_bits status) 1) else 0) ;;
  Ret 0.

Definition sem_destroy (sem : addr) : itree evt Z :=
  s <- load sms sem sem_status ;;
  if negb (is_count s) then fail_with EBUSY else Ret 0.
End semaphore.

(** ** The status of a semaphore *)

Section status.
Context {P : Platform} {Pok : PlatformOk P}.

Lemma is_count_odd l : is_count l = Z.odd l.
Proof.
  unfold is_count, istrue. change 1 with (Z.ones 1). rewrite Z.land_ones by lia.
  rewrite Zmod_odd. by destruct (Z.odd l).
Qed.

Lemma ptr_of_long a : 0 <= a < 2 ^ long_bits -> ptr_of (long_of a) = a.
Proof.
  intros Ha. unfold ptr_of, long_of, wrapU, wrapS.
  pose proof long_bits_wide. rewrite Zminus_mod_idemp_l.
  replace (a + _ - _) with a by lia. by apply Z.mod_small.
Qed.

Lemma odd_long a : Z.odd (long_of a) = Z.odd a.
Proof.
  unfold long_of, wrapS. pose proof long_bits_wide.
  set (h := 2 ^ (long_bits - 1)).
  assert (Hh : Z.odd h = false) by (unfold h; rewrite Z.odd_pow by lia; done).
  assert (Hw : 2 ^ long_bits = 2 * h) by (apply pow2_split; lia).
  rewrite Hw, Z.odd_sub, Hh. pose proof (Z.div_mod (a + h) (2 * h)) as Hd.
  assert (Hpos : 0 < h) by (unfold h; lia).
  replace ((a + h) mod (2 * h)) with (a + h + 2 * (h * - ((a + h) / (2 * h)))) by lia.
  rewrite Z.odd_add_mul_2, Z.odd_add, Hh. by destruct (Z.odd a).
Qed.

Lemma long_of_count n : 0 <= 2 * n + 1 <= INT_MAX -> wrapS long_bits (2 * n + 1) = 2 * n + 1.
Proof.
  intros Hn. unfold INT_MAX in Hn. pose proof long_bits_wide. apply wrapS_small; [lia|].
  pose proof (Z.pow_le_mono_r 2 31 (long_bits - 1)). lia.
Qed.

Lemma long_small l : 0 <= l <= INT_MAX -> wrapS long_bits l = l.
Proof.
  intros Hn. unfold INT_MAX in Hn. pose proof long_bits_wide. apply wrapS_small; [lia|].
  pose proof (Z.pow_le_mono_r 2 31 (long_bits - 1)). lia.
Qed.

Lemma ptr_of_one : ptr_of (2 * 0 + 1) = 2 * 0 + 1.
Proof.
  unfold ptr_of. apply wrapU_small. pose proof long_bits_wide.
  pose proof (Z.pow_le_mono_r 2 32 long_bits). lia.
Qed.

Lemma odd_count n : Z.odd (2 * n + 1) = true.
Proof. rewrite Z.add_comm, Z.odd_add_mul_2. done. Qed.
End status.

(** The chain of the threads that wait, the last come first: it ends with the
    number 1. *)
Fixpoint sem_chain (T : gmap Z _pthread) (l : list addr) : Prop :=
  match l with
  | [] => True
  | x :: l' => next_of T x = Some (default 1 (head l')) /\ sem_chain T l'
  end.

Lemma sem_chain_insert_notin T a d l : a ∉ l -> sem_chain (<[a := d]> T) l <-> sem_chain T l.
Proof.
  induction l as [|x l IH]; simpl; [done|]. intros Ha.
  rewrite next_of_insert, decide_False, IH by set_solver. done.
Qed.

Lemma sem_chain_ext T T' l :
  (forall x, x ∈ l -> next_of T' x = next_of T x) -> sem_chain T l -> sem_chain T' l.
Proof.
  induction l as [|x l IH]; simpl; [done|]. intros Ht [Hx Hl].
  rewrite Ht by set_solver. split; [done|]. apply IH; [set_solver|done].
Qed.

Inductive sem_st :=
| Count (n : Z)
| Waiters (x : addr) (l : list addr).

(** [Count n]: no thread waits; the values up to half of SEM_VALUE_MAX, those
    [sem_post] can reach.  [Waiters x l]: the threads [x :: l] wait. *)
Definition sem_rep `{P : Platform} (σ : state) (sem : addr) (s : sem_st) : Prop :=
  match s with
  | Count n => 0 <= n /\ 2 * n + 1 <= SEM_VALUE_MAX /\
      sms σ !! sem = Some (mk_sem (2 * n + 1) 0)
  | Waiters x l => sms σ !! sem = Some (mk_sem (long_of x) 0) /\
      Forall (fun y => 1 < y < 2 ^ long_bits /\ Z.odd y = false) (x :: l) /\
      NoDup (x :: l) /\ sem_chain (thr σ) (x :: l)
  end.

Definition put_sem (sem status : Z) (σ : state) : state :=
  setf sms (<[sem := mk_sem status 0]> (sms σ)) σ.

Section specs.
Context {H : Handlers} {P : Platform} {Pok : PlatformOk P} {U : UserCode}
  {Hr : RestartHandler H P}.

(** Both variants of compare_and_swap do the same. *)
Lemma evals_cas {A} sem old new st (k : Z -> itree evt A) p J σ r :
  sms σ !! sem = Some (mk_sem st 0) ->
  (forall v, istrue v = (st =? old) ->
    evals p (k v) (put_sem sem (if st =? old then new else st) σ) r) ->
  evalsJ p (ITree.bind (compare_and_swap sem old new) k) J σ r.
Proof.
  intros Hs Hk. unfold compare_and_swap. destruct cas_op as [f|] eqn:Hf.
  - destruct (cas_spec f st old new Hf) as [H1 H2]. apply evalsJ_empty.
    eapply evals_act; [cbn; by rewrite Hs|]. cbn. rewrite H2. by apply Hk.
  - apply evalsJ_empty. specialize (Hk (c_bool (st =? old)) (istrue_c_bool _)).
    unfold put_sem in Hk. destruct (st =? old) eqn:He; simpl in *; csteps; rewrite He;
      cbn [c_bool]; csteps; collapse; exact Hk.
Qed.

Lemma put_sem_id sem st σ : sms σ !! sem = Some (mk_sem st 0) -> put_sem sem st σ = σ.
Proof. intros Hs. unfold put_sem. rewrite insert_id by done. by destruct σ. Qed.

Lemma fail_with_spec p self pr d e σ :
  runs_thread p self pr d σ ->
  evals p (fail_with e) σ (Done (-1) (setf thr (<[self := setf p_errno e d]> (thr σ)) σ)).
Proof.
  intros [Hp Hs Hd]. unfold fail_with, set_errno. csteps. rewrite Hs. by csteps.
Qed.

(** trywait *)
Lemma sem_trywait_takes p sem n σ :
  sem_rep σ sem (Count n) -> 0 < n ->
  evals p (sem_trywait sem) σ (Done 0 (put_sem sem (2 * (n - 1) + 1) σ)) /\
  sem_rep (put_sem sem (2 * (n - 1) + 1) σ) sem (Count (n - 1)).
Proof.
  intros (Hn & Hm & Hs) Hpos. split.
  - eapply evals_loop_stop. unfold sem_trywait_body. cstep.
    rewrite is_count_odd, odd_count. csteps.
    rewrite (long_small (2 * n + 1 - 2)) by (unfold SEM_VALUE_MAX in *; lia).
    eapply evals_cas; [exact Hs|]. rewrite Z.eqb_refl. intros v ->.
    csteps. do 2 f_equal. lia.
  - split; [lia|]. split; [lia|]. apply lookup_insert_eq.
Qed.

Lemma sem_trywait_fails p self pr d sem s σ :
  runs_thread p self pr d σ -> sem_rep σ sem s ->
  (s = Count 0 \/ exists x l, s = Waiters x l) ->
  evals p (sem_trywait sem) σ
    (Done (-1) (setf thr (<[self := setf p_errno EAGAIN d]> (thr σ)) σ)).
Proof.
  intros Hrt Hrep Hs. eapply evals_loop_stop. unfold sem_trywait_body.
  destruct Hs as [->|(x & l & ->)].
  - destruct Hrep as (_ & _ & Hs). csteps.
    eapply evals_bind; [by eapply fail_with_spec|]. by csteps.
  - destruct Hrep as (Hs & Hf & _). cstep. rewrite is_count_odd, odd_long.
    apply Forall_cons in Hf as [[_ ->] _]. csteps.
    eapply evals_bind; [by eapply fail_with_spec|]. by csteps.
Qed.

(** wait, when the count is positive *)
Lemma sem_wait_takes p pr sem n σ :
  procs (krn σ) !! p = Some pr -> sem_rep σ sem (Count n) -> 0 < n ->
  evals p (sem_wait sem) σ (Done 0 (put_sem sem (2 * (n - 1) + 1) σ)).
Proof.
  intros Hp (Hn & Hm & Hs) Hpos. unfold sem_wait. cstep. eapply evals_loop_stop.
  unfold sem_wait_body. eapply evals_bind.
  - eapply evals_loop_stop. unfold sem_wait_try. cstep.
    rewrite is_count_odd, odd_count. csteps.
    rewrite (long_small (2 * n + 1 - 2)) by (unfold SEM_VALUE_MAX in *; lia).
    eapply evals_cas; [exact Hs|]. rewrite Z.eqb_refl. intros v Hv. rewrite Hv. by csteps.
  - replace (2 * n + 1 - 2) with (2 * (n - 1) + 1) by lia.
    rewrite is_count_odd, odd_count. by csteps.
Qed.

(** Who waits: the list of a state. *)
Definition sem_waiters (s : sem_st) : list addr :=
  match s with Count _ => [] | Waiters x l => x :: l end.

Definition sem_tail (s : sem_st) : Z :=
  match s with Count n => 2 * n + 1 | Waiters x _ => x end.

(** The state in which a thread that found the semaphore empty waits. *)
Definition sem_waiting (sem self : addr) (prev_ : Z) (σ : state) : state :=
  put_sem sem (long_of self)
    (setf thr (alter (setf p_nextwaiting prev_) self (thr σ)) σ).

Lemma sem_waiting_rep sem self d s σ :
  thr σ !! self = Some d -> sem_rep σ sem s -> (s = Count 0 \/ exists x l, s = Waiters x l) ->
  self ∉ sem_waiters s -> 1 < self < 2 ^ long_bits -> Z.odd self = false ->
  sem_rep (sem_waiting sem self (sem_tail s) σ) sem (Waiters self (sem_waiters s)).
Proof.
  intros Hd Hrep Hs Hin Hr0 Ho. unfold sem_waiting, put_sem. simpl.
  rewrite <- (insert_alter _ _ _ _ Hd). split; [apply lookup_insert_eq|].
  destruct Hs as [->|(x & l & ->)]; simpl in *.
  - split; [auto|]. split; [apply NoDup_singleton|].
    rewrite next_of_insert, decide_True by done. done.
  - destruct Hrep as (_ & Hf & Hnd & Hc). split; [by constructor|].
    split; [by apply NoDup_cons|].
    rewrite next_of_insert, decide_True by done. split; [done|].
    by apply (sem_chain_insert_notin _ self _ (x :: l)).
Qed.

Lemma sem_wait_queues p self pr d sem s σ r :
  runs_thread p self pr d σ -> sem_rep σ sem s ->
  (s = Count 0 \/ exists x l, s = Waiters x l) -> Z.odd self = false ->
  evals p (suspend_with_cancellation self ;;
           c <- cancel_pending self ;;
           if c : bool then sem_wait_canceled sem self else Ret (inl tt))
    (sem_waiting sem self (sem_tail s) σ) r ->
  evals p (sem_wait_body sem self tt) σ r.
Proof.
  intros [Hp Hsf Hd] Hrep Hs Ho Hk. unfold sem_wait_body.
  unfold sem_waiting in Hk. rewrite <- (insert_alter _ _ _ _ Hd) in Hk.
  eapply evals_bind with (a := long_of self) (σ1 := put_sem sem (long_of self)
    (setf thr (<[self := setf p_nextwaiting (sem_tail s) d]> (thr σ)) σ)).
  - eapply evals_loop_stop. unfold sem_wait_try.
    destruct Hs as [->|(x & l & ->)].
    + destruct Hrep as (_ & _ & Hs). csteps. rewrite ptr_of_one.
      eapply evals_cas; [fields; exact Hs|]. intros v Hv. rewrite Hv. by csteps.
    + destruct Hrep as (Hs & Hf & _). apply Forall_cons in Hf as [[Hx Hox] _].
      cstep. rewrite is_count_odd, odd_long, Hox. csteps. rewrite ptr_of_long by lia.
      eapply evals_cas; [fields; exact Hs|]. rewrite Z.eqb_refl. intros v Hv. rewrite Hv.
      by csteps.
  - rewrite is_count_odd, odd_long, Ho. csteps. unfold put_sem in *. collapse. exact Hk.
Qed.

Lemma sem_wait_blocks p self pr d sem s σ :
  runs_thread p self pr d σ -> sem_rep σ sem s ->
  (s = Count 0 \/ exists x l, s = Waiters x l) ->
  self ∉ sem_waiters s -> 1 < self < 2 ^ long_bits -> Z.odd self = false ->
  to_cancel d = false ->
  pick_signal (pr_pending pr) (sigdelset (pr_mask pr) PTHREAD_SIG_RESTART) = None ->
  exists σ', evals p (sem_wait sem) σ (Blocks σ') /\
    sem_rep σ' sem (Waiters self (sem_waiters s)) /\ krn σ' = krn σ.
Proof.
  intros Hrt Hrep Hs Hin Hrange Ho Hc Hpick. pose proof Hrt as [Hp Hsf Hd].
  exists (waiting_cancel self (sem_waiting sem self (sem_tail s) σ)). split; [|split; [|done]].
  - unfold sem_wait. cstep. rewrite Hsf. apply evals_loop_block.
    eapply sem_wait_queues; [exact Hrt | exact Hrep | exact Hs | exact Ho |].
    apply evals_bind_block.
    eapply (suspend_with_cancellation_blocks p self pr (setf p_nextwaiting (sem_tail s) d));
      [constructor; [done|done|] | exact Hc | done].
    simpl. by rewrite lookup_alter_eq, Hd.
  - destruct (sem_waiting_rep sem self d s σ) as (H1 & H2 & H3 & H4); try done.
    split; [done|]. split; [done|]. split; [done|].
    eapply sem_chain_ext; [|exact H4]. intros y _. unfold next_of, waiting_cancel. simpl.
    rewrite lookup_alter. case_decide; [subst|done]. by rewrite lookup_alter_eq, Hd.
Qed.

(** post, when nobody waits *)
Lemma sem_post_count p sem n σ :
  sem_rep σ sem (Count n) -> 2 * n + 1 < SEM_VALUE_MAX ->
  evals p (sem_post sem) σ (Done 0 (put_sem sem (2 * (n + 1) + 1) σ)) /\
  sem_rep (put_sem sem (2 * (n + 1) + 1) σ) sem (Count (n + 1)).
Proof.
  intros (Hn & Hm & Hs) Hlt.
  assert (Hmax : 2 * (n + 1) + 1 <= SEM_VALUE_MAX)
    by (unfold SEM_VALUE_MAX, INT_MAX in *; lia).
  split; [|split; [lia|split; [done|apply lookup_insert_eq]]].
  unfold sem_post. eapply evals_bind with (a := inl (2 * n + 1)).
  - eapply evals_loop_stop. unfold sem_post_try. cstep.
    rewrite is_count_odd, odd_count. csteps.
    rewrite (long_small (2 * n + 1 + 2)) by (unfold SEM_VALUE_MAX in *; lia).
    replace (2 * n + 1 + 2) with (2 * (n + 1) + 1) by lia.
    eapply evals_cas; [exact Hs|]. rewrite Z.eqb_refl. intros v ->. by csteps.
  - rewrite is_count_odd, odd_count. by csteps.
Qed.

(** post on a count that the test takes for the largest one *)
Lemma sem_post_overflow p self pr d sem n σ :
  runs_thread p self pr d σ -> sem_rep σ sem (Count n) -> SEM_VALUE_MAX <= 2 * n + 1 ->
  evals p (sem_post sem) σ
    (Done (-1) (setf thr (<[self := setf p_errno ERANGE d]> (thr σ)) σ)).
Proof.
  intros Hrt (Hn & Hm & Hs) Hge. unfold sem_post.
  eapply evals_bind with (a := inr (-1)); [|by csteps].
  eapply evals_loop_stop. unfold sem_post_try. cstep.
  rewrite is_count_odd, odd_count. csteps.
  eapply evals_bind; [by eapply fail_with_spec|]. by csteps.
Qed.

Lemma sem_wake_all p x l σ :
  sem_chain (thr σ) (x :: l) -> NoDup (x :: l) -> all_running (x :: l) σ ->
  Forall (fun y => 1 < y) (x :: l) ->
  evals p (c_loop sem_post_wake x) σ (Done tt (woken_all (x :: l) σ)).
Proof.
  revert x σ. induction l as [|y l IH]; intros x σ [Hx Hl] Hnd Hrun Hf;
    destruct (Hrun x ltac:(set_solver)) as (d & pr & Hd & Hp);
    destruct (next_of_lookup _ _ _ Hx) as (d' & Hd' & Hn); simplify_eq; simpl in Hn;
    cbn [woken_all]; rewrite Hd; cbn [fmap option_fmap option_map default];
    rewrite <- (insert_alter (setf p_nextwaiting NULL) _ _ _ Hd).
  - eapply evals_loop_stop. unfold sem_post_wake. csteps.
    eapply evals_bind; [eapply restart_spec; [lookup_tac | exact Hp]|]. fields.
    rewrite Hn. by csteps.
  - eapply evals_loop_next with (a' := y).
    + unfold sem_post_wake. csteps.
      eapply evals_bind; [eapply restart_spec; [lookup_tac | exact Hp]|]. fields.
      rewrite Hn. replace (y =? 1) with false; [by csteps|].
      apply Forall_cons in Hf as [_ [Hy _]%Forall_cons]. lia.
    + apply NoDup_cons in Hnd as [Hxl Hnd]. apply Forall_cons in Hf as [_ Hf].
      apply IH; [|done| |done].
      * by apply (sem_chain_insert_notin _ _ _ (y :: l)).
      * rewrite (insert_alter _ _ _ _ Hd). apply all_running_step.
        intros z Hz. apply Hrun. set_solver.
Qed.

(** post, when threads wait: the count becomes 1 and all of them are woken *)
Lemma sem_post_waiters p sem x l σ :
  sem_rep σ sem (Waiters x l) -> all_running (x :: l) σ ->
  evals p (sem_post sem) σ (Done 0 (woken_all (x :: l) (put_sem sem 3 σ))).
Proof.
  intros (Hs & Hf & Hnd & Hc) Hrun. unfold sem_post.
  assert (Hx : 1 < x < 2 ^ long_bits /\ Z.odd x = false) by by apply Forall_cons in Hf as [? _].
  eapply evals_bind with (a := inl (long_of x)).
  - eapply evals_loop_stop. unfold sem_post_try. cstep.
    rewrite is_count_odd, odd_long. destruct Hx as [_ ->]. csteps.
    eapply evals_cas; [exact Hs|]. rewrite Z.eqb_refl. intros v ->. by csteps.
  - rewrite is_count_odd, odd_long. destruct Hx as [Hx ->]. csteps.
    eapply evals_bind; [|by csteps]. rewrite ptr_of_long by lia.
    apply sem_wake_all; [exact Hc | done | exact Hrun |].
    eapply Forall_impl; [exact Hf|]. simpl. lia.
Qed.

(** *** Creation, value, destruction *)

Lemma sem_init_spec p sem v s0 σ :
  0 <= v -> 2 * v + 1 <= SEM_VALUE_MAX -> sms σ !! sem = Some s0 ->
  evals p (sem_init sem 0 v) σ
    (Done 0 (setf sms (<[sem := setf sem_status (2 * v + 1) s0]> (sms σ)) σ)).
Proof.
  intros Hv Hm Hs. unfold sem_init. rewrite Z.shiftl_mul_pow2 by lia.
  replace (v * 2 ^ 1) with (2 * v) by lia.
  rewrite (long_small (2 * v)), (long_small (2 * v + 1)) by (unfold SEM_VALUE_MAX in *; lia).
  cstep. cbn [istrue negb Z.eqb]. by csteps.
Qed.

(** On a machine without compare-and-swap the semaphore has a spinlock,
    which [sem_init] does not initialize. *)
Lemma sem_init_leaves_lock p sem s0 σ :
  cas_op = None -> sms σ !! sem = Some s0 -> sem_spinlock s0 = locked ->
  let σ' := setf sms (<[sem := setf sem_status 1 s0]> (sms σ)) σ in
  evals p (sem_init sem 0 0) σ (Done 0 σ') /\ hangs p (sem_post sem) σ'.
Proof.
  intros Hc Hs Hl σ'. split; [apply (sem_init_spec p sem 0); [done | by vm_compute | done]|].
  unfold sem_post. apply hangs_bind_l, hangs_loop_l. unfold sem_post_try.
  assert (Hs' : sms σ' !! sem = Some (setf sem_status 1 s0)) by apply lookup_insert_eq.
  eapply hangs_bind_r.
  { apply evals_unbind. eapply evals_load; [exact Hs'|]. by csteps. }
  cbn -[compare_and_swap]. apply hangs_bind_l. unfold compare_and_swap. rewrite Hc.
  by eapply (acquire_held_hangs sms sem_spinlock sem_spinlock_at).
Qed.

Lemma sem_getvalue_spec p sem s a w σ :
  sem_rep σ sem s -> words σ !! a = Some w ->
  evals p (sem_getvalue sem a) σ
    (Done 0 (setf words (<[a := match s with Count n => n | Waiters _ _ => 0 end]>
                           (words σ)) σ)).
Proof.
  intros Hrep Hw. unfold sem_getvalue. destruct s as [n|x l].
  - destruct Hrep as (Hn & Hm & Hs). cstep. rewrite is_count_odd, odd_count.
    assert (Hv : int_of (Z.shiftr (wrapU long_bits (2 * n + 1)) 1) = n).
    { unfold SEM_VALUE_MAX, INT_MAX in Hm. pose proof long_bits_wide.
      pose proof (Z.pow_le_mono_r 2 32 long_bits).
      rewrite wrapU_small, Z.shiftr_div_pow2 by lia.
      replace ((2 * n + 1) / 2 ^ 1) with n by (apply (Z.div_unique _ _ _ 1); lia).
      apply int_of_small. lia. }
    rewrite Hv. by csteps.
  - destruct Hrep as (Hs & Hf & _). cstep. rewrite is_count_odd, odd_long.
    apply Forall_cons in Hf as [[_ ->] _]. by csteps.
Qed.

Lemma sem_destroy_spec p self pr d sem s σ :
  runs_thread p self pr d σ -> sem_rep σ sem s ->
  evals p (sem_destroy sem) σ
    match s with
    | Count _ => Done 0 σ
    | Waiters _ _ => Done (-1) (setf thr (<[self := setf p_errno EBUSY d]> (thr σ)) σ)
    end.
Proof.
  intros Hrt Hrep. unfold sem_destroy. destruct s as [n|x l].
  - destruct Hrep as (_ & _ & Hs). cstep. rewrite is_count_odd, odd_count. by csteps.
  - destruct Hrep as (Hs & Hf & _). cstep. rewrite is_count_odd, odd_long.
    apply Forall_cons in Hf as [[_ ->] _]. csteps. by eapply fail_with_spec.
Qed.

(** *** Removal of a canceled thread *)

Definition sem_of_list (l : list addr) : sem_st :=
  match l with [] => Count 0 | x :: l' => Waiters x l' end.

Lemma sem_remove_absent p self t l σ :
  sem_chain (thr σ) (t :: l) -> Forall (fun y => 1 < y) l -> self ∉ l ->
  evals p (c_loop (sem_remove_rest self) t) σ (Done tt σ).
Proof.
  revert t. induction l as [|n l IH]; intros t [Ht Hl] Hf Hin;
    destruct (next_of_lookup _ _ _ Ht) as (d & Hd & Hdn); simpl in Hdn.
  - eapply evals_loop_stop. unfold sem_remove_rest. cstep. rewrite Hdn. by csteps.
  - apply Forall_cons in Hf as [Hn Hf]. assert (n <> self) by set_solver.
    eapply evals_loop_next with (a' := n); [|apply IH; [done | done | set_solver]].
    unfold sem_remove_rest. cstep. rewrite Hdn. do 2 cstep. rewrite Hdn. do 2 cstep.
    rewrite Hdn. by csteps.
Qed.

Lemma sem_remove_found p self t a b σ :
  sem_chain (thr σ) (t :: a ++ self :: b) -> Forall (fun y => 1 < y) (a ++ self :: b) ->
  NoDup (t :: a ++ self :: b) ->
  evals p (c_loop (sem_remove_rest self) t) σ
    (Done tt (setf thr (alter (setf p_nextwaiting (default 1 (head b)))
                          (default t (last a)) (thr σ)) σ)).
Proof.
  revert t. induction a as [|n a IH]; intros t [Ht Hl] Hf Hnd;
    destruct (next_of_lookup _ _ _ Ht) as (d & Hd & Hdn); simpl in Hdn.
  - destruct Hl as [Hs _]. destruct (next_of_lookup _ _ _ Hs) as (e & He & Hen).
    apply Forall_cons in Hf as [Hn _].
    eapply evals_loop_stop. unfold sem_remove_rest. cstep. rewrite Hdn. do 2 cstep.
    rewrite Hdn. do 2 cstep. rewrite Hen. csteps. fields.
    by rewrite (insert_alter _ _ _ _ Hd).
  - simpl in Hf, Hnd. apply Forall_cons in Hf as [Hn Hf]. apply NoDup_cons in Hnd as [Htn Hnd].
    assert (n <> self) by list_solver.
    eapply evals_loop_next with (a' := n).
    + unfold sem_remove_rest. cstep. rewrite Hdn. do 2 cstep. rewrite Hdn. do 2 cstep.
      rewrite Hdn. by csteps.
    + rewrite last_cons. specialize (IH n Hl Hf Hnd). by destruct (last a).
Qed.

Lemma sem_chain_unlink T l pred th b d :
  sem_chain T (l ++ pred :: th :: b) -> NoDup (l ++ pred :: th :: b) -> T !! pred = Some d ->
  sem_chain (<[pred := setf p_nextwaiting (default 1 (head b)) d]> T) (l ++ pred :: b).
Proof.
  intros Hl Hnd Hd. induction l as [|x l IH]; simpl in *.
  - destruct Hl as [_ [Hth Hb]]. rewrite next_of_insert, decide_True by done.
    split; [done|]. apply sem_chain_insert_notin; [list_solver|done].
  - destruct Hl as [Hx Hl]. apply NoDup_cons in Hnd as [Hxl Hnd].
    rewrite next_of_insert, decide_False by set_solver.
    split; [by destruct l | by apply IH].
Qed.

Lemma sem_removed_rep x a th b T :
  sem_chain T (x :: a ++ th :: b) -> NoDup (x :: a ++ th :: b) ->
  (x :: a ++ b) ⊆ (x :: a ++ th :: b) /\ NoDup (x :: a ++ b) /\
  sem_chain (alter (setf p_nextwaiting (default 1 (head b))) (default x (last a)) T)
    (x :: a ++ b).
Proof.
  intros Hc Hnd. destruct (snoc_last x a) as [l' Hl'].
  assert (Heq : forall k, x :: a ++ k = l' ++ default x (last a) :: k).
  { intros k. change (x :: a ++ k) with ((x :: a) ++ k). by rewrite Hl', <- app_assoc. }
  split; [set_solver|]. split.
  { eapply sublist_NoDup; [exact Hnd|].
    apply sublist_skip, sublist_app; [done|]. by apply sublist_cons. }
  rewrite !Heq in *.
  assert (exists d, T !! default x (last a) = Some d) as [d Hd].
  { clear -Hc. induction l' as [|z l' IH]; simpl in Hc.
    - destruct Hc as [Hz _]. destruct (next_of_lookup _ _ _ Hz) as (d & Hd & _). eauto.
    - destruct Hc as [_ Hc]. eauto. }
  rewrite <- (insert_alter _ _ _ _ Hd). by eapply sem_chain_unlink.
Qed.

(** The thread at the head of the list. *)
Lemma sem_unqueue_head p self sem l σ :
  sem_rep σ sem (Waiters self l) ->
  exists σ', evals p (sem_unqueue sem self) σ (Done tt σ') /\ sem_rep σ' sem (sem_of_list l) /\
    krn σ' = krn σ.
Proof.
  intros (Hs & Hf & Hnd & Hc). pose proof Hf as [[Hsr Hso] Hfl]%Forall_cons.
  apply NoDup_cons in Hnd as [Hin Hnd]. destruct Hc as [Hn Hc].
  destruct (next_of_lookup _ _ _ Hn) as (d & Hd & Hdn).
  assert (Hself : long_of self <> 1).
  { intros Hl. pose proof (odd_long self). rewrite Hl, Hso in *. done. }
  exists (put_sem sem (long_of (default 1 (head l))) σ). split; [|split; [|done]].
  - unfold sem_unqueue. eapply evals_bind with (a := long_of self).
    + eapply evals_loop_stop. unfold sem_remove_head. cstep. do 2 cstep. rewrite Hdn.
      eapply evals_cas; [exact Hs|]. rewrite Z.eqb_refl. intros v ->. by csteps.
    + by csteps.
  - destruct l as [|y l]; simpl.
    + split; [done|]. split; [by vm_compute|]. unfold long_of.
      rewrite (long_small 1) by (unfold INT_MAX; lia). apply lookup_insert_eq.
    + split; [apply lookup_insert_eq | done].
Qed.

(** A thread canceled in [sem_wait] takes itself off the list of waiting
    threads, wherever it is: it is no longer reachable from the semaphore, the
    others keep their order, and the count is 0 if nobody is left. *)
Lemma sem_unqueue_spec p self sem s e σ :
  sem_rep σ sem s -> (forall n, s = Count n -> n = 0) -> thr σ !! self = Some e ->
  1 < self < 2 ^ long_bits -> Z.odd self = false ->
  exists σ', evals p (sem_unqueue sem self) σ (Done tt σ') /\
    sem_rep σ' sem (sem_of_list (filter (fun y => y <> self) (sem_waiters s))) /\
    krn σ' = krn σ.
Proof.
  intros Hrep H0 He Hsr Hso. unfold sem_unqueue.
  assert (Hself : long_of self <> 1).
  { intros Hl. pose proof (odd_long self). rewrite Hl, Hso in *. done. }
  destruct s as [n|x l].
  - rewrite (H0 n eq_refl) in *. exists σ. split; [|done].
    destruct Hrep as (_ & _ & Hs). eapply evals_bind with (a := 1).
    + eapply evals_loop_stop. unfold sem_remove_head. by csteps.
    + rewrite is_count_odd, andb_false_r. by csteps.
  - destruct Hrep as (Hs & Hf & Hnd & Hc). cbn [sem_waiters].
    pose proof Hf as [[Hxr Hxo] Hfl]%Forall_cons.
    assert (Hf1 : Forall (fun y => 1 < y) l)
      by (eapply Forall_impl; [exact Hfl|]; simpl; lia).
    destruct (decide (x = self)) as [->|Hne].
    + rewrite filter_cons_False by naive_solver.
      rewrite filter_ne_absent by by apply NoDup_cons in Hnd as [? _].
      by apply sem_unqueue_head.
    + assert (Hlx : long_of x <> long_of self).
      { intros Hl. apply Hne. rewrite <- (ptr_of_long x), Hl by lia. apply ptr_of_long. lia. }
      rewrite filter_cons_True by done.
      assert (Hpre : forall r, evals p (c_loop (sem_remove_rest self) x) σ r ->
        evals p (sem_unqueue sem self) σ r).
      { intros r Hr'. unfold sem_unqueue. eapply evals_bind with (a := long_of x).
        - eapply evals_loop_stop. unfold sem_remove_head. by csteps.
        - rewrite is_count_odd, odd_long, Hxo. csteps. rewrite ptr_of_long by lia. exact Hr'. }
      destruct (decide (self ∈ l)) as [Hin|Hin].
      * apply list_elem_of_split in Hin as (a & b & ->).
        rewrite (filter_ne_middle a b self) by by apply NoDup_cons in Hnd as [_ ?].
        eexists. split; [by apply Hpre, (sem_remove_found p self x a b)|]. split; [|done].
        destruct (sem_removed_rep x a self b (thr σ)) as (Hsub & Hnd' & Hc'); [done..|].
        simpl. split; [done|]. split; [rewrite Forall_forall in Hf |- *; set_solver|]. done.
      * rewrite (filter_ne_absent l self Hin). exists σ.
        split; [by apply Hpre, (sem_remove_absent p self x l)|]. done.
Qed.

(** ** The theorems *)

(** A semaphore on which the next [sem_wait] waits. *)
Definition sem_empty (s : sem_st) : Prop := s = Count 0 \/ exists x l, s = Waiters x l.

Lemma sem_cases σ sem s : sem_rep σ sem s -> sem_empty s \/ exists n, s = Count n /\ 0 < n.
Proof.
  destruct s as [n|x l]; intros Hs; [|left; right; eauto].
  destruct Hs as [H0 _]. destruct (decide (n = 0)) as [->|Hn]; [by left; left|].
  right. exists n. split; [done | lia].
Qed.

(** C16: [sem_wait] takes a unit if there is one; if not, the thread is put
    at the front of the list of waiting threads, keeping the others, and
    sleeps. *)
Theorem sem_wait_correct p self pr d sem s σ :
  runs_thread p self pr d σ -> sem_rep σ sem s -> self ∉ sem_waiters s ->
  1 < self < 2 ^ long_bits -> Z.odd self = false -> to_cancel d = false ->
  pick_signal (pr_pending pr) (sigdelset (pr_mask pr) PTHREAD_SIG_RESTART) = None ->
  (exists n, s = Count n /\ 0 < n /\
     exists σ', evals p (sem_wait sem) σ (Done 0 σ') /\ sem_rep σ' sem (Count (n - 1)) /\
       thr σ' = thr σ /\ krn σ' = krn σ) \/
  (sem_empty s /\
     exists σ', evals p (sem_wait sem) σ (Blocks σ') /\
       sem_rep σ' sem (Waiters self (sem_waiters s)) /\ krn σ' = krn σ).
Proof.
  intros Hrt Hs Hni Hr1 Ho Hc Hp. destruct (sem_cases σ sem s Hs) as [He|(n & -> & Hn)].
  - right. split; [done|]. by eapply sem_wait_blocks.
  - left. exists n. split; [done|]. split; [done|].
    exists (put_sem sem (2 * (n - 1) + 1) σ). split; [by eapply sem_wait_takes; [apply Hrt|..]|].
    split; [by apply (sem_trywait_takes p) | done].
Qed.

(** [sem_trywait] never waits: it takes a unit if there is one, and
    returns -1 with errno EAGAIN, changing nothing else, if not. *)
Theorem sem_trywait_correct p self pr d sem s σ :
  runs_thread p self pr d σ -> sem_rep σ sem s ->
  (exists n, s = Count n /\ 0 < n /\
     exists σ', evals p (sem_trywait sem) σ (Done 0 σ') /\ sem_rep σ' sem (Count (n - 1)) /\
       thr σ' = thr σ /\ krn σ' = krn σ) \/
  (sem_empty s /\
     evals p (sem_trywait sem) σ
       (Done (-1) (setf thr (<[self := setf p_errno EAGAIN d]> (thr σ)) σ))).
Proof.
  intros Hrt Hs. destruct (sem_cases σ sem s Hs) as [He|(n & -> & Hn)].
  - right. split; [done|]. by eapply sem_trywait_fails.
  - left. exists n. split; [done|]. split; [done|].
    destruct (sem_trywait_takes p sem n σ Hs Hn) as [E R]. by eexists.
Qed.

(** C17: [sem_post] makes a unit available.  With nobody waiting the count goes
    up by one; with threads waiting the count becomes 1, the list is empty,
    and the process of every waiting thread has the restart signal pending,
    so that each of them tries again. *)
Theorem sem_post_correct p sem s σ :
  sem_rep σ sem s -> all_running (sem_waiters s) σ -> sem_tail s < SEM_VALUE_MAX \/ sem_empty s ->
  exists σ', evals p (sem_post sem) σ (Done 0 σ') /\
    match s with
    | Count n => sem_rep σ' sem (Count (n + 1)) /\ thr σ' = thr σ /\ krn σ' = krn σ
    | Waiters x l => sem_rep σ' sem (Count 1) /\
        forall y d, y ∈ x :: l -> thr σ !! y = Some d ->
          exists pr, procs (krn σ') !! p_pid d = Some pr /\ PTHREAD_SIG_RESTART ∈ pr_pending pr
    end.
Proof.
  intros Hs Hrun Hlt. destruct s as [n|x l].
  - assert (Hn : 2 * n + 1 < SEM_VALUE_MAX).
    { destruct Hlt as [Hlt|[[= ->]|(? & ? & ?)]]; [done | done | done]. }
    destruct (sem_post_count p sem n σ Hs Hn) as [E R]. by eexists.
  - eexists. split; [by apply sem_post_waiters|]. split.
    + split; [lia|]. split; [done|]. rewrite sms_woken_all. apply lookup_insert_eq.
    + destruct Hs as (_ & _ & Hnd & _). intros y d Hy Hd.
      destruct (Hrun y Hy) as (d' & pr & Hd' & Hp). simplify_eq.
      eapply woken_all_pending; [done | done | done | done].
Qed.
End specs.
