(* ===== verification/Attr.v ===== *)
(** * Thread attributes (attr.c) *)

From S2P Require Import Prelude Types Machine MachineFacts Platform Memory.

Definition pthread_attr_init (attr : addr) : itree evt Z :=
  store attrs attr detachstate PTHREAD_CREATE_JOINABLE ;;
  store attrs attr schedpolicy SCHED_OTHER ;;
  store attrs attr sched_priority 0 ;;
  store attrs attr inheritsched PTHREAD_EXPLICIT_SCHED ;;
  store attrs attr scope PTHREAD_SCOPE_SYSTEM ;;
  Ret 0.

Definition pthread_attr_destroy (attr : addr) : itree evt Z := Ret 0.

Definition pthread_attr_setdetachstate (attr : addr) (d : Z) : itree evt Z :=
  if (d <? PTHREAD_CREATE_JOINABLE) || (d >? PTHREAD_CREATE_DETACHED) then Ret EINVAL
  else
    store attrs attr detachstate d ;;
    Ret 0.

Definition pthread_attr_getdetachstate (attr d : addr) : itree evt Z :=
  v <- load attrs attr detachstate ;;
  store_word d v ;;
  Ret 0.

(** sched_get_priority_max(2) and sched_get_priority_min(2), as Linux defines
    them; -1 for a policy it does not know. *)
Definition sched_get_priority_max (policy : Z) : Z :=
  if (policy =? SCHED_FIFO) || (policy =? SCHED_RR) then 99
  else if policy =? SCHED_OTHER then 0 else -1.
Definition sched_get_priority_min (policy : Z) : Z :=
  if (policy =? SCHED_FIFO) || (policy =? SCHED_RR) then 1
  else if policy =? SCHED_OTHER then 0 else -1.

(** [struct sched_param] is its field [sched_priority]. *)
Definition pthread_attr_setschedparam (attr : addr) (param : Z) : itree evt Z :=
  pol <- load attrs attr schedpolicy ;;
  let max_prio := sched_get_priority_max pol in
  let min_prio := sched_get_priority_min pol in
  if (param <? min_prio) || (param >? max_prio) then Ret EINVAL
  else
    store attrs attr sched_priority param ;;
    Ret 0.

Definition pthread_attr_getschedparam (attr param : addr) : itree evt Z :=
  v <- load attrs attr sched_priority ;;
  store_word param v ;;
  Ret 0.

Definition pthread_attr_setschedpolicy (attr : addr) (policy : Z) : itree evt Z :=
  if negb (policy =? SCHED_OTHER) && negb (policy =? SCHED_FIFO) && negb (policy =? SCHED_RR)
  then Ret EINVAL
  else
    notsup <- (if policy =? SCHED_OTHER then Ret false
               else euid <- ask ;; Ret (negb (euid =? 0))) ;;
    if notsup : bool then Ret ENOTSUP
    else
      store attrs attr schedpolicy policy ;;
      Ret 0.

Definition pthread_attr_getschedpolicy (attr policy : addr) : itree evt Z :=
  v <- load attrs attr schedpolicy ;;
  store_word policy v ;;
  Ret 0.

Definition pthread_attr_setinheritsched (attr : addr) (inherit : Z) : itree evt Z :=
  if negb (inherit =? PTHREAD_INHERIT_SCHED) && negb (inherit =? PTHREAD_EXPLICIT_SCHED)
  then Ret EINVAL
  else
    store attrs attr inheritsched inherit ;;
    Ret 0.

Definition pthread_attr_getinheritsched (attr inherit : addr) : itree evt Z :=
  v <- load attrs attr inheritsched ;;
  store_word inherit v ;;
  Ret 0.

Definition pthread_attr_setscope (attr : addr) (scope_ : Z) : itree evt Z :=
  if scope_ =? PTHREAD_SCOPE_SYSTEM then
    store attrs attr scope scope_ ;;
    Ret 0
  else if scope_ =? PTHREAD_SCOPE_PROCESS then Ret ENOTSUP
  else Ret EINVAL.

Definition pthread_attr_getscope (attr scope_ : addr) : itree evt Z :=
  v <- load attrs attr scope ;;
  store_word scope_ v ;;
  Ret 0.

(** ** Specifications *)

(** The values an attribute object can have.  The priority is not among
    them: [pthread_attr_setschedpolicy] does not look at it. *)
Record attr_ok (a : pthread_attr_t) : Prop := {
  ao_detach : detachstate a = PTHREAD_CREATE_JOINABLE \/ detachstate a = PTHREAD_CREATE_DETACHED;
  ao_policy : schedpolicy a = SCHED_OTHER \/ schedpolicy a = SCHED_FIFO \/ schedpolicy a = SCHED_RR;
  ao_inherit : inheritsched a = PTHREAD_INHERIT_SCHED \/ inheritsched a = PTHREAD_EXPLICIT_SCHED;
  ao_scope : scope a = PTHREAD_SCOPE_SYSTEM
}.

(** The calls that change an attribute object. *)
Inductive attr_call :=
| Setdetachstate (v : Z)
| Setschedparam (v : Z)
| Setschedpolicy (v : Z)
| Setinheritsched (v : Z)
| Setscope (v : Z).

Definition attr_set (attr : addr) (c : attr_call) : itree evt Z :=
  match c with
  | Setdetachstate v => pthread_attr_setdetachstate attr v
  | Setschedparam v => pthread_attr_setschedparam attr v
  | Setschedpolicy v => pthread_attr_setschedpolicy attr v
  | Setinheritsched v => pthread_attr_setinheritsched attr v
  | Setscope v => pthread_attr_setscope attr v
  end.

(** What the call should do: the new object, or the error; [root] says
    whether the process has the rights of the superuser. *)
Definition attr_spec (root : bool) (a : pthread_attr_t) (c : attr_call) : Z + pthread_attr_t :=
  match c with
  | Setdetachstate v =>
      if bool_decide (v = PTHREAD_CREATE_JOINABLE \/ v = PTHREAD_CREATE_DETACHED)
      then inr (setf detachstate v a) else inl EINVAL
  | Setschedparam v =>
      if (sched_get_priority_min (schedpolicy a) <=? v) && (v <=? sched_get_priority_max (schedpolicy a))
      then inr (setf sched_priority v a) else inl EINVAL
  | Setschedpolicy v =>
      if v =? SCHED_OTHER then inr (setf schedpolicy v a)
      else if bool_decide (v = SCHED_FIFO \/ v = SCHED_RR)
      then if root then inr (setf schedpolicy v a) else inl ENOTSUP else inl EINVAL
  | Setinheritsched v =>
      if bool_decide (v = PTHREAD_INHERIT_SCHED \/ v = PTHREAD_EXPLICIT_SCHED)
      then inr (setf inheritsched v a) else inl EINVAL
  | Setscope v =>
      if v =? PTHREAD_SCOPE_SYSTEM then inr (setf scope v a)
      else if v =? PTHREAD_SCOPE_PROCESS then inl ENOTSUP else inl EINVAL
  end.

Definition attr_object (σ : state) (attr : addr) (r : Z + pthread_attr_t) (σ' : state) : Prop :=
  attrs σ' = match r with inr a => <[attr := a]> (attrs σ) | inl _ => attrs σ end.

Lemma attr_spec_ok root a c a' : attr_ok a -> attr_spec root a c = inr a' -> attr_ok a'.
Proof.
  intros [H1 H2 H3 H4]. destruct c; simpl; repeat case_match; intros [= <-]; constructor; simpl;
    repeat match goal with
    | H : bool_decide _ = true |- _ => apply bool_decide_eq_true_1 in H
    | H : (_ =? _) = true |- _ => apply Z.eqb_eq in H
    end; tauto.
Qed.

Section specs.
Context {H : Handlers} {P : Platform}.

Ltac attr_case := eexists; split; [by csteps | done].

Lemma attr_set_spec p attr a c euid env σ :
  attrs σ !! attr = Some a -> envt (krn σ) = euid :: env ->
  let r := attr_spec (euid =? 0) a c in
  exists σ', evals p (attr_set attr c) σ (Done (match r with inl e => e | inr _ => 0 end) σ') /\
    attr_object σ attr r σ'.
Proof.
  intros Ha He. unfold attr_object. destruct c as [v|v|v|v|v]; simpl.
  - unfold pthread_attr_setdetachstate, PTHREAD_CREATE_JOINABLE, PTHREAD_CREATE_DETACHED.
    case_bool_decide as Hv; [replace (_ || _) with false by lia | replace (_ || _) with true by lia];
      attr_case.
  - unfold pthread_attr_setschedparam. destruct (_ && _) eqn:Hv; eexists.
    + split; [csteps; replace (_ || _) with false by lia; by csteps | done].
    + split; [csteps; replace (_ || _) with true by lia; by csteps | done].
  - unfold pthread_attr_setschedpolicy. destruct (Z.eqb_spec v SCHED_OTHER) as [->|Ho];
      [attr_case|]. unfold SCHED_FIFO, SCHED_RR, SCHED_OTHER in *.
    case_bool_decide as Hv; [|replace (_ && _) with true by lia; attr_case].
    replace (_ && _) with false by lia. destruct (Z.eqb_spec euid 0) as [->|Hu]; eexists;
      (split; [cstep; eapply evals_ask; [exact He|]; by csteps | done]).
  - unfold pthread_attr_setinheritsched, PTHREAD_INHERIT_SCHED, PTHREAD_EXPLICIT_SCHED.
    case_bool_decide as Hv; [replace (_ && _) with false by lia | replace (_ && _) with true by lia];
      attr_case.
  - unfold pthread_attr_setscope. destruct (v =? PTHREAD_SCOPE_SYSTEM); [attr_case|].
    destruct (v =? PTHREAD_SCOPE_PROCESS); attr_case.
Qed.

(** C28: every call on an attribute object does what its specification says,
    for every argument: a legal value is stored and 0 returned, an illegal
    one is refused with the right error and the object is unchanged; and the
    object stays well-formed. *)
Theorem attr_set_correct p attr a c euid env σ :
  attrs σ !! attr = Some a -> envt (krn σ) = euid :: env ->
  let r := attr_spec (euid =? 0) a c in
  exists σ', evals p (attr_set attr c) σ (Done (match r with inl e => e | inr _ => 0 end) σ') /\
    attr_object σ attr r σ' /\
    (attr_ok a -> forall a', attrs σ' !! attr = Some a' -> attr_ok a').
Proof.
  intros Ha He r. destruct (attr_set_spec p attr a c euid env σ Ha He) as (σ' & Hev & Ho).
  exists σ'. split; [done|]. split; [done|]. intros Hok a' Ha'. unfold attr_object in Ho.
  rewrite Ho in Ha'. fold r in Ha'. destruct r as [e|a1] eqn:Hr; simplify_map_eq; [done|].
  by eapply attr_spec_ok.
Qed.
End specs.
