(* ===== verification/Signals.v ===== *)
(** * Signals (signals.c) *)

From S2P Require Import Prelude Types Machine MachineFacts Platform Memory Spinlock Queue.
From S2P Require Import Restart Mutex Cleanup Specific Join Cancel.

Section signals.
Context {P : Platform} {U : UserCode}.

(** The set [pthread_sigmask] gives to the system. *)
Definition adjust_mask (how : Z) (mask : sigset) : sigset :=
  if how =? SIG_SETMASK then
    sigdelset (sigaddset mask PTHREAD_SIG_RESTART) PTHREAD_SIG_CANCEL
  else if how =? SIG_BLOCK then sigdelset mask PTHREAD_SIG_CANCEL
  else if how =? SIG_UNBLOCK then sigdelset mask PTHREAD_SIG_RESTART
  else mask.

(** [*newmask], for a pointer to a set; NULL is a fault. *)
Definition deref_set (newmask : option sigset) : itree evt (gset Z) :=
  act (fun _ σ => match newmask with Some mask => Some (mask, σ) | None => None end).

(** [newmask] is the set it points to, or [None] for NULL; the old mask is part
    of the result. *)
Definition pthread_sigmask (how : Z) (newmask : option sigset) : itree evt (Z * gset Z) :=
  mask <- deref_set newmask ;;
  r <- sigprocmask how (Some (adjust_mask how mask)) ;;
  if fst r =? -1 then e <- get_errno ;; Ret (e, snd r)
  else Ret (0, snd r).

Definition pthread_kill (thread : addr) (signo : Z) : itree evt Z :=
  pid <- load thr thread p_pid ;;
  r <- kill pid signo ;;
  if r =? -1 then get_errno else Ret 0.

(** The signals [sigwait] takes over. *)
Definition sigwait_takes (set : sigset) (s : Z) : bool :=
  sigismember set s && negb (s =? PTHREAD_SIG_CANCEL).

(** The first loop of [sigwait]: mask and saved actions so far. *)
Definition sigwait_install (set : sigset) (a : Z * gset Z * gmap Z sigaction_t)
    : itree evt (Z * gset Z * gmap Z sigaction_t + gset Z * gmap Z sigaction_t) :=
  let '(s, mask, saved) := a in
  if negb (s <? NSIG) then Ret (inr (mask, saved))
  else if sigwait_takes set s then
    old <- sigaction s (mk_sigaction (sa_handler addr_pthread_sighandler) sigfillset) ;;
    Ret (inl (s + 1, sigdelset mask s, <[s := old]> saved))
  else Ret (inl (s + 1, mask, saved)).

(** The second loop: the saved actions are put back. *)
Definition sigwait_restore (set : sigset) (saved : gmap Z sigaction_t) (s : Z)
    : itree evt (Z + unit) :=
  if negb (s <? NSIG) then Ret (inr tt)
  else if sigwait_takes set s then
    match saved !! s with
    | Some old => sigaction s old ;; Ret (inl (s + 1))
    | None => Ret (inl (s + 1))
    end
  else Ret (inl (s + 1)).

Definition sigwait (set : sigset) (sig : addr) : itree evt Z :=
  self <- thread_self ;;
  let mask := sigdelset sigfillset PTHREAD_SIG_CANCEL in
  ms <- c_loop (sigwait_install set) (0, mask, ∅) ;;
  let '(mask, saved_signals) := ms : gset Z * gmap Z sigaction_t in
  j <- sigsetjmp jmpbuf_sigwait true ;;
  (if j =? 0 then
     store thr self p_cancel_jmp jmpbuf_sigwait ;;
     c <- cancel_pending self ;;
     if c : bool then Ret tt
     else
       store thr self p_signal 0 ;;
       sigsuspend mask
   else Ret tt) ;;
  store thr self p_cancel_jmp NULL ;;
  c_loop (sigwait_restore set saved_signals) 0 ;;
  pthread_testcancel ;;
  s <- load thr self p_signal ;;
  store_word sig s ;;
  Ret 0.
End signals.

(** ** Specifications *)

(** What the library relies on in every thread: the restart signal is
    blocked, the cancellation signal is not. *)
Definition mask_ok (m : sigset) : Prop := PTHREAD_SIG_RESTART ∈ m /\ PTHREAD_SIG_CANCEL ∉ m.

Definition how_valid (how : Z) : Prop :=
  how = SIG_BLOCK \/ how = SIG_UNBLOCK \/ how = SIG_SETMASK.

Lemma adjust_mask_ok how s m m' :
  how_valid how -> mask_ok m -> new_mask how (adjust_mask how s) m = Some m' -> mask_ok m'.
Proof.
  assert (Hrc : PTHREAD_SIG_RESTART <> PTHREAD_SIG_CANCEL) by done.
  unfold mask_ok, new_mask, adjust_mask, sigdelset, sigaddset.
  intros [->|[->| ->]] [Hr Hc]; simpl; intros [= <-]; set_solver.
Qed.

(** Apart from the two signals, the mask is what was asked for. *)
Lemma adjust_mask_others how s m m' sig :
  how_valid how -> new_mask how (adjust_mask how s) m = Some m' ->
  sig <> PTHREAD_SIG_RESTART -> sig <> PTHREAD_SIG_CANCEL ->
  exists m0, new_mask how s m = Some m0 /\ (sig ∈ m' <-> sig ∈ m0).
Proof.
  unfold new_mask, adjust_mask, sigdelset, sigaddset.
  intros [->|[->| ->]]; simpl; intros [= <-] H1 H2; eexists; (split; [reflexivity|]); set_solver.
Qed.

Section specs.
Context {H : Handlers} {P : Platform} {U : UserCode}.

Lemma sigmask_spec p pr how s m σ :
  procs (krn σ) !! p = Some pr -> new_mask how (adjust_mask how s) (pr_mask pr) = Some m ->
  evals p (pthread_sigmask how (Some s)) σ (Done (0, pr_mask pr) (set_mask p m σ)).
Proof.
  intros Hp Hm. unfold pthread_sigmask, deref_set. eapply evals_act; [reflexivity|]. eapply evals_sigprocmask_set; [done | done |].
  by csteps.
Qed.

(** An unknown [how]: EINVAL, which errno holds too. *)
Lemma sigmask_invalid p self pr d how s σ :
  runs_thread p self pr d σ -> ~ how_valid how ->
  evals p (pthread_sigmask how (Some s)) σ
    (Done (EINVAL, pr_mask pr) (setf thr (<[self := setf p_errno EINVAL d]> (thr σ)) σ)).
Proof.
  intros [Hp Hs Hd] Hh. unfold how_valid in Hh.
  assert (Hn : new_mask how (adjust_mask how s) (pr_mask pr) = None).
  { unfold new_mask. repeat case_match; try done; lia. }
  unfold pthread_sigmask, deref_set, sigprocmask. csteps.
  eapply evals_act; [simpl; rewrite Hp, Hn; reflexivity|]. simpl.
  unfold fail_with, set_errno, get_errno. csteps. rewrite Hs. by csteps.
Qed.

(** NULL for the new mask, which asks sigprocmask only for the old one, is a
    fault. *)
Lemma sigmask_null p how σ : evals p (pthread_sigmask how None) σ Faults.
Proof. by apply evals_act_fault. Qed.

Lemma kill_spec p th d pr sig σ :
  thr σ !! th = Some d -> procs (krn σ) !! p_pid d = Some pr -> 0 < sig < NSIG ->
  evals p (pthread_kill th sig) σ (Done 0 (post_signal (p_pid d) sig σ)).
Proof.
  intros Hd Hp Hs. unfold pthread_kill. csteps. eapply evals_kill; [done | exact Hp |].
  by csteps.
Qed.

(** The process is gone: ESRCH. *)
Lemma kill_dead p self pr ds th d sig σ :
  runs_thread p self pr ds σ -> thr σ !! th = Some d -> procs (krn σ) !! p_pid d = None ->
  0 <= sig < NSIG ->
  evals p (pthread_kill th sig) σ
    (Done ESRCH (setf thr (<[self := setf p_errno ESRCH ds]> (thr σ)) σ)).
Proof.
  intros [Hp Hs Hds] Hd Hn Hsig. unfold pthread_kill, kill. csteps.
  eapply evals_act.
  { simpl. replace (sig <? 0) with false by lia. replace (sig >=? NSIG) with false by lia.
    rewrite Hn. reflexivity. }
  unfold fail_with, set_errno, get_errno. csteps. rewrite Hs. by csteps.
Qed.

(** C27: [pthread_sigmask] keeps the signals of the library working.  Whatever
    set the program passes, the new mask still has the restart signal blocked
    and the cancellation signal unblocked; for every other signal it is the
    mask that the program asked for; the old mask is returned. *)
Theorem sigmask_correct p pr how s σ :
  procs (krn σ) !! p = Some pr -> how_valid how -> mask_ok (pr_mask pr) ->
  exists m m0, evals p (pthread_sigmask how (Some s)) σ (Done (0, pr_mask pr) (set_mask p m σ)) /\
    mask_ok m /\ new_mask how s (pr_mask pr) = Some m0 /\
    forall sig, sig <> PTHREAD_SIG_RESTART -> sig <> PTHREAD_SIG_CANCEL -> (sig ∈ m <-> sig ∈ m0).
Proof.
  intros Hp Hh Hm.
  destruct (new_mask how (adjust_mask how s) (pr_mask pr)) as [m|] eqn:Hn;
    [|by destruct Hh as [->|[->| ->]]].
  destruct (new_mask how s (pr_mask pr)) as [m0|] eqn:Hn0; [|by destruct Hh as [->|[->| ->]]].
  exists m, m0. split; [by apply sigmask_spec|]. split; [by eapply adjust_mask_ok|].
  split; [done|]. intros sig H1 H2.
  destruct (adjust_mask_others how s (pr_mask pr) m sig Hh Hn H1 H2) as (m1 & Hm1 & Hiff).
  by simplify_eq.
Qed.

(** [pthread_kill] reports what happened to the thread: 0 and the signal
    pending if its process is alive, ESRCH if it is gone. *)
Theorem pthread_kill_correct p self pr ds th d sig σ :
  runs_thread p self pr ds σ -> thr σ !! th = Some d -> 0 < sig < NSIG ->
  match procs (krn σ) !! p_pid d with
  | Some _ => evals p (pthread_kill th sig) σ (Done 0 (post_signal (p_pid d) sig σ))
  | None => evals p (pthread_kill th sig) σ
      (Done ESRCH (setf thr (<[self := setf p_errno ESRCH ds]> (thr σ)) σ))
  end.
Proof.
  intros Hrt Hd Hs. case_match; [by eapply kill_spec | eapply kill_dead; [done | done | done | lia]].
Qed.
End specs.
