(* ===== verification/Manager.v ===== *)
(** * The thread manager (manager.c)

    The manager is a process of its own: it reads the requests the threads
    write to its pipe, creates the threads and frees their stacks, and learns
    through PTHREAD_SIG_RESTART, the exit signal of the threads, that some of
    them have died. *)

From S2P Require Import Prelude Types Machine MachineFacts Platform Memory Spinlock Queue.
From S2P Require Import Restart Mutex Cleanup Specific Join Layout.

(** A page of fresh memory: every field of a descriptor in it is 0. *)
Definition pthread_zero : _pthread :=
  mk_pthread 0 0 0 0 0 0 0 0 0 0 0 0 0 0 0 0 0 0 0 0 0 0 ∅
    (replicate (Z.to_nat PTHREAD_KEYS_MAX) 0).

Section syscalls.
Context {P : Platform}.

(** [th->p_specific[i] = NULL] for all [i] *)
Definition clear_specific (th : addr) : itree evt unit :=
  store thr th p_specific (replicate (Z.to_nat PTHREAD_KEYS_MAX) NULL).

(** mmap(2) with MAP_FIXED of the end of the stack segment that holds the
    descriptor [th]: fresh memory, or -1. *)
Definition mmap_stack (th : addr) : itree evt Z :=
  r <- ask ;;
  if r =? -1 then Ret (-1)
  else
    act (fun _ σ => Some (tt, upd_krn (fun k => setf mapped ({[th]} ∪ mapped k) k)
           (setf thr (<[th := pthread_zero]> (thr σ)) σ))) ;;
    Ret r.

(** munmap(2) of the segment: its descriptor is gone. *)
Definition munmap_stack (th : addr) : itree evt unit :=
  act (fun _ σ => Some (tt, upd_krn (fun k => setf mapped (mapped k ∖ {[th]}) k)
         (setf thr (delete th (thr σ)) σ))).

(** clone(2) with CLONE_VM etc.: a process that runs on the stack below
    [stack], with the signal mask of its parent; the environment gives the
    process number, or -1. *)
Definition __clone (stack : addr) (exit_signal : Z) : itree evt Z :=
  pid <- ask ;;
  if pid =? -1 then fail_with EAGAIN
  else
    act (fun p σ => match procs (krn σ) !! p, procs (krn σ) !! pid with
      | Some pr, None => Some (tt, upd_krn (fun k => setf procs
          (<[pid := mk_proc (stack - 16) p (pr_mask pr) ∅ exit_signal
                      (pr_policy pr) (pr_priority pr)]> (procs k)) k) σ)
      | _, _ => None
      end) ;;
    Ret pid.

(** sched_setscheduler(2), sched_getscheduler(2), sched_getparam(2); whether
    the caller has the permission is the environment's answer. *)
Definition sched_setscheduler (pid policy priority : Z) : itree evt Z :=
  e <- ask ;;
  r <- act (fun _ σ => match procs (krn σ) !! pid with
    | None => Some (ESRCH, σ)
    | Some _ => if e =? 0 then Some (0, upd_proc pid
                  (fun pr => setf pr_priority priority (setf pr_policy policy pr)) σ)
                else Some (e, σ)
    end) ;;
  if r =? 0 then Ret 0 else fail_with r.

Definition sched_get (fld : proc -> Z) (pid : Z) : itree evt Z :=
  r <- act (fun _ σ => match procs (krn σ) !! pid with
    | None => Some (None, σ)
    | Some pr => Some (Some (fld pr), σ)
    end) ;;
  match r with Some v => Ret v | None => fail_with ESRCH end.

Definition sched_getscheduler : Z -> itree evt Z := sched_get pr_policy.
Definition sched_getparam : Z -> itree evt Z := sched_get pr_priority.

(** waitpid(-1, &status, WNOHANG | __WCLONE): a child of the caller that has
    terminated, with its status, or 0.  The children of the manager are
    all clones. *)
Definition take_zombie (p : pid_t) (zs : list (Z * Z * Z)) : option (Z * Z * list (Z * Z * Z)) :=
  match list_find (fun z : Z * Z * Z => z.1.1 = p) zs with
  | Some (i, (_, pid, status)) => Some (pid, status, delete i zs)
  | None => None
  end.

Definition waitpid_any : itree evt (Z * Z) :=
  act (fun p σ => match take_zombie p (zombies (krn σ)) with
    | Some (pid, status, zs) => Some ((pid, status), upd_krn (setf zombies zs) σ)
    | None => Some ((0, 0), σ)
    end).

(** select(2) on the reading end of the pipe, for two seconds: 1 if there is
    a request, 0 at the end of the time, -1 if a signal was handled. *)
Definition pipe_readable : itree evt bool :=
  act (fun _ σ => Some (negb (bool_decide (pipe_data (krn σ) = [])), σ)).

Definition __select : itree evt Z :=
  sig <- take_signal ;;
  b <- pipe_readable ;;
  if b : bool then Ret 1
  else if sig : bool then fail_with EINTR
  else
    z <- ask ;;
    if z =? 0 then Ret 0 else
    await_signal ;;
    fail_with EINTR.

(** read(2) of one request *)
Definition read_request : itree evt pthread_request :=
  act (fun _ σ => match pipe_data (krn σ) with
    | r :: l => Some (r, upd_krn (setf pipe_data l) σ)
    | [] => None
    end).
End syscalls.

Section manager.
Context {P : Platform} {U : UserCode}.

(** [stack_segments[seg]] and [stack_segments[seg] = v] *)
Definition get_seg (seg : Z) : itree evt Z :=
  act (fun _ σ => match stack_segments (glb σ) !! Z.to_nat seg with
                  | Some v => Some (v, σ)
                  | None => None
                  end).

Definition set_seg (seg v : Z) : itree evt unit :=
  act (fun _ σ => match stack_segments (glb σ) !! Z.to_nat seg with
                  | Some _ => Some (tt, setf glb (setf stack_segments
                      (<[Z.to_nat seg := v]> (stack_segments (glb σ))) (glb σ)) σ)
                  | None => None
                  end).

(** malloc or realloc gives a pointer or NULL; realloc keeps the contents,
    the new part is set to 0. *)
Definition pthread_grow_stack_segments : itree evt Z :=
  n <- get_glb num_stack_segments ;;
  let new_num_sseg := if n =? 0 then 128 else int_of (n * 2) in
  new_sseg <- ask ;;
  if new_sseg =? NULL then Ret (-1)
  else
    old <- get_glb stack_segments ;;
    set_glb stack_segments (old ++ replicate (Z.to_nat (new_num_sseg - n)) 0) ;;
    set_glb num_stack_segments new_num_sseg ;;
    Ret 0.

Definition pthread_start_thread (self : addr) : itree evt Z :=
  pid <- getpid ;;
  store thr self p_pid pid ;;
  m <- load thr self p_initial_mask ;;
  sigprocmask SIG_SETMASK (Some m) ;;
  f <- load thr self p_initial_fn ;;
  a <- load thr self p_initial_fn_arg ;;
  outcome <- call_fn f a ;;
  pthread_exit outcome.

(** The inner loop of [pthread_handle_create]: a segment not in use, from
    [sseg] on; [None] if the table cannot grow. *)
Definition find_segment (sseg : Z) : itree evt (Z + option Z) :=
  n <- get_glb num_stack_segments ;;
  failed <- (if sseg >=? n then
               r <- pthread_grow_stack_segments ;; Ret (r =? -1)
             else Ret false) ;;
  if failed : bool then Ret (inr None) else
  v <- get_seg sseg ;;
  if v =? 0 then Ret (inr (Some sseg)) else Ret (inl (int_of (sseg + 1))).

(** The outer loop: a segment whose stack could be mapped. *)
Definition map_segment (sseg : Z) : itree evt (Z + option (Z * addr)) :=
  r <- c_loop find_segment sseg ;;
  match r with
  | None => Ret (inr None)
  | Some sseg =>
      set_seg sseg 1 ;;
      g <- get_glb id ;;
      let new_thread := THREAD_SEG g sseg in
      m <- mmap_stack new_thread ;;
      if negb (m =? -1) then Ret (inr (Some (sseg, new_thread)))
      else Ret (inl (int_of (sseg + 1)))
  end.

Definition init_descriptor (new_thread attr start_routine : addr) (arg : Z) (mask : sigset)
    : itree evt unit :=
  store thr new_thread p_nextwaiting NULL ;;
  store thr new_thread p_spinlock 0 ;;
  store thr new_thread p_signal 0 ;;
  store thr new_thread p_signal_jmp NULL ;;
  store thr new_thread p_cancel_jmp NULL ;;
  store thr new_thread p_terminated 0 ;;
  d <- (if attr =? NULL then Ret 0 else load attrs attr detachstate) ;;
  store thr new_thread p_detached (char_of d) ;;
  store thr new_thread p_exited 0 ;;
  store thr new_thread p_retval NULL ;;
  store thr new_thread p_joining NULL ;;
  store thr new_thread p_cleanup NULL ;;
  store thr new_thread p_cancelstate PTHREAD_CANCEL_ENABLE ;;
  store thr new_thread p_canceltype PTHREAD_CANCEL_DEFERRED ;;
  store thr new_thread p_canceled 0 ;;
  store thr new_thread p_errno 0 ;;
  store thr new_thread p_h_errno 0 ;;
  store thr new_thread p_initial_fn start_routine ;;
  store thr new_thread p_initial_fn_arg arg ;;
  store thr new_thread p_initial_mask mask ;;
  clear_specific new_thread.

(** Priority and policy of the new thread. *)
Definition set_scheduling (attr pid father_pid : Z) : itree evt unit :=
  if attr =? NULL then Ret tt else
  pol <- load attrs attr schedpolicy ;;
  if pol =? SCHED_OTHER then Ret tt else
  inh <- load attrs attr inheritsched ;;
  if inh =? PTHREAD_EXPLICIT_SCHED then
    pol <- load attrs attr schedpolicy ;;
    prio <- load attrs attr sched_priority ;;
    sched_setscheduler pid pol prio ;;
    Ret tt
  else if inh =? PTHREAD_INHERIT_SCHED then
    father_policy <- sched_getscheduler father_pid ;;
    father_param <- sched_getparam father_pid ;;
    sched_setscheduler pid father_policy father_param ;;
    Ret tt
  else Ret tt.

(** The insertion behind the main thread in the list of active threads. *)
Definition insert_live (new_thread : addr) : itree evt unit :=
  main <- get_glb __pthread_main_thread ;;
  store thr new_thread p_prevlive main ;;
  n <- load thr main p_nextlive ;;
  store thr new_thread p_nextlive n ;;
  n <- load thr main p_nextlive ;;
  store thr n p_prevlive new_thread ;;
  store thr main p_nextlive new_thread.

(** The new thread is stored through [thread], a pointer to the field
    [p_retval] of the descriptor [for_]. *)
Definition pthread_handle_create (for_ attr start_routine : addr) (arg : Z) (mask : sigset)
    (father_pid : pid_t) : itree evt Z :=
  r <- c_loop map_segment 0 ;;
  match r with
  | None => Ret EAGAIN
  | Some (sseg, new_thread) =>
      init_descriptor new_thread attr start_routine arg mask ;;
      pid <- __clone new_thread PTHREAD_SIG_RESTART ;;
      if pid =? -1 then
        munmap_stack new_thread ;;
        set_seg sseg 0 ;;
        Ret EAGAIN
      else
        set_scheduling attr pid father_pid ;;
        insert_live new_thread ;;
        store thr new_thread p_pid pid ;;
        store thr for_ p_retval new_thread ;;
        Ret 0
  end.

Definition pthread_free (th : addr) : itree evt unit :=
  if th =? addr_initial_thread then Ret tt else
  g <- get_glb id ;;
  let sseg := SEG_THREAD g th in
  munmap_stack th ;;
  set_seg sseg 0.

(** The loop of [pthread_exited], at the thread [th]. *)
Definition exited_body (main pid : Z) (th : addr) : itree evt (addr + unit) :=
  if th =? main then Ret (inr tt) else
  p <- load thr th p_pid ;;
  if p =? pid then
    n <- load thr th p_nextlive ;;
    v <- load thr th p_prevlive ;;
    store thr n p_prevlive v ;;
    v <- load thr th p_prevlive ;;
    n <- load thr th p_nextlive ;;
    store thr v p_nextlive n ;;
    acquire (p_spinlock_at th) ;;
    store thr th p_exited 1 ;;
    det <- load thr th p_detached ;;
    release (p_spinlock_at th) ;;
    when (istrue det) (pthread_free th) ;;
    Ret (inr tt)
  else
    n <- load thr th p_nextlive ;;
    Ret (inl n).

Definition pthread_exited (pid : pid_t) : itree evt unit :=
  main <- get_glb __pthread_main_thread ;;
  th <- load thr main p_nextlive ;;
  c_loop (exited_body main pid) th ;;
  e <- get_glb main_thread_exiting ;;
  if istrue e then
    main <- get_glb __pthread_main_thread ;;
    n <- load thr main p_nextlive ;;
    if n =? main then
      restart main ;;
      _exit 0
    else Ret tt
  else Ret tt.

(** [for (th = from->p_nextlive; th != from; th = th->p_nextlive)
    kill(th->p_pid, sig);] *)
Definition kill_body (from sig : Z) (th : addr) : itree evt (addr + unit) :=
  if th =? from then Ret (inr tt) else
  pid <- load thr th p_pid ;;
  kill pid sig ;;
  n <- load thr th p_nextlive ;;
  Ret (inl n).

Definition kill_others (from : addr) (sig : Z) : itree evt unit :=
  th <- load thr from p_nextlive ;;
  c_loop (kill_body from sig) th.

Definition pthread_kill_all_threads (sig main_thread_also : Z) : itree evt unit :=
  main <- get_glb __pthread_main_thread ;;
  kill_others main sig ;;
  when (istrue main_thread_also)
    (main <- get_glb __pthread_main_thread ;;
     pid <- load thr main p_pid ;;
     kill pid sig ;;
     Ret tt).

Definition reap_body (_ : unit) : itree evt (unit + unit) :=
  ws <- waitpid_any ;;
  let '(pid, status) := ws : Z * Z in
  if negb (pid >? 0) then Ret (inr tt) else
  pthread_exited pid ;;
  if WIFSIGNALED status then
    pthread_kill_all_threads (WTERMSIG status) 1 ;;
    _exit 0
  else Ret (inl tt).

Definition pthread_reap_children : itree evt unit := c_loop reap_body tt.

Definition pthread_handle_free (th : addr) : itree evt unit :=
  acquire (p_spinlock_at th) ;;
  e <- load thr th p_exited ;;
  if istrue e then pthread_free th
  else
    store thr th p_detached 1 ;;
    release (p_spinlock_at th).

Definition pthread_handle_exit {X} (issuing_thread : addr) (exitcode : Z) : itree evt X :=
  set_glb __pthread_exit_requested 1 ;;
  set_glb __pthread_exit_code exitcode ;;
  kill_others issuing_thread PTHREAD_SIG_CANCEL ;;
  restart issuing_thread ;;
  _exit 0.

(** The switch on the kind of the request: [inr] leaves the server loop. *)
Definition manager_request (r : pthread_request) : itree evt (unit + Z) :=
  let th := req_thread r in
  match req r with
  | REQ_CREATE attr fn arg mask =>
      father <- load thr th p_pid ;;
      rc <- pthread_handle_create th attr fn arg mask father ;;
      store thr th p_retcode rc ;;
      restart th ;;
      Ret (inl tt)
  | REQ_FREE thread =>
      pthread_handle_free thread ;;
      Ret (inl tt)
  | REQ_PROCESS_EXIT code =>
      pthread_handle_exit th code
  | REQ_MAIN_THREAD_EXIT =>
      set_glb main_thread_exiting 1 ;;
      main <- get_glb __pthread_main_thread ;;
      n <- load thr main p_nextlive ;;
      if n =? main then
        restart main ;;
        Ret (inr 0)
      else Ret (inl tt)
  end.

Definition manager_body (_ : unit) : itree evt (unit + Z) :=
  n <- __select ;;
  pp <- getppid ;;
  if pp =? 1 then
    pthread_kill_all_threads SIGKILL 0 ;;
    Ret (inr 0)
  else
  t <- get_glb terminated_children ;;
  (if istrue t then
     set_glb terminated_children 0 ;;
     pthread_reap_children
   else Ret tt) ;;
  if n =? 1 then
    r <- read_request ;;
    manager_request r
  else Ret (inl tt).

Definition __pthread_manager : itree evt Z :=
  let mask := sigdelset sigfillset PTHREAD_SIG_RESTART in
  sigprocmask SIG_SETMASK (Some mask) ;;
  c_loop manager_body tt.
End manager.

(** ** The list of active threads

    [ring T main l]: the threads [l] follow [main] in the circular doubly
    linked list, in that order. *)

Definition nextlive_of (T : gmap Z _pthread) (a : addr) : option addr := p_nextlive <$> T !! a.
Definition prevlive_of (T : gmap Z _pthread) (a : addr) : option addr := p_prevlive <$> T !! a.

Fixpoint live_path (T : gmap Z _pthread) (x : addr) (l : list addr) (y : addr) : Prop :=
  match l with
  | [] => nextlive_of T x = Some y /\ prevlive_of T y = Some x
  | z :: l' => nextlive_of T x = Some z /\ prevlive_of T z = Some x /\ live_path T z l' y
  end.

Record ring (T : gmap Z _pthread) (main : addr) (l : list addr) : Prop := {
  rg_path : live_path T main l main;
  rg_nodup : NoDup (main :: l)
}.

Lemma nextlive_lookup T x n :
  nextlive_of T x = Some n -> exists d, T !! x = Some d /\ p_nextlive d = n.
Proof. unfold nextlive_of. destruct (T !! x) as [d|]; simpl; [|done]. intros [= <-]. eauto. Qed.

Lemma prevlive_lookup T x n :
  prevlive_of T x = Some n -> exists d, T !! x = Some d /\ p_prevlive d = n.
Proof. unfold prevlive_of. destruct (T !! x) as [d|]; simpl; [|done]. intros [= <-]. eauto. Qed.

(** The path depends on the next links of [x :: l] and the previous links of
    [l ++ [y]]. *)
Lemma live_path_ext T T' x l y :
  (forall z, z ∈ x :: l -> nextlive_of T' z = nextlive_of T z) ->
  (forall z, z ∈ l ++ [y] -> prevlive_of T' z = prevlive_of T z) ->
  live_path T x l y -> live_path T' x l y.
Proof.
  revert x. induction l as [|z l IH]; intros x Hn Hp; simpl.
  - intros [H1 H2]. rewrite Hn, Hp by set_solver. done.
  - intros (H1 & H2 & H3). rewrite Hn, Hp by set_solver.
    repeat (split; [done|]). apply IH; [set_solver.. | done].
Qed.

Lemma live_path_app T x a z b y :
  live_path T x (a ++ z :: b) y <-> live_path T x a z /\ live_path T z b y.
Proof.
  revert x. induction a as [|w a IH]; intros x; simpl; [naive_solver|].
  rewrite IH. naive_solver.
Qed.

(** The first and the last link of a path. *)
Lemma live_path_first T x l y : live_path T x l y -> nextlive_of T x = Some (default y (head l)).
Proof. destruct l; simpl; naive_solver. Qed.

Lemma live_path_last T x l y : live_path T x l y -> prevlive_of T y = Some (default x (last l)).
Proof.
  revert x. induction l as [|z l IH]; intros x; simpl; [naive_solver|].
  intros (_ & _ & Hp). rewrite (IH z Hp), last_cons. by destruct (last l).
Qed.

Lemma live_path_lookup T x l y z :
  live_path T x l y -> z ∈ x :: l ++ [y] -> exists d, T !! z = Some d.
Proof.
  revert x. induction l as [|w l IH]; intros x; simpl.
  - intros [Hn%nextlive_lookup Hp%prevlive_lookup] Hz.
    destruct Hn as (d & Hd & _), Hp as (e & He & _).
    assert (z = x \/ z = y) as [-> | ->] by set_solver; eauto.
  - intros (Hn%nextlive_lookup & _ & Hp) Hz. destruct Hn as (d & Hd & _).
    assert (z = x \/ z ∈ w :: l ++ [y]) as [-> | Hz'] by set_solver; eauto.
Qed.

Lemma nextlive_alter_next T a v x :
  is_Some (T !! a) ->
  nextlive_of (alter (setf p_nextlive v) a T) x = if decide (a = x) then Some v else nextlive_of T x.
Proof.
  intros [d Hd]. unfold nextlive_of. rewrite lookup_alter. case_decide; [subst|done].
  by rewrite Hd.
Qed.

Lemma nextlive_alter_prev T a v x :
  nextlive_of (alter (setf p_prevlive v) a T) x = nextlive_of T x.
Proof.
  unfold nextlive_of. rewrite lookup_alter. case_decide; [subst|done]. by destruct (T !! x).
Qed.

Lemma prevlive_alter_prev T a v x :
  is_Some (T !! a) ->
  prevlive_of (alter (setf p_prevlive v) a T) x = if decide (a = x) then Some v else prevlive_of T x.
Proof.
  intros [d Hd]. unfold prevlive_of. rewrite lookup_alter. case_decide; [subst|done].
  by rewrite Hd.
Qed.

Lemma prevlive_alter_next T a v x :
  prevlive_of (alter (setf p_nextlive v) a T) x = prevlive_of T x.
Proof.
  unfold prevlive_of. rewrite lookup_alter. case_decide; [subst|done]. by destruct (T !! x).
Qed.

Lemma is_Some_alter (f : _pthread -> _pthread) a (T : gmap Z _pthread) x :
  is_Some (alter f a T !! x) <-> is_Some (T !! x).
Proof. rewrite lookup_alter. case_decide; [subst|done]. by rewrite fmap_is_Some. Qed.

(** A field that an update leaves alone. *)
Lemma field_alter {X} (f : _pthread -> X) g a (T : gmap Z _pthread) x :
  (forall d, f (g d) = f d) -> f <$> alter g a T !! x = f <$> T !! x.
Proof.
  intros Hf. rewrite lookup_alter. case_decide; [|done]. subst. destruct (T !! x); [|done].
  simpl. by rewrite Hf.
Qed.

Ltac live_tac :=
  repeat first
    [ rewrite nextlive_alter_prev | rewrite prevlive_alter_next
    | rewrite nextlive_alter_next by (rewrite ?is_Some_alter; eauto)
    | rewrite prevlive_alter_prev by (rewrite ?is_Some_alter; eauto) ].

(** [T] with [new] inserted behind [main], before [n]. *)
Definition live_inserted (main new n : addr) (T : gmap Z _pthread) : gmap Z _pthread :=
  alter (setf p_nextlive new) main (alter (setf p_prevlive new) n
    (alter (setf p_nextlive n) new (alter (setf p_prevlive main) new T))).

Lemma live_inserted_ring T main new l d :
  ring T main l -> new ∉ main :: l -> T !! new = Some d ->
  ring (live_inserted main new (default main (head l)) T) main (new :: l).
Proof.
  intros [Hpath Hnd] Hnew Hd.
  assert (Hm : is_Some (T !! main)) by (eapply live_path_lookup; [done | set_solver]).
  assert (Hmn : main <> new) by set_solver.
  split; [|apply NoDup_cons in Hnd as [? ?]; repeat apply NoDup_cons_2; set_solver].
  unfold live_inserted. destruct l as [|z l]; simpl.
  - live_tac. repeat case_decide; congruence || done.
  - assert (Hz : is_Some (T !! z)) by (eapply live_path_lookup; [exact Hpath | set_solver]).
    assert (Hzd : z <> main /\ z <> new /\ z ∉ l) by list_solver.
    destruct Hzd as (Hzm & Hzn & Hzl).
    live_tac. split; [repeat case_decide; congruence || done|].
    split; [repeat case_decide; congruence || done|].
    split; [repeat case_decide; congruence || done|].
    split; [repeat case_decide; congruence || done|].
    eapply live_path_ext; [..|apply Hpath].
    + intros w Hw. live_tac. rewrite !decide_False by list_solver. done.
    + intros w Hw. live_tac. rewrite !decide_False by list_solver. done.
Qed.

(** The list depends on its links only. *)
Lemma ring_ext T T' main l :
  (forall x, x ∈ main :: l -> nextlive_of T' x = nextlive_of T x /\
                             prevlive_of T' x = prevlive_of T x) ->
  ring T main l -> ring T' main l.
Proof.
  intros Hx [Hp Hnd]. split; [|done].
  eapply live_path_ext; [..|exact Hp]; intros z Hz; apply Hx; set_solver.
Qed.

Lemma ring_put T main l a d d' :
  T !! a = Some d -> p_nextlive d' = p_nextlive d -> p_prevlive d' = p_prevlive d ->
  ring T main l -> ring (<[a := d']> T) main l.
Proof.
  intros Ha Hn Hp. apply ring_ext. intros x _. unfold nextlive_of, prevlive_of.
  rewrite lookup_insert. case_decide; [subst|done]. rewrite Ha. simpl. by rewrite Hn, Hp.
Qed.

Lemma ring_delete T main l a : a ∉ main :: l -> ring T main l -> ring (delete a T) main l.
Proof.
  intros Ha. apply ring_ext. intros x Hx. unfold nextlive_of, prevlive_of.
  rewrite lookup_delete_ne; [done | set_solver].
Qed.

(** [T] with the thread between [v] and [n] taken out. *)
Definition live_removed (v n : addr) (T : gmap Z _pthread) : gmap Z _pthread :=
  alter (setf p_nextlive n) v (alter (setf p_prevlive v) n T).

Lemma live_removed_insert v n th d T :
  v <> th -> n <> th -> live_removed v n (<[th := d]> T) = <[th := d]> (live_removed v n T).
Proof. intros Hv Hn. unfold live_removed. by rewrite !alter_insert_ne. Qed.

Lemma live_removed_lookup v n th T :
  v <> th -> n <> th -> live_removed v n T !! th = T !! th.
Proof. intros Hv Hn. unfold live_removed. by rewrite !lookup_alter_ne. Qed.

Lemma default_last_elem (x : Z) a : default x (last a) ∈ x :: a.
Proof.
  destruct (last a) as [v|] eqn:Hl; simpl; [|set_solver].
  apply last_Some_elem_of in Hl. set_solver.
Qed.

Lemma live_path_retarget T x a th y :
  live_path T x a th -> NoDup (x :: a) -> y ∉ a -> is_Some (T !! y) ->
  live_path (live_removed (default x (last a)) y T) x a y.
Proof.
  revert x. induction a as [|z a IH]; intros x Hp Hnd Hy HTy; unfold live_removed.
  - destruct Hp as [Hn%nextlive_lookup _]. destruct Hn as (d & Hd & _). simpl. live_tac.
    repeat case_decide; done.
  - destruct Hp as (Hn & Hpz & Hp). rewrite last_cons.
    replace (default x (Some (default z (last a)))) with (default z (last a)) by done.
    pose proof (default_last_elem z a) as Hv.
    assert (Hvd : is_Some (T !! default z (last a)))
      by (eapply live_path_lookup; [exact Hp | set_solver]).
    replace (default x _) with (default z (last a)) by by destruct (last a).
    simpl. live_tac. apply NoDup_cons in Hnd as [Hx Hnd].
    rewrite !decide_False by set_solver. repeat (split; [done|]).
    apply IH; [done | done | set_solver | done].
Qed.

Lemma live_removed_ring T main a th b :
  ring T main (a ++ th :: b) ->
  ring (live_removed (default main (last a)) (default main (head b)) T) main (a ++ b).
Proof.
  intros [Hp Hnd].
  assert (Hsub : NoDup (main :: a ++ b)).
  { eapply sublist_NoDup; [exact Hnd|]. apply sublist_skip, sublist_app; [done|].
    by apply sublist_cons. }
  assert (Hm : is_Some (T !! main)) by (eapply live_path_lookup; [done | set_solver]).
  apply live_path_app in Hp as [Ha Hb]. split; [|done].
  pose proof (default_last_elem main a) as Hv.
  assert (Hvd : is_Some (T !! default main (last a)))
    by (eapply live_path_lookup; [exact Ha | set_solver]).
  pose proof Hsub as [Hma (Hna & Hab & Hnb)%NoDup_app]%NoDup_cons.
  assert (Hnma : NoDup (main :: a)) by (apply NoDup_cons; set_solver).
  destruct b as [|z b]; simpl.
  - rewrite app_nil_r in *. eapply live_path_retarget; done.
  - apply NoDup_cons in Hnb as [Hzb Hnb].
    assert (Hza : z ∉ a) by (intros Hz; apply (Hab z Hz); set_solver).
    assert (Hvz : default main (last a) ∉ z :: b) .
    { revert Hv. generalize (default main (last a)) as v. intros v Hv Hvz.
      apply elem_of_cons in Hv as [->|Hv]; [set_solver | by apply (Hab v)]. }
    destruct Hb as (_ & _ & Hb). apply live_path_app.
    assert (HTz : is_Some (T !! z)) by (eapply live_path_lookup; [exact Hb | set_solver]).
    split; [by eapply live_path_retarget|].
    unfold live_removed. eapply live_path_ext; [..|exact Hb]; intros w Hw; live_tac.
    + rewrite decide_False; [done|]. by intros <-.
    + rewrite decide_False; [done|]. intros <-. clear -Hw Hzb Hma. set_solver.
Qed.

(** ** Specifications *)

Section specs.
Context {H : Handlers} {P : Platform} {Pok : PlatformOk P} {U : UserCode}
  {Hr : RestartHandler H P}.

Definition upd_thr (T : gmap Z _pthread) (σ : state) : state := setf thr T σ.

Lemma evals_store_thr {A X} a (fld : _pthread -> X) `{!Setter fld} v (k : unit -> itree evt A)
    p J σ r :
  is_Some (thr σ !! a) ->
  evalsJ p (k tt) J (upd_thr (alter (setf fld v) a (thr σ)) σ) r ->
  evalsJ p (ITree.bind (store thr a fld v) k) J σ r.
Proof.
  intros [d Hd] Hk. eapply evals_store; [exact Hd|].
  by rewrite (insert_alter (setf fld v) _ _ _ Hd).
Qed.

Lemma evals_load_nextlive {A} a n (k : addr -> itree evt A) p J σ r :
  nextlive_of (thr σ) a = Some n -> evalsJ p (k n) J σ r ->
  evalsJ p (ITree.bind (load thr a p_nextlive) k) J σ r.
Proof. intros (d & Hd & <-)%nextlive_lookup. by apply evals_load. Qed.

Lemma evals_load_prevlive {A} a n (k : addr -> itree evt A) p J σ r :
  prevlive_of (thr σ) a = Some n -> evalsJ p (k n) J σ r ->
  evalsJ p (ITree.bind (load thr a p_prevlive) k) J σ r.
Proof. intros (d & Hd & <-)%prevlive_lookup. by apply evals_load. Qed.

Ltac thr_tac := unfold upd_thr; fields; rewrite ?is_Some_alter; eauto.

Lemma insert_live_spec p main new l d σ :
  __pthread_main_thread (glb σ) = main -> ring (thr σ) main l -> new ∉ main :: l ->
  thr σ !! new = Some d ->
  evals p (insert_live new) σ
    (Done tt (upd_thr (live_inserted main new (default main (head l)) (thr σ)) σ)).
Proof.
  intros Hm [Hpath Hnd] Hnew Hd. unfold insert_live. cstep. rewrite Hm.
  assert (HTm : is_Some (thr σ !! main)) by (eapply live_path_lookup; [exact Hpath | set_solver]).
  assert (Hmn : new <> main) by set_solver.
  pose proof (live_path_first _ _ _ _ Hpath) as Hn. set (n := default main (head l)) in *.
  assert (HTn : is_Some (thr σ !! n)).
  { eapply live_path_lookup; [exact Hpath|]. unfold n. destruct l; set_solver. }
  eapply evals_store_thr; [thr_tac|].
  eapply evals_load_nextlive; [unfold upd_thr; fields; live_tac; exact Hn|].
  eapply evals_store_thr; [thr_tac|].
  eapply evals_load_nextlive.
  { unfold upd_thr. fields. live_tac. rewrite decide_False by done. exact Hn. }
  eapply evals_store_thr; [thr_tac|]. apply evals_unbind.
  eapply evals_store_thr; [thr_tac|]. unfold upd_thr, live_inserted. by csteps.
Qed.

(** *** Signals to the other threads *)

(** Signal [sig] posted to the processes of the threads [l]. *)
Fixpoint all_signaled (l : list addr) (sig : Z) (σ : state) : state :=
  match l with
  | [] => σ
  | x :: l' => all_signaled l' sig (post_signal (default 0 (p_pid <$> thr σ !! x)) sig σ)
  end.

Lemma kill_loop_spec p from sig x l σ :
  0 < sig < NSIG -> live_path (thr σ) x l from -> from ∉ l -> all_running l σ ->
  exists n, nextlive_of (thr σ) x = Some n /\
    evals p (c_loop (kill_body from sig) n) σ (Done tt (all_signaled l sig σ)).
Proof.
  intros Hsig. revert x σ. induction l as [|z l IH]; intros x σ Hpath Hin Hrun; simpl in Hpath.
  - destruct Hpath as [Hn _]. exists from. split; [done|]. eapply evals_loop_stop.
    unfold kill_body. by csteps.
  - destruct Hpath as (Hn & _ & Hpath). exists z. split; [done|].
    destruct (Hrun z ltac:(set_solver)) as (d & pr & Hd & Hp).
    assert (Hz : z <> from) by set_solver. simpl. rewrite Hd. simpl.
    destruct (IH z (post_signal (p_pid d) sig σ)) as (n & Hnz & He);
      [exact Hpath | set_solver | |].
    { intros y Hy. destruct (Hrun y ltac:(set_solver)) as (dy & pry & Hdy & Hpy). simpl.
      exists dy. rewrite Hdy, lookup_alter. case_decide as Hq; [rewrite Hq|]; rewrite Hpy;
        simpl; eauto. }
    eapply evals_loop_next; [|exact He]. unfold kill_body. csteps.
    eapply evals_kill; [done | exact Hp |]. eapply evals_load_nextlive; [exact Hnz|]. by csteps.
Qed.

Lemma kill_others_spec p from sig l σ :
  0 < sig < NSIG -> ring (thr σ) from l -> all_running l σ ->
  evals p (kill_others from sig) σ (Done tt (all_signaled l sig σ)).
Proof.
  intros Hsig [Hpath Hnd] Hrun. unfold kill_others.
  destruct (kill_loop_spec p from sig from l σ) as (n & Hn & He);
    [done | done | by apply NoDup_cons in Hnd as [? _] | done |].
  by eapply evals_load_nextlive.
Qed.

Lemma thr_all_signaled l sig σ : thr (all_signaled l sig σ) = thr σ.
Proof. revert σ. induction l as [|x l IH]; intros σ; [done|]. simpl. by rewrite IH. Qed.

(** *** Freeing a thread *)

(** The thread [th] of segment [seg] freed. *)
Definition freed (seg : Z) (th : addr) (σ : state) : state :=
  setf glb (setf stack_segments (<[Z.to_nat seg := 0]> (stack_segments (glb σ))) (glb σ))
    (upd_krn (fun k => setf mapped (mapped k ∖ {[th]}) k) (upd_thr (delete th (thr σ)) σ)).

(** [th] is the descriptor of segment [seg], one of the table. *)
Record is_segment (σ : state) (seg : Z) (th : addr) : Prop := {
  sg_layout : exists nseg, layout_ok (glb σ) nseg /\ 0 <= seg < nseg;
  sg_table : (Z.to_nat seg < length (stack_segments (glb σ)))%nat;
  sg_thread : th = THREAD_SEG (glb σ) seg;
  sg_initial : th <> addr_initial_thread
}.

Lemma pthread_free_spec p seg th σ :
  is_segment σ seg th -> evals p (pthread_free th) σ (Done tt (freed seg th σ)).
Proof.
  intros [(nseg & Hl & Hs) Ht -> Hi]. apply lookup_lt_is_Some in Ht as [v Hv].
  unfold pthread_free. csteps. unfold id at 1. cbv zeta.
  rewrite (seg_thread_seg (glb σ) nseg seg Hl Hs).
  unfold munmap_stack, set_seg. csteps.
  eapply evals_act; [cbn; rewrite Hv; reflexivity|]. by csteps.
Qed.

(** The thread [th], between [v] and [n], off the list and marked. *)
Definition exited_marked (th v n : addr) (σ : state) : state :=
  upd_thr (alter (setf p_exited 1) th (live_removed v n (thr σ))) σ.

Definition exited_state (seg th v n : Z) (d : _pthread) (σ : state) : state :=
  let σ1 := exited_marked th v n σ in
  if istrue (p_detached d) then freed seg th σ1 else σ1.

(** The loop of pthread_exited finds the thread and takes it off the list. *)
Lemma exited_found p main pid seg x v n th d σ :
  nextlive_of (thr σ) th = Some n -> prevlive_of (thr σ) th = Some v ->
  thr σ !! th = Some d -> p_pid d = pid -> p_spinlock d = 0 -> th <> main ->
  v <> th -> n <> th -> is_Some (thr σ !! v) -> is_Some (thr σ !! n) ->
  is_segment σ seg th -> x = th ->
  evals p (c_loop (exited_body main pid) x) σ (Done tt (exited_state seg th v n d σ)).
Proof.
  intros Hn Hv Hd Hpid Hl Hm Hvt Hnt HTv HTn Hseg ->. eapply evals_loop_stop.
  unfold exited_body. do 3 cstep. eapply evals_load_nextlive; [exact Hn|].
  eapply evals_load_prevlive; [exact Hv|]. eapply evals_store_thr; [thr_tac|].
  eapply evals_load_prevlive; [unfold upd_thr; fields; live_tac; by rewrite decide_False|].
  eapply evals_load_nextlive; [unfold upd_thr; fields; live_tac; exact Hn|].
  eapply evals_store_thr; [thr_tac|]. unfold upd_thr. fields.
  change (alter (setf p_nextlive n) v (alter (setf p_prevlive v) n (thr σ)))
    with (live_removed v n (thr σ)).
  assert (Hd1 : live_removed v n (thr σ) !! th = Some d).
  { unfold live_removed. by rewrite !lookup_alter_ne. }
  csteps. collapse.
  assert (Hd' : setf p_spinlock 0 (setf p_exited 1 d) = setf p_exited 1 d)
    by (rewrite <- Hl at 1; by destruct d).
  rewrite Hd', (insert_alter (setf p_exited 1) _ _ _ Hd1).
  unfold exited_state, exited_marked, upd_thr. destruct (istrue (p_detached d)) eqn:Hdet.
  - csteps. eapply evals_bind; [|by csteps]. by apply pthread_free_spec; destruct Hseg.
  - by csteps.
Qed.

Lemma exited_loop_spec p main pid seg a th b d σ x :
  ring (thr σ) main (a ++ th :: b) -> thr σ !! th = Some d -> p_pid d = pid ->
  p_spinlock d = 0 -> is_segment σ seg th ->
  (forall y e, y ∈ a -> thr σ !! y = Some e -> p_pid e <> pid) ->
  nextlive_of (thr σ) main = Some x ->
  evals p (c_loop (exited_body main pid) x) σ
    (Done tt (exited_state seg th (default main (last a)) (default main (head b)) d σ)).
Proof.
  intros [Hpath Hnd] Hd Hpid Hl Hseg Hno Hx.
  apply live_path_app in Hpath as [Ha Hb].
  pose proof (live_path_last _ _ _ _ Ha) as Hv. pose proof (live_path_first _ _ _ _ Hb) as Hn.
  pose proof (default_last_elem main a) as Hvin.
  assert (Hthm : th <> main /\ th ∉ a /\ th ∉ b).
  { apply NoDup_cons in Hnd as [Hm (_ & Hab & Hnb)%NoDup_app].
    apply NoDup_cons in Hnb as [? _]. repeat split; [set_solver | | done].
    intros Hin. apply (Hab th Hin). set_solver. }
  destruct Hthm as (Hthm & Htha & Hthb).
  assert (Hvt : default main (last a) <> th) by set_solver.
  assert (Hnt : default main (head b) <> th) by (destruct b; set_solver).
  assert (HTv : is_Some (thr σ !! default main (last a)))
    by (eapply live_path_lookup; [exact Ha | set_solver]).
  assert (HTn : is_Some (thr σ !! default main (head b)))
    by (eapply live_path_lookup; [exact Hb | destruct b; set_solver]).
  assert (Hma : main ∉ a) by (apply NoDup_cons in Hnd as [? _]; set_solver).
  assert (Hskip : forall c y, live_path (thr σ) y c th -> (forall z, z ∈ c -> z ∈ a) ->
    forall x, nextlive_of (thr σ) y = Some x ->
    evals p (c_loop (exited_body main pid) x) σ
      (Done tt (exited_state seg th (default main (last a)) (default main (head b)) d σ))).
  { induction c as [|z c IH]; intros y Hc Hsub w Hw; simpl in Hc.
    - destruct Hc as [Hy _]. eapply exited_found; eauto. congruence.
    - destruct Hc as (Hy & _ & Hc). assert (w = z) as -> by congruence.
      destruct (live_path_lookup _ _ _ _ z Hc ltac:(set_solver)) as [e He].
      pose proof (live_path_first _ _ _ _ Hc) as Hnz.
      assert (z ∈ a) by set_solver. assert (z <> main) by set_solver.
      pose proof (Hno z e ltac:(done) He).
      eapply evals_loop_next; [|apply (IH z Hc ltac:(set_solver) _ Hnz)].
      unfold exited_body. do 3 cstep. eapply evals_load_nextlive; [exact Hnz|]. by csteps. }
  by apply (Hskip a main).
Qed.

Lemma pthread_exited_spec p main pid seg a th b d σ :
  __pthread_main_thread (glb σ) = main -> ring (thr σ) main (a ++ th :: b) ->
  thr σ !! th = Some d -> p_pid d = pid -> p_spinlock d = 0 -> is_segment σ seg th ->
  (forall y e, y ∈ a -> thr σ !! y = Some e -> p_pid e <> pid) ->
  main_thread_exiting (glb σ) = 0 ->
  evals p (pthread_exited pid) σ
    (Done tt (exited_state seg th (default main (last a)) (default main (head b)) d σ)).
Proof.
  intros Hm Hring Hd Hpid Hl Hseg Hno Hex. unfold pthread_exited. cstep. rewrite Hm.
  destruct (live_path_lookup _ _ _ _ main (rg_path _ _ _ Hring) ltac:(set_solver)) as [dm Hdm].
  eapply evals_load_nextlive; [unfold nextlive_of; by rewrite Hdm|].
  eapply evals_bind.
  - eapply exited_loop_spec; eauto. unfold nextlive_of. by rewrite Hdm.
  - cstep. unfold exited_state, freed, exited_marked, upd_thr, upd_krn.
    destruct (istrue (p_detached d)); fields; rewrite Hex; by csteps.
Qed.

(** The last thread is gone while the main thread waits in [pthread_exit]:
    the main thread is restarted and the manager exits. *)
Lemma pthread_exited_last p main pid seg th d dm prm σ :
  __pthread_main_thread (glb σ) = main -> ring (thr σ) main [th] ->
  thr σ !! th = Some d -> p_pid d = pid -> p_spinlock d = 0 -> p_detached d = 0 ->
  is_segment σ seg th -> main_thread_exiting (glb σ) <> 0 ->
  thr σ !! main = Some dm -> procs (krn σ) !! p_pid dm = Some prm ->
  evals p (pthread_exited pid) σ
    (Exits (terminate p (exit_status 0)
      (post_signal (p_pid dm) PTHREAD_SIG_RESTART (exited_marked th main main σ)))).
Proof.
  intros Hm Hring Hd Hpid Hl Hdet Hseg Hex Hdm Hpm. unfold pthread_exited. cstep. rewrite Hm.
  assert (Hne : th <> main) by (destruct Hring as [_ Hnd]; list_solver).
  eapply evals_load_nextlive; [unfold nextlive_of; by rewrite Hdm|].
  pose proof (live_removed_ring _ main [] th [] Hring) as [[Hn _] _]. simpl in Hn.
  eapply evals_bind.
  - apply (exited_loop_spec p main pid seg [] th [] d); auto; [set_solver|].
    unfold nextlive_of. by rewrite Hdm.
  - unfold exited_state. rewrite Hdet. cbn [istrue Z.eqb negb default head last].
    unfold exited_marked at 1, upd_thr at 1. csteps. rewrite (istrue_nonzero _ Hex). csteps.
    rewrite Hm. eapply evals_load_nextlive.
    { simpl. unfold nextlive_of in *. by rewrite lookup_alter_ne. }
    rewrite Z.eqb_refl.
    pose proof (restart_spec p main (setf p_nextlive main (setf p_prevlive main dm)) prm
      (exited_marked th main main σ)) as Hrs.
    eapply evals_bind; [apply Hrs; [|exact Hpm] | apply evals_exit].
    simpl. unfold live_removed. by rewrite lookup_alter_ne, !lookup_alter_eq, Hdm.
Qed.

(** *** Freeing on request *)

Lemma handle_free_running p th d σ :
  thr σ !! th = Some d -> p_spinlock d = 0 -> p_exited d = 0 ->
  evals p (pthread_handle_free th) σ (Done tt (put_thr th (setf p_detached 1 d) σ)).
Proof.
  intros Hd Hl Hex. unfold pthread_handle_free. csteps. rewrite Hex. csteps.
  apply evals_unbind. csteps. unfold put_thr. collapse.
  assert (Hd' : setf p_spinlock 0 (setf p_detached 1 d) = setf p_detached 1 d)
    by (rewrite <- Hl at 1; by destruct d).
  by rewrite Hd'.
Qed.

Lemma handle_free_exited p seg th d σ :
  thr σ !! th = Some d -> p_spinlock d = 0 -> p_exited d <> 0 -> is_segment σ seg th ->
  evals p (pthread_handle_free th) σ (Done tt (freed seg th σ)).
Proof.
  intros Hd Hl Hex Hseg. unfold pthread_handle_free. csteps.
  rewrite (istrue_nonzero _ Hex). cbv iota.
  replace (freed seg th σ) with (freed seg th
    (setf thr (<[th := setf p_spinlock locked d]> (thr σ)) σ)).
  - by apply pthread_free_spec; destruct Hseg.
  - unfold freed, upd_thr. fields. collapse. by rewrite delete_insert_eq.
Qed.

(** The neighbours of a thread in the list are other threads. *)
Lemma ring_neighbours T main a th b :
  ring T main (a ++ th :: b) ->
  th ∉ main :: a ++ b /\ default main (last a) <> th /\ default main (head b) <> th.
Proof.
  intros [_ Hnd]. assert (Hth : th ∉ main :: a ++ b).
  { rewrite app_comm_cons in Hnd |- *. apply NoDup_app in Hnd as (_ & Hd & [Hb _]%NoDup_cons).
    intros [Ha|Hb']%elem_of_app; [|done]. apply (Hd th Ha). set_solver. }
  split; [done|]. pose proof (default_last_elem main a). split; [set_solver|].
  destruct b; set_solver.
Qed.

(** C20: A joined thread is freed exactly once, whichever comes first: the
    request of the joiner or the end of the process; the final state is the
    same. *)
Lemma free_exited_commute p main pid seg a th b d σ :
  __pthread_main_thread (glb σ) = main -> ring (thr σ) main (a ++ th :: b) ->
  thr σ !! th = Some d -> p_pid d = pid -> p_spinlock d = 0 -> is_segment σ seg th ->
  (forall y e, y ∈ a -> thr σ !! y = Some e -> p_pid e <> pid) ->
  main_thread_exiting (glb σ) = 0 -> p_exited d = 0 -> p_detached d = 0 ->
  exists σ', evals p (pthread_handle_free th ;; pthread_exited pid) σ (Done tt σ') /\
    evals p (pthread_exited pid ;; pthread_handle_free th) σ (Done tt σ') /\
    thr σ' !! th = None /\ stack_segments (glb σ') !! Z.to_nat seg = Some 0 /\
    ring (thr σ') main (a ++ b).
Proof.
  intros Hm Hring Hd Hpid Hl Hseg Hno Hmx Hex Hdet.
  set (v := default main (last a)). set (n := default main (head b)).
  pose proof (live_removed_ring _ _ _ _ _ Hring) as Hring'.
  destruct (ring_neighbours _ _ _ _ _ Hring) as (Hth & Hv & Hn).
  fold v in Hv. fold n in Hn.
  exists (freed seg th (exited_marked th v n σ)). split; [|split; [|split; [|split]]].
  - eapply evals_bind; [by eapply handle_free_running|].
    replace (freed seg th (exited_marked th v n σ))
      with (exited_state seg th v n (setf p_detached 1 d) (put_thr th (setf p_detached 1 d) σ)).
    + eapply pthread_exited_spec; try done; [by eapply ring_put | apply lookup_insert_eq
        | by destruct Hseg |].
      intros y e Hy. unfold put_thr. simpl. rewrite lookup_insert_ne by set_solver. eauto.
    + unfold exited_state. cbn [istrue]. unfold freed, exited_marked, upd_thr, put_thr.
      simpl. by rewrite !delete_alter_eq, live_removed_insert, delete_insert_eq.
  - eapply evals_bind; [by eapply (pthread_exited_spec p main pid seg a th b d)|].
    unfold exited_state. rewrite Hdet. cbn [istrue Z.eqb negb].
    eapply (handle_free_exited p seg th (setf p_exited 1 d)); [|done | done | by destruct Hseg].
    simpl. by rewrite lookup_alter_eq, live_removed_lookup, Hd.
  - unfold freed, upd_thr. simpl. apply lookup_delete_eq.
  - simpl. apply list_lookup_insert_eq. apply Hseg.
  - unfold freed, exited_marked, upd_thr. simpl. rewrite delete_alter_eq.
    by apply ring_delete.
Qed.

(** *** The table of stack segments *)

(** The table and its size agree; the size is far from overflow. *)
Definition segs_ok (σ : state) : Prop :=
  Z.of_nat (length (stack_segments (glb σ))) = num_stack_segments (glb σ) /\
  num_stack_segments (glb σ) <= 2 ^ 29.

Definition put_segs (segs : list Z) (σ : state) : state :=
  setf glb (setf stack_segments segs (glb σ)) σ.

Lemma evals_get_seg {A} seg v (k : Z -> itree evt A) p J σ r :
  stack_segments (glb σ) !! Z.to_nat seg = Some v -> evalsJ p (k v) J σ r ->
  evalsJ p (ITree.bind (get_seg seg) k) J σ r.
Proof. intros Hv. eapply evals_act. simpl. by rewrite Hv. Qed.

Lemma evals_set_seg {A} seg v0 v (k : unit -> itree evt A) p J σ r :
  stack_segments (glb σ) !! Z.to_nat seg = Some v0 ->
  evalsJ p (k tt) J (put_segs (<[Z.to_nat seg := v]> (stack_segments (glb σ))) σ) r ->
  evalsJ p (ITree.bind (set_seg seg v) k) J σ r.
Proof. intros Hv. eapply evals_act. simpl. by rewrite Hv. Qed.

(** The table grown: it doubles, from 128 entries, and the new entries are
    free. *)
Definition grown_size (n : Z) : Z := if n =? 0 then 128 else n * 2.

Definition grown (env : list Z) (σ : state) : state :=
  let n := num_stack_segments (glb σ) in
  setf glb (setf num_stack_segments (grown_size n)
    (setf stack_segments
      (stack_segments (glb σ) ++ replicate (Z.to_nat (grown_size n - n)) 0) (glb σ)))
    (upd_krn (setf envt env) σ).

Lemma grow_spec p a env σ :
  segs_ok σ -> envt (krn σ) = a :: env -> a <> NULL ->
  evals p pthread_grow_stack_segments σ (Done 0 (grown env σ)).
Proof.
  intros [Hlen Hmax] He Ha. unfold pthread_grow_stack_segments. cstep. cbv zeta.
  assert (Hn : (if num_stack_segments (glb σ) =? 0 then 128
                else int_of (num_stack_segments (glb σ) * 2)) =
               grown_size (num_stack_segments (glb σ))).
  { unfold grown_size. destruct (_ =? 0); [done|]. apply int_of_small. lia. }
  rewrite Hn. eapply evals_ask; [exact He|]. by csteps.
Qed.

Lemma grow_fails p env σ :
  envt (krn σ) = NULL :: env ->
  evals p pthread_grow_stack_segments σ (Done (-1) (upd_krn (setf envt env) σ)).
Proof.
  intros He. unfold pthread_grow_stack_segments. cstep. cbv zeta.
  eapply evals_ask; [exact He|]. by csteps.
Qed.

(** The first free segment from [sseg] on is found. *)
Lemma find_segment_spec p sseg k σ :
  segs_ok σ -> 0 <= sseg <= k -> stack_segments (glb σ) !! Z.to_nat k = Some 0 ->
  (forall j v, sseg <= j < k -> stack_segments (glb σ) !! Z.to_nat j = Some v -> v <> 0) ->
  evals p (c_loop find_segment sseg) σ (Done (Some k) σ).
Proof.
  intros [Hlen Hmax] Hr0 Hk Hno. remember (Z.to_nat (k - sseg)) as m eqn:Hm.
  pose proof (lookup_lt_Some _ _ _ Hk) as Hkl.
  revert sseg Hr0 Hno Hm. induction m as [|m IH]; intros sseg Hr0 Hno Hm.
  - assert (sseg = k) as -> by lia. eapply evals_loop_stop. unfold find_segment. csteps.
    eapply evals_get_seg; [exact Hk|]. by csteps.
  - assert (exists v, stack_segments (glb σ) !! Z.to_nat sseg = Some v) as [v Hv]
      by (apply lookup_lt_is_Some; lia).
    assert (v <> 0) by (eapply Hno; [|exact Hv]; lia).
    eapply evals_loop_next with (a' := sseg + 1).
    + unfold find_segment. csteps. eapply evals_get_seg; [exact Hv|]. csteps.
      f_equal. apply int_of_small. lia.
    + apply IH; [lia | | lia]. intros j w Hj. apply Hno. lia.
Qed.

(** With all segments in use the table grows, and its first new entry is
    taken. *)
Lemma find_segment_grows p sseg a env σ :
  segs_ok σ -> 0 <= sseg <= num_stack_segments (glb σ) ->
  (forall j v, sseg <= j -> stack_segments (glb σ) !! Z.to_nat j = Some v -> v <> 0) ->
  envt (krn σ) = a :: env -> a <> NULL ->
  evals p (c_loop find_segment sseg) σ
    (Done (Some (num_stack_segments (glb σ))) (grown env σ)).
Proof.
  intros Hok Hr0 Hno He Ha. pose proof Hok as [Hlen Hmax].
  set (n := num_stack_segments (glb σ)) in *.
  remember (Z.to_nat (n - sseg)) as m eqn:Hm.
  revert sseg Hr0 Hno Hm. induction m as [|m IH]; intros sseg Hr0 Hno Hm.
  - assert (sseg = n) as -> by lia. eapply evals_loop_stop. unfold find_segment. cstep.
    fold n. csteps. eapply evals_bind; [by apply (grow_spec p a env)|]. csteps.
    eapply (evals_get_seg n 0); [|by csteps]. simpl. rewrite lookup_app_r by lia.
    apply lookup_replicate. split; [done|]. fold n. unfold grown_size.
    destruct (n =? 0) eqn:Hn; lia.
  - assert (exists v, stack_segments (glb σ) !! Z.to_nat sseg = Some v) as [v Hv]
      by (apply lookup_lt_is_Some; lia).
    assert (v <> 0) by (eapply Hno; [|exact Hv]; lia).
    eapply evals_loop_next with (a' := sseg + 1).
    + unfold find_segment. cstep. fold n. csteps. eapply evals_get_seg; [exact Hv|]. csteps.
      f_equal. apply int_of_small. lia.
    + apply IH; [lia | | lia]. intros j w Hj. apply Hno. lia.
Qed.

(** *** Creation *)

(** The descriptor of a new thread: everything but the links of the list,
    the process number and the return code is set. *)
Definition new_descriptor (d : _pthread) (det fn arg : Z) (mask : sigset) : _pthread :=
  mk_pthread (p_nextlive d) (p_prevlive d) NULL (p_pid d) 0 0 NULL NULL 0 det 0 NULL
    (p_retcode d) NULL NULL PTHREAD_CANCEL_ENABLE PTHREAD_CANCEL_DEFERRED 0 0 0 fn arg mask
    (replicate (Z.to_nat PTHREAD_KEYS_MAX) NULL).

(** The detach state the attributes ask for, as it is kept in a [char]; default
    scheduling. *)
Definition attr_plain (attr det : Z) (σ : state) : Prop :=
  attr = NULL /\ det = 0 \/
  attr <> NULL /\ exists a, attrs σ !! attr = Some a /\ char_of (detachstate a) = det /\
                          schedpolicy a = SCHED_OTHER.

Lemma init_descriptor_spec p new attr fn arg mask det d σ :
  thr σ !! new = Some d -> attr_plain attr det σ ->
  evals p (init_descriptor new attr fn arg mask) σ
    (Done tt (put_thr new (new_descriptor d det fn arg mask) σ)).
Proof.
  intros Hd Ha. unfold init_descriptor, clear_specific.
  do 6 (cstep; collapse).
  assert (Hdet : exists v, char_of v = det /\ forall σ', attrs σ' = attrs σ ->
    evals p (if attr =? NULL then Ret 0 else load attrs attr detachstate) σ' (Done v σ')).
  { destruct Ha as [[-> ->]|(Hn & a & Ha & <- & _)]; [exists 0 | exists (detachstate a)];
      (split; [done|]); intros σ' Hσ'; rewrite <- ?Hσ' in *; by csteps. }
  destruct Hdet as (v & <- & Ev). eapply evals_bind; [by apply Ev|].
  repeat (cstep; collapse).
Qed.

Lemma set_scheduling_plain p attr det pid father σ :
  attr_plain attr det σ -> evals p (set_scheduling attr pid father) σ (Done tt σ).
Proof.
  intros [[-> ->]|(Hn & a & Ha & <- & Hs)]; unfold set_scheduling; [by csteps|].
  by csteps.
Qed.

(** The stack of segment [k] is mapped. *)
Definition stack_mapped (k : Z) (new : addr) (env : list Z) (σ : state) : state :=
  upd_krn (fun kr => setf mapped ({[new]} ∪ mapped kr) kr)
    (upd_thr (<[new := pthread_zero]> (thr σ))
      (upd_krn (setf envt env)
        (put_segs (<[Z.to_nat k := 1]> (stack_segments (glb σ))) σ))).

Lemma map_segment_spec p k m env σ :
  segs_ok σ -> 0 <= k -> stack_segments (glb σ) !! Z.to_nat k = Some 0 ->
  (forall j v, 0 <= j < k -> stack_segments (glb σ) !! Z.to_nat j = Some v -> v <> 0) ->
  envt (krn σ) = m :: env -> m <> -1 ->
  let new := THREAD_SEG (glb σ) k in
  evals p (c_loop map_segment 0) σ (Done (Some (k, new)) (stack_mapped k new env σ)).
Proof.
  intros Hok Hk0 Hk Hno He Hm new. eapply evals_loop_stop. unfold map_segment.
  eapply evals_bind; [by apply (find_segment_spec p 0 k)|].
  eapply evals_set_seg; [exact Hk|]. csteps. unfold id at 1. cbv zeta. unfold mmap_stack.
  csteps. eapply evals_ask; [exact He|]. by csteps.
Qed.

(** The new process. *)
Definition cloned (p pid stack sig : Z) (pr : proc) (env : list Z) (σ : state) : state :=
  upd_krn (fun k => setf procs (<[pid := mk_proc (stack - 16) p (pr_mask pr) ∅ sig
    (pr_policy pr) (pr_priority pr)]> (procs k)) k) (upd_krn (setf envt env) σ).

Lemma clone_spec p pid stack sig pr env σ :
  procs (krn σ) !! p = Some pr -> procs (krn σ) !! pid = None -> pid <> -1 ->
  envt (krn σ) = pid :: env ->
  evals p (__clone stack sig) σ (Done pid (cloned p pid stack sig pr env σ)).
Proof.
  intros Hp Hn Hpid He. unfold __clone. eapply evals_ask; [exact He|]. csteps.
  eapply evals_act; [simpl; rewrite Hp, Hn; reflexivity|]. by csteps.
Qed.

Lemma alter_lookup_if (f : _pthread -> _pthread) a (T : gmap Z _pthread) x :
  alter f a T !! x = (if decide (x = a) then f else id) <$> T !! x.
Proof.
  rewrite lookup_alter. repeat case_decide; try congruence. by rewrite option_fmap_id.
Qed.

Lemma alter_lookup_same (f : _pthread -> _pthread) a (T T' : gmap Z _pthread) x :
  T !! x = T' !! x -> alter f a T !! x = alter f a T' !! x.
Proof. intros E. by rewrite !alter_lookup_if, E. Qed.

(** Insertion into the list changes only links. *)
Lemma live_inserted_lookup main new n T x d :
  T !! x = Some d ->
  exists nx pv, live_inserted main new n T !! x = Some (setf p_nextlive nx (setf p_prevlive pv d)).
Proof.
  intros Hd. unfold live_inserted. rewrite !alter_lookup_if, Hd. simpl.
  match goal with |- exists nx pv, Some ?r = _ => exists (p_nextlive r), (p_prevlive r) end.
  f_equal. destruct d. by repeat case_decide.
Qed.

Lemma live_removed_links v n T x d :
  T !! x = Some d ->
  exists nx pv, live_removed v n T !! x = Some (setf p_nextlive nx (setf p_prevlive pv d)).
Proof.
  intros Hd. unfold live_removed. rewrite !alter_lookup_if, Hd. simpl.
  match goal with |- exists nx pv, Some ?r = _ => exists (p_nextlive r), (p_prevlive r) end.
  f_equal. destruct d. by repeat case_decide.
Qed.

(** The state after a successful creation: segment [k] holds the new thread,
    whose process is [pid], and the thread [for_] has its address. *)
Definition created (p : pid_t) (pr : proc) (main : addr) (l : list addr) (for_ det fn arg : Z)
    (mask : sigset) (k pid : Z) (env : list Z) (σ : state) : state :=
  let new := THREAD_SEG (glb σ) k in
  let σ2 := cloned p pid new PTHREAD_SIG_RESTART pr env
              (put_thr new (new_descriptor pthread_zero det fn arg mask)
                (stack_mapped k new (pid :: env) σ)) in
  upd_thr (alter (setf p_retval new) for_ (alter (setf p_pid pid) new
    (live_inserted main new (default main (head l)) (thr σ2)))) σ2.

(** The descriptor of the new thread. *)
Definition created_descriptor (main : addr) (l : list addr) (det fn arg : Z) (mask : sigset)
    (pid : Z) : _pthread :=
  setf p_pid pid (setf p_nextlive (default main (head l)) (setf p_prevlive main
    (new_descriptor pthread_zero det fn arg mask))).

(** What changes in the memory of the threads: links of the list, the new
    descriptor, and the answer. *)
Lemma created_thr p pr main l for_ det fn arg mask k pid env σ x :
  let new := THREAD_SEG (glb σ) k in
  new ∉ main :: l ->
  thr (created p pr main l for_ det fn arg mask k pid env σ) !! x =
  (if decide (x = for_) then setf p_retval new else id) <$>
    (if decide (x = new) then Some (created_descriptor main l det fn arg mask pid)
     else live_inserted main new (default main (head l)) (thr σ) !! x).
Proof.
  intros new Hnew. unfold created, created_descriptor, upd_thr. cbn zeta. fold new.
  assert (main <> new /\ default main (head l) <> new) as [Hmn Hn] by (destruct l; set_solver).
  unfold cloned, put_thr, stack_mapped, upd_thr, upd_krn. fields. rewrite insert_insert_eq.
  rewrite alter_lookup_if. f_equal. destruct (decide (x = new)) as [->|Hx].
  - rewrite lookup_alter_eq. unfold live_inserted. rewrite 2!lookup_alter_ne by done.
    by rewrite !lookup_alter_eq, lookup_insert_eq.
  - rewrite lookup_alter_ne by done. unfold live_inserted.
    repeat apply alter_lookup_same. by rewrite lookup_insert_ne.
Qed.
Lemma created_krn {X} (f : kernel -> X) p pr main l for_ det fn arg mask k pid env σ :
  (forall K V, f (setf procs V K) = f K) -> (forall K V, f (setf envt V K) = f K) ->
  (forall K V, f (setf mapped V K) = f K) ->
  f (krn (created p pr main l for_ det fn arg mask k pid env σ)) = f (krn σ).
Proof.
  intros H1 H2 H3.
  unfold created, upd_thr, cloned, put_thr, stack_mapped, put_segs, upd_krn, upd_thr. fields.
  by rewrite H1, H2, H3, H2.
Qed.

Lemma created_procs p pr main l for_ det fn arg mask k pid env σ :
  procs (krn (created p pr main l for_ det fn arg mask k pid env σ)) =
  <[pid := mk_proc (THREAD_SEG (glb σ) k - 16) p (pr_mask pr) ∅ PTHREAD_SIG_RESTART
             (pr_policy pr) (pr_priority pr)]> (procs (krn σ)).
Proof.
  unfold created, upd_thr, cloned, put_thr, stack_mapped, put_segs, upd_krn, upd_thr. by fields.
Qed.

Lemma created_glb p pr main l for_ det fn arg mask k pid env σ :
  glb (created p pr main l for_ det fn arg mask k pid env σ) =
  setf stack_segments (<[Z.to_nat k := 1]> (stack_segments (glb σ))) (glb σ).
Proof.
  unfold created, upd_thr, cloned, put_thr, stack_mapped, put_segs, upd_krn, upd_thr. by fields.
Qed.

(** Success: the request finds a free segment, the mapping and the clone
    succeed. *)
Lemma handle_create_spec p pr main l for_ dfor attr det fn arg mask father k m pid env σ :
  segs_ok σ -> 0 <= k -> stack_segments (glb σ) !! Z.to_nat k = Some 0 ->
  (forall j v, 0 <= j < k -> stack_segments (glb σ) !! Z.to_nat j = Some v -> v <> 0) ->
  envt (krn σ) = m :: pid :: env -> m <> -1 -> pid <> -1 ->
  procs (krn σ) !! p = Some pr -> procs (krn σ) !! pid = None ->
  attr_plain attr det σ -> __pthread_main_thread (glb σ) = main -> ring (thr σ) main l ->
  THREAD_SEG (glb σ) k ∉ main :: l -> thr σ !! for_ = Some dfor -> for_ <> THREAD_SEG (glb σ) k ->
  evals p (pthread_handle_create for_ attr fn arg mask father) σ
    (Done 0 (created p pr main l for_ det fn arg mask k pid env σ)).
Proof.
  intros Hok Hk0 Hk Hno He Hm Hpid Hp Hpn Ha Hmain Hring Hnew Hfor Hfn.
  unfold created. cbn zeta. set (new := THREAD_SEG (glb σ) k) in *.
  set (nd := new_descriptor pthread_zero det fn arg mask).
  set (n := default main (head l)).
  set (σ1 := stack_mapped k new (pid :: env) σ).
  set (σ2 := cloned p pid new PTHREAD_SIG_RESTART pr env (put_thr new nd σ1)).
  assert (HT2 : thr σ2 = <[new := nd]> (thr σ))
    by (unfold σ2, σ1, stack_mapped, upd_thr; simpl; apply insert_insert_eq).
  assert (Hring2 : ring (thr σ2) main l).
  { rewrite HT2. eapply ring_ext; [|exact Hring]. intros x Hx. unfold nextlive_of, prevlive_of.
    rewrite lookup_insert_ne; [done | set_solver]. }
  assert (Hn2 : thr σ2 !! new = Some nd) by (by rewrite HT2, lookup_insert_eq).
  unfold pthread_handle_create.
  eapply evals_bind; [by apply (map_segment_spec p k m (pid :: env))|].
  eapply evals_bind.
  { apply init_descriptor_spec with (d := pthread_zero) (det := det); [|exact Ha].
    unfold stack_mapped, upd_thr. simpl. apply lookup_insert_eq. }
  eapply evals_bind; [by apply (clone_spec p pid new PTHREAD_SIG_RESTART pr env)|].
  rewrite (proj2 (Z.eqb_neq _ _) Hpid).
  eapply evals_bind; [apply (set_scheduling_plain p attr det); exact Ha|].
  eapply evals_bind; [by eapply (insert_live_spec p main new l nd σ2)|].
  fold n. unfold upd_thr at 1.
  eapply evals_store_thr; [simpl; unfold live_inserted; rewrite !is_Some_alter; eauto|].
  unfold upd_thr at 1. fields.
  eapply evals_store_thr; [|by csteps].
  unfold upd_thr. fields. unfold live_inserted.
  rewrite !is_Some_alter, HT2, lookup_insert_ne by done. eauto.
Qed.

Lemma created_ring p pr main l for_ det fn arg mask k pid env σ :
  ring (thr σ) main l -> THREAD_SEG (glb σ) k ∉ main :: l ->
  ring (thr (created p pr main l for_ det fn arg mask k pid env σ)) main
    (THREAD_SEG (glb σ) k :: l).
Proof.
  intros Hring Hnew. set (new := THREAD_SEG (glb σ) k) in *.
  assert (Hri : ring (live_inserted main new (default main (head l))
      (<[new := pthread_zero]> (thr σ))) main (new :: l)).
  { eapply live_inserted_ring; [|done|apply lookup_insert_eq].
    eapply ring_ext; [|exact Hring]. intros x Hx. unfold nextlive_of, prevlive_of.
    rewrite lookup_insert_ne; [done | set_solver]. }
  eapply ring_ext; [|exact Hri]. intros x _. unfold nextlive_of, prevlive_of.
  rewrite created_thr by done. fold new.
  assert (main <> new /\ default main (head l) <> new) as [Hmn Hn] by (destruct l; set_solver).
  assert (Hx : live_inserted main new (default main (head l)) (<[new := pthread_zero]> (thr σ)) !! x
    = if decide (x = new) then Some (setf p_nextlive (default main (head l))
          (setf p_prevlive main pthread_zero))
      else live_inserted main new (default main (head l)) (thr σ) !! x).
  { unfold live_inserted. case_decide as E; [subst x|].
    - rewrite 2!lookup_alter_ne by done. by rewrite !lookup_alter_eq, lookup_insert_eq.
    - repeat apply alter_lookup_same. by rewrite lookup_insert_ne. }
  rewrite Hx. destruct (decide (x = new)), (decide (x = for_)); simpl; try done;
    by destruct (live_inserted _ _ _ (thr σ) !! x).
Qed.

(** C18: If the clone fails, the manager undoes what it did: EAGAIN is returned,
    the stack is unmapped, the segment is free again, and neither the list of
    active threads nor the processes have changed. *)
Lemma handle_create_clone_fails p self pr ds main l for_ attr det fn arg mask father k m env σ :
  segs_ok σ -> 0 <= k -> stack_segments (glb σ) !! Z.to_nat k = Some 0 ->
  (forall j v, 0 <= j < k -> stack_segments (glb σ) !! Z.to_nat j = Some v -> v <> 0) ->
  envt (krn σ) = m :: -1 :: env -> m <> -1 ->
  runs_thread p self pr ds σ -> attr_plain attr det σ -> ring (thr σ) main l ->
  let new := THREAD_SEG (glb σ) k in
  new ∉ main :: l -> self <> new ->
  exists σ', evals p (pthread_handle_create for_ attr fn arg mask father) σ (Done EAGAIN σ') /\
    thr σ' !! new = None /\ stack_segments (glb σ') = stack_segments (glb σ) /\
    ring (thr σ') main l /\ procs (krn σ') = procs (krn σ).
Proof.
  intros Hok Hk0 Hk Hno He Hm [Hp Hs Hd] Ha Hring new Hnew Hsn.
  set (nd := new_descriptor pthread_zero det fn arg mask).
  set (σ1 := stack_mapped k new (-1 :: env) σ).
  set (σ2 := upd_krn (setf envt env) (put_thr new nd σ1)).
  assert (Hd2 : thr σ2 !! self = Some ds).
  { unfold σ2, σ1, put_thr, stack_mapped, upd_thr. simpl.
    by rewrite insert_insert_eq, lookup_insert_ne. }
  eexists. split.
  - unfold pthread_handle_create.
    eapply evals_bind; [by apply (map_segment_spec p k m (-1 :: env))|].
    eapply evals_bind.
    { apply init_descriptor_spec with (d := pthread_zero) (det := det); [|exact Ha].
      unfold stack_mapped, upd_thr. simpl. apply lookup_insert_eq. }
    unfold __clone. csteps. eapply evals_ask; [reflexivity|]. csteps.
    unfold fail_with, set_errno. csteps. fold new nd.
    change (thread_self_at (glb (upd_krn _ _)) (pr_sp pr))
      with (thread_self_at (glb σ) (pr_sp pr)). rewrite Hs.
    unfold munmap_stack. csteps. eapply evals_set_seg; [|by csteps].
    simpl. apply list_lookup_insert_eq. eapply lookup_lt_Some, Hk.
  - unfold put_segs. simpl. split; [apply lookup_delete_eq|]. split.
    { rewrite list_insert_insert_eq. by apply list_insert_id. }
    split; [|done]. apply ring_delete; [done|].
    eapply ring_put; [exact Hd2 | done | done |].
    unfold σ2, put_thr, stack_mapped, upd_thr. simpl. rewrite insert_insert_eq.
    eapply ring_ext; [|exact Hring]. intros x Hx. unfold nextlive_of, prevlive_of.
    rewrite lookup_insert_ne; [done | set_solver].
Qed.

(** *** The server loop *)

(** A request to create a thread: the requester gets the result in its
    descriptor and is restarted. *)
Lemma manager_create_replies p th d0 rc d pr attr fn arg mask σ σ1 :
  thr σ !! th = Some d0 ->
  evals p (pthread_handle_create th attr fn arg mask (p_pid d0)) σ (Done rc σ1) ->
  thr σ1 !! th = Some d -> procs (krn σ1) !! p_pid d = Some pr ->
  evals p (manager_request (mk_request th (REQ_CREATE attr fn arg mask))) σ
    (Done (inl tt) (post_signal (p_pid d) PTHREAD_SIG_RESTART
      (put_thr th (setf p_retcode rc d) σ1))).
Proof.
  intros Hd0 Hc Hd Hp. unfold manager_request. cbn [req_thread req]. csteps.
  eapply evals_bind; [exact Hc|]. csteps.
  pose proof (restart_spec p th (setf p_retcode rc d) pr (put_thr th (setf p_retcode rc d) σ1))
    as Hrs.
  eapply evals_bind; [apply Hrs; [apply lookup_insert_eq | exact Hp] | by csteps].
Qed.

(** exit: all threads but the one that called it get the cancellation
    signal, that one is restarted, and the manager is gone. *)
Lemma manager_process_exit p th code l d pr σ :
  ring (thr σ) th l -> all_running l σ ->
  let σ1 := setf glb (setf __pthread_exit_code code
              (setf __pthread_exit_requested 1 (glb σ))) σ in
  let σ2 := all_signaled l PTHREAD_SIG_CANCEL σ1 in
  thr σ !! th = Some d -> procs (krn σ2) !! p_pid d = Some pr ->
  evals p (manager_request (mk_request th (REQ_PROCESS_EXIT code))) σ
    (Exits (terminate p (exit_status 0) (post_signal (p_pid d) PTHREAD_SIG_RESTART σ2))).
Proof.
  intros Hring Hrun σ1 σ2 Hd Hp. unfold manager_request, pthread_handle_exit.
  cbn [req_thread req]. csteps.
  eapply evals_bind; [by apply (kill_others_spec p th PTHREAD_SIG_CANCEL l σ1)|].
  eapply evals_bind; [eapply restart_spec; [by rewrite thr_all_signaled | exact Hp]|].
  apply evals_exit.
Qed.

(** The main thread exits while no other thread is left. *)
Lemma manager_main_exit_alone p main dm pr th σ :
  __pthread_main_thread (glb σ) = main -> thr σ !! main = Some dm -> p_nextlive dm = main ->
  procs (krn σ) !! p_pid dm = Some pr ->
  evals p (manager_request (mk_request th REQ_MAIN_THREAD_EXIT)) σ
    (Done (inr 0) (post_signal (p_pid dm) PTHREAD_SIG_RESTART
      (setf glb (setf main_thread_exiting 1 (glb σ)) σ))).
Proof.
  intros Hm Hd Hn Hp. unfold manager_request. cbn [req_thread req]. csteps. rewrite Hm.
  csteps. eapply evals_bind; [eapply restart_spec; [exact Hd | exact Hp] | by csteps].
Qed.

(** ** The theorems *)

(** C19: when a thread's process has ended, [pthread_exited] finds the thread
    by its process number and takes it out of the list of active threads,
    which stays a well-formed ring with the others in order.  A detached
    thread is freed: its descriptor is unmapped and its stack segment is
    available again; any other one is marked as exited and keeps its
    descriptor for the thread that will join it. *)
Theorem pthread_exited_correct p main pid seg a th b d σ :
  __pthread_main_thread (glb σ) = main -> ring (thr σ) main (a ++ th :: b) ->
  thr σ !! th = Some d -> p_pid d = pid -> p_spinlock d = 0 -> is_segment σ seg th ->
  (forall y e, y ∈ a -> thr σ !! y = Some e -> p_pid e <> pid) ->
  main_thread_exiting (glb σ) = 0 ->
  exists σ', evals p (pthread_exited pid) σ (Done tt σ') /\ ring (thr σ') main (a ++ b) /\
    (p_detached d <> 0 ->
       thr σ' !! th = None /\ stack_segments (glb σ') !! Z.to_nat seg = Some 0) /\
    (p_detached d = 0 -> thr σ' !! th = Some (setf p_exited 1 d) /\ glb σ' = glb σ).
Proof.
  intros Hm Hring Hd Hpid Hl Hseg Hno Hmx. eexists. split; [by eapply pthread_exited_spec|].
  destruct (ring_neighbours _ _ _ _ _ Hring) as (Hth & Hv & Hn).
  pose proof (live_removed_ring _ _ _ _ _ Hring) as Hring'.
  unfold exited_state. destruct (decide (p_detached d = 0)) as [Hdet|Hdet].
  - rewrite Hdet. cbn [istrue Z.eqb negb]. split; [|split; [done|]].
    + unfold exited_marked, upd_thr. simpl. eapply ring_ext; [|exact Hring']. intros x _.
      unfold nextlive_of, prevlive_of. by rewrite !field_alter.
    + intros _. unfold exited_marked, upd_thr. simpl.
      by rewrite lookup_alter_eq, live_removed_lookup, Hd.
  - rewrite (istrue_nonzero _ Hdet). split; [|split; [|done]].
    + unfold freed, exited_marked, upd_thr. simpl. rewrite delete_alter_eq. by apply ring_delete.
    + intros _. unfold freed, upd_thr. simpl.
      split; [apply lookup_delete_eq | apply list_lookup_insert_eq; apply Hseg].
Qed.

(** the manager serves a request to create a thread.  It uses the first
    free stack segment and marks it; the new thread is the first in the list
    of active threads; its process runs on a stack from which [thread_self]
    finds the new descriptor; the descriptor is initialized, with the start
    routine, its argument and the signal mask of the creator.  The creator
    finds return code 0 and the new thread in its own descriptor, and the
    restart signal that ends its wait is pending. *)
Theorem create_request_served p pr main l th dth prth attr det fn arg mask nseg k m pid env σ :
  layout_ok (glb σ) nseg -> 0 <= k < nseg -> 16 <= STACK_SIZE - sizeof_pthread ->
  segs_ok σ -> stack_segments (glb σ) !! Z.to_nat k = Some 0 ->
  (forall j v, 0 <= j < k -> stack_segments (glb σ) !! Z.to_nat j = Some v -> v <> 0) ->
  envt (krn σ) = m :: pid :: env -> m <> -1 -> pid <> -1 ->
  procs (krn σ) !! p = Some pr -> procs (krn σ) !! pid = None ->
  attr_plain attr det σ -> __pthread_main_thread (glb σ) = main -> ring (thr σ) main l ->
  let new := THREAD_SEG (glb σ) k in
  new ∉ main :: l -> thr σ !! th = Some dth -> th <> new ->
  procs (krn σ) !! p_pid dth = Some prth ->
  exists σ' dn pn dth' prth',
    evals p (manager_request (mk_request th (REQ_CREATE attr fn arg mask))) σ (Done (inl tt) σ') /\
    ring (thr σ') main (new :: l) /\
    stack_segments (glb σ') = <[Z.to_nat k := 1]> (stack_segments (glb σ)) /\
    runs_thread pid new pn dn σ' /\ p_pid dn = pid /\ p_detached dn = det /\
    p_initial_fn dn = fn /\ p_initial_fn_arg dn = arg /\ p_initial_mask dn = mask /\
    thr σ' !! th = Some dth' /\ p_retcode dth' = 0 /\ p_retval dth' = new /\
    procs (krn σ') !! p_pid dth = Some prth' /\ PTHREAD_SIG_RESTART ∈ pr_pending prth'.
Proof.
  intros Hlay Hk Hsz Hok Hseg Hno He Hm Hpid Hp Hpn Ha Hmain Hring new Hnew Hth Hne Hpth.
  set (σ1 := created p pr main l th det fn arg mask k pid env σ).
  assert (E1 : evals p (pthread_handle_create th attr fn arg mask (p_pid dth)) σ (Done 0 σ1))
    by (eapply handle_create_spec; (done || lia)).
  assert (Dn : thr σ1 !! new = Some (created_descriptor main l det fn arg mask pid)).
  { unfold σ1. rewrite created_thr by done. fold new.
    by rewrite decide_False, decide_True by done. }
  destruct (live_inserted_lookup main new (default main (head l)) (thr σ) th dth Hth)
    as (nx & pv & Hd1).
  set (d1 := setf p_nextlive nx (setf p_prevlive pv dth)) in *.
  assert (Dth : thr σ1 !! th = Some (setf p_retval new d1)).
  { unfold σ1. rewrite created_thr by done. fold new.
    rewrite decide_True, decide_False by done. by rewrite Hd1. }
  assert (Hpne : p_pid dth <> pid) by congruence.
  assert (Hpr1 : procs (krn σ1) !! p_pid d1 = Some prth)
    by (simpl; by rewrite lookup_insert_ne).
  assert (Hself : thread_self_at (glb σ) (new - 16) = new).
  { apply (thread_self_of_stack _ nseg); [done | done |].
    pose proof (THREAD_SEG_eq (glb σ) nseg k Hlay Hk) as Et. unfold in_stack. fold new in Et. lia. }
  eexists _, (created_descriptor main l det fn arg mask pid), _, _, _.
  split; [by eapply manager_create_replies|].
  split; [eapply ring_put; [exact Dth | done | done | by apply created_ring]|].
  split; [done|].
  split; [constructor|split; [done|]; do 4 (split; [done|]); split; [apply lookup_insert_eq|]].
  - simpl. rewrite lookup_alter_ne by congruence. apply lookup_insert_eq.
  - exact Hself.
  - simpl. rewrite lookup_insert_ne by done. exact Dn.
  - split; [done|]. split; [done|]. split; [|].
    + simpl. rewrite lookup_alter_eq, lookup_insert_ne, Hpth by done. reflexivity.
    + simpl. set_solver.
Qed.

Lemma glb_all_signaled l sig σ : glb (all_signaled l sig σ) = glb σ.
Proof. revert σ. induction l as [|x l IH]; intros σ; [done|]. simpl. by rewrite IH. Qed.

Lemma all_signaled_procs l sig σ pid pr :
  procs (krn σ) !! pid = Some pr -> exists pr', procs (krn (all_signaled l sig σ)) !! pid = Some pr'.
Proof.
  revert σ pr. induction l as [|x l IH]; intros σ pr Hp; [eauto|]. simpl.
  destruct (decide (default 0 (p_pid <$> thr σ !! x) = pid)) as [Hq|Hne].
  - eapply IH. simpl. rewrite Hq, lookup_alter_eq, Hp. done.
  - eapply IH. simpl. rewrite lookup_alter_ne by done. exact Hp.
Qed.

Lemma all_signaled_pending_mono l sig σ pid pr s :
  procs (krn σ) !! pid = Some pr -> s ∈ pr_pending pr ->
  exists pr', procs (krn (all_signaled l sig σ)) !! pid = Some pr' /\ s ∈ pr_pending pr'.
Proof.
  revert σ pr. induction l as [|x l IH]; intros σ pr Hp Hin; [eauto|]. simpl.
  set (q := default 0 _). destruct (decide (q = pid)) as [<-|Hne].
  - eapply IH; [simpl; rewrite lookup_alter_eq, Hp; done|]. simpl. set_solver.
  - eapply IH; [simpl; rewrite lookup_alter_ne by done; exact Hp|done].
Qed.

Lemma all_signaled_pending l sig σ x d pr :
  x ∈ l -> thr σ !! x = Some d -> procs (krn σ) !! p_pid d = Some pr ->
  exists pr', procs (krn (all_signaled l sig σ)) !! p_pid d = Some pr' /\ sig ∈ pr_pending pr'.
Proof.
  revert σ pr. induction l as [|y l IH]; intros σ pr Hin Hd Hp; [set_solver|]. simpl.
  apply elem_of_cons in Hin as [->|Hin].
  - rewrite Hd. simpl. eapply all_signaled_pending_mono; [simpl; by rewrite lookup_alter_eq, Hp|].
    simpl. set_solver.
  - assert (Hp' : exists pr', procs (krn (post_signal (default 0 (p_pid <$> thr σ !! y)) sig σ))
                                !! p_pid d = Some pr').
    { simpl. rewrite lookup_alter. case_decide as Hq; [rewrite Hq|]; rewrite Hp; simpl; eauto. }
    destruct Hp' as [pr' Hp']. by eapply IH; [| |exact Hp'].
Qed.

(** C21: [exit] in one thread ends the whole process.  The manager records the
    exit code and sends the cancellation signal to every other thread in the
    list; the thread that called [exit] gets the restart signal, and the
    manager terminates. *)
Theorem process_exit_correct p th code l d pr σ :
  ring (thr σ) th l -> all_running l σ -> thr σ !! th = Some d ->
  procs (krn σ) !! p_pid d = Some pr ->
  exists σ2, evals p (manager_request (mk_request th (REQ_PROCESS_EXIT code))) σ
      (Exits (terminate p (exit_status 0) σ2)) /\
    __pthread_exit_requested (glb σ2) = 1 /\ __pthread_exit_code (glb σ2) = code /\
    (forall x e, x ∈ l -> thr σ !! x = Some e ->
       exists pr', procs (krn σ2) !! p_pid e = Some pr' /\ PTHREAD_SIG_CANCEL ∈ pr_pending pr') /\
    exists pr', procs (krn σ2) !! p_pid d = Some pr' /\ PTHREAD_SIG_RESTART ∈ pr_pending pr'.
Proof.
  intros Hring Hrun Hd Hp.
  set (σ1 := setf glb (setf __pthread_exit_code code
               (setf __pthread_exit_requested 1 (glb σ))) σ).
  set (σ2 := all_signaled l PTHREAD_SIG_CANCEL σ1).
  destruct (all_signaled_procs l PTHREAD_SIG_CANCEL σ1 (p_pid d) pr Hp) as [pr2 Hp2].
  fold σ2 in Hp2. exists (post_signal (p_pid d) PTHREAD_SIG_RESTART σ2).
  split; [by eapply manager_process_exit|].
  assert (Hg : glb (post_signal (p_pid d) PTHREAD_SIG_RESTART σ2) = glb σ1)
    by apply glb_all_signaled.
  rewrite Hg. split; [done|]. split; [done|].
  unfold post_signal. rewrite procs_upd_proc. split.
  - intros x e Hx He. destruct (Hrun x Hx) as (e' & pe & He' & Hpe). simplify_eq.
    destruct (all_signaled_pending l PTHREAD_SIG_CANCEL σ1 x e pe Hx He Hpe) as (pr' & Hp' & Hs).
    fold σ2 in Hp'. rewrite lookup_alter. case_decide as Hq; [rewrite Hq|]; rewrite Hp'; [|eauto].
    eexists. split; [done|]. simpl. set_solver.
  - rewrite lookup_alter_eq, Hp2. eexists. split; [done|]. simpl. set_solver.
Qed.
End specs.
