(* ===== verification/PThread.v ===== *)
(** * Initialization, creation and process-wide operations (pthread.c) *)

From S2P Require Import Prelude Types Machine MachineFacts Platform Memory Spinlock Queue.
From S2P Require Import Restart Mutex Cleanup Specific Join Cancel Manager Layout.

(** The function __pthread_initialize registers with on_exit. *)
Definition addr_pthread_exit_process : addr := 1003.

Section pthread.
Context {P : Platform} {U : UserCode}.

Definition __pthread_initial_thread : _pthread :=
  mk_pthread addr_initial_thread addr_initial_thread NULL 0 0 0 NULL NULL 0 0 0 NULL 0 NULL
    NULL 0 0 0 0 0 NULL NULL ∅ (replicate (Z.to_nat PTHREAD_KEYS_MAX) NULL).

Definition __pthread_manager_thread : _pthread :=
  mk_pthread NULL NULL NULL 0 0 0 NULL NULL 0 0 0 NULL 0 NULL
    NULL 0 0 0 0 0 NULL NULL ∅ (replicate (Z.to_nat PTHREAD_KEYS_MAX) NULL).

(** The initial values of the global variables. *)
Definition initial_globals : globals :=
  mk_globals addr_initial_thread NULL (-1) 0 NULL NULL 0 0 [] 0 0 0
    (replicate (Z.to_nat PTHREAD_KEYS_MAX) (mk_key 0 NULL)) NULL NULL NULL.

(** [&local] for a variable of the current frame *)
Definition CURRENT_STACK_FRAME : itree evt addr :=
  act (fun p σ => match procs (krn σ) !! p with
                  | Some pr => Some (pr_sp pr, σ)
                  | None => None
                  end).

(** The stack pointer rounded down, at least STACK_SIZE bytes below it. *)
Definition initial_bos (sp : addr) : addr :=
  wrapU long_bits (Z.land (wrapS long_bits (sp - 2 * STACK_SIZE)) (Z.lnot (STACK_SIZE - 1))).

Definition __on_exit (f : addr) : itree evt unit :=
  act (fun _ σ => Some (tt, upd_krn (fun k => setf on_exit_fns (on_exit_fns k ++ [f]) k) σ)).

Definition __pthread_initialize : itree evt unit :=
  b <- get_glb __pthread_initial_thread_bos ;;
  if negb (b =? NULL) then Ret tt else
  sp <- CURRENT_STACK_FRAME ;;
  set_glb __pthread_initial_thread_bos (initial_bos sp) ;;
  pid <- getpid ;;
  store thr addr_initial_thread p_pid pid ;;
  sigaction PTHREAD_SIG_RESTART
    (mk_sigaction (sa_handler addr_pthread_sighandler) sigemptyset) ;;
  sigaction PTHREAD_SIG_CANCEL
    (mk_sigaction (sa_handler addr_pthread_handle_sigcancel) sigemptyset) ;;
  let mask := sigaddset sigemptyset PTHREAD_SIG_RESTART in
  sigprocmask SIG_BLOCK (Some mask) ;;
  __on_exit addr_pthread_exit_process.

(** pipe(2): -1, or 0 and two descriptors *)
Definition pipe : itree evt (Z * (Z * Z)) :=
  r <- ask ;;
  if r =? -1 then Ret (-1, (0, 0))
  else
    fd0 <- ask ;; fd1 <- ask ;;
    act (fun _ σ => Some (tt,
      upd_krn (fun k => setf open_fds ({[fd0]} ∪ ({[fd1]} ∪ open_fds k)) k) σ)) ;;
    Ret (0, (fd0, fd1)).

(** free(3): the heap is not part of the model. *)
Definition free (a : addr) : itree evt unit := Ret tt.

Definition pthread_initialize_manager : itree evt Z :=
  bos <- ask ;;
  set_glb __pthread_manager_thread_bos bos ;;
  if bos =? NULL then Ret (-1) else
  set_glb __pthread_manager_thread_tos (bos + THREAD_MANAGER_STACK_SIZE) ;;
  pp <- pipe ;;
  if fst pp =? -1 then
    free bos ;;
    Ret (-1)
  else
  set_glb __pthread_manager_request (snd (snd pp)) ;;
  set_glb __pthread_manager_reader (fst (snd pp)) ;;
  tos <- get_glb __pthread_manager_thread_tos ;;
  pid <- __clone tos 0 ;;
  if pid =? -1 then
    free bos ;;
    close (fst (snd pp)) ;;
    close (snd (snd pp)) ;;
    set_glb __pthread_manager_request (-1) ;;
    Ret (-1)
  else Ret 0.

(** The end of [pthread_create]: the thread waits for the manager, which
    leaves its answer in the descriptor. *)
Definition create_answer (thread self : addr) : itree evt Z :=
  suspend self ;;
  rc <- load thr self p_retcode ;;
  (if rc =? 0 then
     v <- load thr self p_retval ;;
     store_word thread v
   else Ret tt) ;;
  load thr self p_retcode.

Definition pthread_create (thread attr start_routine : addr) (arg : Z) : itree evt Z :=
  self <- thread_self ;;
  r <- get_glb __pthread_manager_request ;;
  failed <- (if r <? 0 then
               i <- pthread_initialize_manager ;; Ret (i <? 0)
             else Ret false) ;;
  if failed : bool then Ret EAGAIN else
  m <- sigprocmask SIG_SETMASK None ;;
  fd <- get_glb __pthread_manager_request ;;
  write_request fd (mk_request self (REQ_CREATE attr start_routine arg (snd m))) ;;
  create_answer thread self.

Definition pthread_self : itree evt addr := thread_self.

Definition pthread_equal (thread1 thread2 : addr) : Z := c_bool (thread1 =? thread2).

Definition pthread_setschedparam (target_thread : addr) (policy param : Z) : itree evt Z :=
  pid <- load thr target_thread p_pid ;;
  r <- sched_setscheduler pid policy param ;;
  if r =? -1 then get_errno else Ret 0.

Definition pthread_getschedparam (target_thread policy param : addr) : itree evt Z :=
  pid <- load thr target_thread p_pid ;;
  p <- sched_getscheduler pid ;;
  if p =? -1 then get_errno else
  pid <- load thr target_thread p_pid ;;
  q <- sched_getparam pid ;;
  if q =? -1 then get_errno else
  store_word param q ;;
  store_word policy p ;;
  Ret 0.

Definition pthread_exit_process (retcode : Z) (arg : addr) : itree evt unit :=
  self <- thread_self ;;
  r <- get_glb __pthread_manager_request ;;
  when (r >=? 0)
    (fd <- get_glb __pthread_manager_request ;;
     write_request fd (mk_request self (REQ_PROCESS_EXIT retcode)) ;;
     suspend self).

Definition __pthread_reset_main_thread : itree evt unit :=
  self <- thread_self ;;
  bos <- get_glb __pthread_manager_thread_bos ;;
  free bos ;;
  set_glb __pthread_manager_thread_tos NULL ;;
  set_glb __pthread_manager_thread_bos NULL ;;
  r <- get_glb __pthread_manager_request ;;
  close r ;;
  r <- get_glb __pthread_manager_reader ;;
  close r ;;
  set_glb __pthread_manager_reader (-1) ;;
  set_glb __pthread_manager_request (-1) ;;
  pid <- getpid ;;
  store thr self p_pid pid ;;
  set_glb __pthread_main_thread self ;;
  store thr self p_nextlive self ;;
  store thr self p_nextlive self.

Definition __pthread_kill_other_threads_np : itree evt unit :=
  pthread_exit_process 0 NULL ;;
  __pthread_reset_main_thread.
End pthread.

(** ** The handlers of a program linked with the library

    The two handlers of the library at their addresses; at the others, the
    code of the program. *)
#[export] Instance lib_handlers {P : Platform} {U : UserCode} : Handlers := fun h s =>
  if h =? addr_pthread_sighandler then __pthread_sighandler s
  else if h =? addr_pthread_handle_sigcancel then pthread_handle_sigcancel s
  else call_fn h s ;; Ret tt.

#[export] Instance lib_restart_handler {P : Platform} {U : UserCode} :
  RestartHandler lib_handlers P.
Proof. intros s. reflexivity. Qed.

#[export] Instance lib_cancel_handler {P : Platform} {U : UserCode} :
  CancelHandler lib_handlers P U.
Proof. intros s. reflexivity. Qed.

(** ** Specifications *)

Section specs.
Context {P : Platform} {Pok : PlatformOk P}.

(** The limit that __pthread_initialize computes from a stack pointer. *)
Lemma initial_bos_spec sp :
  2 * STACK_SIZE <= sp < 2 ^ long_bits ->
  (STACK_SIZE | initial_bos sp) /\
  sp - 3 * STACK_SIZE < initial_bos sp <= sp - 2 * STACK_SIZE.
Proof.
  intros Hsp. destruct stack_size_pow2 as (n & Hn & HS). rewrite HS in *.
  unfold initial_bos. rewrite HS, land_lnot_pow2 by lia.
  set (a := sp - 2 * 2 ^ n). assert (Ha : 0 <= a < 2 ^ long_bits) by lia.
  assert (Hb : 2 ^ long_bits = 2 ^ (long_bits - n) * 2 ^ n)
    by (rewrite <- Z.pow_add_r by lia; f_equal; lia).
  assert (Hw : exists k, wrapS long_bits a = a + k * 2 ^ long_bits).
  { unfold wrapS. exists (- ((a + 2 ^ (long_bits - 1)) / 2 ^ long_bits)).
    pose proof (Z.div_mod (a + 2 ^ (long_bits - 1)) (2 ^ long_bits)). lia. }
  destruct Hw as [k Hk].
  assert (Hm : wrapS long_bits a mod 2 ^ n = a mod 2 ^ n).
  { rewrite Hk, Hb, Z.mul_assoc. apply Z.mod_add. lia. }
  rewrite Hm. pose proof (Z.mod_pos_bound a (2 ^ n)).
  pose proof (Z.div_mod a (2 ^ n)) as Hd. pose proof (Z.div_pos a (2 ^ n)).
  assert (Hv : wrapU long_bits (wrapS long_bits a - a mod 2 ^ n) = a - a mod 2 ^ n).
  { unfold wrapU. rewrite Hk.
    replace (a + k * 2 ^ long_bits - a mod 2 ^ n)
      with (a - a mod 2 ^ n + k * 2 ^ long_bits) by lia.
    rewrite Z.mod_add by lia. apply Z.mod_small. lia. }
  rewrite Hv. split; [exists (a / 2 ^ n); lia | lia].
Qed.

Context {H : Handlers} {U : UserCode} {Hr : RestartHandler H P}.

(** *** Initialization *)

Lemma initialize_again p σ :
  __pthread_initial_thread_bos (glb σ) <> NULL ->
  evals p __pthread_initialize σ (Done tt σ).
Proof. intros Hb. unfold __pthread_initialize. by csteps. Qed.

(** [__pthread_initialize] establishes what the library relies on ever after:
    the limit of the initial stack and the process number are set, the
    handlers of both signals are installed, the restart signal is blocked in
    the initial thread, and the exit function is registered. *)
Lemma initialize_spec p pr d σ :
  __pthread_initial_thread_bos (glb σ) = NULL -> procs (krn σ) !! p = Some pr ->
  thr σ !! addr_initial_thread = Some d ->
  exists σ', evals p __pthread_initialize σ (Done tt σ') /\
    __pthread_initial_thread_bos (glb σ') = initial_bos (pr_sp pr) /\
    thr σ' = <[addr_initial_thread := setf p_pid p d]> (thr σ) /\
    restart_installed σ' /\
    action_of σ' PTHREAD_SIG_CANCEL =
      mk_sigaction (sa_handler addr_pthread_handle_sigcancel) ∅ /\
    procs (krn σ') !! p = Some (setf pr_mask (pr_mask pr ∪ {[PTHREAD_SIG_RESTART]}) pr) /\
    on_exit_fns (krn σ') = on_exit_fns (krn σ) ++ [addr_pthread_exit_process].
Proof.
  intros Hb Hp Hd. eexists. split.
  - unfold __pthread_initialize, CURRENT_STACK_FRAME, getpid, sigaction, __on_exit. csteps.
    eapply evals_act; [simpl; rewrite Hp; reflexivity|]. csteps. cbv zeta.
    eapply evals_sigprocmask_set; [simpl; exact Hp | reflexivity|]. by csteps.
  - split; [done|]. split; [done|].
    unfold restart_installed, action_of, set_mask, upd_proc, upd_krn. fields.
    split; [by rewrite lookup_insert_ne, lookup_insert_eq|].
    split; [by rewrite lookup_insert_eq|]. split; [|done].
    rewrite lookup_alter_eq, Hp. simpl. unfold sigaddset, sigemptyset.
    by rewrite (right_id_L ∅ (∪)).
Qed.

(** *** Creation, seen by the caller *)

(** The request goes to the manager, with the caller's signal mask, and the
    caller waits. *)
Lemma create_blocks p self pr d thread attr fn arg σ :
  runs_thread p self pr d σ -> 0 <= __pthread_manager_request (glb σ) ->
  pick_signal (pr_pending pr) (sigdelset (pr_mask pr) PTHREAD_SIG_RESTART) = None ->
  evals p (pthread_create thread attr fn arg) σ
    (Blocks (requested (mk_request self (REQ_CREATE attr fn arg (pr_mask pr))) σ)).
Proof.
  intros [Hp Hs Hd] Hreq Hpick. unfold pthread_create. cstep. rewrite Hs. csteps.
  unfold write_request. csteps. unfold create_answer. apply evals_bind_block.
  by eapply suspend_blocks.
Qed.

(** Once the restart signal is there, the thread gets the answer of the
    manager: the code it has left in the descriptor is returned, and the new
    thread is stored exactly if the code is 0. *)
Definition create_answered (p : pid_t) (self thread : addr) (d : _pthread) (σ : state) : state :=
  let σ1 := woken p self σ in
  if p_retcode d =? 0 then setf words (<[thread := p_retval d]> (words σ)) σ1 else σ1.

Lemma create_answer_spec p self pr d thread w σ :
  runs_thread p self pr d σ -> self <> addr_manager_thread -> p_signal_jmp d = NULL ->
  restart_installed σ ->
  pick_signal (pr_pending pr) (sigdelset (pr_mask pr) PTHREAD_SIG_RESTART)
    = Some PTHREAD_SIG_RESTART -> words σ !! thread = Some w ->
  evals p (create_answer thread self) σ (Done (p_retcode d) (create_answered p self thread d σ)).
Proof.
  intros [Hp Hs Hd] Hm Hj Hact Hpick Hw. unfold create_answer, create_answered.
  eapply evals_bind; [by eapply suspend_spec|]. set (σ1 := woken p self σ).
  assert (Hd1 : thr σ1 !! self = Some (setf p_signal PTHREAD_SIG_RESTART d)).
  { unfold σ1, woken. simpl. by rewrite lookup_alter_eq, Hd. }
  eapply evals_load; [exact Hd1|]. fields.
  destruct (p_retcode d =? 0) eqn:Hrc; csteps; apply evals_unbind;
    (eapply evals_load; [exact Hd1|]; by csteps).
Qed.

(** [pthread_create] when the answer comes before the thread waits. *)
Lemma create_returns p self pr d thread attr fn arg w σ :
  runs_thread p self pr d σ -> 0 <= __pthread_manager_request (glb σ) ->
  self <> addr_manager_thread -> p_signal_jmp d = NULL -> restart_installed σ ->
  pick_signal (pr_pending pr) (sigdelset (pr_mask pr) PTHREAD_SIG_RESTART)
    = Some PTHREAD_SIG_RESTART -> words σ !! thread = Some w ->
  evals p (pthread_create thread attr fn arg) σ
    (Done (p_retcode d) (create_answered p self thread d
      (requested (mk_request self (REQ_CREATE attr fn arg (pr_mask pr))) σ))).
Proof.
  intros [Hp Hs Hd] Hreq Hm Hj Hact Hpick Hw. unfold pthread_create. cstep. rewrite Hs.
  csteps. unfold write_request. csteps. by eapply create_answer_spec.
Qed.

(** No memory for the stack of the manager. *)
Lemma create_no_manager p pr thread attr fn arg env σ :
  procs (krn σ) !! p = Some pr -> __pthread_manager_request (glb σ) < 0 ->
  envt (krn σ) = NULL :: env ->
  exists σ', evals p (pthread_create thread attr fn arg) σ (Done EAGAIN σ') /\
    __pthread_manager_request (glb σ') = __pthread_manager_request (glb σ).
Proof.
  intros Hp Hreq He. eexists. split.
  - unfold pthread_create, pthread_initialize_manager. csteps.
    eapply evals_ask; [exact He|]. by csteps.
  - done.
Qed.

(** *** After fork, in the child *)

(** [__pthread_reset_main_thread] makes the calling thread the main thread,
    alone in the list as far as [p_nextlive] goes ([p_prevlive] is not reset),
    forgets the manager and closes the pipe. *)
Definition main_reset (p : pid_t) (self : addr) (d : _pthread) (σ : state) : state :=
  put_thr self (setf p_nextlive self (setf p_pid p d))
    (setf glb (setf __pthread_main_thread self
        (setf __pthread_manager_request (-1) (setf __pthread_manager_reader (-1)
          (setf __pthread_manager_thread_bos NULL
            (setf __pthread_manager_thread_tos NULL (glb σ))))))
      (upd_krn (fun k => setf open_fds (open_fds k ∖ {[__pthread_manager_request (glb σ)]}
                          ∖ {[__pthread_manager_reader (glb σ)]}) k) σ)).

(** A thread other than the manager is found without the manager's stack. *)
Lemma thread_self_no_manager g g' sp self :
  thread_self_at g sp = self -> self <> addr_manager_thread ->
  __pthread_initial_thread_bos g' = __pthread_initial_thread_bos g ->
  __pthread_manager_thread_bos g' = NULL -> __pthread_manager_thread_tos g' = NULL ->
  thread_self_at g' sp = self.
Proof.
  unfold thread_self_at. intros Hs Hm -> -> ->. unfold NULL.
  destruct (sp >=? _); [done|].
  replace ((sp >=? 0) && (sp <? 0)) with false by lia.
  destruct (_ && _); [by subst | exact Hs].
Qed.

Lemma reset_main_spec p self pr d σ :
  runs_thread p self pr d σ ->
  evals p __pthread_reset_main_thread σ (Done tt (main_reset p self d σ)).
Proof.
  intros [Hp Hs Hd]. unfold __pthread_reset_main_thread, free, close, getpid. cstep. rewrite Hs.
  csteps. unfold main_reset, put_thr, upd_krn. fields. by rewrite !insert_insert_eq.
Qed.
End specs.
