(* ===== verification/Lifetime.v ===== *)
(** * The life of a thread

    The components together: a thread calls [pthread_create] and waits, the
    manager reads the request from its pipe and makes the new thread, which
    runs its start routine and exits, the creator joins it, and the manager
    reaps the process and frees descriptor and stack. *)

From S2P Require Import Prelude Types Machine MachineFacts Platform Memory Spinlock Queue.
From S2P Require Import Restart Mutex Cleanup Specific Join Layout Manager PThread.

Section lifetime.
Context {H : Handlers} {P : Platform} {Pok : PlatformOk P} {U : UserCode}
  {Hr : RestartHandler H P}.

(** ** Rounds of the manager's loop *)

(** A request, and no news of the children. *)
Lemma manager_round p pr r rest σ res :
  procs (krn σ) !! p = Some pr -> pick_signal (pr_pending pr) (pr_mask pr) = None ->
  pr_ppid pr <> 1 -> terminated_children (glb σ) = 0 -> pipe_data (krn σ) = r :: rest ->
  evals p (manager_request r) (upd_krn (setf pipe_data rest) σ) res ->
  evals p (manager_body tt) σ res.
Proof.
  intros Hp Hpick Hpp Ht Hpipe He.
  unfold manager_body, __select, take_signal, signal_waiting, pipe_readable, getppid, read_request.
  csteps. eapply evals_act; [cbn; rewrite Hp, Hpick; reflexivity|]. cbn [bool_decide is_Some_dec].
  csteps. rewrite Hpipe. cbn. csteps.
  eapply evals_act; [cbn; rewrite Hp; reflexivity|]. csteps. rewrite Ht. csteps.
  eapply evals_act; [cbn; rewrite Hpipe; reflexivity|]. exact He.
Qed.

(** A request, and the signal that a child has died: first the children are
    reaped. *)
Lemma manager_round_reaps p pr r rest σ σ1 res :
  procs (krn σ) !! p = Some pr -> thread_self_at (glb σ) (pr_sp pr) = addr_manager_thread ->
  restart_installed σ -> pick_signal (pr_pending pr) (pr_mask pr) = Some PTHREAD_SIG_RESTART ->
  pr_ppid pr <> 1 -> terminated_children (glb σ) = 0 -> pipe_data (krn σ) = r :: rest ->
  evals p pthread_reap_children (clear_signal p PTHREAD_SIG_RESTART σ) (Done tt σ1) ->
  pipe_data (krn σ1) = r :: rest ->
  evals p (manager_request r) (upd_krn (setf pipe_data rest) σ1) res ->
  evals p (manager_body tt) σ res.
Proof.
  intros Hp Hs Hact Hpick Hpp Ht Hpipe Hreap Hpipe1 He.
  unfold manager_body, __select, take_signal, signal_waiting, pipe_readable, getppid, read_request,
    getmask.
  csteps. eapply evals_act; [cbn; rewrite Hp, Hpick; reflexivity|]. cbn [bool_decide is_Some_dec].
  csteps. eapply evals_act; [cbn; rewrite Hp; reflexivity|]. csteps.
  eapply evals_sigsuspend; [exact Hp | exact Hpick | by rewrite Hact |].
  rewrite Hact, restart_handler. set (mk := pr_mask pr ∪ _ ∪ _). cbn [sa_mask].
  eapply evals_bind; [eapply (sighandler_manager_spec p
    (setf pr_mask mk (setf pr_pending (pr_pending pr ∖ {[PTHREAD_SIG_RESTART]}) pr)));
    [simpl; by rewrite !lookup_alter_eq, Hp | exact Hs]|].
  set (σ0 := setf glb (setf terminated_children 1 (glb σ)) (clear_signal p PTHREAD_SIG_RESTART σ)).
  eapply evals_act; [reflexivity|].
  assert (E0 : set_mask p (pr_mask pr) (setf glb (setf terminated_children 1
      (glb (set_mask p mk (clear_signal p PTHREAD_SIG_RESTART σ))))
      (set_mask p mk (clear_signal p PTHREAD_SIG_RESTART σ))) = σ0).
  { change (set_mask p ?a (setf glb ?g ?s)) with (setf glb g (set_mask p a s)).
    by rewrite (mask_restored p PTHREAD_SIG_RESTART mk pr σ Hp). }
  rewrite E0. csteps. replace (pipe_data (krn σ0)) with (r :: rest) by done. cbn. csteps.
  eapply evals_act; [cbn; rewrite lookup_alter_eq, Hp; reflexivity|].
  fields. csteps. change (terminated_children (glb σ0)) with 1. csteps.
  assert (E1 : setf glb (setf terminated_children 0 (glb σ0)) σ0 = clear_signal p PTHREAD_SIG_RESTART σ).
  { unfold σ0. fields. rewrite <- Ht. unfold clear_signal, upd_proc, upd_krn. destruct σ as [? ? ? ? ? ? ? ? ? ? g k].
    by destruct g. }
  rewrite E1. eapply evals_bind; [exact Hreap|]. csteps.
  eapply evals_act; [cbn; rewrite Hpipe1; reflexivity|]. exact He.
Qed.

(** One child has died, with an exit status. *)
Lemma take_zombie_last p pid st zs :
  (forall z, z ∈ zs -> z.1.1 <> p) ->
  take_zombie p (zs ++ [(p, pid, st)]) = Some (pid, st, zs) /\ take_zombie p zs = None.
Proof.
  intros Hz. assert (Hn : list_find (fun z : Z * Z * Z => z.1.1 = p) zs = None)
    by (by apply list_find_None, Forall_forall).
  unfold take_zombie. rewrite Hn, list_find_app_r by done. simpl.
  rewrite decide_True by done. simpl. split; [|done].
  do 2 f_equal. rewrite (delete_middle zs []). apply app_nil_r.
Qed.

Lemma reap_one p pid code zs σ σ1 :
  zombies (krn σ) = zs ++ [(p, pid, exit_status code)] -> (forall z, z ∈ zs -> z.1.1 <> p) ->
  0 < pid ->
  evals p (pthread_exited pid) (upd_krn (setf zombies zs) σ) (Done tt σ1) ->
  zombies (krn σ1) = zs ->
  evals p pthread_reap_children σ (Done tt σ1).
Proof.
  intros Hzs Hz Hpid He Hzs1. destruct (take_zombie_last p pid (exit_status code) zs Hz) as [T1 T2].
  unfold pthread_reap_children. eapply (evals_loop_next p _ tt tt).
  - unfold reap_body, waitpid_any.
    eapply evals_act; [cbn; rewrite Hzs, T1; reflexivity|]. cbv beta iota. csteps.
    eapply evals_bind; [exact He|].
    assert (Hw : WIFSIGNALED (exit_status code) = false).
    { unfold WIFSIGNALED, WTERMSIG, exit_status.
      replace (Z.land (Z.shiftl (Z.land code 255) 8) 127) with 0; [done|].
      symmetry. apply Z.bits_inj'. intros n Hn. rewrite Z.land_spec, Z.bits_0.
      destruct (Z.ltb_spec n 8); [by rewrite Z.shiftl_spec_low by lia|].
      change 127 with (Z.ones 7). rewrite Z.ones_spec_high by lia. apply andb_false_r. }
    rewrite Hw. by csteps.
  - eapply evals_loop_stop. unfold reap_body, waitpid_any.
    eapply evals_act; [cbn; rewrite Hzs1, T2; reflexivity|]. cbv beta iota. by csteps.
Qed.

(** ** The new thread *)

Lemma put_thr_id a d σ : thr σ !! a = Some d -> put_thr a d σ = σ.
Proof. intros Hd. unfold put_thr. rewrite insert_id by done. by destruct σ. Qed.

(** Fields of the state that an update leaves alone. *)
Lemma put_thr_krn a d σ : krn (put_thr a d σ) = krn σ.
Proof. reflexivity. Qed.

Lemma put_thr_words_krn W a d σ : krn (setf words W (put_thr a d σ)) = krn σ.
Proof. reflexivity. Qed.

Lemma put_thr_words_glb W a d σ : glb (setf words W (put_thr a d σ)) = glb σ.
Proof. reflexivity. Qed.

Lemma put_thr_words_thr W a d σ : thr (setf words W (put_thr a d σ)) = <[a := d]> (thr σ).
Proof. reflexivity. Qed.

Lemma put_thr_put_thr a d d' σ : put_thr a d (put_thr a d' σ) = put_thr a d σ.
Proof. unfold put_thr. fields. by rewrite insert_insert_eq. Qed.

Lemma woken_put_thr p a d pr σ :
  procs (krn σ) !! p = Some pr -> PTHREAD_SIG_RESTART ∉ pr_pending pr ->
  woken p a (post_signal p PTHREAD_SIG_RESTART (put_thr a d σ)) =
  put_thr a (setf p_signal PTHREAD_SIG_RESTART d) σ.
Proof.
  intros Hp Hn. unfold woken. rewrite (clear_post p _ pr (put_thr a d σ) Hp Hn).
  unfold put_thr. fields. rewrite setf_thr_thr.
  change (thr (post_signal p PTHREAD_SIG_RESTART (setf thr ?T ?s))) with T.
  by rewrite alter_insert_eq.
Qed.

(** A thread that has not used keys or cleanup handlers, and is not canceled,
    when its start routine returns [v]: it exits with [v]. *)
Record fresh_thread (pid : pid_t) (d : _pthread) : Prop := {
  ft_pid : p_pid d = pid;
  ft_canceled : p_canceled d = 0;
  ft_cleanup : p_cleanup d = NULL;
  ft_specific : p_specific d = replicate (Z.to_nat PTHREAD_KEYS_MAX) NULL;
  ft_spinlock : p_spinlock d = 0;
  ft_joining : p_joining d = NULL
}.

Lemma no_destructors keys n : destructors keys (replicate n NULL) = [].
Proof.
  revert n. induction keys as [|k keys IH]; intros [|n]; try done. simpl.
  by rewrite andb_false_r.
Qed.

Lemma start_thread_exits pid new pr d v σ σu :
  runs_thread pid new pr d σ -> fresh_thread pid d -> new <> NULL ->
  evals pid (call_fn (p_initial_fn d) (p_initial_fn_arg d))
    (set_mask pid (p_initial_mask d) σ) (Done v σu) ->
  thr σu = thr σ -> glb σu = glb σ -> krn σu = krn (set_mask pid (p_initial_mask d) σ) ->
  new <> __pthread_main_thread (glb σ) -> keys_full σ ->
  evals pid (pthread_start_thread new) σ
    (Exits (terminate pid (exit_status 0) (exit_marked new v d σu))).
Proof.
  intros [Hp Hs Hd] [Fp Fc Fl Fs Fk Fj] Hnn Hfn HT HG HK Hmain Hkeys.
  assert (Hd1 : setf p_pid pid d = d) by (rewrite <- Fp; by destruct d).
  assert (Hdu : thr σu !! new = Some d) by (by rewrite HT).
  assert (Hdc : put_thr new (setf p_canceled 0 d) σu = σu).
  { rewrite <- Fc. apply put_thr_id. rewrite Hdu. by destruct d. }
  assert (Hru : runs_thread pid new (setf pr_mask (p_initial_mask d) pr) d σu).
  { constructor; [rewrite HK; simpl; by rewrite lookup_alter_eq, Hp | by rewrite HG | done]. }
  unfold pthread_start_thread, getpid. csteps. rewrite Hd1. fold (put_thr new d σ).
  rewrite put_thr_id by done. csteps.
  eapply evals_sigprocmask_set; [exact Hp | reflexivity|]. csteps.
  eapply evals_bind; [exact Hfn|].
  replace (exit_marked new v d σu) with (joiner_woken d (exit_marked new v d σu))
    by (unfold joiner_woken; rewrite Fj; by case_match).
  apply (pthread_exit_spec pid new _ d v d σu σu σu Hru); try done.
  - by rewrite HG.
  - rewrite Hdc. by eapply (perform_cleanup_spec pid new _ d []); [exact Hru | | constructor].
  - unfold __pthread_destroy_specifics. destruct Hru as [Hpu Hsu _].
    eapply evals_thread_self; [done|]. rewrite Hsu.
    eapply (destroy_loop pid new 0 σu σu (p_specific d)); [by unfold keys_full; rewrite HG | by rewrite Hdu | | done |].
    + by rewrite Fs, length_replicate.
    + rewrite Fs. change (Z.to_nat 0) with 0%nat. rewrite !drop_0, no_destructors. constructor.
  - by rewrite Fj.
Qed.

(** The death of a child that leaves no children of its own. *)
Definition child_gone (pid parent st : Z) (σ : state) : state :=
  upd_krn (fun k => setf zombies (zombies k ++ [(parent, pid, st)])
                      (setf procs (delete pid (procs k)) k)) σ.

Lemma terminate_child pid parent prn st σ :
  procs (krn σ) !! pid = Some prn -> pr_ppid prn = parent -> pr_exit_signal prn = PTHREAD_SIG_RESTART ->
  (forall q pr, q <> pid -> procs (krn σ) !! q = Some pr -> pr_ppid pr <> pid) ->
  terminate pid st σ =
    post_signal parent PTHREAD_SIG_RESTART (child_gone pid parent st σ).
Proof.
  intros Hp <- Hs Ho. unfold terminate. rewrite Hp, Hs. cbn [Z.eqb PTHREAD_SIG_RESTART].
  f_equal. unfold child_gone, upd_krn. fields. do 3 f_equal. apply map_eq. intros q.
  rewrite lookup_fmap. destruct (decide (q = pid)) as [->|Hq]; [by rewrite lookup_delete_eq|].
  rewrite lookup_delete_ne by done. destruct (procs (krn σ) !! q) as [pr|] eqn:E; [|done]. simpl.
  by rewrite (proj2 (Z.eqb_neq _ _) (Ho q pr Hq E)).
Qed.

(** ** The end of a thread

    The thread [th], first in the list, has terminated and its process is
    gone. *)
Record terminated_thread (m pid k : Z) (main th : addr) (l : list addr) (d : _pthread)
    (zs : list (Z * Z * Z)) (σ : state) : Prop := {
  tt_thr : thr σ !! th = Some d;
  tt_pid : p_pid d = pid;
  tt_spinlock : p_spinlock d = 0;
  tt_detached : p_detached d = 0;
  tt_joining : p_joining d = NULL;
  tt_terminated : p_terminated d <> 0;
  tt_ring : ring (thr σ) main (th :: l);
  tt_main : __pthread_main_thread (glb σ) = main;
  tt_segment : is_segment σ k th;
  tt_exiting : main_thread_exiting (glb σ) = 0;
  tt_children : terminated_children (glb σ) = 0;
  tt_request : 0 <= __pthread_manager_request (glb σ);
  tt_pipe : pipe_data (krn σ) = [];
  tt_zombies : zombies (krn σ) = zs ++ [(m, pid, exit_status 0)];
  tt_others : forall z, z ∈ zs -> z.1.1 <> m
}.

(** The final state: off the list and freed. *)
Definition thread_gone (k : Z) (main th : addr) (l : list addr) (zs : list (Z * Z * Z)) (σ : state)
    : state :=
  freed k th (exited_marked th main (default main (head l))
    (upd_krn (setf zombies zs) σ)).

Lemma join_frees p self pr m prm pid k main th l d zs rp w σ :
  procs (krn σ) !! p = Some pr -> thread_self_at (glb σ) (pr_sp pr) = self -> th <> self ->
  procs (krn σ) !! m = Some prm -> thread_self_at (glb σ) (pr_sp prm) = addr_manager_thread ->
  pick_signal (pr_pending prm) (pr_mask prm) = None ->
  blocked (pr_mask prm) PTHREAD_SIG_RESTART = false -> pr_ppid prm <> 1 -> m <> p ->
  restart_installed σ -> 0 < pid ->
  terminated_thread m pid k main th l d zs σ -> rp <> NULL -> words σ !! rp = Some w ->
  let σ' := setf words (<[rp := p_retval d]> (words σ)) σ in
  exists σ1, evals p (pthread_join th rp) (post_signal m PTHREAD_SIG_RESTART σ) (Done 0 σ1) /\
    words σ1 = words σ' /\
    evals m (manager_body tt) σ1 (Done (inl tt) (thread_gone k main th l zs σ')).
Proof.
  intros Hp Hs Hne Hm Hms Hmq Hmm Hmp Hop Hact Hpid [] Hrp Hw σ'.
  set (r := mk_request self (REQ_FREE th)).
  destruct (pick_posted (pr_pending prm) (pr_mask prm) PTHREAD_SIG_RESTART Hmq)
    as [Hnp Hpk]; [done | done |].
  exists (post_signal m PTHREAD_SIG_RESTART (requested r σ')). split; [|split; [done|]].
  - apply (join_terminated p self pr th d rp w); try done.
    unfold post_signal. by rewrite procs_upd_proc, lookup_alter_ne.
  - set (σr := upd_krn (setf zombies zs) (requested r σ')).
    set (σx := exited_marked th main (default main (head l)) σr).
    eapply (manager_round_reaps m (setf pr_pending ({[PTHREAD_SIG_RESTART]} ∪ pr_pending prm) prm)
      r [] _ σx); try done.
    + simpl. by rewrite lookup_alter_eq, Hm.
    + simpl. by rewrite tt_pipe0.
    + rewrite (clear_post m _ prm); [|done|done].
      eapply (reap_one m pid 0 zs); [exact tt_zombies0 | done | done | | done].
      fold σr. replace σx with (exited_state k th main (default main (head l)) d σr)
        by (unfold exited_state; by rewrite tt_detached0).
      apply (pthread_exited_spec m main pid k [] th l d σr); try done.
      * by destruct tt_segment0.
      * intros y e Hy. by apply elem_of_nil in Hy.
    + simpl. by rewrite tt_pipe0.
    + unfold manager_request, r. cbn [req]. eapply evals_bind; [|by csteps].
      replace (thread_gone k main th l zs σ')
        with (freed k th (upd_krn (setf pipe_data []) σx)).
      * eapply (handle_free_exited m k th (setf p_exited 1 d)); [|done|done|by destruct tt_segment0].
        destruct (ring_neighbours _ _ [] _ _ tt_ring0) as (_ & Hv & Hn). simpl in Hv.
        change (alter (setf p_exited 1) th (live_removed main (default main (head l)) (thr σ)) !! th
                = Some (setf p_exited 1 d)).
        unfold live_removed. by rewrite lookup_alter_eq, !lookup_alter_ne, tt_thr0 by done.
      * unfold thread_gone, σx, σr, freed, exited_marked, upd_thr, upd_krn, requested, σ'. fields.
        rewrite <- tt_pipe0. by destruct σ as [? ? ? ? ? ? ? ? ? ? ? []].
Qed.

(** ** The library at rest

    Thread [self] runs in process [p]; the manager, process [m], waits for
    requests; nothing is pending between them.  The active threads are [main]
    and [l]. *)
Record at_rest (p : pid_t) (self : addr) (pr : proc) (d : _pthread) (m : pid_t) (prm : proc)
    (main : addr) (l : list addr) (σ : state) : Prop := {
  ar_thread : runs_thread p self pr d σ;
  ar_pid : p_pid d = p;
  ar_self : self <> addr_manager_thread;
  ar_jmp : p_signal_jmp d = NULL;
  ar_quiet : pick_signal (pr_pending pr) (sigdelset (pr_mask pr) PTHREAD_SIG_RESTART) = None;
  ar_manager : procs (krn σ) !! m = Some prm;
  ar_manager_self : thread_self_at (glb σ) (pr_sp prm) = addr_manager_thread;
  ar_manager_quiet : pick_signal (pr_pending prm) (pr_mask prm) = None;
  ar_manager_mask : blocked (pr_mask prm) PTHREAD_SIG_RESTART = false;
  ar_manager_parent : pr_ppid prm <> 1;
  ar_other : m <> p;
  ar_restart : restart_installed σ;
  ar_request : 0 <= __pthread_manager_request (glb σ);
  ar_children : terminated_children (glb σ) = 0;
  ar_exiting : main_thread_exiting (glb σ) = 0;
  ar_keys : keys_full σ;
  ar_pipe : pipe_data (krn σ) = [];
  ar_zombies : forall z, z ∈ zombies (krn σ) -> z.1.1 <> m;
  ar_main : __pthread_main_thread (glb σ) = main;
  ar_ring : ring (thr σ) main l;
  ar_member : self ∈ main :: l;
  ar_segs : segs_ok σ
}.

(** Segment [k] is the first free one; the environment maps its stack and
    makes the process [pid], a number not in use. *)
Record can_create (k nseg mm pid : Z) (env : list Z) (main : addr) (l : list addr) (σ : state)
    : Prop := {
  cc_layout : layout_ok (glb σ) nseg;
  cc_range : 0 <= k < nseg;
  cc_size : 16 <= STACK_SIZE - sizeof_pthread;
  cc_free : stack_segments (glb σ) !! Z.to_nat k = Some 0;
  cc_first : forall j v, 0 <= j < k -> stack_segments (glb σ) !! Z.to_nat j = Some v -> v <> 0;
  cc_env : envt (krn σ) = mm :: pid :: env;
  cc_mmap : mm <> -1;
  cc_pid : 0 < pid;
  cc_unused : procs (krn σ) !! pid = None;
  cc_orphans : forall q pr, procs (krn σ) !! q = Some pr -> pr_ppid pr <> pid;
  cc_new : THREAD_SEG (glb σ) k ∉ [NULL; addr_initial_thread; addr_manager_thread; main] ++ l
}.

Section life.
Context (p : pid_t) (self : addr) (pr : proc) (d : _pthread) (m : pid_t) (prm : proc)
  (main : addr) (l : list addr) (σ : state) (Hrest : at_rest p self pr d m prm main l σ).
Context (k nseg mm pid : Z) (env : list Z) (Hcc : can_create k nseg mm pid env main l σ).
Context (attr fn arg : Z).

#[local] Abbreviation new := (THREAD_SEG (glb σ) k).
#[local] Abbreviation req := (mk_request self (REQ_CREATE attr fn arg (pr_mask pr))).
#[local] Abbreviation σc := (created m prm main l self 0 fn arg (pr_mask pr) k pid env σ).

Lemma life_new : new ∉ main :: l /\ new <> NULL /\ new <> addr_initial_thread /\ self <> new.
Proof.
  pose proof (cc_new _ _ _ _ _ _ _ _ Hcc). pose proof (ar_member _ _ _ _ _ _ _ _ _ Hrest).
  set_solver.
Qed.

(** The creator waits, with its request in the pipe. *)
Lemma life_asks tp :
  evals p (pthread_create tp attr fn arg) σ (Blocks (requested req σ)).
Proof. destruct Hrest. by eapply create_blocks. Qed.

(** The descriptor of the creator with the answer of the manager. *)
Lemma life_creator : exists nx pv,
  thr σc !! self = Some (setf p_retval new (setf p_nextlive nx (setf p_prevlive pv d))).
Proof.
  destruct life_new as (Hnew & _ & _ & Hsn). destruct Hrest as [[_ _ Hd]].
  destruct (live_inserted_lookup main new (default main (head l)) (thr σ) self d Hd)
    as (nx & pv & E). exists nx, pv.
  rewrite created_thr by done. rewrite decide_True, decide_False by done. by rewrite E.
Qed.

Definition answered_creator (nx pv : Z) : _pthread :=
  setf p_retcode 0 (setf p_retval new (setf p_nextlive nx (setf p_prevlive pv d))).

(** The manager serves the request. *)
Lemma life_served nx pv :
  attr_plain attr 0 σ ->
  thr σc !! self = Some (setf p_retval new (setf p_nextlive nx (setf p_prevlive pv d))) ->
  evals m (manager_body tt) (requested req σ)
    (Done (inl tt) (post_signal p PTHREAD_SIG_RESTART
      (put_thr self (answered_creator nx pv) σc))).
Proof.
  intros Hattr Hd1. destruct life_new as (Hnew & _ & _ & Hsn). destruct Hrest, Hcc.
  destruct ar_thread0 as [Hp Hs Hd].
  assert (E : upd_krn (setf pipe_data []) (requested req σ) = σ).
  { unfold requested, upd_krn. fields. rewrite <- ar_pipe0 at 1.
    by destruct σ as [? ? ? ? ? ? ? ? ? ? ? []]. }
  eapply (manager_round m prm req []); try done; [simpl; by rewrite ar_pipe0|]. rewrite E.
  replace p with (p_pid (setf p_retval new (setf p_nextlive nx (setf p_prevlive pv d)))) at 1
    by exact ar_pid0.
  eapply (manager_create_replies m self d 0); [done | | exact Hd1 |].
  - eapply handle_create_spec; (done || lia).
  - fields. rewrite created_procs, ar_pid0, lookup_insert_ne by congruence. exact Hp.
Qed.

(** The creator returns: the only trace of the exchange is in its own
    descriptor. *)
Definition life_created (tp nx pv : Z) : state :=
  setf words (<[tp := new]> (words σ))
    (put_thr self (setf p_signal PTHREAD_SIG_RESTART (answered_creator nx pv)) σc).

Lemma life_created_krn tp nx pv : krn (life_created tp nx pv) = krn σc.
Proof. apply put_thr_words_krn. Qed.

Lemma life_created_glb tp nx pv :
  glb (life_created tp nx pv) =
  setf stack_segments (<[Z.to_nat k := 1]> (stack_segments (glb σ))) (glb σ).
Proof. unfold life_created. rewrite put_thr_words_glb. apply created_glb. Qed.

Lemma life_procs tp nx pv :
  procs (krn (life_created tp nx pv)) =
  <[pid := mk_proc (new - 16) m (pr_mask prm) ∅ PTHREAD_SIG_RESTART
             (pr_policy prm) (pr_priority prm)]> (procs (krn σ)).
Proof. rewrite life_created_krn. apply created_procs. Qed.

Lemma life_answered tp w nx pv :
  words σ !! tp = Some w ->
  evals p (create_answer tp self)
    (post_signal p PTHREAD_SIG_RESTART (put_thr self (answered_creator nx pv) σc))
    (Done 0 (life_created tp nx pv)).
Proof.
  intros Hw. destruct life_new as (Hnew & _ & _ & Hsn). destruct Hrest, Hcc.
  destruct ar_thread0 as [Hp Hs Hd].
  destruct (pick_posted (pr_pending pr) (sigdelset (pr_mask pr) PTHREAD_SIG_RESTART)
              PTHREAD_SIG_RESTART ar_quiet0) as [Hnp Hpk]; [done | apply restart_unblocked |].
  assert (Hp1 : procs (krn σc) !! p = Some pr)
    by (by rewrite created_procs, lookup_insert_ne by congruence).
  assert (E : create_answered p self tp (answered_creator nx pv)
      (post_signal p PTHREAD_SIG_RESTART (put_thr self (answered_creator nx pv) σc)) =
    life_created tp nx pv).
  { unfold create_answered. by rewrite (woken_put_thr p self _ pr). }
  rewrite <- E.
  apply (create_answer_spec p self (setf pr_pending ({[PTHREAD_SIG_RESTART]} ∪ pr_pending pr) pr)
           (answered_creator nx pv) tp w); try done.
  - constructor; [|exact Hs|apply lookup_insert_eq].
    unfold post_signal. rewrite procs_upd_proc, lookup_alter_eq.
    by rewrite put_thr_krn, Hp1.
Qed.

(** The new thread, in its process. *)
Lemma life_thread tp nx pv :
  exists prn, runs_thread pid new prn (created_descriptor main l 0 fn arg (pr_mask pr) pid)
    (life_created tp nx pv) /\ pr_ppid prn = m /\ pr_exit_signal prn = PTHREAD_SIG_RESTART.
Proof.
  destruct life_new as (Hnew & _ & _ & Hsn). destruct Hcc.
  exists (mk_proc (new - 16) m (pr_mask prm) ∅ PTHREAD_SIG_RESTART (pr_policy prm) (pr_priority prm)).
  split; [constructor|done].
  - simpl. apply lookup_insert_eq.
  - change (thread_self_at (glb σ) (new - 16) = new).
    apply (thread_self_of_stack _ nseg); [done | done |].
    pose proof (THREAD_SEG_eq (glb σ) nseg k cc_layout0 cc_range0). unfold in_stack. lia.
  - unfold life_created. rewrite put_thr_words_thr, lookup_insert_ne, created_thr by done. by rewrite decide_False, decide_True by done.
Qed.

(** The thread runs its routine, which returns [v] and changes only memory of
    the program, and exits. *)
Abbreviation dn := (created_descriptor main l 0 fn arg (pr_mask pr) pid).

Definition life_exited (v : Z) (σu : state) : state :=
  child_gone pid m (exit_status 0) (exit_marked new v dn σu).

Lemma life_exits tp nx pv v σu :
  evals pid (call_fn fn arg) (set_mask pid (pr_mask pr) (life_created tp nx pv)) (Done v σu) ->
  thr σu = thr (life_created tp nx pv) -> glb σu = glb (life_created tp nx pv) ->
  krn σu = krn (set_mask pid (pr_mask pr) (life_created tp nx pv)) ->
  evals pid (pthread_start_thread new) (life_created tp nx pv)
    (Exits (post_signal m PTHREAD_SIG_RESTART (life_exited v σu))).
Proof.
  intros Hfn HT HG HK. destruct (life_thread tp nx pv) as (prn & Hrt & Hpp & Hxs).
  destruct life_new as (Hnew & Hnn & _ & Hsn). pose proof Hrt as [Hpn _ _].
  unfold life_exited. rewrite <- (terminate_child pid m (setf pr_mask (pr_mask pr) prn)).
  - eapply start_thread_exits;
      [exact Hrt | by constructor | exact Hnn | exact Hfn | exact HT | exact HG | exact HK | |].
    + rewrite life_created_glb. fields. rewrite (ar_main _ _ _ _ _ _ _ _ _ Hrest). set_solver.
    + unfold keys_full. rewrite life_created_glb. exact (ar_keys _ _ _ _ _ _ _ _ _ Hrest).
  - change (procs (krn (exit_marked new v dn σu))) with (procs (krn σu)). rewrite HK.
    unfold set_mask. by rewrite procs_upd_proc, lookup_alter_eq, Hpn.
  - exact Hpp.
  - exact Hxs.
  - intros q pr' Hq. change (procs (krn (exit_marked new v dn σu))) with (procs (krn σu)).
    rewrite HK. unfold set_mask. rewrite procs_upd_proc, lookup_alter_ne by done.
    rewrite life_procs, lookup_insert_ne by done. apply (cc_orphans _ _ _ _ _ _ _ _ Hcc).
Qed.

Lemma life_exited_procs tp nx pv v σu :
  krn σu = krn (set_mask pid (pr_mask pr) (life_created tp nx pv)) ->
  procs (krn (life_exited v σu)) = procs (krn σ) /\
  zombies (krn (life_exited v σu)) = zombies (krn σ) ++ [(m, pid, exit_status 0)] /\
  pipe_data (krn (life_exited v σu)) = [] /\
  sigactions (krn (life_exited v σu)) = sigactions (krn σ).
Proof.
  intros HK. unfold life_exited, child_gone, upd_krn. fields.
  change (krn (exit_marked new v dn σu)) with (krn σu). rewrite HK.
  assert (E : forall X (f : kernel -> X), (forall K V, f (setf procs V K) = f K) ->
    (forall K V, f (setf envt V K) = f K) -> (forall K V, f (setf mapped V K) = f K) ->
    f (krn (set_mask pid (pr_mask pr) (life_created tp nx pv))) = f (krn σ)).
  { intros X f H1 H2 H3. unfold set_mask, upd_proc, upd_krn. fields.
    rewrite H1, life_created_krn. by apply created_krn. }
  rewrite (E _ zombies), (E _ pipe_data), (E _ sigactions) by done.
  split; [|split; [done|split; [apply (ar_pipe _ _ _ _ _ _ _ _ _ Hrest) | done]]].
  - unfold set_mask. rewrite procs_upd_proc, delete_alter_eq.
    rewrite life_procs. apply delete_insert_id, (cc_unused _ _ _ _ _ _ _ _ Hcc).
Qed.

Lemma life_exited_glb tp nx pv v σu :
  glb σu = glb (life_created tp nx pv) ->
  glb (life_exited v σu) =
  setf stack_segments (<[Z.to_nat k := 1]> (stack_segments (glb σ))) (glb σ).
Proof. intros HG. change (glb (life_exited v σu)) with (glb σu). rewrite HG. apply life_created_glb. Qed.

(** What joiner and manager find. *)
Lemma life_terminated tp nx pv v σu :
  thr σc !! self = Some (setf p_retval new (setf p_nextlive nx (setf p_prevlive pv d))) ->
  thr σu = thr (life_created tp nx pv) -> glb σu = glb (life_created tp nx pv) ->
  krn σu = krn (set_mask pid (pr_mask pr) (life_created tp nx pv)) ->
  terminated_thread m pid k main new l (setf p_terminated 1 (setf p_retval v dn))
    (zombies (krn σ)) (life_exited v σu).
Proof.
  intros Hd1 HT HG HK. destruct life_new as (Hnew & Hnn & Hni & Hsn).
  destruct (life_exited_procs tp nx pv v σu HK) as (_ & Hz & Hpi & _).
  pose proof (life_exited_glb tp nx pv v σu HG) as Hg.
  pose proof (life_thread tp nx pv) as (_ & [_ _ Hdn] & _). destruct Hrest, Hcc.
  assert (HTe : thr (life_exited v σu) = <[new := setf p_terminated 1 (setf p_retval v dn)]>
    (thr (life_created tp nx pv))) by (rewrite <- HT; reflexivity).
  constructor; try done; try (rewrite Hg; exact ltac:(assumption)).
  - rewrite HTe. apply lookup_insert_eq.
  - rewrite HTe. eapply ring_put; [exact Hdn | done | done |].
    unfold life_created. rewrite put_thr_words_thr.
    eapply ring_put; [exact Hd1 | done | done | by apply created_ring].
  - constructor; [exists nseg; split; [rewrite Hg|done]| |by rewrite Hg|done].
    + by destruct cc_layout0.
    + rewrite Hg. fields. rewrite length_insert. by eapply lookup_lt_Some.
Qed.

(** The state at the end is at rest again. *)
Lemma life_rest tp nx pv v rp σu :
  thr σc !! self = Some (setf p_retval new (setf p_nextlive nx (setf p_prevlive pv d))) ->
  thr σu = thr (life_created tp nx pv) -> glb σu = glb (life_created tp nx pv) ->
  krn σu = krn (set_mask pid (pr_mask pr) (life_created tp nx pv)) ->
  let σe := life_exited v σu in
  let σ6 := thread_gone k main new l (zombies (krn σ)) (setf words (<[rp := v]> (words σe)) σe) in
  (exists d', at_rest p self pr d' m prm main l σ6) /\
  glb σ6 = glb σ /\ procs (krn σ6) = procs (krn σ) /\ zombies (krn σ6) = zombies (krn σ) /\
  thr σ6 !! new = None.
Proof.
  intros Hd1 HT HG HK σe σ6.
  destruct life_new as (Hnew & Hnn & Hni & Hsn).
  destruct (life_terminated tp nx pv v σu Hd1 HT HG HK).
  destruct (life_exited_procs tp nx pv v σu HK) as (Ep & _ & Ei & Ea).
  pose proof (life_exited_glb tp nx pv v σu HG) as Eg.
  assert (Hse : thr (life_exited v σu) !! self =
    Some (setf p_signal PTHREAD_SIG_RESTART (answered_creator nx pv))).
  { change (<[new := setf p_terminated 1 (setf p_retval v dn)]> (thr σu) !! self =
      Some (setf p_signal PTHREAD_SIG_RESTART (answered_creator nx pv))).
    rewrite lookup_insert_ne, HT by done. unfold life_created. rewrite put_thr_words_thr.
    apply lookup_insert_eq. }
  fold σe in Ep, Ei, Ea, Eg, Hse, tt_thr0, tt_ring0. clearbody σe.
  pose proof (live_removed_ring _ _ [] _ _ tt_ring0) as Hring. simpl in Hring.
  destruct (live_removed_links main (default main (head l)) _ _ _ Hse) as (nx' & pv' & Hs6).
  assert (Eg6 : glb σ6 = glb σ).
  { change (glb σ6) with (setf stack_segments (<[Z.to_nat k := 0]> (stack_segments (glb σe))) (glb σe)).
    rewrite Eg. fields. rewrite list_insert_insert_eq, list_insert_id by apply Hcc.
    by destruct (glb σ). }
  assert (ET : thr σ6 = delete new (alter (setf p_exited 1) new
    (live_removed main (default main (head l)) (thr σe)))) by reflexivity.
  assert (EP : procs (krn σ6) = procs (krn σ)) by (rewrite <- Ep; reflexivity).
  split; [|split; [done|split; [done|split; [done|rewrite ET; apply lookup_delete_eq]]]].
  destruct Hrest as [[Hp Hs Hd]].
  exists (setf p_nextlive nx' (setf p_prevlive pv'
            (setf p_signal PTHREAD_SIG_RESTART (answered_creator nx pv)))).
  constructor; try done; try (rewrite Eg6; assumption); try (by rewrite EP).
  - constructor; [by rewrite EP | by rewrite Eg6 |].
    rewrite ET, lookup_delete_ne, lookup_alter_ne by done. exact Hs6.
  - unfold restart_installed, action_of in *.
    change (sigactions (krn σ6)) with (sigactions (krn σe)). by rewrite Ea.
  - unfold keys_full. by rewrite Eg6.
  - rewrite ET. apply ring_delete; [done|]. eapply ring_ext; [|exact Hring].
    intros x Hx. unfold nextlive_of, prevlive_of. rewrite lookup_alter_ne; [done | set_solver].
  - unfold segs_ok. by rewrite Eg6.
Qed.
End life.

(** A routine of the program that returns [v] and changes only memory of its
    own: not the library's, and it frees nothing. *)
Definition plain_routine (pid : pid_t) (fn arg v : Z) : Prop :=
  forall s, exists s', evals pid (call_fn fn arg) s (Done v s') /\
    thr s' = thr s /\ glb s' = glb s /\ krn s' = krn s /\ dom (words s') = dom (words s).

(** C5: the life of a thread, through all the components.  From a state at rest:
    - [pthread_create] sends its request and waits;
    - one round of the manager's loop makes the thread, in the first free
      segment, first in the list, and answers;
    - the creator goes on, returns 0 and has stored the new thread;
    - the process of the new thread runs the start routine and exits;
    - [pthread_join] returns 0 and has stored what the routine returned;
    - one more round of the manager reaps the process, takes the thread off the
      list and frees its descriptor and its stack segment;
    and then the library is at rest again, with the same list of threads, the
    same global variables and the same processes as at the start. *)
Theorem thread_lifetime p self pr d m prm main l k nseg mm pid env attr fn arg v tp wt rp wr σ :
  at_rest p self pr d m prm main l σ -> can_create k nseg mm pid env main l σ ->
  attr_plain attr 0 σ -> plain_routine pid fn arg v ->
  words σ !! tp = Some wt -> words σ !! rp = Some wr -> rp <> NULL ->
  let new := THREAD_SEG (glb σ) k in
  exists σ1 σ2 σ3 σ4 σ5 σ6 d',
    evals p (pthread_create tp attr fn arg) σ (Blocks σ1) /\
    evals m (manager_body tt) σ1 (Done (inl tt) σ2) /\
    evals p (create_answer tp self) σ2 (Done 0 σ3) /\
    words σ3 !! tp = Some new /\ ring (thr σ3) main (new :: l) /\
    evals pid (pthread_start_thread new) σ3 (Exits σ4) /\
    evals p (pthread_join new rp) σ4 (Done 0 σ5) /\ words σ5 !! rp = Some v /\
    evals m (manager_body tt) σ5 (Done (inl tt) σ6) /\
    at_rest p self pr d' m prm main l σ6 /\ thr σ6 !! new = None /\
    glb σ6 = glb σ /\ procs (krn σ6) = procs (krn σ) /\ zombies (krn σ6) = zombies (krn σ).
Proof.
  intros Hrest Hcc Ha Hfn Htp Hrp Hrn new.
  destruct (life_new _ _ _ _ _ _ _ _ _ Hrest _ _ _ _ _ Hcc) as (Hnew & _ & _ & Hsn).
  destruct (life_creator _ _ _ _ _ _ _ _ _ Hrest _ _ _ _ _ Hcc fn arg) as (nx & pv & Hd1).
  pose proof (life_served _ _ _ _ _ _ _ _ _ Hrest _ _ _ _ _ Hcc attr fn arg nx pv Ha Hd1) as E2.
  pose proof (life_answered _ _ _ _ _ _ _ _ _ Hrest _ _ _ _ _ Hcc fn arg tp wt nx pv Htp) as E3.
  set (σ3 := life_created self pr d m prm main l σ k pid env fn arg tp nx pv) in *.
  destruct (Hfn (set_mask pid (pr_mask pr) σ3)) as (σu & Eu & HT & HG & HK & HW).
  pose proof (life_exits _ _ _ _ _ _ _ _ _ Hrest _ _ _ _ _ Hcc fn arg tp nx pv v σu Eu HT HG HK) as E4.
  pose proof (life_terminated _ _ _ _ _ _ _ _ _ Hrest _ _ _ _ _ Hcc fn arg tp nx pv v σu
    Hd1 HT HG HK) as Htt.
  destruct (life_exited_procs _ _ _ _ _ _ _ _ _ Hrest _ _ _ _ _ Hcc fn arg tp nx pv v σu HK)
    as (Ep & _ & _ & Ea).
  pose proof (life_exited_glb self pr d m prm main l σ k pid env fn arg tp nx pv v σu HG) as Eg.
  destruct (life_rest _ _ _ _ _ _ _ _ _ Hrest _ _ _ _ _ Hcc fn arg tp nx pv v rp σu Hd1 HT HG HK)
    as ((d' & Hr6) & G6 & P6 & Z6 & T6).
  set (σe := life_exited pr m main l σ k pid fn arg v σu) in *.
  assert (exists wu, words σe !! rp = Some wu) as [wu Hwu].
  { change (is_Some (words σu !! rp)). apply elem_of_dom. rewrite HW.
    change (rp ∈ dom (<[tp := new]> (words σ))). rewrite dom_insert.
    apply elem_of_union_r, elem_of_dom. eauto. }
  pose proof Hrest as [[Hp Hs _]]. pose proof (cc_pid _ _ _ _ _ _ _ _ Hcc) as Hpid.
  destruct (join_frees p self pr m prm pid k main new l
      (setf p_terminated 1 (setf p_retval v (created_descriptor main l 0 fn arg (pr_mask pr) pid)))
      (zombies (krn σ)) rp wu σe)
    as (σ5 & E5 & W5 & E6); try done; try (by rewrite Ep); try (by rewrite Eg).
  { unfold restart_installed, action_of in *. by rewrite Ea. }
  exists (requested (mk_request self (REQ_CREATE attr fn arg (pr_mask pr))) σ).
  eexists _, σ3, _, σ5, _, d'.
  split; [by eapply life_asks|]. split; [exact E2|]. split; [exact E3|].
  split; [apply lookup_insert_eq|]. split.
  { unfold σ3, life_created. rewrite put_thr_words_thr.
    eapply ring_put; [exact Hd1 | done | done | by apply created_ring]. }
  split; [exact E4|]. split; [exact E5|].
  split; [rewrite W5; apply lookup_insert_eq|]. split; [exact E6|]. done.
Qed.
End lifetime.
