(* ===== verification/Fork.v ===== *)
(** * fork and atfork handlers (ptfork.c) *)

From S2P Require Import Prelude Types Machine MachineFacts Platform Memory Spinlock Queue.
From S2P Require Import Restart Mutex Cleanup Specific Join Cancel Manager PThread.

(** Pointers to [struct handler_list *]: one of the three global variables,
    or the field [next] of a node. *)
Inductive listptr :=
| glb_prepare
| glb_parent
| glb_child
| next_at (node : addr).

Section fork.
Context {P : Platform} {U : UserCode}.

Definition load_list (l : listptr) : itree evt addr :=
  match l with
  | glb_prepare => get_glb pthread_atfork_prepare
  | glb_parent => get_glb pthread_atfork_parent
  | glb_child => get_glb pthread_atfork_child
  | next_at n => load hlists n hl_next
  end.

Definition store_list (l : listptr) (a : addr) : itree evt unit :=
  match l with
  | glb_prepare => set_glb pthread_atfork_prepare a
  | glb_parent => set_glb pthread_atfork_parent a
  | glb_child => set_glb pthread_atfork_child a
  | next_at n => store hlists n hl_next a
  end.

(** The link at the end of the list. *)
Definition list_end (l : listptr) : itree evt (listptr + listptr) :=
  a <- load_list l ;;
  if a =? NULL then Ret (inr l)
  else a <- load_list l ;; Ret (inl (next_at a)).

Definition pthread_insert_list (l : listptr) (handler_ newlist : addr) (at_end : Z)
    : itree evt unit :=
  if handler_ =? NULL then Ret tt else
  l <- (if istrue at_end then c_loop list_end l else Ret l) ;;
  store hlists newlist handler handler_ ;;
  n <- load_list l ;;
  store hlists newlist hl_next n ;;
  store_list l newlist.

(** The members of [struct handler_list_block], one after the other. *)
Definition sizeof_handler_list : Z := 2 * (long_bits / 8).
Definition block_prepare (b : addr) : addr := b.
Definition block_parent (b : addr) : addr := b + sizeof_handler_list.
Definition block_child (b : addr) : addr := b + 2 * sizeof_handler_list.

(** malloc of a block: three fresh nodes, or NULL. *)
Definition malloc_block : itree evt addr :=
  b <- ask ;;
  if b =? NULL then Ret NULL
  else
    act (fun _ σ => Some (tt, setf hlists
      (<[block_prepare b := mk_handler 0 0]> (<[block_parent b := mk_handler 0 0]>
        (<[block_child b := mk_handler 0 0]> (hlists σ)))) σ)) ;;
    Ret b.

Definition pthread_atfork (prepare parent child : addr) : itree evt Z :=
  block <- malloc_block ;;
  if block =? NULL then Ret ENOMEM else
  __pthread_mutex_lock addr_atfork_lock ;;
  pthread_insert_list glb_prepare prepare (block_prepare block) 0 ;;
  pthread_insert_list glb_parent parent (block_parent block) 1 ;;
  pthread_insert_list glb_child child (block_child block) 1 ;;
  __pthread_mutex_unlock addr_atfork_lock ;;
  Ret 0.

Definition call_handlers_body (l : addr) : itree evt (addr + unit) :=
  if l =? NULL then Ret (inr tt) else
  h <- load hlists l handler ;;
  call_fn h 0 ;;
  n <- load hlists l hl_next ;;
  Ret (inl n).

Definition pthread_call_handlers (l : addr) : itree evt unit :=
  c_loop call_handlers_body l.

(** After __fork: [pid] is 0 in the child, whose image is a copy. *)
Definition after_fork (fresetlockfiles : itree evt unit) (child parent pid : addr)
    : itree evt Z :=
  (if pid =? 0 then
     __pthread_reset_main_thread ;;
     fresetlockfiles ;;
     pthread_call_handlers child
   else pthread_call_handlers parent) ;;
  Ret pid.

Definition fork (fresetlockfiles : itree evt unit) : itree evt Z :=
  __pthread_mutex_lock addr_atfork_lock ;;
  prepare <- get_glb pthread_atfork_prepare ;;
  child <- get_glb pthread_atfork_child ;;
  parent <- get_glb pthread_atfork_parent ;;
  __pthread_mutex_unlock addr_atfork_lock ;;
  pthread_call_handlers prepare ;;
  pid <- ask ;;
  after_fork fresetlockfiles child parent pid.
End fork.

(** ** Specifications *)

(** The nodes from [a] on. *)
Fixpoint hchain (N : gmap Z handler_list) (a : addr) (l : list addr) : Prop :=
  match l with
  | [] => a = NULL
  | x :: l' => a = x /\ x <> NULL /\ exists n, N !! x = Some n /\ hchain N (hl_next n) l'
  end.

(** The handlers of the nodes. *)
Definition handlers_of (N : gmap Z handler_list) (l : list addr) : list addr :=
  (fun x => default NULL (handler <$> N !! x)) <$> l.

Lemma hchain_insert_notin N a l x n : x ∉ l -> hchain (<[x := n]> N) a l <-> hchain N a l.
Proof.
  revert a. induction l as [|y l IH]; intros a Hx; simpl; [done|].
  rewrite lookup_insert_ne by set_solver. setoid_rewrite IH; [done | set_solver].
Qed.

Lemma handlers_of_insert_notin N l x n :
  x ∉ l -> handlers_of (<[x := n]> N) l = handlers_of N l.
Proof.
  intros Hx. unfold handlers_of. apply list_fmap_ext. intros i y Hy.
  rewrite lookup_insert_ne; [done|]. intros ->. apply Hx. by eapply list_elem_of_lookup_2.
Qed.

Lemma handlers_of_ext N N' l :
  (forall x, x ∈ l -> handler <$> N' !! x = handler <$> N !! x) ->
  handlers_of N' l = handlers_of N l.
Proof.
  intros Hx. unfold handlers_of. apply list_fmap_ext. intros i y Hy.
  by rewrite Hx by by eapply list_elem_of_lookup_2.
Qed.

Section specs.
Context {H : Handlers} {P : Platform} {Pok : PlatformOk P} {U : UserCode}
  {Hr : RestartHandler H P}.

Definition is_head (l : listptr) : Prop := match l with next_at _ => False | _ => True end.

Definition get_list (l : listptr) (σ : state) : addr :=
  match l with
  | glb_prepare => pthread_atfork_prepare (glb σ)
  | glb_parent => pthread_atfork_parent (glb σ)
  | glb_child => pthread_atfork_child (glb σ)
  | next_at n => default NULL (hl_next <$> hlists σ !! n)
  end.

Definition put_list (l : listptr) (a : addr) (σ : state) : state :=
  match l with
  | glb_prepare => setf glb (setf pthread_atfork_prepare a (glb σ)) σ
  | glb_parent => setf glb (setf pthread_atfork_parent a (glb σ)) σ
  | glb_child => setf glb (setf pthread_atfork_child a (glb σ)) σ
  | next_at n => setf hlists (alter (setf hl_next a) n (hlists σ)) σ
  end.

Definition list_ok (l : listptr) (σ : state) : Prop :=
  match l with next_at n => is_Some (hlists σ !! n) | _ => True end.

Lemma evals_load_list {A} l (k : addr -> itree evt A) p J σ r :
  list_ok l σ -> evalsJ p (k (get_list l σ)) J σ r ->
  evalsJ p (ITree.bind (load_list l) k) J σ r.
Proof.
  destruct l as [| | |n]; simpl; intros Hok Hk; [by apply evals_get_glb..|].
  destruct Hok as [x Hx]. rewrite Hx in Hk. by eapply evals_load.
Qed.

Lemma evals_store_list {A} l a (k : unit -> itree evt A) p J σ r :
  list_ok l σ -> evalsJ p (k tt) J (put_list l a σ) r ->
  evalsJ p (ITree.bind (store_list l a) k) J σ r.
Proof.
  destruct l as [| | |n]; simpl; intros Hok Hk; [by apply evals_set_glb..|].
  destruct Hok as [x Hx]. eapply evals_store; [exact Hx|].
  by rewrite (insert_alter (setf hl_next a) _ _ _ Hx).
Qed.

(** The link to the end of the list. *)
Definition last_link (l : listptr) (ns : list addr) : listptr :=
  match last ns with Some x => next_at x | None => l end.

Lemma list_end_spec p l ns σ :
  list_ok l σ -> hchain (hlists σ) (get_list l σ) ns ->
  evals p (c_loop list_end l) σ (Done (last_link l ns) σ).
Proof.
  revert l. induction ns as [|x ns IH]; intros l Hok Hc; simpl in Hc.
  - eapply evals_loop_stop. unfold list_end. eapply evals_load_list; [done|]. rewrite Hc.
    by csteps.
  - destruct Hc as (Hx & Hn & n & Hnode & Hc).
    assert (Hlast : last_link l (x :: ns) = last_link (next_at x) ns)
      by (unfold last_link; rewrite last_cons; by destruct (last ns)).
    rewrite Hlast. eapply evals_loop_next with (a' := next_at x).
    + unfold list_end. eapply evals_load_list; [done|]. rewrite Hx. csteps.
      eapply evals_load_list; [done|]. rewrite Hx. by csteps.
    + apply IH; simpl; [eauto | by rewrite Hnode].
Qed.

(** Only the list [l] and the nodes [ns] change. *)
Record list_frame (l : listptr) (ns : list addr) (σ σ' : state) : Prop := {
  lf_heads : forall l', is_head l' -> l' <> l -> get_list l' σ' = get_list l' σ;
  lf_nodes : forall x, x ∉ ns -> hlists σ' !! x = hlists σ !! x;
  lf_mtx : mtx σ' = mtx σ;
  lf_thr : thr σ' = thr σ;
  lf_krn : krn σ' = krn σ
}.

Lemma put_list_frame l new nd ns σ :
  is_head l -> list_frame l (new :: ns) σ (put_list l new (setf hlists (<[new := nd]> (hlists σ)) σ)).
Proof.
  intros Hl. constructor; try by destruct l.
  - intros l' Hl' Hne. by destruct l, l'.
  - intros x Hx. assert (new <> x) by set_solver. destruct l; try done; simpl; by rewrite lookup_insert_ne.
Qed.

(** At the front: the new node is the first. *)
Lemma insert_front_spec p l h new n0 ns σ :
  is_head l -> h <> NULL -> new <> NULL -> hlists σ !! new = Some n0 -> new ∉ ns ->
  hchain (hlists σ) (get_list l σ) ns ->
  exists σ', evals p (pthread_insert_list l h new 0) σ (Done tt σ') /\
    hchain (hlists σ') (get_list l σ') (new :: ns) /\
    handlers_of (hlists σ') (new :: ns) = h :: handlers_of (hlists σ) ns /\
    list_frame l (new :: ns) σ σ'.
Proof.
  intros Hh Hn Hnew Hnode Hin Hc.
  set (N' := <[new := mk_handler h (get_list l σ)]> (hlists σ)).
  exists (put_list l new (setf hlists N' σ)). split; [|split; [|split]].
  - unfold pthread_insert_list. csteps.
    assert (Hgl : get_list l (setf hlists (<[new := setf handler h n0]> (hlists σ)) σ) =
      get_list l σ) by by destruct l.
    eapply evals_load_list; [by destruct l|]. rewrite Hgl. csteps. collapse.
    apply evals_unbind. eapply evals_store_list; [by destruct l|]. by csteps.
  - assert (HN : hlists (put_list l new (setf hlists N' σ)) = N') by by destruct l.
    rewrite HN. replace (get_list l _) with new by by destruct l.
    split; [done|]. split; [done|]. exists (mk_handler h (get_list l σ)).
    split; [apply lookup_insert_eq|]. by apply hchain_insert_notin.
  - assert (HN : hlists (put_list l new (setf hlists N' σ)) = N') by by destruct l.
    rewrite HN. unfold N'. cbn [handlers_of fmap list_fmap].
    rewrite lookup_insert_eq. simpl. f_equal. by apply handlers_of_insert_notin.
  - by apply put_list_frame.
Qed.

Lemma insert_null_spec p l new at_end σ :
  evals p (pthread_insert_list l NULL new at_end) σ (Done tt σ).
Proof. unfold pthread_insert_list. by csteps. Qed.

(** A chain whose last link is redirected to a new last node. *)
Lemma hchain_snoc N a l z new n nd :
  hchain N a (l ++ [z]) -> NoDup (l ++ [z]) -> new ∉ l ++ [z] -> new <> NULL ->
  N !! z = Some n -> N !! new = Some nd -> hl_next nd = NULL ->
  hchain (<[z := setf hl_next new n]> N) a ((l ++ [z]) ++ [new]).
Proof.
  revert a. induction l as [|x l IH]; intros a Hc Hnd Hin Hnew Hz Hd Hnn; simpl in *.
  - destruct Hc as (-> & Hzn & n' & Hn' & _). simplify_eq. split; [done|]. split; [done|].
    eexists. split; [apply lookup_insert_eq|]. fields. split; [done|]. split; [done|].
    exists nd. split; [|done]. rewrite lookup_insert_ne; [done | set_solver].
  - destruct Hc as (-> & Hxn & n' & Hn' & Hc). apply NoDup_cons in Hnd as [Hx Hnd].
    split; [done|]. split; [done|]. exists n'.
    rewrite lookup_insert_ne by set_solver. split; [done|]. apply IH; try done. set_solver.
Qed.

(** At the end: the new node is the last. *)
Lemma insert_end_spec p l h new n0 ns σ :
  is_head l -> h <> NULL -> new <> NULL -> hlists σ !! new = Some n0 -> new ∉ ns -> NoDup ns ->
  hchain (hlists σ) (get_list l σ) ns ->
  exists σ', evals p (pthread_insert_list l h new 1) σ (Done tt σ') /\
    hchain (hlists σ') (get_list l σ') (ns ++ [new]) /\
    handlers_of (hlists σ') (ns ++ [new]) = handlers_of (hlists σ) ns ++ [h] /\
    list_frame l (new :: ns) σ σ'.
Proof.
  intros Hh Hn Hnew Hnode Hin Hnd Hc.
  destruct (last ns) as [z|] eqn:Hlast.
  - apply last_Some in Hlast as [ns' ->].
    assert (exists nz, hlists σ !! z = Some nz /\ hl_next nz = NULL) as (nz & Hz & Hznull).
    { clear -Hc. revert Hc. generalize (get_list l σ) as a.
      induction ns' as [|y ns' IH]; simpl; intros a; [naive_solver|].
      intros (_ & _ & n & _ & Hc). eauto. }
    assert (Hzn : z <> new) by set_solver.
    set (N1 := <[new := mk_handler h NULL]> (hlists σ)).
    exists (setf hlists (<[z := setf hl_next new nz]> N1) σ). split; [|split; [|split]].
    + unfold pthread_insert_list. csteps.
      eapply evals_bind; [by apply (list_end_spec p l (ns' ++ [z])); [destruct l|]|].
      unfold last_link. rewrite last_snoc. csteps. unfold load_list, store_list. csteps.
      rewrite Hznull. csteps. collapse. unfold N1. done.
    + assert (Hgl : get_list l (setf hlists (<[z := setf hl_next new nz]> N1) σ) = get_list l σ)
        by by destruct l.
      rewrite Hgl.
      apply (hchain_snoc N1 _ ns' z new nz (mk_handler h NULL)); [|done..| | |done].
      * by apply hchain_insert_notin.
      * unfold N1. by rewrite lookup_insert_ne.
      * apply lookup_insert_eq.
    + fields. unfold handlers_of at 1. rewrite fmap_app. fold (handlers_of
        (<[z := setf hl_next new nz]> N1) (ns' ++ [z])). f_equal.
      * apply handlers_of_ext. intros x Hx. unfold N1. rewrite !lookup_insert.
        repeat case_decide; subst; [by rewrite Hz | set_solver | done].
      * simpl. unfold N1. by rewrite lookup_insert_ne, lookup_insert_eq.
    + constructor; try done; [by intros []|]. intros x Hx. fields. unfold N1.
      rewrite !lookup_insert_ne; [done | set_solver..].
  - apply last_None in Hlast as ->. simpl in Hc.
    exists (put_list l new (setf hlists (<[new := mk_handler h NULL]> (hlists σ)) σ)).
    split; [|split; [|split]].
    + unfold pthread_insert_list. csteps.
      eapply evals_bind; [by apply (list_end_spec p l []); [destruct l|]|].
      unfold last_link. simpl. csteps.
      assert (Hgl : get_list l (setf hlists (<[new := setf handler h n0]> (hlists σ)) σ) = NULL)
        by (rewrite <- Hc; by destruct l).
      eapply evals_load_list; [by destruct l|]. rewrite Hgl. csteps. collapse.
      apply evals_unbind. eapply evals_store_list; [by destruct l|]. by csteps.
    + replace (get_list l _) with new by by destruct l.
      replace (hlists _) with (<[new := mk_handler h NULL]> (hlists σ)) by by destruct l.
      split; [done|]. split; [done|]. eexists. split; [apply lookup_insert_eq | done].
    + replace (hlists _) with (<[new := mk_handler h NULL]> (hlists σ)) by by destruct l.
      simpl. by rewrite lookup_insert_eq.
    + by apply put_list_frame.
Qed.

(** Calls that leave the nodes alone, in the order of the list. *)
Inductive handlers_run (p : pid_t) : list addr -> state -> state -> Prop :=
| hrun_nil σ : handlers_run p [] σ σ
| hrun_cons f l z σ σ1 σ2 :
    evals p (call_fn f 0) σ (Done z σ1) -> hlists σ1 = hlists σ ->
    handlers_run p l σ1 σ2 -> handlers_run p (f :: l) σ σ2.

Lemma call_handlers_spec p a ns σ σ' :
  hchain (hlists σ) a ns -> handlers_run p (handlers_of (hlists σ) ns) σ σ' ->
  evals p (pthread_call_handlers a) σ (Done tt σ').
Proof.
  revert a σ. induction ns as [|x ns IH]; intros a σ Hc Hrun; simpl in Hc.
  - inversion Hrun; subst. eapply evals_loop_stop. unfold call_handlers_body. by csteps.
  - destruct Hc as (-> & Hx & n & Hn & Hc). simpl in Hrun. rewrite Hn in Hrun. simpl in Hrun.
    inversion Hrun as [|f l z σ0 σ1 σ2 Hf Hh Hrest]; subst.
    eapply evals_loop_next; [|apply (IH (hl_next n) σ1); [by rewrite Hh | ]].
    + unfold call_handlers_body. csteps. eapply evals_bind; [exact Hf|].
      rewrite <- Hh in Hn. by csteps.
    + rewrite Hh. exact Hrest.
Qed.

(** ** The theorems *)

(** The list [l] holds the handlers [hs], in the nodes [ns]. *)
Record hlist_rep (σ : state) (l : listptr) (ns hs : list addr) : Prop := {
  hr_chain : hchain (hlists σ) (get_list l σ) ns;
  hr_handlers : handlers_of (hlists σ) ns = hs;
  hr_nodup : NoDup ns
}.

Lemma hchain_ext N N' a l :
  (forall x, x ∈ l -> N' !! x = N !! x) -> hchain N a l -> hchain N' a l.
Proof.
  revert a. induction l as [|x l IH]; intros a Hx; [done|]. simpl.
  intros (-> & Hn & n & Hl & Hc). split; [done|]. split; [done|]. exists n.
  split; [rewrite Hx; [done | left]|]. apply IH; [|done]. intros y Hy. apply Hx. by right.
Qed.

Lemma hlist_rep_ext σ σ' l ns hs :
  get_list l σ' = get_list l σ -> (forall x, x ∈ ns -> hlists σ' !! x = hlists σ !! x) ->
  hlist_rep σ l ns hs -> hlist_rep σ' l ns hs.
Proof.
  intros Hg Hn [Hc Hh Hnd]. constructor; [|rewrite <- Hh|done].
  - rewrite Hg. by eapply hchain_ext.
  - apply handlers_of_ext. intros x Hx. by rewrite Hn.
Qed.

Lemma hlist_rep_frame σ σ' l l' ns ns' hs :
  list_frame l ns' σ σ' -> is_head l' -> l' <> l -> (forall x, x ∈ ns -> x ∉ ns') ->
  hlist_rep σ l' ns hs -> hlist_rep σ' l' ns hs.
Proof.
  intros F Hh Hne Hd. apply hlist_rep_ext; [by apply F|]. intros x Hx. apply F. by apply Hd.
Qed.

Lemma insert_front_rep p l h new n0 ns hs σ :
  is_head l -> h <> NULL -> new <> NULL -> hlists σ !! new = Some n0 -> new ∉ ns ->
  hlist_rep σ l ns hs ->
  exists σ', evals p (pthread_insert_list l h new 0) σ (Done tt σ') /\
    hlist_rep σ' l (new :: ns) (h :: hs) /\ list_frame l (new :: ns) σ σ'.
Proof.
  intros Hl Hh Hn Hnode Hni [Hc Hhs Hnd].
  destruct (insert_front_spec p l h new n0 ns σ) as (σ' & E & C & D & F); try done.
  exists σ'. split; [done|]. split; [|done]. rewrite Hhs in D. constructor; [done | done |].
  by apply NoDup_cons.
Qed.

Lemma insert_end_rep p l h new n0 ns hs σ :
  is_head l -> h <> NULL -> new <> NULL -> hlists σ !! new = Some n0 -> new ∉ ns ->
  hlist_rep σ l ns hs ->
  exists σ', evals p (pthread_insert_list l h new 1) σ (Done tt σ') /\
    hlist_rep σ' l (ns ++ [new]) (hs ++ [h]) /\ list_frame l (new :: ns) σ σ'.
Proof.
  intros Hl Hh Hn Hnode Hni [Hc Hhs Hnd].
  destruct (insert_end_spec p l h new n0 ns σ) as (σ' & E & C & D & F); try done.
  exists σ'. split; [done|]. split; [|done]. rewrite Hhs in D. constructor; [done | done |].
  apply NoDup_app. split; [done|]. split; [set_solver | apply NoDup_singleton].
Qed.

(** The three lists of handlers use different nodes. *)
Record atfork_rep (σ : state) (npre npar nchi hpre hpar hchi : list addr) : Prop := {
  af_prepare : hlist_rep σ glb_prepare npre hpre;
  af_parent : hlist_rep σ glb_parent npar hpar;
  af_child : hlist_rep σ glb_child nchi hchi;
  af_disjoint : NoDup (npre ++ npar ++ nchi)
}.

(** The nodes of a new block. *)
Definition block_nodes (b : addr) : list addr := [block_prepare b; block_parent b; block_child b].

Definition block_made (b : addr) (env : list Z) (σ : state) : state :=
  setf hlists (<[block_prepare b := mk_handler 0 0]> (<[block_parent b := mk_handler 0 0]>
    (<[block_child b := mk_handler 0 0]> (hlists σ)))) (upd_krn (setf envt env) σ).

Lemma block_nodes_distinct b : 0 < b -> NoDup (NULL :: block_nodes b).
Proof.
  intros Hb. pose proof long_bits_wide. pose proof (Z.div_mod long_bits 8).
  pose proof (Z.mod_pos_bound long_bits 8).
  assert (0 < sizeof_handler_list) by (unfold sizeof_handler_list; lia).
  unfold block_nodes, block_prepare, block_parent, block_child, NULL.
  repeat (apply NoDup_cons; split); [..|apply NoDup_nil_2];
    rewrite ?elem_of_cons, elem_of_nil; lia.
Qed.

Lemma block_made_node b env σ x :
  x ∈ block_nodes b -> hlists (block_made b env σ) !! x = Some (mk_handler 0 0).
Proof.
  unfold block_made, block_nodes. fields. intros Hx. rewrite !lookup_insert.
  repeat case_decide; try done. set_solver.
Qed.

Lemma block_made_rep b env l ns hs σ :
  (forall x, x ∈ ns -> x ∉ block_nodes b) -> is_head l ->
  hlist_rep σ l ns hs -> hlist_rep (block_made b env σ) l ns hs.
Proof.
  intros Hd Hl. apply hlist_rep_ext; [by destruct l|]. intros x Hx. specialize (Hd x Hx).
  unfold block_made, block_nodes in *. fields. rewrite !lookup_insert_ne by set_solver. done.
Qed.

Lemma evals_malloc_block {A} b env (k : addr -> itree evt A) p J σ r :
  envt (krn σ) = b :: env -> b <> NULL ->
  evals p (k b) (block_made b env σ) r -> evalsJ p (ITree.bind malloc_block k) J σ r.
Proof.
  intros He Hb Hk. unfold malloc_block. apply evals_assoc. eapply evals_ask; [exact He|].
  csteps. by apply evalsJ_empty.
Qed.

Lemma nodup_three (a b c : list addr) x y z :
  NoDup (a ++ b ++ c) -> NoDup [x; y; z] -> (forall u, u ∈ a ++ b ++ c -> u ∉ [x; y; z]) ->
  NoDup ((x :: a) ++ (b ++ [y]) ++ c ++ [z]).
Proof.
  intros H1 H2 H3. assert (Hp : (x :: a) ++ (b ++ [y]) ++ c ++ [z] ≡ₚ [x; y; z] ++ a ++ b ++ c)
    by solve_Permutation.
  rewrite Hp. apply NoDup_app. split; [done|]. split; [|done]. intros u Hu Hu'. by apply (H3 u).
Qed.

(** The three insertions, into lists that use other nodes. *)
Lemma insert_three p prepare parent child bp bq bc npre npar nchi hpre hpar hchi nd σ :
  prepare <> NULL -> parent <> NULL -> child <> NULL -> NoDup [NULL; bp; bq; bc] ->
  (forall x, x ∈ npre ++ npar ++ nchi -> x ∉ [bp; bq; bc]) ->
  (forall x, x ∈ [bp; bq; bc] -> hlists σ !! x = Some nd) ->
  atfork_rep σ npre npar nchi hpre hpar hchi ->
  exists σ2 σ3 σ4, evals p (pthread_insert_list glb_prepare prepare bp 0) σ (Done tt σ2) /\
    evals p (pthread_insert_list glb_parent parent bq 1) σ2 (Done tt σ3) /\
    evals p (pthread_insert_list glb_child child bc 1) σ3 (Done tt σ4) /\
    atfork_rep σ4 (bp :: npre) (npar ++ [bq]) (nchi ++ [bc])
      (prepare :: hpre) (hpar ++ [parent]) (hchi ++ [child]) /\
    mtx σ4 = mtx σ /\ thr σ4 = thr σ.
Proof.
  intros Hpre Hpar Hchi Hbn Hfresh Hn1 [Rp Rq Rc Hd].
  assert (Hdis : (forall x, x ∈ npre -> x ∉ npar) /\ (forall x, x ∈ npre -> x ∉ nchi) /\
                 (forall x, x ∈ npar -> x ∉ nchi)).
  { apply NoDup_app in Hd as (_ & D1 & (_ & D2 & _)%NoDup_app). split; [|split]; set_solver. }
  destruct Hdis as (Dpq & Dpc & Dqc).
  destruct (insert_front_rep p glb_prepare prepare bp nd npre hpre σ)
    as (σ2 & E2 & R2 & F2); [done | done | list_solver | by apply Hn1; left | set_solver | done |].
  destruct (insert_end_rep p glb_parent parent bq nd npar hpar σ2)
    as (σ3 & E3 & R3 & F3); [done | done | list_solver | | set_solver | |].
  { rewrite (lf_nodes _ _ _ _ F2); [apply Hn1; set_solver | list_solver]. }
  { eapply hlist_rep_frame; [exact F2 | done | done | set_solver | done]. }
  destruct (insert_end_rep p glb_child child bc nd nchi hchi σ3)
    as (σ4 & E4 & R4 & F4); [done | done | list_solver | | set_solver | |].
  { rewrite (lf_nodes _ _ _ _ F3), (lf_nodes _ _ _ _ F2); [apply Hn1; set_solver | list_solver..]. }
  { eapply hlist_rep_frame; [exact F3 | done | done | set_solver |].
    eapply hlist_rep_frame; [exact F2 | done | done | set_solver | done]. }
  exists σ2, σ3, σ4. do 3 (split; [done|]). split; [|split].
  - constructor; [| |done|].
    + eapply hlist_rep_frame; [exact F4 | done | done | list_solver |].
      eapply hlist_rep_frame; [exact F3 | done | done | list_solver | done].
    + eapply hlist_rep_frame; [exact F4 | done | done | list_solver | done].
    + apply nodup_three; [done | by apply NoDup_cons in Hbn as [] | done].
  - by rewrite (lf_mtx _ _ _ _ F4), (lf_mtx _ _ _ _ F3), (lf_mtx _ _ _ _ F2).
  - by rewrite (lf_thr _ _ _ _ F4), (lf_thr _ _ _ _ F3), (lf_thr _ _ _ _ F2).
Qed.

Lemma atfork_rep_lock m mu σ a b c d e f :
  atfork_rep σ a b c d e f -> atfork_rep (put_mutex m mu σ) a b c d e f.
Proof. intros [[] [] [] Hd]. by repeat constructor. Qed.

(** [pthread_atfork] registers its three handlers: the prepare handler in
    front of the ones registered before, the parent and the child handler
    behind them, so that [fork] calls the first in reverse order of
    registration and the others in that order. *)
Theorem atfork_correct p prepare parent child b env o npre npar nchi hpre hpar hchi σ :
  prepare <> NULL -> parent <> NULL -> child <> NULL ->
  envt (krn σ) = b :: env -> 0 < b ->
  (forall x, x ∈ npre ++ npar ++ nchi -> x ∉ block_nodes b) ->
  mtx σ !! addr_atfork_lock = Some (fast_mutex 0 o) ->
  atfork_rep σ npre npar nchi hpre hpar hchi ->
  exists σ', evals p (pthread_atfork prepare parent child) σ (Done 0 σ') /\
    atfork_rep σ' (block_prepare b :: npre) (npar ++ [block_parent b]) (nchi ++ [block_child b])
      (prepare :: hpre) (hpar ++ [parent]) (hchi ++ [child]) /\
    mtx σ' = mtx σ /\ thr σ' = thr σ.
Proof.
  intros Hpre Hpar Hchi He Hb Hfresh Hm [Rp Rq Rc Hd].
  pose proof (block_nodes_distinct b Hb) as Hbn.
  set (σ1 := put_mutex addr_atfork_lock (fast_mutex 1 o) (block_made b env σ)).
  assert (Hrep : atfork_rep σ1 npre npar nchi hpre hpar hchi).
  { apply atfork_rep_lock. constructor; [apply block_made_rep; [set_solver | done | done].. | done]. }
  destruct (insert_three p prepare parent child (block_prepare b) (block_parent b) (block_child b)
              npre npar nchi hpre hpar hchi (mk_handler 0 0) σ1)
    as (σ2 & σ3 & σ4 & E2 & E3 & E4 & R4 & M4 & T4); try done.
  { intros x Hx. by apply (block_made_node b env σ). }
  exists (put_mutex addr_atfork_lock (fast_mutex 0 o) σ4). split; [|split; [|split]].
  - unfold pthread_atfork. eapply evals_malloc_block; [exact He | unfold NULL; lia|].
    csteps. eapply evals_fast_lock; [exact Hm|].
    eapply evals_bind; [exact E2|]. eapply evals_bind; [exact E3|]. eapply evals_bind; [exact E4|].
    eapply (evals_fast_unlock addr_atfork_lock 1 o); [|by csteps].
    rewrite M4. apply lookup_insert_eq.
  - by apply atfork_rep_lock.
  - unfold put_mutex. fields. rewrite M4. unfold σ1, put_mutex. fields.
    rewrite insert_insert_eq. by apply insert_id.
  - exact T4.
Qed.

Lemma handlers_run_hlists p l σ σ' : handlers_run p l σ σ' -> hlists σ' = hlists σ.
Proof. induction 1; congruence. Qed.

(** Up to [__fork], [fork] runs the prepare handlers; then it goes on as
    [after_fork], in the parent and in the child. *)
Lemma fork_prepares p fr pid env o npre npar nchi hpre hpar hchi σ σ1 r :
  mtx σ !! addr_atfork_lock = Some (fast_mutex 0 o) ->
  atfork_rep σ npre npar nchi hpre hpar hchi ->
  handlers_run p hpre σ σ1 -> envt (krn σ1) = pid :: env ->
  evals p (after_fork fr (pthread_atfork_child (glb σ)) (pthread_atfork_parent (glb σ)) pid)
    (upd_krn (setf envt env) σ1) r ->
  evals p (fork fr) σ r.
Proof.
  intros Hm [[Cp Hp _] _ _ _] R1 He Hk.
  unfold fork. eapply evals_fast_lock; [exact Hm|]. csteps.
  eapply (evals_fast_unlock addr_atfork_lock 1 o); [apply lookup_insert_eq|].
  rewrite put_fast_mutex_back by done.
  eapply evals_bind; [eapply (call_handlers_spec p _ npre); [exact Cp | by rewrite Hp]|].
  eapply evals_ask; [exact He | exact Hk].
Qed.

(** C29: [fork] in the parent process calls all prepare handlers, then makes the
    child, then calls all parent handlers, each list in its order, and
    returns the number of the child. *)
Theorem fork_parent_correct p fresetlockfiles pid env o npre npar nchi hpre hpar hchi σ σ1 σ2 :
  mtx σ !! addr_atfork_lock = Some (fast_mutex 0 o) ->
  atfork_rep σ npre npar nchi hpre hpar hchi -> pid <> 0 ->
  handlers_run p hpre σ σ1 -> envt (krn σ1) = pid :: env ->
  handlers_run p hpar (upd_krn (setf envt env) σ1) σ2 ->
  evals p (fork fresetlockfiles) σ (Done pid σ2).
Proof.
  intros Hm Haf Hpid R1 He R2.
  pose proof (handlers_run_hlists _ _ _ _ R1) as Hh.
  eapply fork_prepares; [exact Hm | exact Haf | exact R1 | exact He|].
  destruct Haf as [_ [Cq Hq _] _ _]. unfold after_fork. csteps.
  eapply evals_bind; [|by csteps]. eapply (call_handlers_spec p _ npar); fields.
  - change (hlists (upd_krn (setf envt env) σ1)) with (hlists σ1). rewrite Hh. exact Cq.
  - change (hlists (upd_krn (setf envt env) σ1)) with (hlists σ1). rewrite Hh, Hq. exact R2.
Qed.

(** fork(2): the child, process [c], has a copy of the memory and of the
    calling process [p], no pending signals, and no other processes: of the
    threads only the calling one exists. *)
Definition forked (p c : pid_t) (σ : state) : state :=
  upd_krn (fun k => setf zombies [] (setf procs
    match procs k !! p with
    | Some pr => {[c := setf pr_ppid p (setf pr_pending ∅ pr)]}
    | None => ∅
    end k)) σ.

Lemma forked_runs p c self pr d σ :
  runs_thread p self pr d σ ->
  runs_thread c self (setf pr_ppid p (setf pr_pending ∅ pr)) d (forked p c σ).
Proof.
  intros [Hp Hs Hd]. constructor; [|exact Hs|exact Hd].
  unfold forked, upd_krn. fields. rewrite Hp. apply lookup_singleton_eq.
Qed.

(** The child of [fork]. *)
Lemma after_fork_child c self pr d fr child parent ns hs σ σ1 σ2 :
  runs_thread c self pr d σ ->
  evals c fr (main_reset c self d σ) (Done tt σ1) ->
  hchain (hlists σ1) child ns -> handlers_of (hlists σ1) ns = hs ->
  handlers_run c hs σ1 σ2 ->
  evals c (after_fork fr child parent 0) σ (Done 0 σ2).
Proof.
  intros Hrt Hfr Hc <- R. unfold after_fork. cbn [Z.eqb]. csteps.
  eapply evals_bind; [by eapply reset_main_spec|].
  eapply evals_bind; [|by csteps].
  eapply evals_bind; [exact Hfr | by eapply call_handlers_spec].
Qed.
End specs.
