(* ===== verification/Wrappers.v ===== *)
(** * Interfaces to the C library: lockfile.c, errno.c, libc-lock.h,
    stdio-lock.h *)

From S2P Require Import Prelude Types Machine MachineFacts Platform Memory Spinlock Queue.
From S2P Require Import Restart Mutex Cleanup Specific Join Cancel Manager PThread Fork.

Section wrappers.
Context {P : Platform} {U : UserCode}.

(** errno.c: the locations are fields of the descriptor. *)
Inductive errnoptr :=
| p_errno_at (th : addr)
| p_h_errno_at (th : addr).

Definition __errno_location : itree evt errnoptr :=
  self <- thread_self ;;
  Ret (p_errno_at self).

Definition __h_errno_location : itree evt errnoptr :=
  self <- thread_self ;;
  Ret (p_h_errno_at self).

(** lockfile.c, compiled with USE_IN_LIBIO, as in a C library whose streams have
    locks; without it the functions of the file are empty.  A stream is the address
    of its lock. *)
Definition __flockfile (lock : addr) : itree evt unit :=
  __pthread_mutex_lock lock ;; Ret tt.
Definition __funlockfile (lock : addr) : itree evt unit :=
  __pthread_mutex_unlock lock ;; Ret tt.
Definition __ftrylockfile (lock : addr) : itree evt Z :=
  __pthread_mutex_trylock lock.

(** An automatic variable of type [pthread_mutexattr_t]. *)
Definition auto_mutexattr : itree evt addr :=
  act (fun _ σ => let a := fresh ({[NULL]} ∪ dom (mattrs σ)) in
                  Some (a, setf mattrs (<[a := mk_mutexattr 0]> (mattrs σ)) σ)).
Definition auto_mutexattr_end (a : addr) : itree evt unit :=
  act (fun _ σ => Some (tt, setf mattrs (delete a (mattrs σ)) σ)).

(** [_IO_list_all], given as the list of the locks of the open streams. *)
Fixpoint reset_locks (locks : list addr) (attr : addr) : itree evt unit :=
  match locks with
  | [] => Ret tt
  | l :: ls => __pthread_mutex_init l attr ;; reset_locks ls attr
  end.

Definition __fresetlockfiles (_IO_list_all : list addr) : itree evt unit :=
  attr <- auto_mutexattr ;;
  __pthread_mutexattr_init attr ;;
  __pthread_mutexattr_setkind_np attr PTHREAD_MUTEX_RECURSIVE_NP ;;
  reset_locks _IO_list_all attr ;;
  __pthread_mutexattr_destroy attr ;;
  auto_mutexattr_end attr.

(** libc-lock.h, in a program linked with the library *)
Definition __libc_lock_init (name : addr) : itree evt Z := __pthread_mutex_init name NULL.

Definition __libc_lock_init_recursive (name : addr) : itree evt unit :=
  attr <- auto_mutexattr ;;
  __pthread_mutexattr_init attr ;;
  __pthread_mutexattr_setkind_np attr PTHREAD_MUTEX_RECURSIVE_NP ;;
  __pthread_mutex_init name attr ;;
  __pthread_mutexattr_destroy attr ;;
  auto_mutexattr_end attr.

Definition __libc_lock_fini : addr -> itree evt Z := __pthread_mutex_destroy.
Definition __libc_lock_lock : addr -> itree evt Z := __pthread_mutex_lock.
Definition __libc_lock_trylock : addr -> itree evt Z := __pthread_mutex_trylock.
Definition __libc_lock_unlock : addr -> itree evt Z := __pthread_mutex_unlock.

(** The region between __libc_cleanup_region_start and
    __libc_cleanup_region_end, around [body]; [buffer] is the cleanup
    buffer of the block. *)
Definition libc_cleanup_region (buffer fct arg doit : Z) (body : itree evt unit)
    : itree evt unit :=
  _pthread_cleanup_push_defer buffer fct arg ;;
  body ;;
  _pthread_cleanup_pop_restore buffer doit.
End wrappers.

(** ** Specifications *)

Section specs.
Context {H : Handlers} {P : Platform} {Pok : PlatformOk P} {U : UserCode}
  {Hr : RestartHandler H P} {Hch : CancelHandler H P U}.

(** A region with deferred cancellation leaves the stack of handlers and the
    cancellation type as it found them. *)
Lemma cleanup_region_spec p self pr d b0 buffer f a body σ σ1 d1 :
  runs_thread p self pr d σ -> bufs σ !! buffer = Some b0 ->
  let b := mk_cleanup f a (p_canceltype d) (p_cleanup d) in
  evals p body (put_thr self
      (setf p_cleanup buffer (setf p_canceltype PTHREAD_CANCEL_DEFERRED d))
      (setf bufs (<[buffer := b]> (bufs σ)) σ)) (Done tt σ1) ->
  bufs σ1 !! buffer = Some b -> runs_thread p self pr d1 σ1 -> to_cancel d1 = false ->
  evals p (libc_cleanup_region buffer f a 0 body) σ
    (Done tt (put_thr self
      (setf p_canceltype (p_canceltype d) (setf p_cleanup (p_cleanup d) d1)) σ1)).
Proof.
  intros Hrt Hb b Hbody Hb1 Hrt1 Hc1. unfold libc_cleanup_region.
  eapply evals_bind; [by eapply push_defer_spec|]. eapply evals_bind; [exact Hbody|].
  eapply (pop_restore_spec p self pr d1 b); [done | done | by left].
Qed.

(** *** The locks of the streams *)

(** All of them free recursive mutexes. *)
Definition locks_reset (locks : list addr) (σ : state) : state :=
  foldl (fun σ l => put_mutex l PTHREAD_RECURSIVE_MUTEX_INITIALIZER_NP σ) σ locks.

Lemma locks_reset_mtx locks σ :
  locks_reset locks σ = setf mtx (mtx (locks_reset locks σ)) σ.
Proof.
  revert σ. induction locks as [|l ls IH]; intros σ; simpl; [by destruct σ|]. by rewrite IH.
Qed.

Lemma locks_reset_mattrs locks M σ :
  locks_reset locks (setf mattrs M σ) = setf mattrs M (locks_reset locks σ).
Proof. revert σ. induction locks as [|l ls IH]; intros σ; [done|]. simpl. by rewrite <- IH. Qed.

Lemma locks_reset_lookup locks σ x :
  mtx (locks_reset locks σ) !! x =
  if bool_decide (x ∈ locks) then Some PTHREAD_RECURSIVE_MUTEX_INITIALIZER_NP else mtx σ !! x.
Proof.
  revert σ. induction locks as [|l ls IH]; intros σ; simpl; [done|].
  rewrite IH. unfold put_mutex. fields. rewrite lookup_insert.
  repeat case_bool_decide; try case_decide; try done; set_solver.
Qed.

Lemma reset_locks_spec p locks a σ :
  a <> NULL -> mattrs σ !! a = Some (mk_mutexattr PTHREAD_MUTEX_RECURSIVE_NP) ->
  (forall l, l ∈ locks -> is_Some (mtx σ !! l)) ->
  evals p (reset_locks locks a) σ (Done tt (locks_reset locks σ)).
Proof.
  intros Ha. revert σ. induction locks as [|l ls IH]; intros σ Hat Hl; [apply evals_ret|].
  destruct (Hl l) as [mu Hmu]; [left|]. simpl.
  eapply evals_bind; [apply (mutex_init_spec p l a mu σ PTHREAD_MUTEX_RECURSIVE_NP);
    [done | right; split; [done | by rewrite Hat]]|].
  apply IH; [exact Hat|]. intros x Hx. unfold put_mutex. fields. rewrite lookup_insert.
  case_decide; [done|]. apply Hl. by right.
Qed.

(** [__fresetlockfiles] makes the lock of every open stream a free recursive
    mutex, whoever held it, and changes nothing else. *)
Lemma fresetlockfiles_spec p locks σ :
  (forall l, l ∈ locks -> is_Some (mtx σ !! l)) ->
  evals p (__fresetlockfiles locks) σ (Done tt (locks_reset locks σ)).
Proof.
  intros Hl. unfold __fresetlockfiles, auto_mutexattr, auto_mutexattr_end. csteps.
  set (a := fresh _).
  assert (Ha : a ∉ {[NULL]} ∪ dom (mattrs σ)) by apply is_fresh.
  assert (Hn : mattrs σ !! a = None) by (apply not_elem_of_dom; set_solver).
  unfold __pthread_mutexattr_init, __pthread_mutexattr_destroy. csteps.
  eapply evals_bind;
    [eapply (mutexattr_setkind_spec p a PTHREAD_MUTEX_RECURSIVE_NP); apply lookup_insert_eq|].
  fields. rewrite !insert_insert_eq.
  eapply evals_bind; [apply reset_locks_spec; [set_solver | apply lookup_insert_eq | exact Hl]|].
  csteps. rewrite !locks_reset_mattrs. fields. rewrite delete_insert_id by done.
  rewrite (locks_reset_mtx locks σ). by destruct σ.
Qed.

(** C30: [fork] in the child process, [c]: of the threads of the parent only
    the one that called [fork] exists, with the same descriptor; it is the main
    thread and there is no manager.  The locks of the streams are free,
    whichever thread of the parent held them.  Then all child handlers are
    called, in their order, and [fork] returns 0. *)
Theorem fork_child_correct p c self pr d locks o npre npar nchi hpre hpar hchi σ σ1 σ2 :
  mtx σ !! addr_atfork_lock = Some (fast_mutex 0 o) ->
  atfork_rep σ npre npar nchi hpre hpar hchi ->
  handlers_run p hpre σ σ1 -> runs_thread p self pr d σ1 -> self <> addr_manager_thread ->
  (forall l, l ∈ locks -> is_Some (mtx σ1 !! l)) ->
  let σc := locks_reset locks (main_reset c self d (forked p c σ1)) in
  handlers_run c hchi σc σ2 ->
  let rest := after_fork (__fresetlockfiles locks)
                (pthread_atfork_child (glb σ)) (pthread_atfork_parent (glb σ)) in
  (forall pid env r, envt (krn σ1) = pid :: env ->
     evals p (rest pid) (upd_krn (setf envt env) σ1) r ->
     evals p (fork (__fresetlockfiles locks)) σ r) /\
  evals c (rest 0) (forked p c σ1) (Done 0 σ2) /\
  __pthread_main_thread (glb σc) = self /\ __pthread_manager_request (glb σc) = -1 /\
  runs_thread c self (setf pr_ppid p (setf pr_pending ∅ pr))
    (setf p_nextlive self (setf p_pid c d)) σc /\
  dom (procs (krn σc)) = {[c]} /\
  forall l, l ∈ locks -> mutex_rep σc l (mk_mutex_st PTHREAD_MUTEX_RECURSIVE_NP 0 NULL []).
Proof.
  intros Hm Haf R1 Hrt Hmt Hl σc R2 rest.
  pose proof (handlers_run_hlists _ _ _ _ R1) as Hh.
  pose proof (forked_runs p c self pr d σ1 Hrt) as Hrt'.
  assert (Eσc : σc = setf mtx (mtx σc) (main_reset c self d (forked p c σ1)))
    by apply locks_reset_mtx.
  assert (Hhc : hlists σc = hlists σ) by (rewrite Eσc; exact Hh).
  split; [intros pid env r He; by eapply fork_prepares|]. split; [|split; [|split; [|split; [|split]]]].
  - destruct Haf as [_ _ [Cq Hq _] _].
    eapply after_fork_child; [exact Hrt' | by apply fresetlockfiles_spec | | | exact R2];
      fold σc; rewrite Hhc; [exact Cq | exact Hq].
  - by rewrite Eσc.
  - by rewrite Eσc.
  - rewrite Eσc. destruct Hrt' as [Hp Hs Hd].
    constructor; [exact Hp | | apply lookup_insert_eq].
    by apply (thread_self_no_manager (glb σ1)).
  - rewrite Eσc. destruct Hrt as [Hp _ _]. simpl. rewrite Hp. apply dom_singleton_L.
  - intros l Hin. constructor. exists (mk_queue NULL NULL).
    unfold σc. rewrite locks_reset_lookup, bool_decide_eq_true_2 by done.
    split; [done | apply queue_rep_nil].
Qed.
End specs.
