(* ===== verification/Weaks.v ===== *)
(** * The functions of programs without threads (weaks.c)

    The C library defines many functions of this library as weak aliases of
    functions that do nothing but return a constant.  A program that is not
    linked with the library gets these.  [weak] is the table of the aliases,
    [library] the same table with the functions of the library; the theorem
    compares them in a program with one thread. *)

From S2P Require Import Prelude Types Machine MachineFacts Platform Memory Queue Spinlock Restart.
From S2P Require Import Mutex Join Cancel Cond Attr PThread.

Module Weak.

(** ** Data and operations *)

Definition __pthread_return_0 : itree evt Z := Ret 0.
Definition __pthread_return_1 : itree evt Z := Ret 1.
Definition __pthread_return_void : itree evt unit := Ret tt.

(** [pthread_exit]; [exit] is the function of the C library. *)
Definition weak_pthread_exit {X} (exit : Z -> itree evt X) (retval : Z) : itree evt X := exit 0.

(** A call of a function that has a weak definition. *)
Inductive call :=
| attr_init (attr : addr)
| attr_destroy (attr : addr)
| attr_setdetachstate (attr : addr) (v : Z)
| attr_getdetachstate (attr v : addr)
| attr_setschedparam (attr : addr) (param : Z)
| attr_getschedparam (attr param : addr)
| attr_setschedpolicy (attr : addr) (v : Z)
| attr_getschedpolicy (attr v : addr)
| attr_setinheritsched (attr : addr) (v : Z)
| attr_getinheritsched (attr v : addr)
| attr_setscope (attr : addr) (v : Z)
| attr_getscope (attr v : addr)
| mutex_init (m attr : addr)
| mutex_destroy (m : addr)
| mutex_lock (m : addr)
| mutex_unlock (m : addr)
| mutexattr_setkind_np (attr : addr) (kind : Z)
| mutexattr_getkind_np (attr kind : addr)
| condattr_init (attr : addr)
| condattr_destroy (attr : addr)
| setschedparam (thread : addr) (policy param : Z)
| getschedparam (thread policy param : addr)
| setcancelstate (v : Z) (old : addr)
| setcanceltype (v : Z) (old : addr)
| self
| cond_init (c attr : addr)
| cond_destroy (c : addr)
| cond_wait (c m : addr)
| cond_signal (c : addr)
| cond_broadcast (c : addr)
| equal (thread1 thread2 : addr).

(** The aliases. *)
Definition weak (c : call) : itree evt Z :=
  match c with
  | attr_init _ => __pthread_return_0
  | attr_destroy _ => __pthread_return_0
  | attr_setdetachstate _ _ => __pthread_return_0
  | attr_getdetachstate _ _ => __pthread_return_0
  | attr_setschedparam _ _ => __pthread_return_0
  | attr_getschedparam _ _ => __pthread_return_0
  | attr_setschedpolicy _ _ => __pthread_return_0
  | attr_getschedpolicy _ _ => __pthread_return_0
  | attr_setinheritsched _ _ => __pthread_return_0
  | attr_getinheritsched _ _ => __pthread_return_0
  | attr_setscope _ _ => __pthread_return_0
  | attr_getscope _ _ => __pthread_return_0
  | mutex_init _ _ => __pthread_return_0
  | mutex_destroy _ => __pthread_return_0
  | mutex_lock _ => __pthread_return_0
  | mutex_unlock _ => __pthread_return_0
  | mutexattr_setkind_np _ _ => __pthread_return_0
  | mutexattr_getkind_np _ _ => __pthread_return_0
  | condattr_init _ => __pthread_return_0
  | condattr_destroy _ => __pthread_return_0
  | setschedparam _ _ _ => __pthread_return_0
  | getschedparam _ _ _ => __pthread_return_0
  | setcancelstate _ _ => __pthread_return_0
  | setcanceltype _ _ => __pthread_return_0
  | self => __pthread_return_0
  | cond_init _ _ => __pthread_return_0
  | cond_destroy _ => __pthread_return_0
  | cond_wait _ _ => __pthread_return_0
  | cond_signal _ => __pthread_return_0
  | cond_broadcast _ => __pthread_return_0
  | equal _ _ => __pthread_return_1
  end.

Section library.
Context {P : Platform} {U : UserCode}.

(** The functions these names stand for in a program linked with the library. *)
Definition library (c : call) : itree evt Z :=
  match c with
  | attr_init a => pthread_attr_init a
  | attr_destroy a => pthread_attr_destroy a
  | attr_setdetachstate a v => pthread_attr_setdetachstate a v
  | attr_getdetachstate a v => pthread_attr_getdetachstate a v
  | attr_setschedparam a v => pthread_attr_setschedparam a v
  | attr_getschedparam a v => pthread_attr_getschedparam a v
  | attr_setschedpolicy a v => pthread_attr_setschedpolicy a v
  | attr_getschedpolicy a v => pthread_attr_getschedpolicy a v
  | attr_setinheritsched a v => pthread_attr_setinheritsched a v
  | attr_getinheritsched a v => pthread_attr_getinheritsched a v
  | attr_setscope a v => pthread_attr_setscope a v
  | attr_getscope a v => pthread_attr_getscope a v
  | mutex_init m a => __pthread_mutex_init m a
  | mutex_destroy m => __pthread_mutex_destroy m
  | mutex_lock m => __pthread_mutex_lock m
  | mutex_unlock m => __pthread_mutex_unlock m
  | mutexattr_setkind_np a k => __pthread_mutexattr_setkind_np a k
  | mutexattr_getkind_np a k => __pthread_mutexattr_getkind_np a k
  | condattr_init a => pthread_condattr_init a
  | condattr_destroy a => pthread_condattr_destroy a
  | setschedparam t pol par => pthread_setschedparam t pol par
  | getschedparam t pol par => pthread_getschedparam t pol par
  | setcancelstate v old => pthread_setcancelstate v old
  | setcanceltype v old => pthread_setcanceltype v old
  | self => pthread_self
  | cond_init c a => pthread_cond_init c a
  | cond_destroy c => pthread_cond_destroy c
  | cond_wait c m => pthread_cond_wait c m
  | cond_signal c => pthread_cond_signal c
  | cond_broadcast c => pthread_cond_broadcast c
  | equal t1 t2 => Ret (pthread_equal t1 t2)
  end.
End library.

(** A program that makes the calls [cs] in this order, with all their results. *)
Fixpoint results (f : call -> itree evt Z) (cs : list call) : itree evt (list Z) :=
  match cs with
  | [] => Ret []
  | c :: cs => r <- f c ;; rs <- results f cs ;; Ret (r :: rs)
  end.

(** ** A program with one thread

    The mutexes, attributes of mutexes (with the kind they ask for) and
    conditions it has, nobody waiting for any of them. *)
Record world := mk_world {
  w_mtx : gmap Z mutex_st;
  w_attr : gmap Z Z;
  w_cnd : gset Z
}.

Definition put_w (m : addr) (s : mutex_st) (w : world) : world :=
  mk_world (<[m := s]> (w_mtx w)) (w_attr w) (w_cnd w).

(** What the library does at a call: it returns what the weak function returns,
    or something else, or it waits ([None]). *)
Inductive verdict := same (w : world) | other (r : option Z).

(** The calls about mutexes and conditions, by the thread [me]; [None] for
    other calls, and for objects the program does not have. *)
Definition verdict_of (me : addr) (w : world) (c : call) : option verdict :=
  match c with
  | mutex_init m a =>
      s ← w_mtx w !! m;
      k ← (if a =? NULL then Some PTHREAD_MUTEX_FAST_NP else w_attr w !! a);
      Some (same (put_w m (mk_mutex_st k 0 NULL []) w))
  | mutex_destroy m =>
      s ← w_mtx w !! m; Some (if ms_count s >? 0 then other (Some EBUSY) else same w)
  | mutex_lock m =>
      s ← w_mtx w !! m;
      Some (match ms_take me s with Some s' => same (put_w m s' w) | None => other None end)
  | mutex_unlock m => s ← w_mtx w !! m; Some (same (put_w m (ms_drop s).1 w))
  | cond_init c _ | cond_destroy c | cond_signal c | cond_broadcast c =>
      if bool_decide (c ∈ w_cnd w) then Some (same w) else None
  | cond_wait c m =>
      if bool_decide (c ∈ w_cnd w) then s ← w_mtx w !! m; Some (other None) else None
  | condattr_init _ | condattr_destroy _ => Some (same w)
  | equal t1 t2 => Some (if t1 =? t2 then same w else other (Some 0))
  | _ => None
  end.

(** The calls of a program up to the first at which the two differ. *)
Inductive comparison := agree | differ (before : list call) (c : call) (r : option Z).

Fixpoint compare (me : addr) (w : world) (cs : list call) : option comparison :=
  match cs with
  | [] => Some agree
  | c :: cs =>
      v ← verdict_of me w c;
      match v with
      | other r => Some (differ [] c r)
      | same w' =>
          x ← compare me w' cs;
          Some (match x with agree => agree | differ b c' r => differ (c :: b) c' r end)
      end
  end.

(** A call about mutexes and conditions that exist. *)
Definition about_objects (w : world) (c : call) : bool :=
  let has m := bool_decide (is_Some (w_mtx w !! m)) in
  let hasc c := bool_decide (c ∈ w_cnd w) in
  match c with
  | mutex_init m a => has m && ((a =? NULL) || bool_decide (is_Some (w_attr w !! a)))
  | mutex_destroy m | mutex_lock m | mutex_unlock m => has m
  | cond_init c _ | cond_destroy c | cond_signal c | cond_broadcast c => hasc c
  | cond_wait c m => hasc c && has m
  | condattr_init _ | condattr_destroy _ | equal _ _ => true
  | _ => false
  end.

Record alone {P : Platform} (p : pid_t) (me : addr) (pr : proc) (d : _pthread) (w : world)
    (σ : state) : Prop := {
  al_thread : runs_thread p me pr d σ;
  al_mtx : forall m s, w_mtx w !! m = Some s ->
    mutex_rep σ m s /\ ms_valid s /\ ms_waiting s = [];
  al_attr : forall a k, w_attr w !! a = Some k -> a <> NULL /\
    mutexkind <$> mattrs σ !! a = Some k /\ (k = PTHREAD_MUTEX_FAST_NP \/ k = PTHREAD_MUTEX_RECURSIVE_NP);
  al_cnd : forall c, c ∈ w_cnd w -> cond_rep σ c []
}.

(** The thread waits for nothing, no signal is pending that would end a wait,
    and it has not been canceled. *)
Record ready (me : addr) (pr : proc) (d : _pthread) : Prop := {
  rd_null : me <> NULL;
  rd_next : p_nextwaiting d = NULL;
  rd_cancel : to_cancel d = false;
  rd_quiet : pick_signal (pr_pending pr) (sigdelset (pr_mask pr) PTHREAD_SIG_RESTART) = None
}.

Section specs.
Context {H : Handlers} {P : Platform} {Pok : PlatformOk P} {U : UserCode} {Hr : RestartHandler H P}.

(** Unlocking a mutex nobody waits for changes nothing but the mutex. *)
Lemma unlock_alone p m s σ :
  mutex_rep σ m s -> ms_valid s -> ms_waiting s = [] ->
  exists mu, evals p (__pthread_mutex_unlock m) σ (Done 0 (put_mutex m mu σ)) /\
    mutex_rep (put_mutex m mu σ) m (ms_drop s).1.
Proof.
  intros [(v & Hm & Hq)] Hv Hw. destruct s as [kind c o l].
  unfold ms_valid, ms_drop in *. simpl in *. subst l.
  assert (Hwake : evals p (unlock_wake m) (put_mutex m (mk_mutex locked 0 o kind v) σ)
    (Done 0 (put_mutex m (mk_mutex 0 0 o kind v) σ))).
  { unfold unlock_wake.
    eapply evals_bind; [eapply dequeue_nil_spec; [simpl; unfold put_mutex; lookup_tac | exact Hq]|].
    csteps. unfold put_mutex. by collapse. }
  destruct ((kind =? PTHREAD_MUTEX_RECURSIVE_NP) && (int_of (c - 1) >? 0)) eqn:Hc; simpl.
  - apply andb_prop in Hc as [->%Z.eqb_eq Hc].
    exists (mk_mutex 0 (int_of (c - 1)) o PTHREAD_MUTEX_RECURSIVE_NP v). split.
    + unfold __pthread_mutex_unlock. csteps. unfold put_mutex. by collapse.
    + constructor. exists v. split; [apply lookup_insert_eq | done].
  - exists (mk_mutex 0 0 o kind v). split.
    + destruct Hv as [->| ->]; unfold __pthread_mutex_unlock; csteps;
        unfold put_mutex in *; collapse; exact Hwake.
    + constructor. exists v. split; [apply lookup_insert_eq | done].
Qed.

Lemma cond_destroy_alone p c σ :
  cond_rep σ c [] -> evals p (pthread_cond_destroy c) σ (Done 0 σ).
Proof.
  intros (v & Hc & Hq). unfold pthread_cond_destroy. csteps.
  eapply evals_load_queue; [simpl; lookup_tac|]. fields. rewrite (qr_head _ _ _ Hq). csteps.
  collapse. rewrite insert_id by done. by destruct σ.
Qed.

Lemma alone_put_mutex p me pr d m mu s w σ :
  alone p me pr d w σ -> mutex_rep (put_mutex m mu σ) m s -> ms_valid s -> ms_waiting s = [] ->
  alone p me pr d (put_w m s w) (put_mutex m mu σ).
Proof.
  intros [[] Hm Ha Hc] Hrep Hv Hw. constructor; [done | | done | done]. intros m' s'. simpl.
  rewrite lookup_insert. case_decide as E; [subst; by intros [= <-]|]. intros Hs.
  destruct (Hm m' s' Hs) as ([(v & Ev & Hq)] & Hv' & Hw'). split; [|done]. constructor. exists v.
  split; [|done]. simpl. by rewrite lookup_insert_ne.
Qed.

Lemma alone_put_cond p me pr d c q w σ :
  alone p me pr d w σ ->
  alone p me pr d w (setf locq q (put_cond c PTHREAD_COND_INITIALIZER σ)).
Proof.
  intros [[] Hm Ha Hc]. constructor; [done | | done |].
  - intros m s Hs. destruct (Hm m s Hs) as ([(v & Ev & Hq)] & Hv & Hw). split; [|done].
    constructor. by exists v.
  - intros c' Hc'. destruct (Hc c' Hc') as (v & Ev & Hq). unfold cond_rep. simpl.
    rewrite lookup_insert. case_decide; [|by exists v]. eexists. split; [done | apply queue_rep_nil].
Qed.

Lemma ms_take_valid me s s' :
  ms_take me s = Some s' -> ms_valid s -> ms_waiting s = [] -> ms_valid s' /\ ms_waiting s' = [].
Proof. unfold ms_take, ms_valid. intros Ht Hv Hw. repeat case_match; by simplify_eq/=. Qed.

Lemma ms_drop_valid s :
  ms_valid s -> ms_waiting s = [] -> ms_valid (ms_drop s).1 /\ ms_waiting (ms_drop s).1 = [].
Proof. unfold ms_drop, ms_valid. intros Hv Hw. case_match; simpl; by rewrite ?Hw. Qed.

(** What a verdict says about a call. *)
Definition holds (p : pid_t) (me : addr) (pr : proc) (d : _pthread) (c : call) (v : verdict)
    (σ : state) : Prop :=
  exists z, (forall s, evals p (weak c) s (Done z s)) /\
    match v with
    | same w => exists σ', evals p (library c) σ (Done z σ') /\ alone p me pr d w σ'
    | other (Some y) => y <> z /\ exists σ', evals p (library c) σ (Done y σ')
    | other None => exists σ', evals p (library c) σ (Blocks σ')
    end.

Section one_call.
Context (p : pid_t) (me : addr) (pr : proc) (d : _pthread) (w : world) (σ : state).
Context (Hal : alone p me pr d w σ) (Hrd : ready me pr d).

Lemma holds_same c w' σ' :
  weak c = __pthread_return_0 -> evals p (library c) σ (Done 0 σ') -> alone p me pr d w' σ' ->
  holds p me pr d c (same w') σ.
Proof. intros Hw El Hal'. exists 0. rewrite Hw. split; [intros; apply evals_ret | eauto]. Qed.

Lemma holds_waits c σ' :
  weak c = __pthread_return_0 -> evals p (library c) σ (Blocks σ') -> holds p me pr d c (other None) σ.
Proof. intros Hw El. exists 0. rewrite Hw. split; [intros; apply evals_ret | eauto]. Qed.

Definition on_mutex (c : call) : bool :=
  match c with mutex_init _ _ | mutex_destroy _ | mutex_lock _ | mutex_unlock _ => true | _ => false end.

Lemma mutex_call_holds c v :
  on_mutex c = true -> verdict_of me w c = Some v -> holds p me pr d c v σ.
Proof.
  intros Hon Hc. pose proof Hal as [Hrt Hm Ha _]. pose proof Hrt as [Hp Hs _]. destruct Hrd.
  destruct c as [| | | | | | | | | | | |m a|m|m|m| | | | | | | | | | | | | | |]; try done;
    cbn [verdict_of] in Hc; (destruct (w_mtx w !! m) as [s|] eqn:E; [|done]); simpl in Hc;
    destruct (Hm m s E) as (Hrep & Hv & Hw).
  - assert (Hk : exists k, v = same (put_w m (mk_mutex_st k 0 NULL []) w) /\
      ms_valid (mk_mutex_st k 0 NULL []) /\ (a = NULL /\ k = PTHREAD_MUTEX_FAST_NP \/
        a <> NULL /\ mutexkind <$> mattrs σ !! a = Some k)).
    { destruct (Z.eqb_spec a NULL) as [->|Hn]; simpl in Hc.
      - injection Hc as <-. eexists. split; [done|]. split; [by left | by left].
      - destruct (w_attr w !! a) as [k|] eqn:Ek; [|done]. injection Hc as <-.
        destruct (Ha a k Ek) as (_ & Hk & Hkv). exists k. split; [done|]. split; [exact Hkv | by right]. }
    destruct Hk as (k & -> & Hkv & Hka). destruct Hrep as [(u & Ev & _)].
    destruct (mutex_init_spec p m a _ σ k Ev Hka) as [Ei Hri].
    eapply holds_same; [done | exact Ei |]. by apply alone_put_mutex.
  - pose proof (mutex_destroy_spec p m s σ Hrep) as Ed. injection Hc as <-.
    destruct (ms_count s >? 0); [|by eapply holds_same]. exists 0.
    split; [intros; apply evals_ret|]. split; [done | by exists σ].
  - injection Hc as <-. destruct (ms_take me s) as [s'|] eqn:Et.
    + destruct (ms_take_valid me s s' Et Hv Hw).
      destruct (mutex_lock_takes p me pr m s s' σ Hp Hs Hrep Hv Et) as (mu & El & Hrep').
      eapply holds_same; [done | exact El | by apply alone_put_mutex].
    + destruct (mutex_lock_blocks p me pr d m s σ) as (σ' & El & _); try done;
        [rewrite Hw; apply not_elem_of_nil|]. by eapply holds_waits.
  - injection Hc as <-. destruct (ms_drop_valid s Hv Hw).
    destruct (unlock_alone p m s σ Hrep Hv Hw) as (mu & El & Hrep').
    eapply holds_same; [done | exact El | by apply alone_put_mutex].
Qed.

Lemma other_call_holds c v :
  on_mutex c = false -> verdict_of me w c = Some v -> holds p me pr d c v σ.
Proof.
  intros Hon Hc. pose proof Hal as [Hrt Hm _ Hcd]. destruct Hrd.
  assert (Hret : forall x : Z, evals p (Ret x : itree evt Z) σ (Done x σ)) by (intros; apply evals_ret).
  destruct c as [| | | | | | | | | | | | | | | | | |a|a| | | | | |c a|c|c m|c|c|t1 t2]; try done;
    cbn [verdict_of] in Hc;
    try (injection Hc as <-; eapply holds_same; [done | apply Hret | exact Hal]);
    [(case_bool_decide as E; [|done]) ..|].
  - injection Hc as <-. destruct (Hcd c E) as (u & Ev & _).
    destruct (cond_init_spec p c a _ σ Ev) as [Ei _]. eapply holds_same; [done | exact Ei |].
    pose proof (alone_put_cond p me pr d c (locq σ) w σ Hal) as Hal'. by destruct σ.
  - injection Hc as <-. eapply holds_same; [done | by apply cond_destroy_alone, Hcd | done].
  - destruct (w_mtx w !! m) as [s|] eqn:Em; [|done]. injection Hc as <-.
    destruct (Hm m s Em) as (Hrep & Hv & Hw).
    destruct (cond_wait_blocks p me pr d c [] m s σ) as (σ' & El & _); try done; [by apply Hcd|..].
    + apply not_elem_of_nil.
    + intros x Hx. rewrite Hw in Hx. by apply elem_of_nil in Hx.
    + by eapply holds_waits.
  - injection Hc as <-. eapply holds_same; [done | by apply cond_signal_empty, Hcd | done].
  - injection Hc as <-. eapply holds_same; [done | | by apply alone_put_cond].
    apply (cond_broadcast_spec p c []); [by apply Hcd|]. intros x Hx. by apply elem_of_nil in Hx.
  - injection Hc as <-. exists 1. split; [intros; apply evals_ret|]. simpl. unfold pthread_equal.
    destruct (t1 =? t2); [by exists σ | split; [done | by exists σ]].
Qed.

Lemma call_holds c v : verdict_of me w c = Some v -> holds p me pr d c v σ.
Proof.
  intros Hv. destruct (on_mutex c) eqn:On; [by apply mutex_call_holds | by apply other_call_holds].
Qed.
End one_call.

(** A call changes at most the state of one mutex. *)
Lemma same_world me w c w' :
  verdict_of me w c = Some (same w') ->
  w' = w \/ exists m s x, w_mtx w !! m = Some x /\ w' = put_w m s w.
Proof.
  destruct c as [| | | | | | | | | | | |m a|m|m|m| | |a|a| | | | | |c a|c|c m|c|c|t1 t2]; try done;
    cbn [verdict_of]; try (intros [= <-]; by left);
    try (case_bool_decide; [|done]); try (intros [= <-]; by left);
    try (destruct (w_mtx w !! m) as [s|] eqn:E; [|done]; simpl); try done.
  - destruct (if a =? NULL then _ else _); [|done]. intros [= <-]. right. by eexists m, _, s.
  - destruct (ms_count s >? 0); [done|]. intros [= <-]. by left.
  - destruct (ms_take me s); [|done]. intros [= <-]. right. by eexists m, _, s.
  - intros [= <-]. right. by eexists m, _, s.
  - destruct (t1 =? t2); [|done]. intros [= <-]. by left.
Qed.

Lemma same_objects me w c w' c' :
  verdict_of me w c = Some (same w') -> about_objects w' c' = about_objects w c'.
Proof.
  intros [->|(m & s & x & Hx & ->)]%same_world; [done|].
  assert (Hh : forall m', bool_decide (is_Some (w_mtx (put_w m s w) !! m')) =
    bool_decide (is_Some (w_mtx w !! m'))).
  { intros m'. apply bool_decide_ext. simpl. rewrite lookup_insert_is_Some.
    destruct (decide (m = m')) as [<-|]; [rewrite Hx|]; naive_solver. }
  unfold about_objects. destruct c'; rewrite ?Hh; done.
Qed.

Lemma verdict_exists me w c : about_objects w c = true -> exists v, verdict_of me w c = Some v.
Proof.
  destruct c as [| | | | | | | | | | | |m a|m|m|m| | |a|a| | | | | |c a|c|c m|c|c|t1 t2]; try done;
    cbn [about_objects verdict_of]; try (by eexists); try (intros ->; by eexists);
    try (intros [s ->]%bool_decide_eq_true; by eexists).
  - intros [[s ->]%bool_decide_eq_true Ha]%andb_true_iff. simpl.
    apply orb_true_iff in Ha as [->|[k ->]%bool_decide_eq_true]; [by eexists|].
    destruct (a =? NULL); by eexists.
  - intros [-> [s ->]%bool_decide_eq_true]%andb_true_iff. by eexists.
Qed.

(** C31: The weak functions against those of the library in a program with one
    thread, whatever calls it makes on its mutexes, of both kinds, and
    conditions.  Up to the first difference every function of the library
    returns what its weak definition returns, and none waits.  [compare] finds the
    first difference, if there is one: locking a fast mutex the thread has
    locked and [pthread_cond_wait], where the library waits; destroying a locked
    mutex (EBUSY); [pthread_equal] of different threads (0). *)
Theorem weak_agrees p me pr d w cs σ :
  alone p me pr d w σ -> ready me pr d -> forallb (about_objects w) cs = true ->
  match compare me w cs with
  | Some agree => exists rs σ', (forall s, evals p (results weak cs) s (Done rs s)) /\
      evals p (results library cs) σ (Done rs σ')
  | Some (differ before c r) => exists after rs σ1 z, cs = before ++ c :: after /\
      (forall s, evals p (results weak before) s (Done rs s)) /\
      evals p (results library before) σ (Done rs σ1) /\
      (forall s, evals p (weak c) s (Done z s)) /\
      match r with
      | Some y => y <> z /\ exists σ2, evals p (library c) σ1 (Done y σ2)
      | None => exists σ2, evals p (library c) σ1 (Blocks σ2)
      end
  | None => False
  end.
Proof.
  intros Hal Hrd. revert w σ Hal. induction cs as [|c cs IH]; intros w σ Hal Hc; simpl.
  { exists [], σ. split; [intros s|]; apply evals_ret. }
  cbn [forallb] in Hc. apply andb_prop in Hc as [Hc Hcs]. destruct (verdict_exists me w c Hc) as [v Hv]. rewrite Hv. simpl.
  destruct (call_holds p me pr d w σ Hal Hrd c v Hv) as (z & Ez & Hh).
  destruct v as [w'|r]; cbn [mbind option_bind].
  - destruct Hh as (σ1 & E1 & Hal1).
    assert (Hcs' : forallb (about_objects w') cs = true).
    { rewrite forallb_forall in Hcs |- *. intros x Hx. rewrite (same_objects me w c w' x Hv).
      by apply Hcs. }
    specialize (IH w' σ1 Hal1 Hcs'). destruct (compare me w' cs) as [[|b c' r]|]; [| |done]; simpl.
    + destruct IH as (rs & σ' & F1 & F2). exists (z :: rs), σ'. split; [intros s|].
      * eapply evals_bind; [apply Ez|]. eapply evals_bind; [apply F1|]. apply evals_ret.
      * eapply evals_bind; [exact E1|]. eapply evals_bind; [exact F2|]. apply evals_ret.
    + destruct IH as (after & rs & σ' & y & -> & F1 & F2 & F3). exists after, (z :: rs), σ', y.
      split; [done|]. split; [intros s|split; [|exact F3]].
      * eapply evals_bind; [apply Ez|]. eapply evals_bind; [apply F1|]. apply evals_ret.
      * eapply evals_bind; [exact E1|]. eapply evals_bind; [exact F2|]. apply evals_ret.
  - exists cs, [], σ, z. split; [done|]. split; [intros s; apply evals_ret|].
    split; [apply evals_ret|]. split; [exact Ez|]. by destruct r.
Qed.
End specs.
End Weak.
