(* ===== verification/Syscalls.v ===== *)
(** * Cancellable system calls (wrapsyscall.c)

    Each wrapper makes a system call of the C library, [__libc_close] and so
    on, a cancellation point: cancellation is asynchronous while the call
    runs.  The C library's functions are the fields of the class [Libc]. *)

From ITree Require Import ITreeFacts.
From S2P Require Import Prelude Types Machine MachineFacts Platform Memory Spinlock Queue.
From S2P Require Import Restart Mutex Cleanup Specific Join Cancel.

(** The functions of the C library that the file declares. *)
Class Libc := {
  __libc_close : Z -> itree evt Z;
  __libc_fcntl : Z -> Z -> Z -> itree evt Z;
  __libc_fsync : Z -> itree evt Z;
  __libc_lseek : Z -> Z -> Z -> itree evt Z;
  __libc_msync : addr -> Z -> Z -> itree evt Z;
  __libc_nanosleep : addr -> addr -> itree evt Z;
  __libc_open : addr -> Z -> Z -> itree evt Z;
  __libc_pause : itree evt Z;
  __libc_read : Z -> addr -> Z -> itree evt Z;
  __libc_system : addr -> itree evt Z;
  __libc_tcdrain : Z -> itree evt Z;
  __libc_wait : addr -> itree evt Z;
  __libc_waitpid : Z -> addr -> Z -> itree evt Z;
  __libc_write : Z -> addr -> Z -> itree evt Z
}.

Module Syscall.
Section wrappers.
Context {P : Platform} {U : UserCode} {L : Libc}.

(** The macro CANCELABLE_SYSCALL, around the call [call]. *)
Definition CANCELABLE_SYSCALL {R} (call : itree evt R) : itree evt R :=
  oldtype <- auto_int ;;
  pthread_setcanceltype PTHREAD_CANCEL_ASYNCHRONOUS oldtype ;;
  result <- call ;;
  old <- act (fun _ σ => match words σ !! oldtype with
                         | Some v => Some (v, σ)
                         | None => None
                         end) ;;
  pthread_setcanceltype old NULL ;;
  auto_end oldtype ;;
  Ret result.

(** [va_arg]: the first of the variable arguments [ap]; if the caller has
    given none, whatever is in its place. *)
Definition va_arg (ap : list Z) : itree evt Z :=
  match ap with x :: _ => Ret x | [] => ask end.

(** The macro CANCELABLE_SYSCALL_VA, for a call whose last argument is the
    first of the variable ones. *)
Definition CANCELABLE_SYSCALL_VA {R} (call : Z -> itree evt R) (ap : list Z) : itree evt R :=
  oldtype <- auto_int ;;
  pthread_setcanceltype PTHREAD_CANCEL_ASYNCHRONOUS oldtype ;;
  x <- va_arg ap ;;
  result <- call x ;;
  old <- act (fun _ σ => match words σ !! oldtype with
                         | Some v => Some (v, σ)
                         | None => None
                         end) ;;
  pthread_setcanceltype old NULL ;;
  auto_end oldtype ;;
  Ret result.

Definition close (fd : Z) : itree evt Z := CANCELABLE_SYSCALL (__libc_close fd).
Definition fcntl (fd cmd : Z) (ap : list Z) : itree evt Z :=
  CANCELABLE_SYSCALL_VA (fun x => __libc_fcntl fd cmd x) ap.
Definition fsync (fd : Z) : itree evt Z := CANCELABLE_SYSCALL (__libc_fsync fd).
Definition lseek (fd offset whence : Z) : itree evt Z :=
  CANCELABLE_SYSCALL (__libc_lseek fd offset whence).
Definition msync (start : addr) (length flags : Z) : itree evt Z :=
  CANCELABLE_SYSCALL (__libc_msync start length flags).
Definition nanosleep (requested_time remaining : addr) : itree evt Z :=
  CANCELABLE_SYSCALL (__libc_nanosleep requested_time remaining).
Definition open (pathname : addr) (flags : Z) (ap : list Z) : itree evt Z :=
  CANCELABLE_SYSCALL_VA (fun x => __libc_open pathname flags x) ap.
Definition pause : itree evt Z := CANCELABLE_SYSCALL __libc_pause.
Definition read (fd : Z) (buf : addr) (count : Z) : itree evt Z :=
  CANCELABLE_SYSCALL (__libc_read fd buf count).
Definition system (line : addr) : itree evt Z := CANCELABLE_SYSCALL (__libc_system line).
Definition tcdrain (fd : Z) : itree evt Z := CANCELABLE_SYSCALL (__libc_tcdrain fd).
Definition wait (stat_loc : addr) : itree evt Z := CANCELABLE_SYSCALL (__libc_wait stat_loc).
Definition waitpid (pid : Z) (stat_loc : addr) (options : Z) : itree evt Z :=
  CANCELABLE_SYSCALL (__libc_waitpid pid stat_loc options).
Definition write (fd : Z) (buf : addr) (n : Z) : itree evt Z :=
  CANCELABLE_SYSCALL (__libc_write fd buf n).

(** *** The calls as data *)

Inductive call :=
| Close (fd : Z)
| Fcntl (fd cmd : Z) (ap : list Z)
| Fsync (fd : Z)
| Lseek (fd offset whence : Z)
| Msync (start : addr) (length flags : Z)
| Nanosleep (requested_time remaining : addr)
| Open (pathname : addr) (flags : Z) (ap : list Z)
| Pause
| Read (fd : Z) (buf : addr) (count : Z)
| System (line : addr)
| Tcdrain (fd : Z)
| Wait (stat_loc : addr)
| Waitpid (pid : Z) (stat_loc : addr) (options : Z)
| Write (fd : Z) (buf : addr) (n : Z).

Definition wrapper (c : call) : itree evt Z :=
  match c with
  | Close fd => close fd
  | Fcntl fd cmd ap => fcntl fd cmd ap
  | Fsync fd => fsync fd
  | Lseek fd offset whence => lseek fd offset whence
  | Msync start length flags => msync start length flags
  | Nanosleep requested_time remaining => nanosleep requested_time remaining
  | Open pathname flags ap => open pathname flags ap
  | Pause => pause
  | Read fd buf count => read fd buf count
  | System line => system line
  | Tcdrain fd => tcdrain fd
  | Wait stat_loc => wait stat_loc
  | Waitpid pid stat_loc options => waitpid pid stat_loc options
  | Write fd buf n => write fd buf n
  end.

(** The call that a wrapper surrounds. *)
Definition libc_call (c : call) : itree evt Z :=
  match c with
  | Close fd => __libc_close fd
  | Fcntl fd cmd ap => x <- va_arg ap ;; __libc_fcntl fd cmd x
  | Fsync fd => __libc_fsync fd
  | Lseek fd offset whence => __libc_lseek fd offset whence
  | Msync start length flags => __libc_msync start length flags
  | Nanosleep requested_time remaining => __libc_nanosleep requested_time remaining
  | Open pathname flags ap => x <- va_arg ap ;; __libc_open pathname flags x
  | Pause => __libc_pause
  | Read fd buf count => __libc_read fd buf count
  | System line => __libc_system line
  | Tcdrain fd => __libc_tcdrain fd
  | Wait stat_loc => __libc_wait stat_loc
  | Waitpid pid stat_loc options => __libc_waitpid pid stat_loc options
  | Write fd buf n => __libc_write fd buf n
  end.
End wrappers.

Section specs.
Context {H : Handlers} {P : Platform} {Pok : PlatformOk P} {U : UserCode}
  {Hr : RestartHandler H P} {Hch : CancelHandler H P U} {L : Libc}.

Lemma wrapper_syscall c : eq_itree eq (wrapper c) (CANCELABLE_SYSCALL (libc_call c)).
Proof.
  destruct c; simpl; try reflexivity;
    unfold fcntl, open, CANCELABLE_SYSCALL_VA, CANCELABLE_SYSCALL;
    do 2 (apply eqit_bind; [reflexivity | intros ?]); by rewrite bind_bind.
Qed.

(** The automatic variable of the wrapper, and the state in which the call
    runs. *)
Definition oldtype_at (σ : state) : addr := fresh ({[NULL]} ∪ dom (words σ)).

Definition during (self : addr) (d : _pthread) (σ : state) : state :=
  put_thr self (setf p_canceltype PTHREAD_CANCEL_ASYNCHRONOUS d)
    (setf words (<[oldtype_at σ := p_canceltype d]> (words σ)) σ).

Lemma oldtype_not_null σ : oldtype_at σ <> NULL.
Proof. pose proof (is_fresh ({[NULL]} ∪ dom (words σ))). unfold oldtype_at. set_solver. Qed.

Lemma oldtype_null σ : (oldtype_at σ =? NULL) = false.
Proof. apply Z.eqb_neq, oldtype_not_null. Qed.

(** Up to the call, without a pending request. *)
Lemma cancelable_call {R} p self pr d (call : itree evt R) σ r :
  runs_thread p self pr d σ -> to_cancel d = false ->
  evals p (result <- call ;;
           old <- act (fun _ σ' => match words σ' !! oldtype_at σ with
                                   | Some v => Some (v, σ')
                                   | None => None
                                   end) ;;
           pthread_setcanceltype old NULL ;;
           auto_end (oldtype_at σ) ;;
           Ret result) (during self d σ) r ->
  evals p (CANCELABLE_SYSCALL call) σ r.
Proof.
  intros Hrt Hc Hk. unfold CANCELABLE_SYSCALL, auto_int. csteps. fold (oldtype_at σ).
  eapply evals_bind.
  { eapply (setcanceltype_spec p self pr d); [|done| |by left].
    - destruct Hrt. by constructor.
    - intros _. exists 0. fields. apply lookup_insert_eq. }
  unfold old_stored. rewrite oldtype_null. collapse. exact Hk.
Qed.

Lemma cancelable_exits {R} p self pr d (call : itree evt R) σ σx :
  runs_thread p self pr d σ -> to_cancel d = true ->
  evals p (pthread_exit (X := unit) PTHREAD_CANCELED) (during self d σ) (Exits σx) ->
  evals p (CANCELABLE_SYSCALL call) σ (Exits σx).
Proof.
  intros Hrt Hc Hx. unfold CANCELABLE_SYSCALL, auto_int. csteps. fold (oldtype_at σ).
  apply evals_bind_exit. eapply (setcanceltype_exits p self pr d).
  - destruct Hrt. by constructor.
  - done.
  - intros _. exists 0. fields. apply lookup_insert_eq.
  - unfold old_stored. rewrite oldtype_null. collapse. exact Hx.
Qed.

(** C33: every wrapper is a cancellation point and is otherwise transparent.
    If cancellation has been requested, the thread exits and the system call
    is not made.  Otherwise the call is made with asynchronous cancellation:
    if it ends the thread, so does the wrapper; if it returns, the wrapper
    returns the result, with the old cancellation type restored and its
    variable gone; a request that came in meanwhile stays pending if
    cancellation was deferred. *)
Theorem wrappers_correct p self pr d c σ :
  runs_thread p self pr d σ -> cancel_valid (p_canceltype d) = true ->
  (to_cancel d = true -> forall σx,
     evals p (pthread_exit (X := unit) PTHREAD_CANCELED) (during self d σ) (Exits σx) ->
     evals p (wrapper c) σ (Exits σx)) /\
  (to_cancel d = false ->
     (forall σx, evals p (libc_call c) (during self d σ) (Exits σx) ->
        evals p (wrapper c) σ (Exits σx)) /\
     (forall res σ1 pr1 d1, evals p (libc_call c) (during self d σ) (Done res σ1) ->
        words σ1 !! oldtype_at σ = Some (p_canceltype d) -> runs_thread p self pr1 d1 σ1 ->
        to_cancel d1 = false \/ p_canceltype d <> PTHREAD_CANCEL_ASYNCHRONOUS ->
        evals p (wrapper c) σ
          (Done res (setf words (delete (oldtype_at σ) (words σ1))
            (put_thr self (setf p_canceltype (p_canceltype d) d1) σ1))))).
Proof.
  intros Hrt Hv. split; [|intros Hc; split].
  - intros Hc σx Hx. rewrite wrapper_syscall. by eapply cancelable_exits.
  - intros σx Hx. rewrite wrapper_syscall. eapply cancelable_call; [done | done|].
    by apply evals_bind_exit.
  - intros res σ1 pr1 d1 Hcall Hw Hrt1 Hc1. rewrite wrapper_syscall.
    eapply cancelable_call; [done | done|]. eapply evals_bind; [exact Hcall|].
    eapply evals_act; [simpl; rewrite Hw; reflexivity|].
    eapply evals_bind; [by eapply (setcanceltype_spec p self pr1 d1 _ NULL)|].
    unfold old_stored. simpl. unfold auto_end. by csteps.
Qed.
End specs.
End Syscall.
