(* ===== verification/Interleave.v ===== *)
(** * Interleaving of processes

    The threads of a program are processes that share the state.  [pool_step]
    lets any of them take its next step, or handle a pending signal its mask
    admits; nothing is assumed about the order.

    The second half is a logic for what holds under every interleaving:
    [triple p g t Q] says that process [p], started in the ghost state [g],
    runs [t] without a fault and keeps the global invariant [Inv] at each
    step, whatever the others do as long as they keep it too, and that it
    returns only in ghost states [Q] allows.  It can only wait for a signal
    in ghost states and states that are [asleep]. *)

From stdpp Require Import relations.
From S2P Require Import Prelude Types Machine MachineFacts.
From ITree Require Import ITreeFacts Eq.Eqit Eq.Shallow.

Section pool.
Context {H : Handlers} {A : Type}.

(** What process [p] may do next: its next step, or a signal. *)
Inductive proc_step (p : pid_t) (t : itree evt A) (J : jtab A) (σ : state) : sres A -> Prop :=
| proc_next : proc_step p t J σ (istep p t J σ)
| proc_signal pr s :
    procs (krn σ) !! p = Some pr -> pick_signal (pr_pending pr) (pr_mask pr) = Some s ->
    proc_step p t J σ (deliver p s (pr_mask pr) (pr_mask pr) t t J σ).

(** The programs of the processes that have not ended, by process. *)
Abbreviation pool := (gmap Z (itree evt A * jtab A)).

Inductive pool_step : pool * state -> pool * state -> Prop :=
| step_next ts σ p t J t' J' σ' :
    ts !! p = Some (t, J) -> proc_step p t J σ (SNext t' J' σ') ->
    pool_step (ts, σ) (<[p := (t', J')]> ts, σ')
| step_done ts σ p t J a J' σ' :
    ts !! p = Some (t, J) -> proc_step p t J σ (SHalt (ODone a J' σ')) ->
    pool_step (ts, σ) (delete p ts, σ')
| step_exit ts σ p t J σ' :
    ts !! p = Some (t, J) -> proc_step p t J σ (SHalt (OExit σ')) ->
    pool_step (ts, σ) (delete p ts, σ').

(** A process of the pool is about to access memory that is not mapped, or to
    jump to a buffer that is not there. *)
Definition pool_faults (c : pool * state) : Prop :=
  exists p t J, c.1 !! p = Some (t, J) /\
    (proc_step p t J c.2 (SHalt OFault) \/
     exists b v J' σ', proc_step p t J c.2 (SHalt (OJump b v J' σ'))).

(** The processes take steps in the order [sched]; one that has ended or
    waits is passed over. *)
Fixpoint pool_run (sched : list Z) (c : pool * state) : pool * state :=
  match sched with
  | [] => c
  | p :: sched =>
      pool_run sched
        match c.1 !! p with
        | None => c
        | Some (t, J) =>
            match istep p t J c.2 with
            | SNext t' J' σ' => (<[p := (t', J')]> c.1, σ')
            | SHalt (ODone _ _ σ') | SHalt (OExit σ') => (delete p c.1, σ')
            | SHalt _ => c
            end
        end
  end.

Lemma pool_run_steps sched c : rtc pool_step c (pool_run sched c).
Proof.
  revert c. induction sched as [|p sched IH]; intros [ts σ]; simpl; [done|].
  destruct (ts !! p) as [[t J]|] eqn:Hp; [|apply IH].
  destruct (istep p t J σ) as [t' J' σ'|[a J' σ'|σ'|t' J' σ'|b v J' σ'|]] eqn:E; try apply IH.
  - eapply rtc_l; [eapply step_next; [done|]; rewrite <- E; constructor | apply IH].
  - eapply rtc_l; [eapply step_done; [done|]; rewrite <- E; constructor | apply IH].
  - eapply rtc_l; [eapply step_exit; [done|]; rewrite <- E; constructor | apply IH].
Qed.
End pool.

(** ** Triples *)

Section logic.
Context {H : Handlers} {G : Type}.
Context (Inv : gmap Z G -> state -> Prop) (asleep : pid_t -> state -> G -> Prop).

(** Safe for [n] more steps of its own.  The program may set jump buffers, but
    it may not jump. *)
Fixpoint safe {A} (n : nat) (p : pid_t) (t : itree evt A) (g : G) (Q : A -> G -> Prop) : Prop :=
  match n with
  | O => True
  | S n => forall Γ σ, Inv Γ σ -> Γ !! p = Some g ->
      match istep p t ∅ σ with
      | SNext t' _ σ' => exists g', Inv (<[p := g']> Γ) σ' /\ safe n p t' g' Q
      | SHalt (ODone a _ _) => Q a g
      | SHalt (OSusp _ _ _) => asleep p σ g
      | SHalt _ => False
      end
  end.

Definition triple {A} (p : pid_t) (g : G) (t : itree evt A) (Q : A -> G -> Prop) : Prop :=
  forall n, safe n p t g Q.

Lemma safe_eq {A} n p (t t' : itree evt A) g Q :
  eq_itree eq t t' -> safe n p t g Q -> safe n p t' g Q.
Proof.
  revert t t' g. induction n as [|n IH]; intros t t' g Ht; [done|]. simpl. intros Hs Γ σ Hi Hg.
  specialize (Hs Γ σ Hi Hg).
  pose proof (istep_sim ∅ p t t' ∅ ∅ σ Ht (jsub_refl _ _)) as Hsim.
  assert (Hn : sno_jump ∅ (istep p t ∅ σ)) by (destruct (istep p t ∅ σ) as [|[]]; done).
  specialize (Hsim Hn). clear Hn.
  destruct (istep p t ∅ σ) as [t1 J1 σ1|o], (istep p t' ∅ σ) as [t2 J2 σ2|o']; try done.
  - destruct Hs as (g' & Hi' & Hs), Hsim as (Ht1 & _ & <-).
    exists g'. split; [done|]. by eapply IH.
  - destruct o, o'; try done. by destruct Hsim as (<- & _).
Qed.

Lemma safe_le {A} n m p (t : itree evt A) g Q :
  (m <= n)%nat -> safe n p t g Q -> safe m p t g Q.
Proof.
  revert m t g. induction n as [|n IH]; intros [|m] t g Hm; [done|lia|done|].
  simpl. intros Hs Γ σ Hi Hg. specialize (Hs Γ σ Hi Hg).
  destruct (istep p t ∅ σ) as [t1 J1 σ1|o]; [|done].
  destruct Hs as (g' & Hi' & Hs). exists g'. split; [done|].
  apply IH; [lia | done].
Qed.

Lemma safe_conseq {A} n p (t : itree evt A) g (Q Q' : A -> G -> Prop) :
  (forall a g, Q a g -> Q' a g) -> safe n p t g Q -> safe n p t g Q'.
Proof.
  intros HQ. revert t g. induction n as [|n IH]; intros t g; [done|].
  simpl. intros Hs Γ σ Hi Hg. specialize (Hs Γ σ Hi Hg).
  destruct (istep p t ∅ σ) as [t1 J1 σ1|[]]; try done; [|by apply HQ].
  destruct Hs as (g' & Hi' & Hs). exists g'. auto.
Qed.

Lemma safe_bind {A B} n p (t : itree evt A) (k : A -> itree evt B) g Q Q' :
  safe n p t g Q ->
  (forall a g' m, (m <= n)%nat -> Q a g' -> safe m p (k a) g' Q') ->
  safe n p (ITree.bind t k) g Q'.
Proof.
  revert t g. induction n as [|n IH]; intros t g Hs Hk; [done|]. cbn [safe]. intros Γ σ Hi Hg.
  pose proof (Hs Γ σ Hi Hg) as Hs1. pose proof (istep_bind p t k ∅ σ) as Hb. cbv zeta in Hb.
  rewrite bindJ_empty in Hb.
  destruct (istep p t ∅ σ) as [t1 J1 σ1|[a J1 σ1|σ1|t1 J1 σ1|b v J1 σ1|]] eqn:Hst; try done.
  - destruct Hs1 as (g' & Hi' & Hs1).
    destruct (istep p (ITree.bind t k) ∅ σ) as [t2 J2 σ2|]; [|done].
    destruct Hb as (Ht & _ & <-).
    exists g'. split; [done|]. eapply safe_eq; [exact Ht|].
    eapply IH; [exact Hs1|]. intros a g1 m Hm. apply Hk. lia.
  - destruct Hb as (Hob & -> & ->). rewrite (istep_bind_ret p t k a) by done.
    by apply (Hk a g (S n) (le_n _) Hs1).
  - destruct (istep p (ITree.bind t k) ∅ σ) as [|[]]; done.
Qed.

(** *** Rules *)

Lemma triple_eq {A} p g (t t' : itree evt A) Q :
  eq_itree eq t t' -> triple p g t Q -> triple p g t' Q.
Proof. intros Ht Hs n. by eapply safe_eq. Qed.

Lemma triple_conseq {A} p g (t : itree evt A) (Q Q' : A -> G -> Prop) :
  triple p g t Q -> (forall a g, Q a g -> Q' a g) -> triple p g t Q'.
Proof. intros Hs HQ n. by eapply safe_conseq. Qed.

Lemma triple_ret {A} p g (a : A) (Q : A -> G -> Prop) : Q a g -> triple p g (Ret a) Q.
Proof. intros HQ [|n]; [done|]. by intros Γ σ _ _. Qed.

Lemma triple_bind {A B} p g (t : itree evt A) (k : A -> itree evt B) Q Q' :
  triple p g t Q -> (forall a g', Q a g' -> triple p g' (k a) Q') ->
  triple p g (ITree.bind t k) Q'.
Proof.
  intros Ht Hk n. eapply safe_bind; [apply Ht|]. intros a g' m _ HQ. by apply Hk.
Qed.

Lemma triple_assoc {A B C} p g (t : itree evt A) (k : A -> itree evt B) (h : B -> itree evt C) Q :
  triple p g (ITree.bind t (fun x => ITree.bind (k x) h)) Q ->
  triple p g (ITree.bind (ITree.bind t k) h) Q.
Proof. apply triple_eq. symmetry. apply bind_bind. Qed.

Lemma triple_bind_ret {A B} p g (a : A) (k : A -> itree evt B) Q :
  triple p g (k a) Q -> triple p g (ITree.bind (Ret a) k) Q.
Proof. apply triple_eq. symmetry. apply bind_ret_l. Qed.

Lemma triple_unbind {A} p g (t : itree evt A) Q :
  triple p g (ITree.bind t (fun x => Ret x)) Q -> triple p g t Q.
Proof. apply triple_eq. apply bind_ret_r. Qed.

(** One access: it does not fault, and it keeps the invariant. *)
Lemma triple_act {A X} p g f (k : X -> itree evt A) Q :
  (forall Γ σ, Inv Γ σ -> Γ !! p = Some g ->
     exists x σ' g', f p σ = Some (x, σ') /\ Inv (<[p := g']> Γ) σ' /\ triple p g' (k x) Q) ->
  triple p g (ITree.bind (act f) k) Q.
Proof.
  intros Hf. apply (triple_eq _ _ (Vis (Act f) k)); [unfold act; by rewrite bind_trigger|].
  intros [|n]; [done|]. intros Γ σ Hi Hg. unfold istep. simpl.
  destruct (Hf Γ σ Hi Hg) as (x & σ' & g' & -> & Hi' & Ht).
  exists g'. split; [done | apply Ht].
Qed.

(** An access that changes nothing. *)
Lemma triple_read {A X} p g f (k : X -> itree evt A) Q :
  (forall Γ σ, Inv Γ σ -> Γ !! p = Some g ->
     exists x, f p σ = Some (x, σ) /\ triple p g (k x) Q) ->
  triple p g (ITree.bind (act f) k) Q.
Proof.
  intros Hf. apply triple_act. intros Γ σ Hi Hg. destruct (Hf Γ σ Hi Hg) as (x & Hx & Ht).
  exists x, σ, g. by rewrite insert_id.
Qed.

(** Waiting: the process sleeps, or the handler of a signal runs. *)
Lemma triple_sigsuspend {A} p g m (k : unit -> itree evt A) Q :
  (forall Γ σ, Inv Γ σ -> Γ !! p = Some g -> exists pr, procs (krn σ) !! p = Some pr /\
     match pick_signal (pr_pending pr) m with
     | None => asleep p σ g
     | Some s => exists h, sa_disp (action_of σ s) = sa_handler h /\ exists g',
         Inv (<[p := g']> Γ)
           (set_mask p (m ∪ sa_mask (action_of σ s) ∪ {[s]}) (clear_signal p s σ)) /\
         triple p g' (handler_code h s ;;
                      act (fun q σ => Some (tt, set_mask q (pr_mask pr) σ)) ;; k tt) Q
     end) ->
  triple p g (ITree.bind (sigsuspend m) k) Q.
Proof.
  intros Hf. apply (triple_eq _ _ (Vis (Sigsuspend m) k));
    [unfold sigsuspend; by rewrite bind_trigger|].
  intros [|n]; [done|]. intros Γ σ Hi Hg. unfold istep. simpl.
  destruct (Hf Γ σ Hi Hg) as (pr & -> & Hs). destruct (pick_signal _ _) as [s|]; [|done].
  destruct Hs as (h & Hh & g' & Hi' & Ht). unfold deliver. rewrite Hh.
  exists g'. split; [done | apply Ht].
Qed.

(** Setting a jump buffer that nobody jumps to. *)
Lemma triple_setjmp {A} p g b save (k : Z -> itree evt A) Q :
  (forall Γ σ, Inv Γ σ -> Γ !! p = Some g -> is_Some (procs (krn σ) !! p)) ->
  triple p g (k 0) Q -> triple p g (ITree.bind (sigsetjmp b save) k) Q.
Proof.
  intros Hp Hk. apply (triple_eq _ _ (Vis (Sigsetjmp b save) k));
    [unfold sigsetjmp; by rewrite bind_trigger|].
  intros [|n]; [done|]. intros Γ σ Hi Hg. unfold istep. simpl.
  destruct (Hp Γ σ Hi Hg) as [pr ->]. exists g. split; [by rewrite insert_id | apply Hk].
Qed.

(** A loop, by an invariant on the loop variable and the ghost state. *)
Lemma triple_loop {A B} p (body : A -> itree evt (A + B)) (I : A -> G -> Prop) Q :
  (forall a g, I a g -> triple p g (body a)
     (fun r g' => match r with inl a' => I a' g' | inr b => Q b g' end)) ->
  forall a g, I a g -> triple p g (c_loop body a) Q.
Proof.
  intros Hb a g Ha n. revert a g Ha. induction (lt_wf n) as [n _ IH]. intros a g Ha.
  unfold c_loop. eapply safe_eq; [symmetry; apply unfold_iter|].
  eapply safe_bind; [by apply Hb|]. intros [a'|b] g' m Hm HI.
  - destruct m as [|m]; [done|]. intros Γ σ Hi Hg. simpl. exists g'.
    split; [|apply IH; [lia | done]].
    by rewrite insert_id.
  - by apply triple_ret.
Qed.

Lemma triple_while p (body : itree evt bool) (I : G -> Prop) (Q : unit -> G -> Prop) :
  (forall g, I g -> triple p g body (fun r g' => if r then I g' else Q tt g')) ->
  forall g, I g -> triple p g (c_while body) Q.
Proof.
  intros Hb g Hg. apply (triple_loop p _ (fun _ => I)); [|done]. intros [] g1 H1.
  eapply triple_bind; [by apply Hb|]. intros [] g2 H2; by apply triple_ret.
Qed.
End logic.

(** ** From triples to pools *)

Section adequacy.
Context {H : Handlers} {G A : Type}.
Context (Inv : gmap Z G -> state -> Prop) (asleep : pid_t -> state -> G -> Prop) (Q : pid_t -> A -> G -> Prop).

(** Outside of [sigsuspend] the invariant admits no signal. *)
Context (quiet : forall Γ σ p g pr, Inv Γ σ -> Γ !! p = Some g ->
  procs (krn σ) !! p = Some pr -> pick_signal (pr_pending pr) (pr_mask pr) = None).

(** The invariant holds, every running process is safe for [n] steps, and
    every other process has ended as [Q] says. *)
Definition pool_ok (n : nat) (c : gmap Z (itree evt A * jtab A) * state) : Prop :=
  exists Γ, Inv Γ c.2 /\
    (forall p t J, c.1 !! p = Some (t, J) ->
       exists g, Γ !! p = Some g /\ safe Inv asleep n p t g (Q p)) /\
    (forall p g, Γ !! p = Some g -> c.1 !! p = None -> exists a, Q p a g).

Lemma proc_step_istep Γ σ p g (t : itree evt A) J r :
  Inv Γ σ -> Γ !! p = Some g -> proc_step p t J σ r -> r = istep p t J σ.
Proof. intros Hi Hg []; [done|]. exfalso. rewrite (quiet Γ σ p g pr) in *; done. Qed.

(** The jump buffers make no difference to a step that is not a jump. *)
Lemma istep_any p (t : itree evt A) J σ :
  match istep p t ∅ σ with
  | SNext t' J' σ' => istep p t J σ = SNext t' (J' ∪ J) σ'
  | SHalt (ODone a _ σ') => istep p t J σ = SHalt (ODone a J σ') /\ σ' = σ
  | SHalt (OExit σ') => istep p t J σ = SHalt (OExit σ')
  | SHalt (OSusp t' _ σ') => istep p t J σ = SHalt (OSusp t' J σ')
  | SHalt (OJump _ _ _ _) => True
  | SHalt OFault => istep p t J σ = SHalt OFault
  end.
Proof.
  destruct (istep p t ∅ σ) as [t' J' σ'|o] eqn:E.
  { rewrite <- (map_empty_union J) at 1. by apply istep_union. }
  unfold istep in *. destruct (observe t) as [a|t1|X e k]; simpl in *; [by simplify_eq|done|].
  destruct e as [X f|m|b save|b v|c]; simpl in *; repeat case_match; simplify_eq; try done.
  all: unfold deliver in *; repeat case_match; by simplify_eq.
Qed.

Lemma pool_ok_step n c c' : pool_ok (S n) c -> pool_step c c' -> pool_ok n c'.
Proof.
  intros (Γ & Hi & Hrun & Hend) Hs. destruct Hs as [ts σ p t J t' J' σ' Hp Hs
    |ts σ p t J a J' σ' Hp Hs|ts σ p t J σ' Hp Hs]; simpl in *;
    destruct (Hrun p t J Hp) as (g & Hg & Hsafe);
    apply (proc_step_istep Γ σ p g) in Hs; try done;
    specialize (Hsafe Γ σ Hi Hg); pose proof (istep_any p t J σ) as Hany;
    destruct (istep p t ∅ σ) as [t1 J1 σ1|[a1 J1 σ1|σ1|t1 J1 σ1|b1 v1 J1 σ1|]];
    try done;
    lazymatch type of Hany with _ /\ _ => destruct Hany as [Hany ->] | _ => idtac end;
    rewrite Hany in Hs; simplify_eq.
  - destruct Hsafe as (g' & Hi' & Hsafe). exists (<[p := g']> Γ). split; [done|]. simpl.
    split.
    + intros q tq Jq [(<- & [= <- <-])|(Hne & Hq)]%lookup_insert_Some.
      * exists g'. by rewrite lookup_insert_eq.
      * destruct (Hrun q tq Jq Hq) as (gq & Hgq & Hsq). exists gq.
        rewrite lookup_insert_ne by done. split; [done | by apply (safe_le _ _ (S n)); [lia|]].
    + intros q gq Hq [Hq1 Hne]%lookup_insert_None. rewrite lookup_insert_ne in Hq by done.
      by eapply Hend.
  - exists Γ. split; [done|]. simpl. split.
    + intros q tq Jq [Hne Hq]%lookup_delete_Some.
      destruct (Hrun q tq Jq Hq) as (gq & Hgq & Hsq). exists gq.
      split; [done | by apply (safe_le _ _ (S n)); [lia|]].
    + intros q gq Hq [<-|Hq1]%lookup_delete_None; [|by eapply Hend].
      rewrite Hg in Hq. simplify_eq. eauto.
Qed.

(** What a reachable pool looks like: the invariant holds for some ghost
    states, no process faults, those that wait are asleep, those that return
    or have ended satisfy [Q]. *)
Record pool_inv (ts : gmap Z (itree evt A * jtab A)) (σ : state) (Γ : gmap Z G) : Prop := {
  pi_inv : Inv Γ σ;
  pi_run : forall p t J, ts !! p = Some (t, J) -> exists g, Γ !! p = Some g /\
    match istep p t J σ with
    | SHalt (OSusp _ _ _) => asleep p σ g
    | SHalt (ODone a _ _) => Q p a g
    | SHalt OFault | SHalt (OJump _ _ _ _) => False
    | _ => True
    end;
  pi_end : forall p g, Γ !! p = Some g -> ts !! p = None -> exists a, Q p a g
}.

Lemma pool_ok_inv n ts σ : pool_ok (S n) (ts, σ) -> exists Γ, pool_inv ts σ Γ.
Proof.
  intros (Γ & Hi & Hrun & Hend). exists Γ. constructor; [done| |done].
  intros p t J Hp. destruct (Hrun p t J Hp) as (g & Hg & Hs). exists g. split; [done|].
  specialize (Hs Γ σ Hi Hg). pose proof (istep_any p t J σ) as Hany.
  destruct (istep p t ∅ σ) as [|[]]; try done;
    lazymatch type of Hany with _ /\ _ => destruct Hany as [Hany _] | _ => idtac end;
    by rewrite Hany.
Qed.

Lemma pool_reach Γ0 ts0 σ0 ts σ :
  Inv Γ0 σ0 -> dom Γ0 = dom ts0 ->
  (forall p t J, ts0 !! p = Some (t, J) -> exists g, Γ0 !! p = Some g /\
     triple Inv asleep p g t (Q p)) ->
  rtc pool_step (ts0, σ0) (ts, σ) -> exists Γ, pool_inv ts σ Γ.
Proof.
  intros Hi Hdom Ht (n & Hn)%rtc_nsteps.
  assert (H0 : forall k, pool_ok k (ts0, σ0)).
  { intros k. exists Γ0. split; [done|]. simpl. split.
    - intros p t J Hp. destruct (Ht p t J Hp) as (g & Hg & Hs).
      exists g. split; [done | apply Hs].
    - intros p g Hg%elem_of_dom_2. rewrite Hdom in Hg. by intros ?%not_elem_of_dom. }
  apply (pool_ok_inv 0). specialize (H0 (n + 1)%nat). clear Ht Hi Hdom. revert H0.
  remember (ts0, σ0) as c eqn:Hc. remember (ts, σ) as c' eqn:Hc'. clear Hc Hc'.
  induction Hn as [c|n c c1 c2 Hs _ IH]; [done|]. intros H0. apply IH.
  by eapply pool_ok_step.
Qed.

Lemma pool_inv_no_fault ts σ Γ : pool_inv ts σ Γ -> ~ pool_faults (ts, σ).
Proof.
  intros [Hi Hrun _] (p & t & J & Hp & Hf). simpl in *.
  destruct (Hrun p t J Hp) as (g & Hg & Hs).
  destruct Hf as [Hf|(b & v & J' & σ' & Hf)];
    apply (proc_step_istep Γ σ p g) in Hf; try done; by rewrite <- Hf in Hs.
Qed.

(** Some process can go on, or they all wait and are asleep. *)
Lemma pool_inv_progress ts σ Γ : pool_inv ts σ Γ ->
  (exists c, pool_step (ts, σ) c) \/
  (forall p t J, ts !! p = Some (t, J) -> exists g t' J' σ', Γ !! p = Some g /\ asleep p σ g /\
     istep p t J σ = SHalt (OSusp t' J' σ')).
Proof.
  intros [Hi Hrun _].
  set (waits := fun (p : Z) (c : itree evt A * jtab A) =>
    match istep p c.1 c.2 σ with SHalt (OSusp _ _ _) => true | _ => false end).
  destruct (decide (map_Forall (fun p c => waits p c = true) ts)) as [Hall|Hex].
  - right. intros p t J Hp. destruct (Hrun p t J Hp) as (g & Hg & Hs).
    specialize (Hall p (t, J) Hp). unfold waits in Hall. simpl in Hall.
    destruct (istep p t J σ) as [|[]] eqn:E; try done. eauto 10.
  - left. apply map_not_Forall in Hex as (p & [t J] & Hp & Hw); [|apply _].
    destruct (Hrun p t J Hp) as (g & Hg & Hs). unfold waits in Hw. simpl in Hw.
    destruct (istep p t J σ) as [t' J' σ'|[a J' σ'|σ'|t' J' σ'|b v J' σ'|]] eqn:E; try done.
    + eexists. eapply step_next; [done|]. rewrite <- E. constructor.
    + eexists. eapply step_done; [done|]. rewrite <- E. constructor.
    + eexists. eapply step_exit; [done|]. rewrite <- E. constructor.
Qed.
End adequacy.
