(* ===== verification/PoolThreads.v ===== *)
(** * Threads in a pool

    What the pools of threads have in common: each process runs a thread of
    the library, no signal but the restart signal is around, the processes
    block it except in [suspend], and nobody is canceled.  The class [PoolInv]
    says what the rules for [suspend] and [restart] need of the invariant of a
    pool; [MonitorPool] and [SemPool] provide it. *)

From S2P Require Import Prelude Types Machine MachineFacts Platform Memory Spinlock Queue.
From S2P Require Import Restart Interleave.

Section threads.
Context {P : Platform}.

(** Process [p] has the restart signal pending. *)
Definition signaled (σ : state) (p : Z) : Prop :=
  exists pr, procs (krn σ) !! p = Some pr /\ PTHREAD_SIG_RESTART ∈ pr_pending pr.

(** The processes are threads of the library, and no signal but the restart
    signal is around; they block it except in [suspend]. *)
Definition threads_ok (ps : list Z) (self : Z -> addr) (σ : state) : Prop :=
  restart_installed σ /\ forall p, p ∈ ps -> exists pr d,
    runs_thread p (self p) pr d σ /\ p_pid d = p /\ p_signal_jmp d = NULL /\
    PTHREAD_SIG_RESTART ∈ pr_mask pr /\ pr_pending pr ⊆ {[PTHREAD_SIG_RESTART]}.

Lemma signaled_upd p f σ pr q : procs (krn σ) !! p = Some pr ->
  signaled (upd_proc p f σ) q <->
    (q = p /\ PTHREAD_SIG_RESTART ∈ pr_pending (f pr)) \/ (q <> p /\ signaled σ q).
Proof.
  intros Hp. unfold signaled. rewrite procs_upd_proc, lookup_alter.
  case_decide; [subst; rewrite Hp; simpl; naive_solver | naive_solver].
Qed.

Section laws.
Context (ps : list Z) (self : Z -> addr).

Lemma threads_ok_ext σ σ' :
  sigactions (krn σ') = sigactions (krn σ) -> glb σ' = glb σ ->
  (forall p pr, procs (krn σ) !! p = Some pr -> exists pr', procs (krn σ') !! p = Some pr' /\
     pr_sp pr' = pr_sp pr /\
     (PTHREAD_SIG_RESTART ∈ pr_mask pr -> PTHREAD_SIG_RESTART ∈ pr_mask pr') /\
     (pr_pending pr ⊆ {[PTHREAD_SIG_RESTART]} -> pr_pending pr' ⊆ {[PTHREAD_SIG_RESTART]})) ->
  (forall x d, thr σ !! x = Some d -> exists d', thr σ' !! x = Some d' /\
     p_pid d' = p_pid d /\ p_signal_jmp d' = p_signal_jmp d) ->
  threads_ok ps self σ -> threads_ok ps self σ'.
Proof.
  intros Hsa Hgl Hpr Ht [Hi Hth]. split; [unfold restart_installed, action_of in *; by rewrite Hsa|].
  intros p Hp. destruct (Hth p Hp) as (pr & d & [H1 H2 H3] & Hpid & Hj & Hm & Hpend).
  destruct (Hpr p pr H1) as (pr' & H1' & Hsp & Hm' & Hpend').
  destruct (Ht _ d H3) as (d' & H3' & Hpid' & Hj').
  exists pr', d'. split; [constructor; [done | by rewrite Hgl, Hsp | done]|].
  repeat split; [congruence | congruence | auto | auto].
Qed.

(** Nothing but the memory changes. *)
Lemma threads_ok_mem σ σ' :
  krn σ' = krn σ -> glb σ' = glb σ ->
  (forall x d, thr σ !! x = Some d -> exists d', thr σ' !! x = Some d' /\
     p_pid d' = p_pid d /\ p_signal_jmp d' = p_signal_jmp d) ->
  threads_ok ps self σ -> threads_ok ps self σ'.
Proof. intros Hk Hg Ht. apply threads_ok_ext; [by rewrite Hk | done | rewrite Hk; eauto | done]. Qed.

(** Nothing but the kernel changes. *)
Lemma threads_ok_proc p f σ :
  (forall pr, pr_sp (f pr) = pr_sp pr /\
     (PTHREAD_SIG_RESTART ∈ pr_mask pr -> PTHREAD_SIG_RESTART ∈ pr_mask (f pr)) /\
     (pr_pending pr ⊆ {[PTHREAD_SIG_RESTART]} -> pr_pending (f pr) ⊆ {[PTHREAD_SIG_RESTART]})) ->
  threads_ok ps self σ -> threads_ok ps self (upd_proc p f σ).
Proof.
  intros Hf. apply threads_ok_ext; [done | done | | eauto].
  intros q pr Hq. rewrite procs_upd_proc, lookup_alter. case_decide; [subst|by eauto].
  rewrite Hq. simpl. eauto.
Qed.

(** Outside of [suspend] no signal is taken. *)
Lemma threads_quiet σ p pr :
  threads_ok ps self σ -> p ∈ ps -> procs (krn σ) !! p = Some pr ->
  pick_signal (pr_pending pr) (pr_mask pr) = None.
Proof.
  intros [_ Hth] Hps Hp. destruct (Hth p Hps) as (pr' & d & [Hpr _ _] & _ & _ & Hm & Hs).
  simplify_eq. destruct (pick_signal _ _) as [s|] eqn:E; [|done].
  apply pick_signal_Some in E as [Hin Hb].
  assert (s = PTHREAD_SIG_RESTART) as -> by set_solver.
  unfold blocked in Hb. by rewrite bool_decide_eq_true_2 in Hb.
Qed.
End laws.

(** No thread is being canceled. *)
Definition not_canceled (ps : list Z) (self : Z -> addr) (σ : state) : Prop :=
  forall p, p ∈ ps -> p_canceled <$> thr σ !! self p = Some 0.
End threads.

(** The states differ in the kernel only. *)
Record same_mem (σ σ' : state) : Prop := {
  sm_mtx : mtx σ' = mtx σ;
  sm_cnd : cnd σ' = cnd σ;
  sm_sms : sms σ' = sms σ;
  sm_thr : thr σ' = thr σ;
  sm_words : words σ' = words σ
}.

Lemma same_mem_proc p f σ : same_mem σ (upd_proc p f σ).
Proof. done. Qed.

(** ** What the rules ask of an invariant *)

Class PoolInv {P : Platform} {G} (ps : list Z) (self : Z -> addr)
    (Inv : gmap Z G -> state -> Prop) := {
  pool_threads Γ σ : Inv Γ σ -> threads_ok ps self σ;
  pool_uncanceled Γ σ : Inv Γ σ -> not_canceled ps self σ;
  pool_in Γ σ p g : Inv Γ σ -> Γ !! p = Some g -> p ∈ ps;
  pool_mgr p : p ∈ ps -> self p <> addr_manager_thread;
  pool_ext Γ σ σ' : Inv Γ σ -> threads_ok ps self σ' -> not_canceled ps self σ' ->
    mtx σ' = mtx σ -> cnd σ' = cnd σ -> sms σ' = sms σ -> words σ' = words σ ->
    (forall x, next_of (thr σ') x = next_of (thr σ) x) ->
    (forall x, p_signal <$> thr σ' !! x = p_signal <$> thr σ !! x) ->
    (forall q, signaled σ' q <-> signaled σ q) -> Inv Γ σ'
}.

Section rules.
Context {H : Handlers} {P : Platform} {Hr : RestartHandler H P} {G : Type}.
Context (ps : list Z) (self : Z -> addr) (Inv : gmap Z G -> state -> Prop).
Context (asleep : Z -> state -> G -> Prop) `{!PoolInv ps self Inv}.

Abbreviation triple := (triple Inv asleep).

(** Outside of [sigsuspend] no signal is taken. *)
Lemma pool_quiet Γ σ p g pr : Inv Γ σ -> Γ !! p = Some g -> procs (krn σ) !! p = Some pr ->
  pick_signal (pr_pending pr) (pr_mask pr) = None.
Proof.
  intros Hi Hg. eapply threads_quiet; [exact (pool_threads Γ σ Hi) | by eapply pool_in].
Qed.

(** The process [p] of a pool and its descriptor. *)
Lemma pool_thread Γ σ p : Inv Γ σ -> p ∈ ps ->
  exists pr d, runs_thread p (self p) pr d σ /\ p_pid d = p /\ p_signal_jmp d = NULL /\
    PTHREAD_SIG_RESTART ∈ pr_mask pr /\ pr_pending pr ⊆ {[PTHREAD_SIG_RESTART]}.
Proof. intros Hi Hp. by apply (pool_threads Γ σ Hi). Qed.

Lemma t_self {A} p g (k : addr -> itree evt A) Q :
  (p ∈ ps -> triple p g (k (self p)) Q) -> triple p g (ITree.bind thread_self k) Q.
Proof.
  intros Hk. apply triple_read. intros Γ σ Hi Hg. pose proof (pool_in _ _ _ _ Hi Hg) as Hp.
  destruct (pool_thread _ _ _ Hi Hp) as (pr & d & [Hpr Hs _] & _).
  exists (self p). rewrite Hpr, Hs. auto.
Qed.

(** A write to a field of the own descriptor. *)
Lemma threads_ok_store σ x d d' :
  thr σ !! x = Some d -> p_pid d' = p_pid d -> p_signal_jmp d' = p_signal_jmp d ->
  p_canceled d' = p_canceled d ->
  threads_ok ps self σ -> not_canceled ps self σ ->
  let σ' := setf thr (<[x := d']> (thr σ)) σ in threads_ok ps self σ' /\ not_canceled ps self σ'.
Proof.
  intros Hd Hp Hj Hc Hth Hnc σ'. split.
  - eapply threads_ok_mem; [..|exact Hth]; [done | done |]. unfold σ'. fields. intros a e He.
    rewrite lookup_insert. case_decide; [subst; simplify_eq|]; eauto.
  - intros q Hq. unfold σ'. fields. rewrite lookup_insert. specialize (Hnc q Hq).
    case_decide as E; [|done]. rewrite <- E, Hd in Hnc. simpl in *. congruence.
Qed.

(** [self->p_cancel_jmp = j] *)
Lemma t_store_cancel_jmp {A} p g j (k : unit -> itree evt A) Q :
  p ∈ ps -> triple p g (k tt) Q ->
  triple p g (ITree.bind (store thr (self p) p_cancel_jmp j) k) Q.
Proof.
  intros Hp Hk. apply triple_act. intros Γ σ Hi Hg.
  destruct (pool_thread _ _ _ Hi Hp) as (pr & d & [_ _ Hd] & _). rewrite Hd.
  eexists tt, _, g. split; [done|]. split; [|done]. rewrite insert_id by done.
  destruct (threads_ok_store σ (self p) d (setf p_cancel_jmp j d)) as [H1 H2]; try done;
    [exact (pool_threads Γ σ Hi) | exact (pool_uncanceled Γ σ Hi)|].
  eapply pool_ext; [exact Hi | done | done | done..| | | done]; intros x; fields.
  - rewrite next_of_insert. case_decide; [subst|done]. unfold next_of. by rewrite Hd.
  - rewrite lookup_insert. case_decide; [subst; by rewrite Hd | done].
Qed.

Lemma t_cancel_pending {A} p g (k : bool -> itree evt A) Q :
  p ∈ ps -> triple p g (k false) Q ->
  triple p g (ITree.bind (cancel_pending (self p)) k) Q.
Proof.
  intros Hp Hk. unfold cancel_pending. apply triple_assoc, triple_read.
  intros Γ σ Hi Hg. pose proof (pool_uncanceled _ _ Hi p Hp) as Hnc.
  destruct (thr σ !! self p) as [d|]; [|done]. injection Hnc as Hc. exists 0.
  split; [by rewrite Hc|]. simpl. by apply triple_bind_ret.
Qed.

(** The mask from before the handler is put back. *)
Lemma t_set_mask {A} p g mask (k : unit -> itree evt A) Q :
  PTHREAD_SIG_RESTART ∈ mask -> triple p g (k tt) Q ->
  triple p g (act (fun q σ => Some (tt, set_mask q mask σ)) ;; k tt) Q.
Proof.
  intros Hmask Hk. apply triple_act. intros Γ σ Hi Hg.
  eexists tt, _, g. split; [done|]. split; [|done]. rewrite insert_id by done.
  destruct (pool_thread _ _ _ Hi (pool_in _ _ _ _ Hi Hg)) as (pr & d & [Hpr _ _] & _).
  eapply pool_ext; [exact Hi | | exact (pool_uncanceled Γ σ Hi) | done..|].
  - apply threads_ok_proc; [done | exact (pool_threads Γ σ Hi)].
  - intros q. unfold set_mask. rewrite (signaled_upd _ _ _ pr) by done. unfold signaled. fields.
    destruct (decide (q = p)) as [->|]; naive_solver.
Qed.

(** ** Waiting *)

(** How the ghost state of [p] changes when it waits: [gs] in [suspend], [gw]
    in the handler, [gr] when the handler has recorded the signal. *)
Record wakes (p : Z) (gs gw gr : G) : Prop := {
  wk_asleep Γ σ : Inv Γ σ -> Γ !! p = Some gs -> ~ signaled σ p -> asleep p σ gs;
  wk_taken Γ σ σ' : Inv Γ σ -> Γ !! p = Some gs -> signaled σ p -> same_mem σ σ' ->
    threads_ok ps self σ' -> not_canceled ps self σ' ->
    (forall q, signaled σ' q <-> q <> p /\ signaled σ q) -> Inv (<[p := gw]> Γ) σ';
  wk_woken Γ σ d : Inv Γ σ -> Γ !! p = Some gw -> thr σ !! self p = Some d ->
    let σ' := setf thr (<[self p := setf p_signal PTHREAD_SIG_RESTART d]> (thr σ)) σ in
    threads_ok ps self σ' -> not_canceled ps self σ' -> Inv (<[p := gr]> Γ) σ';
  wk_signal Γ σ : Inv Γ σ -> Γ !! p = Some gr ->
    p_signal <$> thr σ !! self p = Some PTHREAD_SIG_RESTART
}.

Section wait.
Context (p : Z) (gs gw gr : G) (p_in : p ∈ ps) (W : wakes p gs gw gr).

Lemma t_handler {A} (k : unit -> itree evt A) Q :
  triple p gr (k tt) Q ->
  triple p gw (ITree.bind (__pthread_sighandler PTHREAD_SIG_RESTART) k) Q.
Proof.
  intros Hk. unfold __pthread_sighandler. apply triple_assoc, t_self. intros Hp.
  rewrite (proj2 (Z.eqb_neq _ _) (pool_mgr p Hp)).
  apply triple_assoc, triple_act. intros Γ σ Hi Hg.
  destruct (pool_thread _ _ _ Hi Hp) as (pr & d & [Hpr Hs Hd] & Hpid & Hj & _). rewrite Hd.
  eexists tt, _, gr. split; [done|]. split.
  - destruct (threads_ok_store σ (self p) d (setf p_signal PTHREAD_SIG_RESTART d)) as [H1 H2];
      try done; [exact (pool_threads Γ σ Hi) | exact (pool_uncanceled Γ σ Hi)|].
    by apply (wk_woken _ _ _ _ W).
  - apply triple_assoc, triple_read. intros Γ' σ' Hi' Hg'.
    destruct (pool_thread _ _ _ Hi' Hp) as (pr' & d' & [Hpr' Hs' Hd'] & _ & Hj' & _). rewrite Hd'.
    exists NULL. rewrite Hj'. split; [done|]. simpl. by apply triple_bind_ret.
Qed.

Lemma t_sigsuspend {A} mask (k : unit -> itree evt A) Q :
  triple p gr (k tt) Q ->
  triple p gs (ITree.bind (sigsuspend (sigdelset mask PTHREAD_SIG_RESTART)) k) Q.
Proof.
  intros Hk. apply triple_sigsuspend. intros Γ σ Hi Hg.
  destruct (pool_thread _ _ _ Hi p_in) as (pr & d & [Hpr Hs Hd] & Hpid & Hj & Hmask & Hpend).
  exists pr. split; [done|]. destruct (pick_signal _ _) as [sg|] eqn:Hpk; cycle 1.
  { apply (wk_asleep _ _ _ _ W Γ); [done | done |]. intros (pr' & Hpr' & Hin). simplify_eq.
    apply (pick_signal_None _ _ PTHREAD_SIG_RESTART) in Hpk; [|done|done].
    by rewrite restart_unblocked in Hpk. }
  apply pick_signal_Some in Hpk as [Hin _].
  assert (sg = PTHREAD_SIG_RESTART) as -> by set_solver.
  rewrite (proj1 (pool_threads _ _ Hi)). eexists. split; [done|]. exists gw. split.
  - apply (wk_taken _ _ _ _ W Γ σ); [done | done | by exists pr | done | | |].
    + apply threads_ok_proc; [intros; fields; set_solver|].
      apply threads_ok_proc; [intros; fields; set_solver | exact (pool_threads Γ σ Hi)].
    + exact (pool_uncanceled Γ σ Hi).
    + intros q. unfold set_mask, clear_signal. rewrite upd_proc_upd_proc.
      rewrite (signaled_upd _ _ _ pr) by done. unfold compose. fields. set_solver.
  - rewrite restart_handler. apply t_handler. by apply t_set_mask.
Qed.

Lemma t_wait_restart mask :
  triple p gs (wait_restart (self p) (sigdelset mask PTHREAD_SIG_RESTART)) (fun _ g => g = gr).
Proof.
  unfold wait_restart, c_while. apply (triple_loop _ _ _ _ (fun _ g => g = gs)); [|done].
  intros [] g ->. apply triple_assoc, t_sigsuspend, triple_assoc, triple_read.
  intros Γ σ Hi Hg. pose proof (wk_signal _ _ _ _ W Γ σ Hi Hg) as Hs.
  destruct (thr σ !! self p) as [d|]; [|done].
  exists PTHREAD_SIG_RESTART. split; [by injection Hs as ->|].
  simpl. by apply triple_bind_ret, triple_ret.
Qed.

Lemma t_suspend {A} (k : unit -> itree evt A) Q :
  triple p gr (k tt) Q -> triple p gs (ITree.bind (suspend (self p)) k) Q.
Proof.
  intros Hk. eapply triple_bind.
  - unfold suspend, sigprocmask. apply triple_assoc, triple_read. intros Γ σ Hi Hg.
    destruct (pool_thread _ _ _ Hi p_in) as (pr & d & [Hpr _ _] & _). rewrite Hpr.
    eexists. split; [done|]. simpl. apply triple_bind_ret. simpl. by apply t_wait_restart.
  - by intros [] g ->.
Qed.

(** The process may enter the waiting state when it calls the function. *)
Lemma t_suspend_cancel {A} g0 (k : unit -> itree evt A) Q :
  (forall Γ σ, Inv Γ σ -> Γ !! p = Some g0 -> Inv (<[p := gs]> Γ) σ) ->
  triple p gr (k tt) Q ->
  triple p g0 (ITree.bind (suspend_with_cancellation (self p)) k) Q.
Proof.
  intros Hg0 Hk. unfold suspend_with_cancellation, sigprocmask.
  apply triple_assoc, triple_assoc, triple_act. intros Γ σ Hi Hg.
  destruct (pool_thread _ _ _ Hi p_in) as (pr & d & [Hpr _ _] & _). rewrite Hpr.
  eexists _, σ, gs. split; [done|]. split; [by apply Hg0|]. simpl. apply triple_bind_ret. simpl.
  apply triple_assoc, triple_setjmp.
  { intros Γ' σ' Hi' _. destruct (pool_thread _ _ _ Hi' p_in) as (pr' & d' & [Hpr' _ _] & _). eauto. }
  unfold after_setjmp. simpl. apply triple_assoc, t_store_cancel_jmp; [done|].
  apply triple_assoc, t_cancel_pending; [done|]. simpl. apply triple_assoc.
  eapply triple_bind; [apply t_wait_restart|]. intros [] g ->.
  by apply t_store_cancel_jmp.
Qed.
End wait.

(** ** Waking *)

Lemma t_restart {A} p g g' x (k : unit -> itree evt A) Q :
  (forall Γ σ, Inv Γ σ -> Γ !! p = Some g -> x ∈ ps) ->
  (forall Γ σ σ', Inv Γ σ -> Γ !! p = Some g -> same_mem σ σ' ->
     threads_ok ps self σ' -> not_canceled ps self σ' ->
     (forall q, signaled σ' q <-> q = x \/ signaled σ q) -> Inv (<[p := g']> Γ) σ') ->
  triple p g' (k tt) Q ->
  triple p g (ITree.bind (restart (self x)) k) Q.
Proof.
  intros Hx Hkill Hk. unfold restart. apply triple_assoc, triple_read.
  intros Γ σ Hi Hg. destruct (pool_thread _ _ _ Hi (Hx _ _ Hi Hg)) as (pr & d & [_ _ Hd] & Hpid & _).
  rewrite Hd. exists x. split; [by rewrite Hpid|]. unfold kill. do 2 apply triple_assoc.
  apply triple_act. clear Γ σ Hi Hg pr d Hd Hpid. intros Γ σ Hi Hg.
  destruct (pool_thread _ _ _ Hi (Hx _ _ Hi Hg)) as (pr & d & [Hpr _ _] & _). simpl. rewrite Hpr.
  eexists 0, _, g'. split; [done|]. split; [|simpl; by apply triple_bind_ret, triple_bind_ret].
  apply (Hkill Γ σ); [done | done | done | | exact (pool_uncanceled Γ σ Hi) |].
  - apply threads_ok_proc; [intros; fields; set_solver | exact (pool_threads Γ σ Hi)].
  - intros q. unfold post_signal. rewrite (signaled_upd _ _ _ pr) by done. fields.
    destruct (decide (q = x)) as [->|]; set_solver.
Qed.
End rules.
