(* ===== verification/MonitorPool.v ===== *)
(** * Mutexes and conditions under every interleaving

    The processes [ps] use one FAST mutex and a number of conditions with it,
    in any order.  A client is described by the type [U] of what each of its
    processes is doing, by [crit u] (the process owns the mutex), and by an
    invariant [UI] on the [int] objects of the program and the queues of the
    conditions.  The rules for [pthread_mutex_lock], [pthread_mutex_unlock],
    [pthread_cond_wait] and [pthread_cond_signal] at the end of this file hold
    whatever the client is; [MutexPool] and [Ex2] are clients.

    The proof is in the logic of [Interleave].  The ghost state of a process
    has the client's account, what the process knows of the object whose
    spinlock it holds, and how it stands to the queues. *)

From stdpp Require Import relations functions.
From S2P Require Import Prelude Types Machine MachineFacts Platform Memory Spinlock Queue.
From S2P Require Import Restart Mutex Cleanup Specific Join Cond Interleave PoolThreads.

(** ** Ghost states *)

(** How a process stands to the queues: it runs, and may be the one that has
    been woken to take the mutex ([tok]); it is in [suspend] or on its way
    there; it has been woken and handles the signal; it has taken [q] off a
    queue and is about to wake it. *)
Inductive place :=
| Running (tok : bool)
| Suspending
| Woken
| Waking (q : pid_t).

Definition is_tok (pl : place) : bool :=
  match pl with Running b => b | Woken => true | _ => false end.

(** An object: [None] is the mutex, [Some c] the condition [c].  A process that
    holds its spinlock knows its queue, the lock count of the mutex, the links
    of the threads in the queue and, as a list, these threads. *)
Record held := mk_held {
  h_obj : option Z;
  h_q : _pthread_queue;
  h_count : Z;
  h_thr : gmap Z _pthread;
  h_list : list Z
}.

(** [g_cond]: the condition in whose queue the process has put itself. *)
Record ghost (U : Type) := mk_ghost {
  g_user : U;
  g_op : option held;
  g_cond : option Z;
  g_place : place
}.
Arguments mk_ghost {U}. Arguments g_user {U}. Arguments g_op {U}.
Arguments g_cond {U}. Arguments g_place {U}.

(** Where the wake-up of a process that waits is. *)
Inductive wait_st :=
| Awake
| Queued (o : option Z)
| Popped (q : pid_t)
| Signaled.

(** What no process knows alone: the queues, the holders of the spinlocks, the
    owner of the mutex, the processes that have been woken, the states of the
    waiting processes. *)
Record shared := mk_shared {
  s_queue : option Z -> list Z;
  s_op : option Z -> option Z;
  s_owner : option Z;
  s_tok : gset Z;
  s_wait : gmap Z wait_st
}.

(** The part of the memory that belongs to the library. *)
Record mview := mk_mview {
  v_spin : option Z -> Z;
  v_que : option Z -> _pthread_queue;
  v_count : Z;
  v_thr : gmap Z _pthread
}.

Definition awake {U} (g : ghost U) : Prop := g_place g <> Suspending /\ g_cond g = None.

Definition cqueues (S : shared) : Z -> list Z := fun c => s_queue S (Some c).

Section invariant.
Context {P : Platform} {Pok : PlatformOk P} {U : Type}.
Context (m : addr) (cs ps : list Z) (self : Z -> addr).
Context (crit : U -> bool) (UI : gmap Z U -> gmap Z Z -> (Z -> list Z) -> Prop).

Definition is_obj (o : option Z) : Prop := match o with None => True | Some c => c ∈ cs end.

Definition lock_of (o : option Z) : intptr :=
  match o with None => m_spinlock_at m | Some c => c_spinlock_at c end.
Definition queue_of (o : option Z) : queueptr :=
  match o with None => m_waiting_at m | Some c => c_waiting_at c end.

(** The memory [M] is that of the state. *)
Record mem_rep (σ : state) (M : mview) : Prop := {
  mr_spin : forall o, is_obj o -> get_int (lock_of o) σ = Some (v_spin M o);
  mr_que : forall o, is_obj o -> get_queue (queue_of o) σ = Some (v_que M o);
  mr_kind : m_kind <$> mtx σ !! m = Some PTHREAD_MUTEX_FAST_NP;
  mr_count : m_count <$> mtx σ !! m = Some (v_count M);
  mr_thr : thr σ = v_thr M
}.

(** The shared state is consistent, and the memory implements it: outside of
    the operations on an object its queue is represented by the links; the
    count tells whether there is an owner; if there is none and threads wait
    for the mutex, some thread is on its way. *)
Record glob_ok (S : shared) (M : mview) : Prop := {
  go_obj : forall o, is_obj o -> match s_op S o with
           | None => v_spin M o = 0 /\ queue_rep (v_thr M) (v_que M o) (self <$> s_queue S o)
           | Some _ => v_spin M o = locked
           end;
  go_links : forall p, p ∈ ps -> (forall o, p ∉ s_queue S o) ->
    next_of (v_thr M) (self p) = Some NULL;
  go_queue : forall o p, p ∈ s_queue S o -> p ∈ ps /\ is_obj o;
  go_count : v_count M = match s_owner S with None => 0 | Some _ => 1 end;
  go_owner : forall p, s_owner S = Some p -> p ∈ ps;
  go_tok : forall p, p ∈ s_tok S -> p ∈ ps;
  go_wait : forall p s, s_wait S !! p = Some s -> p ∈ ps;
  go_popped : forall p q, s_wait S !! p = Some (Popped q) -> q ∈ ps /\ q <> p;
  go_progress : s_owner S = None -> s_queue S None <> [] ->
    (exists p, p ∈ s_tok S) \/ (exists p, s_wait S !! p = Some Signaled) \/
    (exists p q, s_wait S !! p = Some (Popped q))
}.

(** What the holder [p] of a spinlock knows is true. *)
Record know (S : shared) (M : mview) (h : held) : Prop := {
  kn_obj : is_obj (h_obj h);
  kn_q : h_q h = v_que M (h_obj h);
  kn_count : h_obj h = None -> h_count h = v_count M;
  kn_list : h_list h = s_queue S (h_obj h);
  kn_thr : forall q, q ∈ h_list h ->
    next_of (v_thr M) (self q) = next_of (h_thr h) (self q)
}.

(** The ghost state of process [p] agrees with the shared state. *)
Record proc_ok (S : shared) (M : mview) (sig : Z -> Prop) (p : Z) (g : ghost U) : Prop := {
  po_op : forall o, s_op S o = Some p <-> h_obj <$> g_op g = Some o;
  po_know : forall h, g_op g = Some h -> know S M h;
  po_own : crit (g_user g) = true <-> s_owner S = Some p;
  po_tok : is_tok (g_place g) = true <-> p ∈ s_tok S;
  po_signal : g_place g = Running true -> g_op g = None ->
    p_signal <$> v_thr M !! self p = Some PTHREAD_SIG_RESTART;
  po_popped : forall q, g_place g = Waking q <-> s_wait S !! q = Some (Popped p);
  po_awake : s_wait S !! p = Some Awake <-> awake g;
  po_some : is_Some (s_wait S !! p);
  po_queue : forall o, p ∈ s_queue S o <-> s_wait S !! p = Some (Queued o);
  po_cond : forall o, s_wait S !! p = Some (Queued o) -> g_cond g = o;
  po_sig : sig p <-> s_wait S !! p = Some Signaled;
  po_sleep : g_place g = Suspending -> crit (g_user g) = false
}.

Record abs (Γ : gmap Z (ghost U)) (S : shared) (M : mview) (sig : Z -> Prop) (w : gmap Z Z)
    : Prop := {
  ab_dom : forall p, is_Some (Γ !! p) <-> p ∈ ps;
  ab_glob : glob_ok S M;
  ab_proc : forall p g, Γ !! p = Some g -> proc_ok S M sig p g;
  ab_user : UI (g_user <$> Γ) w (cqueues S)
}.

Definition MInv (Γ : gmap Z (ghost U)) (σ : state) : Prop :=
  threads_ok ps self σ /\ not_canceled ps self σ /\
  exists S M, mem_rep σ M /\ abs Γ S M (signaled σ) (words σ).

(** A process waits only in [suspend], and while it has not been
    restarted. *)
Definition asleep (p : Z) (σ : state) (g : ghost U) : Prop :=
  g_place g = Suspending /\ g_op g = None /\ ~ signaled σ p.
End invariant.

(** ** Steps of the ghost states *)

Section steps.
Context {P : Platform} {Pok : PlatformOk P} {U : Type}.
Context (cs ps : list Z) (self : Z -> addr).
Context (crit : U -> bool) (UI : gmap Z U -> gmap Z Z -> (Z -> list Z) -> Prop).
Context (UI_ext : forall us w q q', (forall c, q' c = q c) -> UI us w q -> UI us w q').

Abbreviation glob_ok := (glob_ok cs ps self).
Abbreviation proc_ok := (proc_ok cs self crit).
Abbreviation abs := (abs cs ps self crit UI).
Abbreviation know := (know cs self).

(** A step of process [p]. *)
Lemma abs_update Γ S M sig w p g g' S' M' sig' w' :
  abs Γ S M sig w -> Γ !! p = Some g ->
  glob_ok S' M' -> proc_ok S' M' sig' p g' ->
  (forall q (gq : ghost U), q <> p -> q ∈ ps -> proc_ok S M sig q gq -> proc_ok S' M' sig' q gq) ->
  UI (<[p := g_user g']> (g_user <$> Γ)) w' (cqueues S') ->
  abs (<[p := g']> Γ) S' M' sig' w'.
Proof.
  intros [Hd Hgl Hpr Hs] Hg Hgl' Hp' Hoth HU. assert (Hp : p ∈ ps) by (apply Hd; eauto).
  constructor; [|done|..].
  - intros q. rewrite <- (Hd q), lookup_insert. case_decide; [subst; rewrite Hg; by split | done].
  - intros q gq [[<- <-]|[Hne Hq]]%lookup_insert_Some; [done|]. apply Hoth; [done| |auto].
    apply Hd; eauto.
  - by rewrite fmap_insert.
Qed.

(** The client's account stays, and so do the queues of the conditions. *)
Lemma ui_same Γ S M sig w p g g' S' : abs Γ S M sig w -> Γ !! p = Some g ->
  g_user g' = g_user g -> (forall c, s_queue S' (Some c) = s_queue S (Some c)) ->
  UI (<[p := g_user g']> (g_user <$> Γ)) w (cqueues S').
Proof.
  intros Ha Hg E Hq. rewrite insert_id by (rewrite lookup_fmap, Hg; simpl; by rewrite E).
  eapply UI_ext; [|apply Ha]. exact Hq.
Qed.

(** The part of the invariant that belongs to another process [q]. *)
Lemma proc_frame S M sig S' M' sig' q (g : ghost U) :
  proc_ok S M sig q g ->
  (forall o, s_op S' o = Some q <-> s_op S o = Some q) ->
  (forall h, s_op S (h_obj h) = Some q -> know S M h -> know S' M' h) ->
  (s_owner S' = Some q <-> s_owner S = Some q) ->
  (q ∈ s_tok S' <-> q ∈ s_tok S) ->
  p_signal <$> v_thr M' !! self q = p_signal <$> v_thr M !! self q ->
  (forall r, s_wait S' !! r = Some (Popped q) <-> s_wait S !! r = Some (Popped q)) ->
  (s_wait S' !! q = Some Awake <-> s_wait S !! q = Some Awake) ->
  is_Some (s_wait S' !! q) ->
  (forall o, s_wait S' !! q = Some (Queued o) -> s_wait S !! q = Some (Queued o)) ->
  (forall o, q ∈ s_queue S' o <-> s_wait S' !! q = Some (Queued o)) ->
  (sig' q <-> s_wait S' !! q = Some Signaled) ->
  proc_ok S' M' sig' q g.
Proof.
  intros [] Hop Hkn Hown Htok Hs Hpop Haw Hso Hqd Hq Hsig. constructor; try done.
  - intros o. by rewrite Hop.
  - intros h Hh. apply Hkn; [apply po_op0; by rewrite Hh | auto].
  - by rewrite Hown.
  - by rewrite Htok.
  - by rewrite Hs.
  - intros r. by rewrite Hpop.
  - by rewrite Haw.
  - auto.
Qed.

(** Two processes do not hold the same spinlock. *)
Lemma op_ne Γ S M sig w p g h q o : abs Γ S M sig w -> Γ !! p = Some g -> g_op g = Some h ->
  q <> p -> s_op S o = Some q -> o <> h_obj h.
Proof.
  intros Ha Hg Ho Hne Hq ->. pose proof (po_op _ _ _ _ _ _ _ _ (ab_proc _ _ _ _ _ _ _ _ _ _ Ha p g Hg) (h_obj h)) as E.
  rewrite Ho in E. rewrite (proj2 E eq_refl) in Hq. congruence.
Qed.

(** A process is in one queue only. *)
Lemma queues_disjoint Γ S M sig w q o o' : abs Γ S M sig w ->
  q ∈ s_queue S o -> q ∈ s_queue S o' -> o' = o.
Proof.
  intros [Hd [] Hpr _] Hq Hq'. destruct (proj2 (Hd q) (proj1 (go_queue0 _ _ Hq))) as [g Hg].
  destruct (Hpr q g Hg). apply po_queue0 in Hq, Hq'. congruence.
Qed.
Lemma know_frame S M S' M' h : know S M h ->
  v_que M' (h_obj h) = v_que M (h_obj h) -> s_queue S' (h_obj h) = s_queue S (h_obj h) ->
  (h_obj h = None -> v_count M' = v_count M) ->
  (forall q, q ∈ s_queue S (h_obj h) ->
     next_of (v_thr M') (self q) = next_of (v_thr M) (self q)) ->
  know S' M' h.
Proof.
  intros [] Hv Hq Hc HT. constructor; [done | congruence | | congruence |].
  - intros E. rewrite Hc by done. auto.
  - intros q Hin. rewrite HT by congruence. auto.
Qed.

(** The process that holds a spinlock writes to the queue and to the links of
    the threads in it. *)
Lemma abs_write Γ S M sig w p u h cd pl v' T' T0' :
  let h' := mk_held (h_obj h) v' (h_count h) T0' (h_list h) in
  abs Γ S M sig w -> Γ !! p = Some (mk_ghost u (Some h) cd pl) ->
  (forall q, q ∈ h_list h -> next_of T' (self q) = next_of T0' (self q)) ->
  (forall q, q ∈ ps -> q ∉ h_list h -> next_of T' (self q) = next_of (v_thr M) (self q)) ->
  (forall x, p_signal <$> T' !! x = p_signal <$> v_thr M !! x) ->
  abs (<[p := mk_ghost u (Some h') cd pl]> Γ) S
    (mk_mview (v_spin M) (<[h_obj h := v']> (v_que M)) (v_count M) T') sig w.
Proof.
  intros h' Ha Hg HT HT0 HTs. pose proof Ha as [_ [] Hpr _].
  pose proof (Hpr p _ Hg) as []. simpl in *. pose proof (po_know0 h eq_refl) as [].
  assert (Hop : s_op S (h_obj h) = Some p) by (by apply po_op0).
  assert (HT' : forall o q, o <> h_obj h -> q ∈ s_queue S o ->
    next_of T' (self q) = next_of (v_thr M) (self q)).
  { intros o q Hne Hq. apply HT0; [by eapply go_queue0|]. rewrite kn_list0. intros Hq'.
    by apply Hne, (queues_disjoint _ _ _ _ _ q _ o Ha Hq'). }
  eapply abs_update; [done | done |..].
  - constructor; simpl; try done.
    + intros o Ho. specialize (go_obj0 o Ho). destruct (s_op S o) eqn:E; [done|].
      assert (o <> h_obj h) by congruence. rewrite fn_lookup_insert_ne by done.
      destruct go_obj0 as [? Hrep]. split; [done|]. eapply queue_rep_ext; [|exact Hrep].
      intros x (q & -> & Hq)%list_elem_of_fmap. by eapply HT'.
    + intros q Hq Hnq. rewrite HT0; [auto | done | rewrite kn_list0; auto].
  - constructor; simpl; try done.
    intros ? [= <-]. constructor; simpl; try done. by rewrite fn_lookup_insert.
  - intros q gq Hne Hq Hok. pose proof Hok as []. eapply proc_frame; [exact Hok|..]; simpl; try done.
    intros h1 Hh1 Hk. pose proof (op_ne _ _ _ _ _ _ _ h _ _ Ha Hg eq_refl Hne Hh1) as Hno.
    eapply know_frame; [exact Hk | | done | done |]; simpl.
    + by rewrite fn_lookup_insert_ne.
    + intros r Hr. by eapply HT'.
  - by eapply ui_same.
Qed.

(** Taking a spinlock. *)
Lemma abs_acquire Γ S M sig w p u cd pl o :
  let h := mk_held o (v_que M o) (v_count M) (v_thr M) (s_queue S o) in
  abs Γ S M sig w -> Γ !! p = Some (mk_ghost u None cd pl) -> is_obj cs o -> s_op S o = None ->
  abs (<[p := mk_ghost u (Some h) cd pl]> Γ)
    (mk_shared (s_queue S) (<[o := Some p]> (s_op S)) (s_owner S) (s_tok S) (s_wait S))
    (mk_mview (<[o := locked]> (v_spin M)) (v_que M) (v_count M) (v_thr M)) sig w.
Proof.
  intros h Ha Hg Hobj Hop. pose proof Ha as [_ [] Hpr _]. pose proof (Hpr p _ Hg) as [].
  simpl in *. eapply abs_update; [done | done |..].
  - constructor; simpl; try done. intros o' Ho'. destruct (decide (o = o')) as [<-|Hne].
    + by rewrite !fn_lookup_insert.
    + rewrite !fn_lookup_insert_ne by done. by apply go_obj0.
  - constructor; simpl; try done.
    + intros o'. destruct (decide (o = o')) as [<-|Hne]; [by rewrite fn_lookup_insert|].
      rewrite fn_lookup_insert_ne by done. rewrite po_op0. split; [done | congruence].
    + intros ? [= <-]. by constructor.
  - intros q gq Hne Hq Hok. pose proof Hok as []. eapply proc_frame; [exact Hok|..]; simpl; try done.
    + intros o'. destruct (decide (o = o')) as [<-|Hno].
      * rewrite fn_lookup_insert, Hop. split; congruence.
      * by rewrite fn_lookup_insert_ne.
    + intros h1 _ Hk. by eapply know_frame.
  - by eapply ui_same.
Qed.

(** The memory after the release of the spinlock of [o], whose queue is now
    [l]. *)
Definition released (M : mview) (o : option Z) : mview :=
  mk_mview (<[o := 0]> (v_spin M)) (v_que M) (v_count M) (v_thr M).

(** The objects after the release. *)
Lemma released_objs Γ S M sig w p u h cd pl l :
  abs Γ S M sig w -> Γ !! p = Some (mk_ghost u (Some h) cd pl) ->
  queue_rep (v_thr M) (h_q h) (self <$> l) ->
  forall o, is_obj cs o -> match <[h_obj h := None]> (s_op S) o with
    | None => v_spin (released M (h_obj h)) o = 0 /\
              queue_rep (v_thr M) (v_que M o) (self <$> <[h_obj h := l]> (s_queue S) o)
    | Some _ => v_spin (released M (h_obj h)) o = locked
    end.
Proof.
  intros Ha Hg Hrep o Ho. destruct Ha as [_ [] Hpr _]. specialize (go_obj0 o Ho).
  pose proof (Hpr p _ Hg) as []. simpl in *. pose proof (po_know0 h eq_refl) as [].
  destruct (decide (h_obj h = o)) as [<-|Hne].
  - rewrite !fn_lookup_insert. by rewrite <- kn_q0.
  - by rewrite !fn_lookup_insert_ne.
Qed.

(** Another process when [p] releases a spinlock; the states of the waiting
    processes may change. *)
Lemma released_other Γ S M sig w p u h cd pl q gq S' l :
  abs Γ S M sig w -> Γ !! p = Some (mk_ghost u (Some h) cd pl) ->
  q <> p -> proc_ok S M sig q gq ->
  s_queue S' = <[h_obj h := l]> (s_queue S) -> s_op S' = <[h_obj h := None]> (s_op S) ->
  s_owner S' = s_owner S -> s_tok S' = s_tok S ∖ {[p]} ->
  (forall r, s_wait S' !! r = Some (Popped q) <-> s_wait S !! r = Some (Popped q)) ->
  (s_wait S' !! q = Some Awake <-> s_wait S !! q = Some Awake) ->
  is_Some (s_wait S' !! q) ->
  (forall o, s_wait S' !! q = Some (Queued o) -> s_wait S !! q = Some (Queued o)) ->
  (forall o, q ∈ s_queue S' o <-> s_wait S' !! q = Some (Queued o)) ->
  (sig q <-> s_wait S' !! q = Some Signaled) ->
  proc_ok S' (released M (h_obj h)) sig q gq.
Proof.
  intros Ha Hg Hne Hok Hqs Hop Hown Htok H1 H2 H3 H4 H5 H6.
  eapply proc_frame; [exact Hok|..]; try done.
  - intros o. rewrite Hop. destruct (decide (h_obj h = o)) as [<-|Hno].
    + rewrite fn_lookup_insert. split; [done|]. intros E.
      by destruct (op_ne _ _ _ _ _ _ _ h _ _ Ha Hg eq_refl Hne E).
    + by rewrite fn_lookup_insert_ne.
  - intros h1 Hh1 Hk. pose proof (op_ne _ _ _ _ _ _ _ h _ _ Ha Hg eq_refl Hne Hh1) as Hno.
    eapply know_frame; [exact Hk | done | | done | done]. rewrite Hqs.
    by rewrite fn_lookup_insert_ne.
  - by rewrite Hown.
  - rewrite Htok. set_solver.
Qed.

(** The process itself no longer holds the spinlock. *)
Lemma released_op Γ S M sig w p u h cd pl :
  abs Γ S M sig w -> Γ !! p = Some (mk_ghost u (Some h) cd pl) ->
  forall o, <[h_obj h := None]> (s_op S) o = Some p <-> h_obj <$> @None held = Some o.
Proof.
  intros Ha Hg o. destruct Ha as [_ _ Hpr _]. pose proof (Hpr p _ Hg) as [].
  destruct (decide (h_obj h = o)) as [<-|Hne]; [by rewrite fn_lookup_insert|].
  rewrite fn_lookup_insert_ne by done. rewrite po_op0. simpl. split; [congruence | done].
Qed.

(** The shared state after the release of a spinlock with the queue as it
    was. *)
Definition unlocked_shared (S : shared) (p : Z) (h : held) : shared :=
  mk_shared (<[h_obj h := h_list h]> (s_queue S)) (<[h_obj h := None]> (s_op S)) (s_owner S)
    (s_tok S ∖ {[p]}) (s_wait S).

(** The process has taken the mutex, or nobody waits for it. *)
Lemma abs_release Γ S M sig w p u h cd b u' :
  abs Γ S M sig w -> Γ !! p = Some (mk_ghost u (Some h) cd (Running b)) ->
  (h_obj h <> None -> b = false) -> queue_rep (h_thr h) (h_q h) (self <$> h_list h) ->
  (h_obj h = None -> h_count h <> 0 \/ h_list h = []) -> crit u' = crit u ->
  UI (<[p := u']> (g_user <$> Γ)) w (cqueues (unlocked_shared S p h)) ->
  abs (<[p := mk_ghost u' None cd (Running false)]> Γ) (unlocked_shared S p h)
    (released M (h_obj h)) sig w.
Proof.
  intros Ha Hg Hb Hrep Hd Hcr HU. pose proof Ha as [_ [] Hpr _]. pose proof (Hpr p _ Hg) as [].
  simpl in *. pose proof (po_know0 h eq_refl) as []. unfold unlocked_shared in *.
  set (o := h_obj h) in *.
  assert (Hsame : forall o', <[o := h_list h]> (s_queue S) o' = s_queue S o').
  { intros o'. destruct (decide (o = o')) as [<-|]; [by rewrite fn_lookup_insert|].
    by rewrite fn_lookup_insert_ne. }
  eapply abs_update; [done | done | | | |exact HU].
  - constructor; simpl; try done.
    + apply (released_objs _ _ _ _ _ _ _ h _ _ (h_list h) Ha Hg).
      eapply queue_rep_ext; [|exact Hrep]. intros x (q & -> & Hq)%list_elem_of_fmap. auto.
    + intros q Hq Hnq. apply go_links0; [done|]. intros o'. by rewrite <- Hsame.
    + intros o' q. rewrite Hsame. auto.
    + set_solver.
    + intros Hn Hq. rewrite Hsame in Hq. destruct o as [c|] eqn:Eo.
      * assert (b = false) as -> by by apply Hb. destruct (go_progress0 Hn Hq) as [[q Hq']|]; [|auto].
        left. exists q. apply elem_of_difference. split; [done|]. intros ->%elem_of_singleton.
        by apply po_tok0 in Hq'.
      * rewrite kn_count0, go_count0, Hn in Hd by done. destruct (Hd eq_refl) as [|E]; [done|].
        by rewrite kn_list0 in E.
  - constructor; simpl; try done.
    + by eapply released_op.
    + by rewrite Hcr.
    + split; [done | set_solver].
    + intros q. rewrite <- po_popped0. by split.
    + rewrite po_awake0. unfold awake. simpl. naive_solver.
    + intros o'. by rewrite Hsame.
  - intros q gq Hne Hq Hok. pose proof Hok as [].
    eapply (released_other _ _ _ _ _ _ _ h _ _ _ _ _ (h_list h) Ha Hg Hne Hok); simpl; try done.
    intros o'. by rewrite Hsame.
Qed.

Lemma linked_last T l x : linked T (l ++ [x]) -> next_of T x = Some NULL.
Proof. induction l as [|y l IH]; simpl; [tauto|]. intros [_ Hl]. auto. Qed.

(** The state of the queues after the release of the spinlock, when [p] has
    put itself at the end of the queue. *)
Definition enqueued_shared (S : shared) (p : Z) (h : held) : shared :=
  mk_shared (<[h_obj h := h_list h ++ [p]]> (s_queue S)) (<[h_obj h := None]> (s_op S)) (s_owner S)
    (s_tok S ∖ {[p]}) (<[p := Queued (h_obj h)]> (s_wait S)).

(** Who is in the queues then. *)
Lemma enqueued_elem S M p h : know S M h -> forall o q,
  q ∈ s_queue (enqueued_shared S p h) o <-> q ∈ s_queue S o \/ (o = h_obj h /\ q = p).
Proof.
  intros [] o q. unfold enqueued_shared. simpl. destruct (decide (h_obj h = o)) as [<-|Hne].
  - rewrite fn_lookup_insert, kn_list0. set_solver.
  - rewrite fn_lookup_insert_ne by done. set_solver.
Qed.

(** [p] then waits for the mutex in [suspend], or for a condition, and has to
    give up the mutex first. *)
Definition enq_case (u : U) (h : held) (b : bool) (pl' : place) : Prop :=
  match h_obj h with
  | None => pl' = Suspending /\ crit u = false /\ h_count h <> 0
  | Some _ => pl' = Running false /\ b = false
  end.

Lemma enqueued_glob Γ S M sig w p u h b pl' :
  abs Γ S M sig w -> Γ !! p = Some (mk_ghost u (Some h) None (Running b)) ->
  queue_rep (h_thr h) (h_q h) (self <$> (h_list h ++ [p])) -> enq_case u h b pl' ->
  glob_ok (enqueued_shared S p h) (released M (h_obj h)).
Proof.
  intros Ha Hg Hrep Hcase. pose proof Ha as [Hdom [] Hpr _]. pose proof (Hpr p _ Hg) as [].
  simpl in *. pose proof (po_know0 h eq_refl) as Hkn. assert (Hp : p ∈ ps) by (apply Hdom; eauto).
  pose proof (enqueued_elem S M p h Hkn) as Hq. destruct Hkn.
  unfold enqueued_shared, enq_case in *. simpl in *. set (o := h_obj h) in *.
  assert (Haw : s_wait S !! p = Some Awake) by by apply po_awake0.
  constructor; simpl; try done.
  - apply (released_objs _ _ _ _ _ _ _ h _ _ (h_list h ++ [p]) Ha Hg).
    eapply queue_rep_ext; [|exact Hrep]. intros x (q & -> & Hq')%list_elem_of_fmap.
    apply elem_of_app in Hq' as [Hq'|E%list_elem_of_singleton]; [auto|]. subst q.
    rewrite go_links0; [symmetry; eapply linked_last; rewrite <- fmap_snoc; apply Hrep | done |].
    intros o' ?%po_queue0. congruence.
  - intros q Hq' Hn. apply go_links0; [done|]. intros o' Ho'. apply (Hn o'), Hq. auto.
  - intros o' q [Hin|[-> ->]]%Hq; [eauto | done].
  - set_solver.
  - intros q s [[<- _]|[_ Hq']]%lookup_insert_Some; eauto.
  - intros q r [[_ [=]]|[_ Hq']]%lookup_insert_Some; eauto.
  - intros Hn Hne. destruct o as [c|].
    + destruct Hcase as [-> ->]. rewrite fn_lookup_insert_ne in Hne by done.
      destruct (go_progress0 Hn Hne) as [[q Hq']|[[q Hq']|(q & r & Hq')]].
      * left. exists q. apply elem_of_difference. split; [done|]. intros ->%elem_of_singleton.
        by apply po_tok0 in Hq'.
      * right; left. exists q. rewrite lookup_insert_ne; [done | congruence].
      * right; right. exists q, r. rewrite lookup_insert_ne; [done | congruence].
    + destruct Hcase as (_ & _ & Hc). rewrite kn_count0, go_count0, Hn in Hc; done.
Qed.

Lemma abs_release_enq Γ S M sig w p u h b u' pl' :
  abs Γ S M sig w -> Γ !! p = Some (mk_ghost u (Some h) None (Running b)) ->
  queue_rep (h_thr h) (h_q h) (self <$> (h_list h ++ [p])) ->
  crit u' = crit u -> enq_case u h b pl' ->
  UI (<[p := u']> (g_user <$> Γ)) w (cqueues (enqueued_shared S p h)) ->
  abs (<[p := mk_ghost u' None (h_obj h) pl']> Γ) (enqueued_shared S p h)
    (released M (h_obj h)) sig w.
Proof.
  intros Ha Hg Hrep Hcr Hcase HU.
  pose proof (enqueued_glob _ _ _ _ _ _ _ _ _ _ Ha Hg Hrep Hcase) as Hgl.
  pose proof Ha as [Hdom _ Hpr _]. pose proof (Hpr p _ Hg) as [].
  simpl in *. pose proof (enqueued_elem S M p h (po_know0 h eq_refl)) as Hq.
  assert (Haw : s_wait S !! p = Some Awake) by by apply po_awake0.
  assert (Hnq : forall o', p ∉ s_queue S o') by (intros o' ?%po_queue0; congruence).
  assert (Hpl : is_tok pl' = false /\ (forall q, pl' <> Waking q) /\ (pl' = Suspending \/ h_obj h <> None)).
  { unfold enq_case in Hcase. destruct (h_obj h); destruct Hcase as [-> _]; simpl; auto. }
  destruct Hpl as (Htk & Hwk & Hsu).
  eapply abs_update; [done | done | exact Hgl | | |exact HU]; unfold enqueued_shared in *.
  - constructor; simpl in *; try done.
    + by eapply released_op.
    + by rewrite Hcr.
    + rewrite Htk. split; [done | set_solver].
    + intros E. by rewrite E in Htk.
    + intros q. rewrite lookup_insert. case_decide; [split; [by intros ?%Hwk | done]|].
      rewrite <- po_popped0. split; [by intros ?%Hwk | done].
    + rewrite lookup_insert_eq. unfold awake. simpl. split; [done|]. intros [? ?]. by destruct Hsu.
    + rewrite lookup_insert_eq. eauto.
    + intros o'. rewrite Hq, lookup_insert_eq. specialize (Hnq o'). naive_solver.
    + intros o'. rewrite lookup_insert_eq. congruence.
    + rewrite lookup_insert_eq, po_sig0, Haw. by split.
    + intros E. unfold enq_case in Hcase. destruct (h_obj h); destruct Hcase as [-> ?]; [done|].
      rewrite Hcr. tauto.
  - intros q gq Hne Hq' Hok. pose proof Hok as [].
    eapply (released_other _ _ _ _ _ _ _ h _ _ _ _ _ (h_list h ++ [p]) Ha Hg Hne Hok); simpl in *;
      rewrite ?(lookup_insert_ne _ p q) by done; try done.
    + intros r. rewrite lookup_insert. case_decide; [subst; rewrite Haw; by split | done].
    + intros o'. rewrite Hq, <- po_queue1. naive_solver.
Qed.

(** The first process of the queue has been taken off. *)
Definition popped_shared (S : shared) (p : Z) (h : held) (x : Z) (l : list Z) : shared :=
  mk_shared (<[h_obj h := l]> (s_queue S)) (<[h_obj h := None]> (s_op S)) (s_owner S)
    (s_tok S ∖ {[p]}) (<[x := Popped p]> (s_wait S)).

Lemma popped_elem Γ S M sig w p h x l : abs Γ S M sig w -> know S M h ->
  h_list h = x :: l -> x ∉ l -> forall o q,
  q ∈ s_queue (popped_shared S p h x l) o <-> q ∈ s_queue S o /\ q <> x.
Proof.
  intros Ha [] Hl Hx o q. unfold popped_shared. simpl. rewrite Hl in *.
  assert (Hxo : x ∈ s_queue S (h_obj h)) by (rewrite <- kn_list0; set_solver).
  destruct (decide (h_obj h = o)) as [<-|Hne].
  - rewrite fn_lookup_insert, <- kn_list0. set_solver.
  - rewrite fn_lookup_insert_ne by done. split; [|tauto]. intros Hin. split; [done|]. intros ->.
    by apply Hne, (queues_disjoint _ _ _ _ _ x _ _ Ha Hin).
Qed.

Lemma abs_release_pop Γ S M sig w p u h cd b x l u' :
  abs Γ S M sig w -> Γ !! p = Some (mk_ghost u (Some h) cd (Running b)) ->
  h_list h = x :: l -> x ∉ l -> crit u' = crit u -> x <> p ->
  queue_rep (h_thr h) (h_q h) (self <$> l) -> next_of (h_thr h) (self x) = Some NULL ->
  UI (<[p := u']> (g_user <$> Γ)) w (cqueues (popped_shared S p h x l)) ->
  abs (<[p := mk_ghost u' None cd (Waking x)]> Γ) (popped_shared S p h x l)
    (released M (h_obj h)) sig w.
Proof.
  intros Ha Hg Hl Hx Hcr Hxp Hrep Hnx HU. pose proof Ha as [Hdom [] Hpr _].
  pose proof (Hpr p _ Hg) as []. simpl in *. pose proof (po_know0 h eq_refl) as Hkn.
  pose proof (popped_elem _ _ _ _ _ p h x l Ha Hkn Hl Hx) as Hq. destruct Hkn.
  assert (Hp : p ∈ ps) by (apply Hdom; eauto). unfold popped_shared in *. simpl in *.
  set (o := h_obj h) in *. rewrite Hl in *.
  assert (Hxo : x ∈ s_queue S o) by (rewrite <- kn_list0; set_solver).
  assert (Hxps : x ∈ ps) by by eapply go_queue0.
  destruct (proj2 (Hdom x) Hxps) as [gx Hgx]. pose proof (Hpr x gx Hgx) as Hox.
  assert (Hwx : s_wait S !! x = Some (Queued o)) by by apply (po_queue _ _ _ _ _ _ _ _ Hox).
  eapply abs_update; [done | done | | | |exact HU].
  - constructor; simpl; try done.
    + apply (released_objs _ _ _ _ _ _ _ h _ _ l Ha Hg).
      eapply queue_rep_ext; [|exact Hrep]. intros y (q & -> & Hq')%list_elem_of_fmap.
      apply kn_thr0. set_solver.
    + intros q Hq' Hn. destruct (decide (q = x)) as [->|Hne].
      * rewrite kn_thr0; [done | set_solver].
      * apply go_links0; [done|]. intros o' Ho'. by apply (Hn o'), Hq.
    + intros o' q [Hin _]%Hq. eauto.
    + set_solver.
    + intros q s [[<- _]|[_ Hq']]%lookup_insert_Some; eauto.
    + intros q r [[<- [= <-]]|[_ Hq']]%lookup_insert_Some; eauto.
    + intros _ _. right; right. exists x, p. apply lookup_insert_eq.
  - constructor; simpl; try done; rewrite ?(lookup_insert_ne _ x p) by done; try done.
    + by eapply released_op.
    + by rewrite Hcr.
    + split; [done | set_solver].
    + intros q. rewrite lookup_insert. case_decide as E; [subst; by split|].
      rewrite <- po_popped0. split; [intros [= E']; congruence | done].
    + rewrite po_awake0. unfold awake. simpl. naive_solver.
    + intros o'. rewrite Hq, <- po_queue0. naive_solver.
  - intros q gq Hne Hq' Hok. pose proof Hok as [].
    eapply (released_other _ _ _ _ _ _ _ h _ _ _ _ _ l Ha Hg Hne Hok); simpl; try done.
    + intros r. rewrite lookup_insert. case_decide; [subst; rewrite Hwx|done].
      split; [intros [= E]; congruence | done].
    + rewrite lookup_insert. case_decide; [subst; rewrite Hwx; by split | done].
    + rewrite lookup_insert. case_decide; [eauto | done].
    + intros o'. rewrite lookup_insert. by case_decide.
    + intros o'. rewrite Hq, po_queue1, lookup_insert. case_decide; [subst|naive_solver].
      rewrite Hwx. naive_solver.
    + rewrite po_sig1, lookup_insert. case_decide; [subst; rewrite Hwx; by split | done].
Qed.
(** While [p] owns the mutex nobody else does. *)
Lemma crit_others Γ S M sig w p : abs Γ S M sig w ->
  (s_owner S = None \/ s_owner S = Some p) ->
  forall q uq, q <> p -> (g_user <$> Γ) !! q = Some uq -> crit uq = false.
Proof.
  intros [_ _ Hpr _] Ho q uq Hne Hq. rewrite lookup_fmap in Hq.
  destruct (Γ !! q) as [g|] eqn:Hg; [|done]. injection Hq as <-.
  destruct (crit (g_user g)) eqn:E; [|done].
  apply (po_own _ _ _ _ _ _ _ _ (Hpr q g Hg)) in E. destruct Ho; congruence.
Qed.

(** The holder of the spinlock of the mutex changes the owner. *)
Lemma abs_owner Γ S M sig w p u h cd b u' c' ow' tk' b' :
  let h' := mk_held None (h_q h) c' (h_thr h) (h_list h) in
  abs Γ S M sig w -> Γ !! p = Some (mk_ghost u (Some h) cd (Running b)) -> h_obj h = None ->
  (ow' = None \/ ow' = Some p) -> (s_owner S = None \/ s_owner S = Some p) ->
  (crit u' = true <-> ow' = Some p) -> c' = match ow' with None => 0 | Some _ => 1 end ->
  (b' = true <-> p ∈ tk') -> (forall q, q <> p -> q ∈ tk' <-> q ∈ s_tok S) ->
  (ow' = None -> p ∈ tk') ->
  UI (<[p := u']> (g_user <$> Γ)) w (cqueues S) ->
  abs (<[p := mk_ghost u' (Some h') cd (Running b')]> Γ)
    (mk_shared (s_queue S) (s_op S) ow' tk' (s_wait S))
    (mk_mview (v_spin M) (v_que M) c' (v_thr M)) sig w.
Proof.
  intros h' Ha Hg Hobj How Hown Hcr Hc Hb Htk Hprog HU. pose proof Ha as [Hdom [] Hpr _].
  pose proof (Hpr p _ Hg) as []. simpl in *. pose proof (po_know0 h eq_refl) as [].
  assert (Hp : p ∈ ps) by (apply Hdom; eauto). rewrite Hobj in *.
  eapply abs_update; [done | done | | | |exact HU].
  - constructor; simpl; try done.
    + intros q ->. by destruct How as [|[= ->]].
    + intros q Hq. destruct (decide (q = p)) as [->|Hne]; [done|]. apply go_tok0. by apply Htk.
    + intros Hn _. left. exists p. auto.
  - constructor; simpl; try done.
    + intros ? [= <-]. by constructor.
    + intros q. rewrite <- po_popped0. by split.
    + rewrite po_awake0. unfold awake. simpl. naive_solver.
  - intros q gq Hne Hq Hok. pose proof Hok as []. eapply proc_frame; [exact Hok|..]; simpl; try done.
    + intros h1 Hh1 Hk. pose proof (op_ne _ _ _ _ _ _ _ h _ _ Ha Hg eq_refl Hne Hh1) as Hno.
      eapply know_frame; [exact Hk | done | done | congruence | done].
    + destruct How as [->| ->], Hown as [->| ->]; split; congruence.
    + by apply Htk.
Qed.

(** Sending the restart signal to the process taken off a queue. *)
Lemma abs_kill Γ S M sig w p u cd x sig' :
  abs Γ S M sig w -> Γ !! p = Some (mk_ghost u None cd (Waking x)) ->
  (forall q, sig' q <-> q = x \/ sig q) ->
  abs (<[p := mk_ghost u None cd (Running false)]> Γ)
    (mk_shared (s_queue S) (s_op S) (s_owner S) (s_tok S) (<[x := Signaled]> (s_wait S)))
    M sig' w.
Proof.
  intros Ha Hg Hsig. pose proof Ha as [Hdom [] Hpr _]. pose proof (Hpr p _ Hg) as [].
  simpl in *. assert (Hp : p ∈ ps) by (apply Hdom; eauto).
  assert (Hwx : s_wait S !! x = Some (Popped p)) by by apply po_popped0.
  assert (Hxp : x <> p) by (intros ->; by apply go_popped0 in Hwx as [_ []]).
  eapply abs_update; [done | done |..].
  - constructor; simpl; try done.
    + intros q s [[<- _]|[_ Hq]]%lookup_insert_Some; eauto.
    + intros q r [[_ [=]]|[_ Hq]]%lookup_insert_Some; eauto.
    + intros Hn Hq. right; left. exists x. apply lookup_insert_eq.
  - constructor; simpl; try done; rewrite ?(lookup_insert_ne _ x p) by done; try done.
    + intros q. rewrite lookup_insert. case_decide as Hq; [by split|].
      rewrite <- po_popped0. split; congruence.
    + rewrite po_awake0. unfold awake. simpl. naive_solver.
    + rewrite Hsig, po_sig0. naive_solver.
  - intros q gq Hne Hq Hok. pose proof Hok as []. eapply proc_frame; [exact Hok|..]; simpl; try done.
    + intros h1 _ Hk. by eapply know_frame.
    + intros r. rewrite lookup_insert. case_decide; [subst; rewrite Hwx|done].
      split; [done | intros [= E]; congruence].
    + rewrite lookup_insert. case_decide; [subst; rewrite Hwx; by split | done].
    + rewrite lookup_insert. case_decide; [eauto | done].
    + intros o. rewrite lookup_insert. by case_decide.
    + intros o. rewrite po_queue1, lookup_insert. case_decide; [subst; rewrite Hwx; by split | done].
    + rewrite Hsig, lookup_insert. case_decide; [subst; naive_solver|]. rewrite po_sig1. naive_solver.
  - by eapply ui_same.
Qed.

(** Taking the restart signal in [suspend]. *)
Lemma abs_taken Γ S M sig w p u cd sig' :
  abs Γ S M sig w -> Γ !! p = Some (mk_ghost u None cd Suspending) -> sig p ->
  (forall q, sig' q <-> q <> p /\ sig q) ->
  abs (<[p := mk_ghost u None None Woken]> Γ)
    (mk_shared (s_queue S) (s_op S) (s_owner S) ({[p]} ∪ s_tok S) (<[p := Awake]> (s_wait S)))
    M sig' w.
Proof.
  intros Ha Hg Hsp Hsig. pose proof Ha as [Hdom [] Hpr _]. pose proof (Hpr p _ Hg) as [].
  simpl in *. assert (Hp : p ∈ ps) by (apply Hdom; eauto).
  assert (Hwp : s_wait S !! p = Some Signaled) by by apply po_sig0.
  eapply abs_update; [done | done |..].
  - constructor; simpl; try done.
    + set_solver.
    + intros q s [[<- _]|[_ Hq]]%lookup_insert_Some; eauto.
    + intros q r [[_ [=]]|[_ Hq]]%lookup_insert_Some; eauto.
    + intros Hn Hq. left. exists p. set_solver.
  - constructor; simpl; try done; rewrite ?lookup_insert_eq; try done; eauto.
    + split; [set_solver | done].
    + intros q. rewrite lookup_insert. case_decide as Hq; [by split|].
      rewrite <- po_popped0. by split.
    + intros o. rewrite po_queue0, Hwp. by split.
    + rewrite Hsig. naive_solver.
  - intros q gq Hne Hq Hok. pose proof Hok as []. eapply proc_frame; [exact Hok|..]; simpl;
      rewrite ?(lookup_insert_ne _ p q) by done; try done.
    + intros h1 _ Hk. by eapply know_frame.
    + set_solver.
    + intros r. rewrite lookup_insert. case_decide; [subst; rewrite Hwp; by split|done].
    + rewrite Hsig, po_sig1. naive_solver.
  - by eapply ui_same.
Qed.

(** The handler has recorded the signal. *)
Lemma abs_woken Γ S M sig w p u cd T' :
  abs Γ S M sig w -> Γ !! p = Some (mk_ghost u None cd Woken) ->
  (forall x, next_of T' x = next_of (v_thr M) x) ->
  p_signal <$> T' !! self p = Some PTHREAD_SIG_RESTART ->
  (forall q, q ∈ ps -> q <> p -> T' !! self q = v_thr M !! self q) ->
  abs (<[p := mk_ghost u None cd (Running true)]> Γ) S
    (mk_mview (v_spin M) (v_que M) (v_count M) T') sig w.
Proof.
  intros Ha Hg HT Hs Hoth. pose proof Ha as [Hdom [] Hpr _]. pose proof (Hpr p _ Hg) as [].
  simpl in *. eapply abs_update; [done | done |..].
  - constructor; simpl; try done.
    + intros o Ho. specialize (go_obj0 o Ho). destruct (s_op S o); [done|].
      destruct go_obj0 as [? Hrep]. split; [done|]. eapply queue_rep_ext; [|exact Hrep]. auto.
    + intros q Hq Hnq. rewrite HT. auto.
  - constructor; simpl; try done.
    + intros q. rewrite <- po_popped0. by split.
    + rewrite po_awake0. unfold awake. simpl. naive_solver.
  - intros q gq Hne Hq Hok. pose proof Hok as []. eapply proc_frame; [exact Hok|..]; simpl; try done.
    + intros h1 _ Hk. eapply know_frame; [exact Hk | done | done | done |]. auto.
    + by rewrite Hoth.
  - by eapply ui_same.
Qed.

(** A process that has put itself into the queue of a condition and has given
    up the mutex suspends itself. *)
Lemma abs_suspend Γ S M sig w p u c :
  abs Γ S M sig w -> Γ !! p = Some (mk_ghost u None (Some c) (Running false)) ->
  crit u = false -> abs (<[p := mk_ghost u None (Some c) Suspending]> Γ) S M sig w.
Proof.
  intros Ha Hg Hc. pose proof Ha as [Hdom Hgl Hpr _]. pose proof (Hpr p _ Hg) as [].
  simpl in *. eapply abs_update; [done | done | done |..].
  - constructor; simpl; try done.
    + intros q. rewrite <- po_popped0. by split.
    + rewrite po_awake0. unfold awake. simpl. naive_solver.
  - intros q gq Hne Hq Hok. done.
  - by eapply ui_same.
Qed.

(** A step of the client. *)
Lemma abs_client Γ S M sig w p u cd pl u' w' :
  abs Γ S M sig w -> Γ !! p = Some (mk_ghost u None cd pl) -> crit u' = crit u ->
  UI (<[p := u']> (g_user <$> Γ)) w' (cqueues S) ->
  abs (<[p := mk_ghost u' None cd pl]> Γ) S M sig w'.
Proof.
  intros Ha Hg Hc HU. pose proof Ha as [Hdom Hgl Hpr _]. pose proof (Hpr p _ Hg) as [].
  simpl in *. eapply abs_update; [done | done | done | | |exact HU].
  - constructor; simpl; rewrite ?Hc; done.
  - intros q gq Hne Hq Hok. done.
Qed.
End steps.

(** ** The memory *)

Section memory.
Context (m : addr) (cs : list Z).
Abbreviation mem_rep := (mem_rep m cs).

Lemma mem_rep_ext σ σ' M M' : mem_rep σ M -> mtx σ' = mtx σ -> cnd σ' = cnd σ ->
  v_spin M' = v_spin M -> v_que M' = v_que M -> v_count M' = v_count M -> thr σ' = v_thr M' ->
  mem_rep σ' M'.
Proof.
  intros [Hs Hq Hk Hc _] Em Ec E1 E2 E3 ET. constructor; rewrite ?E1, ?E2, ?E3, ?Em; try done.
  - intros [c|] Ho; [rewrite <- (Hs (Some c) Ho) | rewrite <- (Hs None Ho)]; simpl; congruence.
  - intros [c|] Ho; [rewrite <- (Hq (Some c) Ho) | rewrite <- (Hq None Ho)]; simpl; congruence.
Qed.

Lemma mem_rep_same σ M o v : mem_rep σ M -> v = v_que M o ->
  mem_rep σ (mk_mview (v_spin M) (<[o := v]> (v_que M)) (v_count M) (v_thr M)).
Proof.
  intros [Hs Hq Hk Hc HT] ->. constructor; try done. intros o' Ho'. simpl.
  destruct (decide (o = o')) as [<-|Hne]; [rewrite fn_lookup_insert; auto|].
  rewrite fn_lookup_insert_ne by done. auto.
Qed.

Lemma mem_rep_spin σ M o v : mem_rep σ M -> is_obj cs o ->
  mem_rep (put_int (lock_of m o) v σ)
    (mk_mview (<[o := v]> (v_spin M)) (v_que M) (v_count M) (v_thr M)).
Proof.
  intros [Hs Hq Hk Hc HT] Ho. pose proof (Hs o Ho) as Hso. constructor; simpl.
  - intros o' Ho'. destruct (decide (o = o')) as [<-|Hne].
    + rewrite fn_lookup_insert. destruct o as [c|]; simpl in *; fields; rewrite lookup_alter_eq;
        [by destruct (cnd σ !! c) | by destruct (mtx σ !! m)].
    + rewrite fn_lookup_insert_ne, <- (Hs o' Ho') by done.
      destruct o as [c|], o' as [c'|]; simpl; fields; try done.
      rewrite lookup_alter_ne; [done | congruence].
  - intros o' Ho'. rewrite <- (Hq o' Ho'). destruct o as [c|], o' as [c'|]; simpl; fields; try done.
    + rewrite lookup_alter. case_decide; [subst|done]. by destruct (cnd σ !! c').
    + rewrite lookup_alter_eq. by destruct (mtx σ !! m).
  - rewrite <- Hk. destruct o; simpl; fields; [done|]. rewrite lookup_alter_eq. by destruct (mtx σ !! m).
  - rewrite <- Hc. destruct o; simpl; fields; [done|]. rewrite lookup_alter_eq. by destruct (mtx σ !! m).
  - by destruct o.
Qed.

Lemma mem_rep_que σ M o v : mem_rep σ M -> is_obj cs o ->
  mem_rep (put_queue (queue_of m o) v σ)
    (mk_mview (v_spin M) (<[o := v]> (v_que M)) (v_count M) (v_thr M)).
Proof.
  intros [Hs Hq Hk Hc HT] Ho. pose proof (Hq o Ho) as Hqo. constructor; simpl.
  - intros o' Ho'. rewrite <- (Hs o' Ho'). destruct o as [c|], o' as [c'|]; simpl; fields; try done.
    + rewrite lookup_alter. case_decide; [subst|done]. by destruct (cnd σ !! c').
    + rewrite lookup_alter_eq. by destruct (mtx σ !! m).
  - intros o' Ho'. destruct (decide (o = o')) as [<-|Hne].
    + rewrite fn_lookup_insert. by eapply get_put_queue.
    + rewrite fn_lookup_insert_ne, <- (Hq o' Ho') by done.
      destruct o as [c|], o' as [c'|]; simpl; fields; try done.
      rewrite lookup_alter_ne; [done | congruence].
  - rewrite <- Hk. destruct o; simpl; fields; [done|]. rewrite lookup_alter_eq. by destruct (mtx σ !! m).
  - rewrite <- Hc. destruct o; simpl; fields; [done|]. rewrite lookup_alter_eq. by destruct (mtx σ !! m).
  - by destruct o.
Qed.

Lemma mem_rep_count σ M mu c : mem_rep σ M -> mtx σ !! m = Some mu ->
  mem_rep (setf mtx (<[m := setf m_count c mu]> (mtx σ)) σ)
    (mk_mview (v_spin M) (v_que M) c (v_thr M)).
Proof.
  intros [Hs Hq Hk Hc HT] Hm. constructor; simpl; fields; rewrite ?lookup_insert_eq; try done.
  - intros [c'|] Ho; [by rewrite <- (Hs (Some c') Ho) | rewrite <- (Hs None Ho)]; simpl; fields.
    by rewrite lookup_insert_eq, Hm.
  - intros [c'|] Ho; [by rewrite <- (Hq (Some c') Ho) | rewrite <- (Hq None Ho)]; simpl; fields.
    by rewrite lookup_insert_eq, Hm.
  - by rewrite Hm in Hk.
Qed.
End memory.

(** ** The accesses of the library *)

Section accesses.
Context {H : Handlers} {P : Platform} {Pok : PlatformOk P} {UC : UserCode} {Hr : RestartHandler H P}.
Context {U : Type}.
Context (m : addr) (cs ps : list Z) (self : Z -> addr).
Context (crit : U -> bool) (UI : gmap Z U -> gmap Z Z -> (Z -> list Z) -> Prop).
Context (UI_ext : forall us w q q', (forall c, q' c = q c) -> UI us w q -> UI us w q').
Context (self_inj : forall p q, p ∈ ps -> q ∈ ps -> self p = self q -> p = q).
Context (self_ok : forall p, p ∈ ps -> self p <> NULL /\ self p <> addr_manager_thread).

Abbreviation Inv := (MInv m cs ps self crit UI).
Abbreviation abs := (abs cs ps self crit UI).
Abbreviation triple := (triple Inv asleep).

Lemma abs_sig_ext Γ S M sig sig' w : (forall q, sig' q <-> sig q) ->
  abs Γ S M sig w -> abs Γ S M sig' w.
Proof.
  intros Hs [Hd Hg Hp Hw]. constructor; [done | done | | done].
  intros p g Hpg. destruct (Hp p g Hpg). constructor; try done. by rewrite Hs.
Qed.

(** Only the links and the signals of the descriptors matter. *)
Lemma abs_thr_ext Γ S M sig w T' :
  (forall x, next_of T' x = next_of (v_thr M) x) ->
  (forall x, p_signal <$> T' !! x = p_signal <$> v_thr M !! x) ->
  abs Γ S M sig w -> abs Γ S (mk_mview (v_spin M) (v_que M) (v_count M) T') sig w.
Proof.
  intros Hn Hs [Hd [] Hp Hw]. constructor; [done | | | done].
  - constructor; simpl; try done.
    + intros o Ho. specialize (go_obj0 o Ho). destruct (s_op S o); [done|].
      destruct go_obj0 as [? Hrep]. split; [done|]. eapply queue_rep_ext; [|exact Hrep]. auto.
    + intros p Hpp Hq. rewrite Hn. auto.
  - intros p g Hpg. destruct (Hp p g Hpg). constructor; simpl; try done.
    + intros h Hh. eapply know_frame; [by apply po_know0 | done..|]. auto.
    + intros. rewrite Hs. auto.
Qed.

#[local] Instance minv_pool : PoolInv ps self Inv.
Proof.
  constructor.
  - by intros Γ σ [? _].
  - by intros Γ σ (_ & ? & _).
  - intros Γ σ p g (_ & _ & S & M & _ & Ha) Hg. apply (ab_dom _ _ _ _ _ _ _ _ _ _ Ha). eauto.
  - intros p Hp. by apply self_ok.
  - intros Γ σ σ' (_ & _ & S & M & Hm & Ha) Hth Hnc E1 E2 _ E3 HT Hs Hsig.
    split; [done|]. split; [done|]. exists S, (mk_mview (v_spin M) (v_que M) (v_count M) (thr σ')).
    split; [by eapply mem_rep_ext|].
    rewrite E3. eapply abs_sig_ext; [exact Hsig|]. rewrite (mr_thr _ _ _ _ Hm) in HT, Hs.
    by apply abs_thr_ext.
Qed.

(** A step that changes the memory of the objects only. *)
Lemma inv_mem Γ σ σ' S' M' : threads_ok ps self σ -> not_canceled ps self σ ->
  krn σ' = krn σ -> glb σ' = glb σ -> thr σ' = thr σ ->
  mem_rep m cs σ' M' -> abs Γ S' M' (signaled σ) (words σ') -> Inv Γ σ'.
Proof.
  intros Hth Hnc Ek Eg Et Hm Ha. split; [|split].
  - eapply threads_ok_mem; [done | done | rewrite Et; eauto | exact Hth].
  - intros p Hp. rewrite Et. by apply Hnc.
  - exists S', M'. split; [done|]. eapply abs_sig_ext; [|exact Ha]. intros q.
    unfold signaled. by rewrite Ek.
Qed.

(** *** While holding a spinlock *)

Section held.
Context (p : Z) (u : U) (cd : option Z) (pl : place).
Context (o : option Z) (v : _pthread_queue) (c : Z) (T : gmap Z _pthread) (l : list Z).

Abbreviation g0 := (mk_ghost u (Some (mk_held o v c T l)) cd pl).

Lemma inv_held Γ σ : Inv Γ σ -> Γ !! p = Some g0 ->
  exists S M, mem_rep m cs σ M /\ abs Γ S M (signaled σ) (words σ) /\
    know cs self S M (mk_held o v c T l) /\ v_spin M o = locked /\ forall q, q ∈ l -> q ∈ ps.
Proof.
  intros (_ & _ & S & M & Hm & Ha) Hg. exists S, M. split; [done|]. split; [done|].
  pose proof Ha as [_ [] Hpr _]. destruct (Hpr p _ Hg). simpl in *.
  pose proof (po_know0 _ eq_refl) as Hk. split; [done|]. pose proof Hk as []. simpl in *.
  specialize (go_obj0 o kn_obj0). rewrite (proj2 (po_op0 o) eq_refl) in go_obj0.
  split; [done|]. intros q Hq. eapply go_queue0. by rewrite <- kn_list0.
Qed.

Lemma t_load_kind {A} (k : Z -> itree evt A) Q :
  triple p g0 (k PTHREAD_MUTEX_FAST_NP) Q -> triple p g0 (ITree.bind (load mtx m m_kind) k) Q.
Proof.
  intros Hk. apply triple_read. intros Γ σ Hi Hg.
  destruct (inv_held Γ σ Hi Hg) as (S & M & [_ _ Hkd _ _] & _).
  destruct (mtx σ !! m) as [mu|]; [|done]. injection Hkd as Hkd. eexists. split; [done|].
  by rewrite Hkd.
Qed.

Lemma t_load_count {A} (k : Z -> itree evt A) Q :
  o = None -> triple p g0 (k c) Q -> triple p g0 (ITree.bind (load mtx m m_count) k) Q.
Proof.
  intros Ho Hk. apply triple_read. intros Γ σ Hi Hg.
  destruct (inv_held Γ σ Hi Hg) as (S & M & [_ _ _ Hc _] & _ & [_ _ Hcn _ _] & _).
  destruct (mtx σ !! m) as [mu|]; [|done]. injection Hc as Hc. eexists. split; [done|].
  simpl in Hcn. rewrite Hc, <- Hcn; done.
Qed.

Lemma t_load_queue {X A} (fld : _pthread_queue -> X) (k : X -> itree evt A) Q :
  triple p g0 (k (fld v)) Q -> triple p g0 (ITree.bind (load_queue (queue_of m o) fld) k) Q.
Proof.
  intros Hk. apply triple_read. intros Γ σ Hi Hg.
  destruct (inv_held Γ σ Hi Hg) as (S & M & [_ Hq _ _ _] & _ & [Ho Hv _ _ _] & _).
  simpl in *. exists (fld v). by rewrite (Hq o Ho), <- Hv.
Qed.

Lemma t_load_link {A} x y (k : addr -> itree evt A) Q :
  x ∈ l -> next_of T (self x) = Some y -> triple p g0 (k y) Q ->
  triple p g0 (ITree.bind (load thr (self x) p_nextwaiting) k) Q.
Proof.
  intros Hl Hx Hk. apply triple_read. intros Γ σ Hi Hg.
  destruct (inv_held Γ σ Hi Hg) as (S & M & [_ _ _ _ HT] & _ & [_ _ _ _ Hkt] & _). simpl in *.
  rewrite <- Hkt, <- HT in Hx by done. exists y.
  apply next_of_lookup in Hx as (d & -> & <-). done.
Qed.

Lemma t_store_queue {X A} (fld : _pthread_queue -> X) `{!Setter fld} x (k : unit -> itree evt A) Q :
  triple p (mk_ghost u (Some (mk_held o (setf fld x v) c T l)) cd pl) (k tt) Q ->
  triple p g0 (ITree.bind (store_queue (queue_of m o) fld x) k) Q.
Proof.
  intros Hk. apply triple_act. intros Γ σ Hi Hg.
  destruct (inv_held Γ σ Hi Hg) as (S & M & Hm & Ha & [Ho Hv _ Hl Hkt] & _). simpl in *.
  rewrite (mr_que _ _ _ _ Hm o Ho). eexists tt, _, _. split; [done|]. split; [|exact Hk].
  destruct Hi as (Hth & Hnc & _).
  eapply inv_mem; [exact Hth | exact Hnc | by destruct o.. | by apply mem_rep_que |].
  replace (words (put_queue _ _ σ)) with (words σ) by by destruct o. rewrite <- Hv.
  apply (abs_write _ _ _ _ _ UI_ext Γ S M _ _ p u (mk_held o v c T l)); try done.
Qed.

Lemma t_store_link {A} x y (k : unit -> itree evt A) Q :
  x ∈ l -> is_Some (next_of T (self x)) ->
  triple p (mk_ghost u (Some (mk_held o v c (alter (setf p_nextwaiting y) (self x) T) l)) cd pl) (k tt) Q ->
  triple p g0 (ITree.bind (store thr (self x) p_nextwaiting y) k) Q.
Proof.
  intros Hx [z Hz] Hk. apply triple_act. intros Γ σ Hi Hg.
  destruct (inv_held Γ σ Hi Hg) as (S & M & Hm & Ha & [Ho Hv _ Hl Hkt] & _ & Hsub). simpl in *.
  pose proof (mr_thr _ _ _ _ Hm) as HT. rewrite <- Hkt, <- HT in Hz by done.
  destruct (next_of_lookup _ _ _ Hz) as (d & Hd & _). rewrite Hd. eexists tt, _, _.
  split; [done|]. split; [|exact Hk]. destruct Hi as (Hth & Hnc & _).
  destruct (threads_ok_store ps self σ (self x) d (setf p_nextwaiting y d)) as [H1 H2]; try done.
  split; [done|]. split; [done|]. exists S.
  exists (mk_mview (v_spin M) (<[o := v]> (v_que M)) (v_count M)
            (<[self x := setf p_nextwaiting y d]> (thr σ))). split.
  { eapply mem_rep_ext; [apply (mem_rep_same _ _ _ _ o v Hm Hv) | done..]. }
  apply (abs_write _ _ _ _ _ UI_ext Γ S M _ _ p u (mk_held o v c T l)); [done | done |..]; simpl.
  - intros q Hq. rewrite next_of_insert. unfold next_of at 2. rewrite lookup_alter.
    case_decide as E; [|rewrite HT; by apply Hkt].
    specialize (Hkt q Hq). rewrite <- HT, <- E in Hkt. unfold next_of in Hkt. rewrite Hd in Hkt.
    simpl in Hkt. by destruct (T !! self x).
  - intros q Hq Hnq. rewrite next_of_insert, HT. case_decide as E; [|done].
    apply self_inj in E; [by subst | auto | done].
  - intros a. rewrite lookup_insert, <- HT. case_decide; [subst; by rewrite Hd | done].
Qed.

(** A write of the lock count, with the step of the ghost state given. *)
Lemma t_store_count {A} c' g' (k : unit -> itree evt A) Q :
  o = None ->
  (forall Γ S M sig w, abs Γ S M sig w -> Γ !! p = Some g0 -> v_count M = c ->
     exists S', abs (<[p := g']> Γ) S' (mk_mview (v_spin M) (v_que M) c' (v_thr M)) sig w) ->
  triple p g' (k tt) Q ->
  triple p g0 (ITree.bind (store mtx m m_count c') k) Q.
Proof.
  intros Eo Habs Hk. apply triple_act. intros Γ σ Hi Hg.
  destruct (inv_held Γ σ Hi Hg) as (S & M & Hm & Ha & [_ _ Hc _ _] & _). simpl in *.
  destruct (mtx σ !! m) as [mu|] eqn:Hmu; [|by destruct Hm as [_ _ Hkd _ _]; rewrite Hmu in Hkd].
  eexists tt, _, g'. split; [done|]. split; [|exact Hk]. destruct Hi as (Hth & Hnc & _).
  destruct (Habs Γ S M _ _ Ha Hg) as [S' Ha']; [by rewrite Hc|].
  eapply inv_mem; [exact Hth | exact Hnc | done.. | by apply mem_rep_count | exact Ha'].
Qed.

(** [release], with the step of the ghost state given. *)
Lemma t_release {A} g' (k : unit -> itree evt A) Q :
  (forall Γ S M sig w, abs Γ S M sig w -> Γ !! p = Some g0 ->
     exists S', abs (<[p := g']> Γ) S' (released M o) sig w) ->
  triple p g' (k tt) Q ->
  triple p g0 (ITree.bind (release (lock_of m o)) k) Q.
Proof.
  intros Habs Hk. apply triple_act. intros Γ σ Hi Hg.
  destruct (inv_held Γ σ Hi Hg) as (S & M & Hm & Ha & [Ho _ _ _ _] & Hl & _). simpl in *.
  rewrite (mr_spin _ _ _ _ Hm o Ho), Hl, release_taken.
  eexists tt, _, g'. split; [done|]. split; [|exact Hk]. destruct Hi as (Hth & Hnc & _).
  destruct (Habs Γ S M _ _ Ha Hg) as [S' Ha'].
  eapply inv_mem; [exact Hth | exact Hnc | by destruct o.. | by apply mem_rep_spin |].
  by replace (words (put_int _ _ σ)) with (words σ) by by destruct o.
Qed.
End held.

(** *** Taking a spinlock *)

(** What a process learns when it takes a spinlock. *)
Record held_ok (p : Z) (cd : option Z) (pl : place) (h : held) : Prop := {
  ho_rep : queue_rep (h_thr h) (h_q h) (self <$> h_list h);
  ho_sub : forall q, q ∈ h_list h -> q ∈ ps;
  ho_notin : pl <> Suspending -> h_obj h = None \/ cd = None -> p ∉ h_list h;
  ho_link : pl <> Suspending -> cd = None -> next_of (h_thr h) (self p) = Some NULL;
  ho_count : h_count h = 0 \/ h_count h = 1
}.

Lemma t_testandset {A} p u cd pl o (k : Z -> itree evt A) Q :
  is_obj cs o ->
  (forall v c T l, let h := mk_held o v c T l in held_ok p cd pl h ->
     triple p (mk_ghost u (Some h) cd pl) (k 0) Q) ->
  (forall z, istrue z = true -> triple p (mk_ghost u None cd pl) (k z) Q) ->
  triple p (mk_ghost u None cd pl) (ITree.bind (testandset (lock_of m o)) k) Q.
Proof.
  intros Ho Hfree Htaken. apply triple_act. intros Γ σ Hi Hg.
  pose proof Hi as (Hth & Hnc & S & M & Hm & Ha). rewrite (mr_spin _ _ _ _ Hm o Ho).
  pose proof Ha as [Hdom [] Hpr _]. pose proof (Hpr p _ Hg) as []. pose proof (go_obj0 o Ho) as Hobj.
  destruct (s_op S o) as [q|] eqn:Hop.
  - destruct tas_taken as [Hnz Hsame]. rewrite Hobj. eexists _, σ, _.
    split; [|split; [|by apply Htaken, istrue_nonzero]].
    + do 2 f_equal. rewrite Hsame. apply put_int_id. by rewrite (mr_spin _ _ _ _ Hm o Ho), Hobj.
    + by rewrite insert_id.
  - destruct Hobj as [Hl Hrep]. rewrite Hl, tas_free. simpl. eexists 0, _, _. split; [done|].
    split; [|apply (Hfree (v_que M o) (v_count M) (v_thr M) (s_queue S o))].
    + eapply inv_mem; [exact Hth | exact Hnc | by destruct o.. | by apply mem_rep_spin |].
      replace (words (put_int _ _ σ)) with (words σ) by by destruct o.
      by apply (abs_acquire _ _ _ _ _ UI_ext Γ S M _ _ p u cd pl o).
    + assert (Hn : pl <> Suspending -> forall o', o' = None \/ cd = None -> p ∉ s_queue S o').
      { intros Hpl o' Hc Hin%po_queue0. pose proof (po_cond0 _ Hin) as Hcd. simpl in Hcd.
        assert (Hcn : cd = None) by (destruct Hc; congruence).
        rewrite (proj2 po_awake0) in Hin by done. done. }
      constructor; simpl; try done.
      * intros q Hq. by eapply go_queue0.
      * intros Hpl Hc. by apply Hn.
      * intros Hpl Hc. apply go_links0; [apply Hdom; eauto|]. intros o'. apply Hn; auto.
      * rewrite go_count0. destruct (s_owner S); auto.
Qed.

Lemma t_acquire {A} p u cd pl o (k : unit -> itree evt A) Q :
  is_obj cs o ->
  (forall v c T l, let h := mk_held o v c T l in held_ok p cd pl h ->
     triple p (mk_ghost u (Some h) cd pl) (k tt) Q) ->
  triple p (mk_ghost u None cd pl) (ITree.bind (acquire (lock_of m o)) k) Q.
Proof.
  intros Ho Hk. eapply (triple_bind _ _ _ _ _ _ (fun _ g' => exists v c T l,
    held_ok p cd pl (mk_held o v c T l) /\ g' = mk_ghost u (Some (mk_held o v c T l)) cd pl)).
  - unfold acquire, c_while.
    apply (triple_loop _ _ _ _ (fun _ g' => g' = mk_ghost u None cd pl)); [|done].
    intros [] g' ->. apply triple_assoc, t_testandset; [done|..].
    + intros v c T l h Hok. simpl. apply triple_bind_ret, triple_ret. eauto 10.
    + intros z Hz. rewrite Hz. apply triple_assoc. unfold sched_yield. apply triple_read.
      intros Γ σ _ _. exists tt. split; [done|]. by apply triple_bind_ret, triple_ret.
  - intros [] g' (v & c & T & l & Hok & ->). by apply Hk.
Qed.

(** *** The queue, while holding the spinlock *)

Lemma last_self (l : list Z) t : last (self <$> l) = Some t -> exists x, x ∈ l /\ t = self x.
Proof.
  intros [l' E]%last_Some. assert (Hin : t ∈ self <$> l) by (rewrite E; set_solver).
  apply list_elem_of_fmap in Hin as (x & -> & Hx). eauto.
Qed.

Lemma t_enqueue {A} p u cd pl o v c T l (k : unit -> itree evt A) Q :
  queue_rep T v (self <$> l) -> p ∈ ps -> p ∉ l -> (forall q, q ∈ l -> q ∈ ps) ->
  next_of T (self p) = Some NULL ->
  (forall v' T', queue_rep T' v' (self <$> (l ++ [p])) ->
     triple p (mk_ghost u (Some (mk_held o v' c T' l)) cd pl) (k tt) Q) ->
  triple p (mk_ghost u (Some (mk_held o v c T l)) cd pl)
    (ITree.bind (enqueue (queue_of m o) (self p)) k) Q.
Proof.
  intros Hrep Hp Hpl Hsub Hnx Hk. destruct (self_ok p Hp) as [Hnn _].
  assert (Hsp : self p ∉ self <$> l).
  { intros (x & E & Hx)%list_elem_of_fmap. apply self_inj in E; [by subst | done | auto]. }
  unfold enqueue. apply triple_assoc, t_load_queue.
  pose proof (qr_tail _ _ _ Hrep) as Ht.
  destruct (last (self <$> l)) as [t|] eqn:Hlast; simpl in Ht.
  - destruct (last_self _ _ Hlast) as (x & Hx & ->).
    destruct (self_ok x (Hsub x Hx)) as [Hxn _]. rewrite Ht, (proj2 (Z.eqb_neq _ _) Hxn).
    apply triple_assoc, t_load_queue. rewrite Ht. apply triple_assoc, t_store_link; [done|..].
    { destruct (linked_lookup _ _ (self x) (qr_linked _ _ _ Hrep)) as [d Hd].
      - apply list_elem_of_fmap. eauto.
      - unfold next_of. rewrite Hd. eauto. }
    apply t_store_queue. fields. apply (Hk (setf q_tail (self p) v)).
    rewrite fmap_app. by apply (queue_rep_snoc _ _ _ _ _ Hrep Hlast).
  - rewrite Ht. simpl. apply triple_assoc, t_store_queue, t_store_queue. fields.
    apply last_None, fmap_nil_inv in Hlast as ->.
    apply (Hk (mk_queue (self p) (self p))). by apply queue_rep_singleton.
Qed.

Lemma t_dequeue {A} p u cd pl o v c T l (k : addr -> itree evt A) Q :
  queue_rep T v (self <$> l) -> (forall q, q ∈ l -> q ∈ ps) ->
  (l = [] -> triple p (mk_ghost u (Some (mk_held o v c T l)) cd pl) (k NULL) Q) ->
  (forall x l' v' T', l = x :: l' -> queue_rep T' v' (self <$> l') -> x ∉ l' ->
     next_of T' (self x) = Some NULL -> self x <> NULL ->
     triple p (mk_ghost u (Some (mk_held o v' c T' l)) cd pl) (k (self x)) Q) ->
  triple p (mk_ghost u (Some (mk_held o v c T l)) cd pl)
    (ITree.bind (dequeue (queue_of m o)) k) Q.
Proof.
  intros Hrep Hsub Hnil Hcons. unfold dequeue. apply triple_assoc, t_load_queue.
  rewrite (qr_head _ _ _ Hrep). destruct l as [|x l]; simpl.
  - apply triple_assoc, triple_bind_ret, triple_bind_ret. auto.
  - destruct (self_ok x) as [Hxn _]; [set_solver|]. rewrite (proj2 (Z.eqb_neq _ _) Hxn).
    destruct (queue_rep_tail _ _ _ _ Hrep) as [Hrep' Hnx].
    assert (Hxl : x ∉ l).
    { pose proof (qr_nodup _ _ _ Hrep) as [Hn _]%NoDup_cons. intros Hx. apply Hn.
      apply list_elem_of_fmap. eauto. }
    pose proof (proj1 (qr_linked _ _ _ Hrep)) as Hlk.
    do 2 apply triple_assoc. eapply t_load_link; [set_solver | exact Hlk|].
    apply triple_assoc, t_store_queue, triple_assoc, t_load_queue. fields.
    destruct (_ =? NULL) eqn:E; simpl.
    + apply triple_assoc, t_store_queue, t_store_link; [set_solver | eauto |].
      apply triple_bind_ret. fields. by eapply (Hcons x l (mk_queue _ NULL)).
    + apply triple_assoc, triple_bind_ret, t_store_link; [set_solver | eauto |].
      apply triple_bind_ret. fields. by eapply (Hcons x l (mk_queue _ (q_tail v))).
Qed.

(** *** Waiting and waking *)

(** A step that changes the kernel only. *)
Lemma inv_kernel Γ σ σ' S' M' : mem_rep m cs σ M' -> same_mem σ σ' ->
  threads_ok ps self σ' -> not_canceled ps self σ' ->
  abs Γ S' M' (signaled σ') (words σ) -> Inv Γ σ'.
Proof.
  intros Hm [E1 E2 _ E3 E4] Hth Hnc Ha. split; [done|]. split; [done|]. exists S', M'.
  rewrite E4. split; [|done]. eapply mem_rep_ext; [exact Hm | done..|]. rewrite E3. apply Hm.
Qed.

Lemma m_wakes p u cd : p ∈ ps ->
  wakes ps self Inv asleep p (mk_ghost u None cd Suspending) (mk_ghost u None None Woken)
    (mk_ghost u None None (Running true)).
Proof.
  intros Hp. constructor.
  - done.
  - intros Γ σ σ' (_ & _ & S & M & Hm & Ha) Hg Hs Hsm Hth Hnc Hsig.
    eapply inv_kernel; [exact Hm | exact Hsm | done | done |].
    by eapply (abs_taken _ _ _ _ _ UI_ext Γ S M).
  - intros Γ σ d (_ & _ & S & M & Hm & Ha) Hg Hd σ' Hth Hnc. split; [done|]. split; [done|].
    pose proof (mr_thr _ _ _ _ Hm) as HT.
    exists S, (mk_mview (v_spin M) (v_que M) (v_count M) (thr σ')). split; [by eapply mem_rep_ext|].
    apply (abs_woken _ _ _ _ _ UI_ext Γ S M _ _ p u None); [done | done |..]; unfold σ'; fields.
    + intros x. rewrite next_of_insert, <- HT. case_decide; [subst|done].
      unfold next_of. by rewrite Hd.
    + by rewrite lookup_insert_eq.
    + intros q Hq Hne. rewrite lookup_insert_ne; [by rewrite HT|]. intros E%self_inj; congruence.
  - intros Γ σ (_ & _ & S & M & Hm & Ha) Hg. rewrite (mr_thr _ _ _ _ Hm).
    by apply (po_signal _ _ _ _ _ _ _ _ (ab_proc _ _ _ _ _ _ _ _ _ _ Ha p _ Hg)).
Qed.

Lemma t_wake {A} p u cd x (k : unit -> itree evt A) Q :
  triple p (mk_ghost u None cd (Running false)) (k tt) Q ->
  triple p (mk_ghost u None cd (Waking x)) (ITree.bind (restart (self x)) k) Q.
Proof.
  intros Hk. eapply (t_restart ps self Inv asleep); [| |exact Hk].
  - intros Γ σ (_ & _ & S & M & _ & Ha) Hg. pose proof Ha as [_ [] Hpr _].
    eapply go_wait0. by apply (po_popped _ _ _ _ _ _ _ _ (Hpr p _ Hg)).
  - intros Γ σ σ' (_ & _ & S & M & Hm & Ha) Hg Hsm Hth Hnc Hsig.
    eapply inv_kernel; [exact Hm | exact Hsm | done | done |].
    by eapply (abs_kill _ _ _ _ _ UI_ext Γ S M).
Qed.

(** ** The operations *)

(** What a client has to show: its account may change from [u] to [u'] while
    [p] has exclusive access.  If [out] then [p] is in no queue of a
    condition. *)
Definition may_step (out : Prop) (p : Z) (u u' : U) : Prop :=
  forall us w cq, UI us w cq -> us !! p = Some u ->
    (forall q uq, q <> p -> us !! q = Some uq -> crit uq = false) ->
    (out -> forall c, p ∉ cq c) -> UI (<[p := u']> us) w cq.

(** A running process that has not put itself into a queue is in none. *)
Lemma not_queued Γ S M sig w p u op b : abs Γ S M sig w ->
  Γ !! p = Some (mk_ghost u op None (Running b)) -> forall c, p ∉ cqueues S c.
Proof.
  intros Ha Hg c Hin. destruct (ab_proc _ _ _ _ _ _ _ _ _ _ Ha p _ Hg).
  apply po_queue0 in Hin. rewrite (proj2 po_awake0) in Hin by done. done.
Qed.

Lemma may_step_abs Γ S M sig w p u u' op cd b : may_step (cd = None) p u u' ->
  abs Γ S M sig w -> Γ !! p = Some (mk_ghost u op cd (Running b)) ->
  s_owner S = None \/ s_owner S = Some p -> UI (<[p := u']> (g_user <$> Γ)) w (cqueues S).
Proof.
  intros Hst Ha Hg Ho. apply Hst; [apply Ha | by rewrite lookup_fmap, Hg | by eapply crit_others |].
  intros ->. by eapply not_queued.
Qed.

Lemma t_lock_wait p u b v c T l :
  let h := mk_held None v c T l in
  held_ok p None (Running b) h -> c <> 0 -> p ∈ ps -> crit u = false ->
  triple p (mk_ghost u (Some h) None (Running b)) (lock_wait m (self p))
    (fun r g => r = inl tt /\ g = mk_ghost u None None (Running true)).
Proof.
  intros h [] Hc Hp Hcr. simpl in *. unfold lock_wait.
  apply (t_enqueue _ _ _ _ None); [done | done | auto | done | auto |]. intros v' T' Hrep.
  eapply (t_release _ _ _ _ None v' c T' l (mk_ghost u None None Suspending)).
  { intros Γ S M sig w Ha Hg. eexists.
    apply (abs_release_enq _ _ _ _ _ UI_ext Γ S M sig w p u (mk_held None v' c T' l) b u Suspending Ha Hg);
      try done.
    eapply (ui_same _ _ _ _ _ UI_ext _ _ _ _ _ _ _ (mk_ghost u None None Suspending) _ Ha Hg); done. }
  apply (t_suspend ps self Inv asleep p _ _ _ Hp (m_wakes p u None Hp)). by apply triple_ret.
Qed.

Lemma t_lock p u u' b :
  crit u = false -> crit u' = true -> may_step True p u u' ->
  triple p (mk_ghost u None None (Running b)) (__pthread_mutex_lock m)
    (fun r g => r = 0 /\ g = mk_ghost u' None None (Running false)).
Proof.
  intros Hu Hu' Hst. unfold __pthread_mutex_lock.
  apply (triple_loop _ _ _ _ (fun _ g => exists b, g = mk_ghost u None None (Running b))); [|eauto].
  clear b. intros [] g [b ->]. unfold lock_body. apply (t_acquire _ _ _ _ None); [done|].
  intros v c T l h Hok. apply t_load_kind. simpl. apply t_load_count; [done|].
  destruct (c =? 0) eqn:Hc.
  - apply Z.eqb_eq in Hc. subst c.
    eapply (t_store_count _ _ _ _ None v 0 T l 1
      (mk_ghost u' (Some (mk_held None v 1 T l)) None (Running false))); [done| |].
    { intros Γ S M sig w Ha Hg Hc. eexists.
      assert (Hn : s_owner S = None).
      { pose proof (go_count _ _ _ _ _ (ab_glob _ _ _ _ _ _ _ _ _ _ Ha)) as E.
        destruct (s_owner S); [by rewrite Hc in E | done]. }
      apply (abs_owner _ _ _ _ _ Γ S M sig w p u h None b u' 1 (Some p) (s_tok S ∖ {[p]}) false Ha Hg);
        try done; auto.
      - set_solver.
      - set_solver.
      - eapply may_step_abs; [|done | exact Hg | auto]. intros ?????? Ho. apply Hst; auto. }
    eapply (t_release _ _ _ _ None v 1 T l (mk_ghost u' None None (Running false))).
    { intros Γ S M sig w Ha Hg. eexists.
      eapply (abs_release _ _ _ _ _ UI_ext Γ S M sig w p u' _ None false u' Ha Hg); simpl; try done.
      - apply Hok.
      - intros _. by left.
      - by eapply (ui_same _ _ _ _ _ UI_ext _ _ _ _ _ _ _ (mk_ghost u' None None (Running false)) _ Ha Hg). }
    by apply triple_ret.
  - apply Z.eqb_neq in Hc. apply (t_self ps self Inv asleep). intros Hp.
    eapply triple_conseq; [by apply t_lock_wait|]. intros r g [-> ->]. eauto.
Qed.

Lemma t_unlock p u u' cd :
  crit u = true -> crit u' = false -> may_step (cd = None) p u u' ->
  triple p (mk_ghost u None cd (Running false)) (__pthread_mutex_unlock m)
    (fun _ g => g = mk_ghost u' None cd (Running false)).
Proof.
  intros Hu Hu' Hst. unfold __pthread_mutex_unlock. apply (t_acquire _ _ _ _ None); [done|].
  intros v c T l h Hok. apply t_load_kind. simpl.
  eapply (t_store_count _ _ _ _ None v c T l 0
      (mk_ghost u' (Some (mk_held None v 0 T l)) cd (Running true))); [done| |].
  { intros Γ S M sig w Ha Hg Hc. eexists.
    assert (Hn : s_owner S = Some p).
    { by apply (po_own _ _ _ _ _ _ _ _ (ab_proc _ _ _ _ _ _ _ _ _ _ Ha p _ Hg)). }
    apply (abs_owner _ _ _ _ _ Γ S M sig w p u h cd false u' 0 None ({[p]} ∪ s_tok S) true Ha Hg);
      try done; auto; try set_solver.
    - rewrite Hu'. by split.
    - eapply may_step_abs; [done | done | exact Hg | auto]. }
  unfold unlock_wake. destruct Hok as [Hrep Hsub Hni _ _]. simpl in *.
  apply (t_dequeue _ _ _ _ None); [done | done |..].
  - intros ->. eapply (t_release _ _ _ _ None v 0 T [] (mk_ghost u' None cd (Running false))).
    { intros Γ S M sig w Ha Hg. eexists.
      eapply (abs_release _ _ _ _ _ UI_ext Γ S M sig w p u' _ cd true u' Ha Hg); simpl; auto; try done.
      by eapply (ui_same _ _ _ _ _ UI_ext _ _ _ _ _ _ _ (mk_ghost u' None cd (Running false)) _ Ha Hg). }
    simpl. by apply triple_bind_ret, triple_ret.
  - intros x l' v' T' -> Hrep' Hx Hnx Hxn.
    eapply (t_release _ _ _ _ None v' 0 T' (x :: l') (mk_ghost u' None cd (Waking x))).
    { intros Γ S M sig w Ha Hg. eexists.
      eapply (abs_release_pop _ _ _ _ _ UI_ext Γ S M sig w p u' _ cd true x l' u' Ha Hg); try done.
      - intros ->. apply Hni; [done | by left | set_solver].
      - eapply (ui_same _ _ _ _ _ UI_ext _ _ _ _ _ _ _ (mk_ghost u' None cd (Waking x)) _ Ha Hg); done. }
    rewrite (proj2 (Z.eqb_neq _ _) Hxn). simpl. apply t_wake. by apply triple_ret.
Qed.

Lemma held_list Γ S M sig w p u o v c T l cd pl : abs Γ S M sig w ->
  Γ !! p = Some (mk_ghost u (Some (mk_held o v c T l)) cd pl) -> l = s_queue S o.
Proof.
  intros Ha Hg. by apply (po_know _ _ _ _ _ _ _ _ (ab_proc _ _ _ _ _ _ _ _ _ _ Ha p _ Hg) _ eq_refl).
Qed.

Lemma cqueues_upd (q : option Z -> list Z) c l c' :
  <[Some c := l]> q (Some c') = <[c := l]> (fun c => q (Some c)) c'.
Proof.
  destruct (decide (c = c')) as [<-|Hne]; [by rewrite !fn_lookup_insert|].
  rewrite !fn_lookup_insert_ne; congruence.
Qed.

(** A client's step that changes the queue of condition [c] to [f] of it. *)
Definition may_queue (p : Z) (c : Z) (f : list Z -> list Z) (u u' : U) : Prop :=
  forall us w cq, UI us w cq -> us !! p = Some u ->
    (crit u = true -> forall q uq, q <> p -> us !! q = Some uq -> crit uq = false) ->
    (forall c, p ∉ cq c) -> UI (<[p := u']> us) w (<[c := f (cq c)]> cq).

Lemma may_queue_abs Γ S M sig w p u u' op b c f S' : may_queue p c f u u' ->
  abs Γ S M sig w -> Γ !! p = Some (mk_ghost u op None (Running b)) ->
  s_queue S' = <[Some c := f (s_queue S (Some c))]> (s_queue S) ->
  UI (<[p := u']> (g_user <$> Γ)) w (cqueues S').
Proof.
  intros Hst Ha Hg Hq.
  eapply UI_ext; [|apply (Hst _ w (cqueues S)); [apply Ha | by rewrite lookup_fmap, Hg | | by eapply not_queued]].
  - intros c'. unfold cqueues. rewrite Hq. apply cqueues_upd.
  - intros Hu. eapply crit_others; [exact Ha|]. right.
    by apply (po_own _ _ _ _ _ _ _ _ (ab_proc _ _ _ _ _ _ _ _ _ _ Ha p _ Hg)).
Qed.

Lemma t_cond_signal p c u u' :
  c ∈ cs -> crit u' = crit u -> may_queue p c tail u u' ->
  triple p (mk_ghost u None None (Running false)) (pthread_cond_signal c)
    (fun r g => r = 0 /\ g = mk_ghost u' None None (Running false)).
Proof.
  intros Hc Hcr Hst. unfold pthread_cond_signal. apply (t_acquire _ _ _ _ (Some c)); [done|].
  intros v n T l h [Hrep Hsub Hni _ _]. simpl in *.
  apply (t_dequeue _ _ _ _ (Some c)); [done | done |..].
  - intros ->. eapply (t_release _ _ _ _ (Some c) v n T [] (mk_ghost u' None None (Running false))).
    { intros Γ S M sig w Ha Hg. eexists.
      eapply (abs_release _ _ _ _ _ UI_ext Γ S M sig w p u _ None false u' Ha Hg); try done.
      eapply may_queue_abs; [exact Hst | done | exact Hg |]. simpl.
      by rewrite <- (held_list _ _ _ _ _ _ _ _ _ _ _ _ _ _ Ha Hg). }
    simpl. by apply triple_bind_ret, triple_ret.
  - intros x l' v' T' -> Hrep' Hx Hnx Hxn.
    eapply (t_release _ _ _ _ (Some c) v' n T' (x :: l') (mk_ghost u' None None (Waking x))).
    { intros Γ S M sig w Ha Hg. eexists.
      eapply (abs_release_pop _ _ _ _ _ UI_ext Γ S M sig w p u _ None false x l' u' Ha Hg); try done.
      - intros ->. apply Hni; [done | by right | set_solver].
      - eapply may_queue_abs; [exact Hst | done | exact Hg |]. simpl.
        by rewrite <- (held_list _ _ _ _ _ _ _ _ _ _ _ _ _ _ Ha Hg). }
    rewrite (proj2 (Z.eqb_neq _ _) Hxn). simpl. apply t_wake. by apply triple_ret.
Qed.

Lemma t_cond_wait p c u u1 u2 u3 :
  c ∈ cs -> crit u1 = crit u -> crit u1 = true -> crit u2 = false -> crit u3 = true ->
  may_queue p c (fun l => l ++ [p]) u u1 -> may_step False p u1 u2 -> may_step True p u2 u3 ->
  triple p (mk_ghost u None None (Running false)) (pthread_cond_wait c m)
    (fun r g => r = 0 /\ g = mk_ghost u3 None None (Running false)).
Proof.
  intros Hc Hcr1 Hcr Hcr2 Hcr3 Henq Hun Hre. unfold pthread_cond_wait.
  apply (t_self ps self Inv asleep). intros Hp.
  apply (t_acquire _ _ _ _ (Some c)); [done|]. intros v n T l h [Hrep Hsub Hni Hlk _]. simpl in *.
  apply (t_enqueue _ _ _ _ (Some c)); [done | done | auto | done | auto |]. intros v' T' Hrep'.
  eapply (t_release _ _ _ _ (Some c) v' n T' l (mk_ghost u1 None (Some c) (Running false))).
  { intros Γ S M sig w Ha Hg. eexists.
    apply (abs_release_enq _ _ _ _ _ UI_ext Γ S M sig w p u (mk_held (Some c) v' n T' l) false u1
      (Running false) Ha Hg); try done.
    eapply may_queue_abs; [exact Henq | done | exact Hg |]. simpl.
    by rewrite <- (held_list _ _ _ _ _ _ _ _ _ _ _ _ _ _ Ha Hg). }
  eapply triple_bind; [apply (t_unlock p u1 u2 (Some c)); [done | done |]|].
  { intros ?????? Ho. by apply Hun. }
  intros r g ->.
  apply (t_suspend_cancel ps self Inv asleep p _ _ _ Hp (m_wakes p u2 (Some c) Hp)).
  { intros Γ σ (Hth & Hnc & S & M & Hm & Ha) Hg. split; [done|]. split; [done|]. exists S, M.
    split; [done|]. by eapply (abs_suspend _ _ _ _ _ UI_ext). }
  eapply triple_bind; [by apply (t_lock p u2 u3)|]. intros r' g [-> ->].
  apply (t_cancel_pending ps self Inv asleep); [done|]. by apply triple_ret.
Qed.

(** *** The clients' own accesses *)

Lemma t_client_act {A X} p u f (k : X -> itree evt A) Q :
  (forall us w cq, UI us w cq -> us !! p = Some u ->
     (crit u = true -> forall q uq, q <> p -> us !! q = Some uq -> crit uq = false) ->
     (forall c, p ∉ cq c) -> forall σ, words σ = w -> exists x w' u', crit u' = crit u /\
       f p σ = Some (x, setf words w' σ) /\ UI (<[p := u']> us) w' cq /\
       triple p (mk_ghost u' None None (Running false)) (k x) Q) ->
  triple p (mk_ghost u None None (Running false)) (ITree.bind (act f) k) Q.
Proof.
  intros Hf. apply triple_act. intros Γ σ (Hth & Hnc & S & M & Hm & Ha) Hg.
  destruct (Hf (g_user <$> Γ) (words σ) (cqueues S)) with (σ := σ) as (x & w' & u' & Hcr & Hx & HU & Ht);
    try done; [apply Ha | | | by eapply not_queued |].
  - by rewrite lookup_fmap, Hg.
  - intros Hu. eapply crit_others; [exact Ha|]. right.
    by apply (po_own _ _ _ _ _ _ _ _ (ab_proc _ _ _ _ _ _ _ _ _ _ Ha p _ Hg)).
  - eexists x, _, _. split; [done|]. split; [|exact Ht].
    eapply inv_mem; [exact Hth | exact Hnc | done.. | |by eapply abs_client].
    eapply mem_rep_ext; [exact Hm | done..| apply Hm].
Qed.
End accesses.

(** ** Pools of clients *)

Section pools.
Context {H : Handlers} {P : Platform} {Pok : PlatformOk P} {U : Type}.
Context (m : addr) (cs ps : list Z) (self : Z -> addr).
Context (crit : U -> bool) (UI : gmap Z U -> gmap Z Z -> (Z -> list Z) -> Prop).

Abbreviation Inv := (MInv m cs ps self crit UI).

(** The processes run threads of the library; nobody waits, is being canceled
    or has a signal pending. *)
Record idle_threads (σ : state) : Prop := {
  st_nodup : NoDup ps;
  st_inj : forall p q, p ∈ ps -> q ∈ ps -> self p = self q -> p = q;
  st_self : forall p, p ∈ ps -> self p <> NULL /\ self p <> addr_manager_thread;
  st_threads : threads_ok ps self σ;
  st_cancel : not_canceled ps self σ;
  st_quiet : forall p, ~ signaled σ p;
  st_links : forall p, p ∈ ps -> next_of (thr σ) (self p) = Some NULL
}.

(** The mutex is a free FAST mutex, and the queues of the conditions are
    empty. *)
Record monitor_start (σ : state) : Prop := {
  st_idle : idle_threads σ;
  st_mutex : exists o, mutex_rep σ m (mk_mutex_st PTHREAD_MUTEX_FAST_NP 0 o []);
  st_conds : forall c, c ∈ cs -> cnd σ !! c = Some PTHREAD_COND_INITIALIZER
}.

Lemma monitor_start_inv (us : Z -> U) σ :
  monitor_start σ -> (forall p, p ∈ ps -> crit (us p) = false) ->
  UI (tabulate us ps) (words σ) (fun _ => []) ->
  Inv (tabulate (fun p => mk_ghost (us p) None None (Running false)) ps) σ.
Proof.
  intros [[] Hmtx Hcnd] Hcr HU. split; [done|]. split; [done|].
  destruct Hmtx as [o [(q & Hm & Hq)]]. simpl in *.
  exists (mk_shared (fun _ => []) (fun _ => None) None ∅ (tabulate (fun _ => Awake) ps)).
  exists (mk_mview (fun _ => 0) (fun o => match o with None => q | Some _ => mk_queue NULL NULL end)
            0 (thr σ)). split.
  { constructor; simpl; rewrite ?Hm; try done; intros [c|] Ho; simpl; rewrite ?Hm; try done.
    - by rewrite Hcnd.
    - by rewrite Hcnd. }
  constructor.
  - intros p. rewrite lookup_tabulate. case_decide; by split; intros; eauto.
  - constructor; simpl; try done; [|set_solver|set_solver|..].
    + intros [c|] _; [|done]. split; [done | apply queue_rep_nil].
    + intros p s. rewrite lookup_tabulate. by case_decide.
    + intros p r. rewrite lookup_tabulate. by case_decide.
  - intros p g. rewrite lookup_tabulate. case_decide as Hp; [intros [= <-]|done].
    assert (Hwp : tabulate (fun _ => Awake) ps !! p = Some Awake)
      by (rewrite lookup_tabulate; by case_decide).
    constructor; simpl; try done; rewrite ?Hwp; try done.
    + rewrite Hcr by done. by split.
    + intros r. rewrite lookup_tabulate. by case_decide.
    + intros o'. split; [by intros ?%not_elem_of_nil | done].
    + split; [intros Hs; by apply st_quiet0 in Hs | done].
  - replace (g_user <$> _) with (tabulate us ps); [done|].
    apply map_eq. intros p. rewrite lookup_fmap, !lookup_tabulate. by case_decide.
Qed.

Lemma minv_quiet Γ σ p g pr : Inv Γ σ -> Γ !! p = Some g -> procs (krn σ) !! p = Some pr ->
  pick_signal (pr_pending pr) (pr_mask pr) = None.
Proof.
  intros (Hth & _ & S & M & _ & Ha) Hg. eapply threads_quiet; [exact Hth|].
  apply (ab_dom _ _ _ _ _ _ _ _ _ _ Ha). eauto.
Qed.

(** A process that has ended. *)
Definition ended (g : ghost U) : Prop :=
  g_place g = Running false /\ g_cond g = None /\ crit (g_user g) = false.

(** If every process sleeps or has ended, nobody owns the mutex, and those that
    sleep are in the queues of conditions: no wake-up is lost. *)
Lemma asleep_on_conds Γ σ : Inv Γ σ ->
  (forall p g, Γ !! p = Some g -> asleep p σ g \/ ended g) ->
  exists cq, UI (g_user <$> Γ) (words σ) cq /\
    (forall p g, Γ !! p = Some g -> crit (g_user g) = false) /\
    forall p g, Γ !! p = Some g -> asleep p σ g -> exists c, c ∈ cs /\ p ∈ cq c.
Proof.
  intros (_ & _ & S & M & _ & [Hdom [] Hpr HU]) Hall. exists (cqueues S). split; [done|].
  assert (Hcr : forall p g, Γ !! p = Some g -> crit (g_user g) = false).
  { intros p g Hg. destruct (Hall p g Hg) as [(Hpl & _)|(_ & _ & Hc)]; [|done].
    by apply (po_sleep _ _ _ _ _ _ _ _ (Hpr p g Hg)). }
  split; [done|].
  assert (Hnw : forall p g q, Γ !! p = Some g -> g_place g <> Waking q /\ is_tok (g_place g) = false).
  { intros p g q Hg. destruct (Hall p g Hg) as [(E & _)|(E & _)]; by rewrite E. }
  assert (Hnp : forall r q, s_wait S !! r <> Some (Popped q)).
  { intros r q Hw. destruct (proj2 (Hdom q) (proj1 (go_popped0 _ _ Hw))) as [g Hg].
    apply (po_popped _ _ _ _ _ _ _ _ (Hpr q g Hg)) in Hw. by apply (Hnw q g r Hg). }
  assert (Hns : forall r, s_wait S !! r <> Some Signaled).
  { intros r Hw. destruct (proj2 (Hdom r) (go_wait0 _ _ Hw)) as [g Hg]. destruct (Hpr r g Hg).
    destruct (Hall r g Hg) as [(_ & _ & Hn)|(E & Hcd & _)]; [by apply Hn, po_sig0|].
    assert (Ha : awake g) by (split; [by rewrite E | done]). apply po_awake0 in Ha. congruence. }
  assert (Hown : s_owner S = None).
  { destruct (s_owner S) as [p|] eqn:E; [|done]. exfalso.
    destruct (proj2 (Hdom p) (go_owner0 p eq_refl)) as [g Hg].
    pose proof (proj2 (po_own _ _ _ _ _ _ _ _ (Hpr p g Hg)) E). rewrite (Hcr p g Hg) in *. done. }
  assert (Hqm : s_queue S None = []).
  { destruct (s_queue S None) as [|x l] eqn:E; [done|]. exfalso.
    destruct go_progress0 as [[p Hp]|[[p Hp]|(p & q & Hp)]]; [done | done | | by apply Hns in Hp | by apply Hnp in Hp].
    destruct (proj2 (Hdom p) (go_tok0 p Hp)) as [g Hg].
    apply (po_tok _ _ _ _ _ _ _ _ (Hpr p g Hg)) in Hp. destruct (Hnw p g 0 Hg). congruence. }
  intros p g Hg (Hpl & _ & _). destruct (Hpr p g Hg). destruct po_some0 as [[|o|q|] Hw].
  - apply po_awake0 in Hw as [? _]. done.
  - apply po_queue0 in Hw. destruct o as [c|]; [|by rewrite Hqm in Hw; set_solver].
    exists c. split; [by eapply (go_queue0 (Some c)) | done].
  - by apply Hnp in Hw.
  - by apply Hns in Hw.
Qed.
End pools.
