(* ===== verification/MutexPool.v ===== *)
(** * Threads that share a counter

    Each of a number of threads, several times, locks a mutex, reads the
    counter, writes back the value plus one, and unlocks the mutex.  Whatever
    the order in which the processes run, access by access, no access faults,
    no increment is lost, and the threads do not all end up waiting: the mutex
    excludes, and no wake-up is lost.  The threads are clients of
    [MonitorPool], without conditions. *)

From stdpp Require Import relations.
From S2P Require Import Prelude Types Machine MachineFacts Platform Memory Spinlock Queue.
From S2P Require Import Restart Mutex Interleave PoolThreads MonitorPool.

(** ** The clients *)

Section client.
Context {P : Platform} (m ctr : addr).

(** [pthread_mutex_lock(m); v = *ctr; *ctr = v + 1; pthread_mutex_unlock(m);] *)
Definition increment : itree evt unit :=
  __pthread_mutex_lock m ;;
  v <- load words ctr id ;;
  store_word ctr (int_of (v + 1)) ;;
  __pthread_mutex_unlock m ;;
  Ret tt.

Fixpoint client (n : nat) : itree evt unit :=
  match n with
  | O => Ret tt
  | S n => increment ;; client n
  end.
End client.

(** ** The books *)

(** The increments a process has done, whether it owns the mutex, and the
    value of the counter it has read. *)
Record count := mk_count {
  c_done : Z;
  c_own : bool;
  c_val : option Z
}.

Section proof.
Context {H : Handlers} {P : Platform} {Pok : PlatformOk P} {UC : UserCode} {Hr : RestartHandler H P}.
Context (m ctr : addr) (ps : list Z) (self : Z -> addr) (c0 : Z) (ps_nodup : NoDup ps).
Context (self_inj : forall p q, p ∈ ps -> q ∈ ps -> self p = self q -> p = q).
Context (self_ok : forall p, p ∈ ps -> self p <> NULL /\ self p <> addr_manager_thread).

Record counts_at (us : gmap Z count) (w : gmap Z Z) (v : Z) : Prop := {
  cn_ctr : w !! ctr = Some v;
  cn_sum : v = int_of (c0 + map_sum c_done ps us);
  cn_dom : forall p u, us !! p = Some u -> p ∈ ps;
  cn_val : forall p u x, us !! p = Some u -> c_val u = Some x -> c_own u = true /\ x = v
}.

Definition counts (us : gmap Z count) (w : gmap Z Z) (_ : Z -> list Z) : Prop :=
  exists v, counts_at us w v.

Abbreviation Inv := (MInv m [] ps self c_own counts).
Abbreviation triple := (triple Inv asleep).
Abbreviation ghost_of u := (mk_ghost u None None (Running false)).

Lemma counts_ext us w q q' : (forall c, q' c = q c) -> counts us w q -> counts us w q'.
Proof. done. Qed.

(** A step of one process. *)
Lemma counts_step us w v p u u' w' v' :
  counts_at us w v -> us !! p = Some u -> w' !! ctr = Some v' ->
  v' = int_of (c0 + map_sum c_done ps us + c_done u' - c_done u) ->
  (forall x, c_val u' = Some x -> c_own u' = true /\ x = v') ->
  (v' = v \/ forall q uq, q <> p -> us !! q = Some uq -> c_own uq = false) ->
  counts_at (<[p := u']> us) w' v'.
Proof.
  intros [Hc Hs Hd Hv] Hu Hw' Hv' Hx Hoth. constructor; [done|..].
  - rewrite (map_sum_insert _ _ _ _ u); [|done | done | by eapply Hd]. rewrite Hv'. f_equal. lia.
  - intros q uq [[<- _]|[_ Hq]]%lookup_insert_Some; eauto.
  - intros q uq x [[<- <-]|[Hne Hq]]%lookup_insert_Some Hval; [auto|].
    destruct (Hv q uq x Hq Hval) as [Ho ->]. destruct Hoth as [->|Hoth]; [done|].
    by rewrite (Hoth q uq) in Ho.
Qed.

Lemma may_lock out p n b : may_step c_own counts out p (mk_count n (negb b) None) (mk_count n b None).
Proof.
  intros us w cq [v Hc] Hu _ _. exists v. eapply counts_step; [done | done | apply Hc | | done | by left].
  simpl. rewrite (cn_sum _ _ _ Hc) at 1. f_equal. lia.
Qed.

Lemma wrapS_add_l n a b : 0 < n -> wrapS n (wrapS n a + b) = wrapS n (a + b).
Proof.
  intros Hn. unfold wrapS. f_equal.
  replace ((a + 2 ^ (n - 1)) `mod` 2 ^ n - 2 ^ (n - 1) + b + 2 ^ (n - 1))
    with ((a + 2 ^ (n - 1)) `mod` 2 ^ n + b) by lia.
  rewrite Zplus_mod_idemp_l. f_equal. lia.
Qed.

Lemma t_increment p n :
  triple p (ghost_of (mk_count n false None)) (increment m ctr)
    (fun _ g => g = ghost_of (mk_count (n + 1) false None)).
Proof.
  unfold increment.
  eapply triple_bind; [apply (t_lock _ _ _ _ _ _ counts_ext self_inj self_ok p (mk_count n false None)
    (mk_count n true None)); [done | done | apply (may_lock True p n true)]|].
  intros r g [-> ->].
  apply t_client_act. intros us w cq [v Hc] Hu _ _ σ <-.
  rewrite (cn_ctr _ _ _ Hc). exists v, (words σ), (mk_count n true (Some v)).
  split; [done|]. split; [by destruct σ|]. split.
  { exists v. eapply counts_step; [done | done | apply Hc | | by intros x [= <-] | by left].
    simpl. rewrite (cn_sum _ _ _ Hc) at 1. f_equal. lia. }
  clear us cq σ Hc Hu.
  apply t_client_act. intros us w cq [v' Hc] Hu Hoth _ σ <-.
  destruct (cn_val _ _ _ Hc p _ v Hu eq_refl) as [_ ->].
  rewrite (cn_ctr _ _ _ Hc). exists tt, (<[ctr := int_of (v' + 1)]> (words σ)), (mk_count (n + 1) true None).
  split; [done|]. split; [done|]. split.
  { exists (int_of (v' + 1)). eapply counts_step; [done | done | by rewrite lookup_insert_eq | | done | by right; apply Hoth].
    simpl. rewrite (cn_sum _ _ _ Hc). unfold int_of. rewrite wrapS_add_l by lia. f_equal. lia. }
  eapply triple_bind; [apply (t_unlock _ _ _ _ _ _ counts_ext self_inj self_ok p (mk_count (n + 1) true None)
    (mk_count (n + 1) false None)); [done | done | apply (may_lock _ p (n + 1) false)]|].
  intros r g ->. by apply triple_ret.
Qed.

Lemma t_client p n k :
  triple p (ghost_of (mk_count n false None)) (client m ctr k)
    (fun _ g => g = ghost_of (mk_count (n + Z.of_nat k) false None)).
Proof.
  revert n. induction k as [|k IH]; intros n.
  - apply triple_ret. do 2 f_equal. lia.
  - cbn [client]. eapply triple_bind; [apply t_increment|]. intros _ g ->.
    eapply triple_conseq; [apply IH|]. intros _ g ->. do 2 f_equal. lia.
Qed.
End proof.

(** ** The theorems *)

Section pool.
Context {H : Handlers} {P : Platform} {Pok : PlatformOk P} {UC : UserCode} {Hr : RestartHandler H P}.

(** The processes [ps] run the threads with the descriptors [self p], and none
    waits for anything; the mutex at [m] is a free FAST mutex; the counter at
    [ctr] holds [c0]. *)
Record pool_start (m ctr : addr) (ps : list Z) (self : Z -> addr) (c0 : Z) (σ : state) : Prop := {
  ps_start : monitor_start m [] ps self σ;
  ps_ctr : words σ !! ctr = Some c0;
  ps_int : - 2 ^ 31 <= c0 < 2 ^ 31
}.

(** Process [p] runs [client (k p)]. *)
Definition clients (m ctr : addr) (ps : list Z) (k : Z -> nat)
    : gmap Z (itree evt unit * jtab unit) :=
  tabulate (fun p => (client m ctr (k p), ∅)) ps.

Abbreviation finished k := (fun p (_ : unit) g =>
  g = mk_ghost (mk_count (Z.of_nat (k p)) false None) None None (Running false)).

(** Every pool the clients reach satisfies the invariant. *)
Lemma clients_reach m ctr ps self c0 σ k ts σ' :
  pool_start m ctr ps self c0 σ ->
  rtc pool_step (clients m ctr ps k, σ) (ts, σ') ->
  exists Γ, pool_inv (MInv m [] ps self c_own (counts ctr ps c0)) asleep (finished k) ts σ' Γ.
Proof.
  intros [Hst Hctr Hint] Hsteps.
  eapply (pool_reach _ _ _ (minv_quiet m [] ps self c_own (counts ctr ps c0))
    (tabulate (fun p => mk_ghost (mk_count 0 false None) None None (Running false)) ps));
    [| | |exact Hsteps].
  - apply (monitor_start_inv _ _ _ _ _ _ (fun _ => mk_count 0 false None)); [done | done|].
    exists c0. constructor; [done|..].
    + rewrite (map_sum_const _ (fun _ => 0)); [|intros p Hp; rewrite lookup_tabulate; by case_decide].
      assert (E : forall l : list Z, foldr Z.add 0 ((fun _ => 0) <$> l) = 0).
      { clear. induction l as [|x l IH]; [done|]. rewrite fmap_cons. cbn [foldr]. by rewrite IH. }
      rewrite E, Z.add_0_r, int_of_small; done.
    + intros p u. rewrite lookup_tabulate. by case_decide.
    + intros p u x. rewrite lookup_tabulate. case_decide; [by intros [= <-] | done].
  - apply set_eq. intros p. rewrite !elem_of_dom. unfold clients. rewrite !lookup_tabulate.
    case_decide; by split; intros; eauto.
  - intros p t J. unfold clients. rewrite !lookup_tabulate. case_decide as Hp; [|done].
    intros [= <- <-]. eexists. split; [done|]. destruct Hst as [[] _ _]. by apply t_client.
Qed.

(** C1: [pthread_mutex_lock] and [pthread_mutex_unlock] give mutual exclusion
    under every interleaving of any number of threads: threads that increment
    a shared counter between the two, with separate read and write, never
    fault, and when all have ended no increment is lost. *)
Theorem mutex_exclusion m ctr ps self c0 σ k ts σ' :
  pool_start m ctr ps self c0 σ ->
  rtc pool_step (clients m ctr ps k, σ) (ts, σ') ->
  ~ pool_faults (ts, σ') /\
  (ts = ∅ -> words σ' !! ctr =
     Some (int_of (c0 + foldr Z.add 0 ((fun p => Z.of_nat (k p)) <$> ps)))).
Proof.
  intros Hst Hsteps. destruct (clients_reach _ _ _ _ _ _ _ _ _ Hst Hsteps) as [Γ Hinv].
  split; [by eapply (pool_inv_no_fault _ _ _ (minv_quiet _ _ _ _ _ _))|].
  intros ->. destruct Hinv as [(_ & _ & S & M & _ & [Hdom _ _ [v [Hc Hs _ _]]]) _ Hend].
  rewrite Hc, Hs. do 3 f_equal. apply map_sum_const.
  intros p [g Hg]%Hdom. destruct (Hend p g Hg) as [_ ->]; [apply lookup_empty|].
  by rewrite lookup_fmap, Hg.
Qed.

(** C2: no deadlock and no lost wake-up: in every state the threads reach, as
    long as one of them has not ended, one of them can go on.  They never all
    wait in [suspend] at once. *)
Theorem mutex_no_deadlock m ctr ps self c0 σ k ts σ' :
  pool_start m ctr ps self c0 σ ->
  rtc pool_step (clients m ctr ps k, σ) (ts, σ') ->
  ts = ∅ \/ exists c, pool_step (ts, σ') c.
Proof.
  intros Hst Hsteps. destruct (clients_reach _ _ _ _ _ _ _ _ _ Hst Hsteps) as [Γ Hinv].
  destruct (pool_inv_progress _ _ _ _ _ _ Hinv) as [Hs|Hsl]; [by right | left].
  destruct Hinv as [Hi _ Hend]. apply map_empty. intros p.
  destruct (ts !! p) as [[t J]|] eqn:Hp; [exfalso|done].
  destruct (asleep_on_conds _ _ _ _ _ _ _ _ Hi) as (cq & _ & _ & Hq).
  - intros q g Hg. destruct (ts !! q) as [[t' J']|] eqn:Hq.
    + left. destruct (Hsl q t' J' Hq) as (g' & ? & ? & ? & Hg' & Ha & _). by simplify_eq.
    + right. by destruct (Hend q g Hg Hq) as [_ ->].
  - destruct (Hsl p t J Hp) as (g & ? & ? & ? & Hg & Ha & _).
    destruct (Hq p g Hg Ha) as (c & Hc & _). set_solver.
Qed.
End pool.
