(* ===== verification/SemPool.v ===== *)
(** * Semaphores under every interleaving

    The processes [ps] use the semaphores [sems] and the [int] objects of the
    program, in any order.  A client is described by the type [U] of what each
    of its processes has done, by the balance [bal u s] of the posts and waits
    this comprises, and by an invariant [UI] on the [int] objects.  The rules
    for [sem_wait] and [sem_post] below hold whatever the client is: a process
    returns from [sem_wait] only with a unit, and a process that sleeps is in
    the list of a semaphore without units. *)

From stdpp Require Import relations.
From S2P Require Import Prelude Types Machine MachineFacts Platform Memory Spinlock Queue.
From S2P Require Import Restart Mutex Cleanup Specific Join Semaphore Interleave PoolThreads.

(** How a process stands to the semaphores: it runs ([sg]: its last restart
    signal has been recorded); it has written the status [v] it read to its
    link; it is in the list of [s], or has been taken off it and not resumed;
    it handles the restart signal; it wakes the processes [l] it took off a
    semaphore, and before them [o], whose link is cleared already. *)
Inductive splace :=
| SRun (sg : bool)
| SPush (v : Z)
| SSusp (s : addr)
| SWoken
| SWaking (o : option Z) (l : list Z).

(** [h_op]: the semaphore whose spinlock the process holds, and its status. *)
Record sghost (U : Type) := mk_sghost {
  h_user : U;
  h_op : option (addr * Z);
  h_place : splace
}.
Arguments mk_sghost {U}. Arguments h_user {U}. Arguments h_op {U}. Arguments h_place {U}.

(** Where the wake-up of a process that waits is. *)
Inductive swait :=
| WAwake
| WListed (s : addr)
| WPopped (q : Z)
| WSignaled.

Inductive scount :=
| SCount (n : Z)
| SWaiters (x : Z) (l : list Z).

Definition swaiters (c : scount) : list Z :=
  match c with SCount _ => [] | SWaiters x l => x :: l end.
Definition scount_of (c : scount) : Z := match c with SCount n => n | SWaiters _ _ => 0 end.

Record sshared := mk_sshared {
  ss_sem : gmap Z scount;
  ss_lock : gmap Z Z;
  ss_wait : gmap Z swait
}.

Section invariant.
Context {P : Platform} {Pok : PlatformOk P} {U : Type}.
Context (ps : list Z) (self : Z -> addr) (sems : list Z) (init : Z -> Z).
Context (bal : U -> Z -> Z) (UI : gmap Z U -> gmap Z Z -> Prop).

(** The units of [s] that are available, by the books of the clients. *)
Definition avail (us : gmap Z U) (s : Z) : Z := init s + map_sum (fun u => bal u s) ps us.

(** The memory implements the shared state of semaphore [s]. *)
Record sem_good (S : sshared) (M : gmap Z sem_t) (T : gmap Z _pthread) (s : Z) (c : scount)
    (r : sem_t) : Prop := {
  sg_mem : M !! s = Some r;
  sg_lock : sem_spinlock r = match ss_lock S !! s with None => 0 | Some _ => locked end;
  sg_status : match c with
              | SCount n => 0 <= n /\ 2 * n + 1 <= SEM_VALUE_MAX /\ sem_status r = 2 * n + 1
              | SWaiters x l => sem_status r = long_of (self x) /\ NoDup (x :: l) /\
                                sem_chain T (self <$> (x :: l))
              end;
  sg_listed : forall p, p ∈ swaiters c <-> ss_wait S !! p = Some (WListed s)
}.

Record sglob_ok (S : sshared) (M : gmap Z sem_t) (T : gmap Z _pthread) : Prop := {
  sgo_sem : forall s, s ∈ sems -> exists c r, ss_sem S !! s = Some c /\ sem_good S M T s c r;
  sgo_wait : forall p w, ss_wait S !! p = Some w -> p ∈ ps;
  sgo_listed : forall p s, ss_wait S !! p = Some (WListed s) -> s ∈ sems;
  sgo_popped : forall p q, ss_wait S !! p = Some (WPopped q) -> q ∈ ps
}.

Record sproc_ok (S : sshared) (M : gmap Z sem_t) (T : gmap Z _pthread) (sig : Z -> Prop)
    (p : Z) (g : sghost U) : Prop := {
  so_op : forall s, ss_lock S !! s = Some p <-> exists v, h_op g = Some (s, v);
  so_status : forall s v, h_op g = Some (s, v) -> sem_status <$> M !! s = Some v;
  so_cas : is_Some cas_op -> h_op g = None;
  so_sig : h_place g = SRun true -> p_signal <$> T !! self p = Some PTHREAD_SIG_RESTART;
  so_push : forall v, h_place g = SPush v -> next_of T (self p) = Some v;
  so_waking : match h_place g with
              | SWaking o l => NoDup l /\ (forall x, o = Some x -> x ∉ l) /\
                  sem_chain T (self <$> l) /\
                  forall x, ss_wait S !! x = Some (WPopped p) <-> o = Some x \/ x ∈ l
              | _ => forall x, ss_wait S !! x <> Some (WPopped p)
              end;
  so_some : is_Some (ss_wait S !! p);
  so_awake : ss_wait S !! p = Some WAwake <-> forall s, h_place g <> SSusp s;
  so_listed : forall s s', h_place g = SSusp s -> ss_wait S !! p = Some (WListed s') -> s' = s;
  so_signaled : sig p <-> ss_wait S !! p = Some WSignaled
}.

Record sabs (Γ : gmap Z (sghost U)) (S : sshared) (M : gmap Z sem_t) (T : gmap Z _pthread)
    (sig : Z -> Prop) (w : gmap Z Z) : Prop := {
  sa_dom : forall p, is_Some (Γ !! p) <-> p ∈ ps;
  sa_glob : sglob_ok S M T;
  sa_proc : forall p g, Γ !! p = Some g -> sproc_ok S M T sig p g;
  sa_bal : forall s c, s ∈ sems -> ss_sem S !! s = Some c ->
    scount_of c = avail (h_user <$> Γ) s;
  sa_user : UI (h_user <$> Γ) w
}.

Definition SInv (Γ : gmap Z (sghost U)) (σ : state) : Prop :=
  threads_ok ps self σ /\ not_canceled ps self σ /\
  exists S, sabs Γ S (sms σ) (thr σ) (signaled σ) (words σ).

(** A process sleeps only in [sem_wait], and while it has not been
    restarted. *)
Definition sasleep (waits : U -> Z -> Prop) (p : Z) (σ : state) (g : sghost U) : Prop :=
  exists s, h_place g = SSusp s /\ h_op g = None /\ waits (h_user g) s /\ ~ signaled σ p.
End invariant.

(** ** Steps of the ghost states *)

Section steps.
Context {P : Platform} {Pok : PlatformOk P} {U : Type}.
Context (ps : list Z) (self : Z -> addr) (sems : list Z) (init : Z -> Z).
Context (bal : U -> Z -> Z) (UI : gmap Z U -> gmap Z Z -> Prop).
Context (ps_nodup : NoDup ps).
Context (self_inj : forall p q, p ∈ ps -> q ∈ ps -> self p = self q -> p = q).

Abbreviation sabs := (sabs ps self sems init bal UI).
Abbreviation sglob_ok := (sglob_ok ps self sems).
Abbreviation sproc_ok := (sproc_ok (U := U) self).
Abbreviation avail := (avail ps init bal).

Lemma sabs_avail Γ S M T sig w s : sabs Γ S M T sig w -> s ∈ sems ->
  0 <= avail (h_user <$> Γ) s.
Proof.
  intros [_ [Hs _ _ _] _ Hb _] Hin. destruct (Hs s Hin) as (c & r & Hc & []).
  rewrite <- (Hb s c) by done. destruct c; simpl; [tauto | lia].
Qed.

(** A step of process [p]. *)
Lemma sabs_update Γ S M T sig w p g g' S' M' T' sig' w' :
  sabs Γ S M T sig w -> Γ !! p = Some g ->
  sglob_ok S' M' T' -> sproc_ok S' M' T' sig' p g' ->
  (forall q (gq : sghost U), q <> p -> q ∈ ps -> sproc_ok S M T sig q gq -> sproc_ok S' M' T' sig' q gq) ->
  (forall s c c', s ∈ sems -> ss_sem S !! s = Some c -> ss_sem S' !! s = Some c' ->
     scount_of c' - scount_of c = bal (h_user g') s - bal (h_user g) s) ->
  UI (<[p := h_user g']> (h_user <$> Γ)) w' ->
  sabs (<[p := g']> Γ) S' M' T' sig' w'.
Proof.
  intros [Hd Hgl Hpr Hb Hu] Hg Hgl' Hp' Hoth Hbal HU.
  assert (Hp : p ∈ ps) by (apply Hd; eauto).
  constructor; [|done|..].
  - intros q. rewrite <- (Hd q), lookup_insert. case_decide; [subst; rewrite Hg; by split | done].
  - intros q gq [[<- <-]|[Hne Hq]]%lookup_insert_Some; [done|]. apply Hoth; [done| |auto].
    apply Hd; eauto.
  - intros s c' Hs Hc'. destruct (sgo_sem _ _ _ _ _ _ Hgl s Hs) as (c & r & Hc & _).
    specialize (Hb s c Hs Hc). specialize (Hbal s c c' Hs Hc Hc'). unfold avail in *.
    rewrite fmap_insert, (map_sum_insert _ _ _ _ (h_user g)); [lia | done | | done].
    by rewrite lookup_fmap, Hg.
  - by rewrite fmap_insert.
Qed.

(** Only the place of the process changes. *)
Lemma sabs_user_same Γ S M T sig w p g g' : sabs Γ S M T sig w -> Γ !! p = Some g ->
  h_user g' = h_user g -> UI (<[p := h_user g']> (h_user <$> Γ)) w.
Proof.
  intros Ha Hg E. rewrite insert_id; [apply Ha|]. rewrite lookup_fmap, Hg. simpl. by rewrite E.
Qed.

Lemma scount_same S S' (g g' : sghost U) : h_user g' = h_user g -> ss_sem S' = ss_sem S ->
  forall s c c', s ∈ sems -> ss_sem S !! s = Some c -> ss_sem S' !! s = Some c' ->
  scount_of c' - scount_of c = bal (h_user g') s - bal (h_user g) s.
Proof. intros -> -> s c c' _ H1 H2. simplify_eq. lia. Qed.

(** Writes to fields of the descriptors other than link and signal. *)
Lemma sabs_mem Γ S M T sig w T' :
  sabs Γ S M T sig w -> (forall x, next_of T' x = next_of T x) ->
  (forall x, p_signal <$> T' !! x = p_signal <$> T !! x) ->
  sabs Γ S M T' sig w.
Proof.
  intros [Hd [] Hpr Hb Hu] Hn Hs. constructor; try done.
  - constructor; try done. intros s Hin. destruct (sgo_sem0 s Hin) as (c & r & Hc & []).
    exists c, r. split; [done|]. constructor; try done.
    destruct c as [|x l]; [done|]. destruct sg_status0 as (? & ? & Hch).
    split; [done|]. split; [done|]. eapply sem_chain_ext; [|exact Hch]. intros; apply Hn.
  - intros p g Hg. destruct (Hpr p g Hg). constructor; try done.
    + intros Hpl. rewrite Hs. auto.
    + intros v Hpl. rewrite Hn. auto.
    + destruct (h_place g); try done. destruct so_waking0 as (? & ? & Hch & ?).
      repeat (split; [done|]). split; [|done]. eapply sem_chain_ext; [|exact Hch].
      intros; apply Hn.
Qed.

(** *** The spinlock of a semaphore, on machines without compare-and-swap *)

Lemma sem_good_other S M T s c r S' M' : sem_good self S M T s c r ->
  ss_lock S' !! s = ss_lock S !! s -> M' !! s = M !! s -> ss_wait S' = ss_wait S ->
  sem_good self S' M' T s c r.
Proof. intros [] Hl HM Hw. by constructor; rewrite ?Hl, ?Hw, ?HM. Qed.

Lemma sabs_lock Γ S M T sig w p g s r :
  sabs Γ S M T sig w -> Γ !! p = Some g -> h_op g = None -> cas_op = None -> s ∈ sems ->
  M !! s = Some r -> ss_lock S !! s = None ->
  sabs (<[p := mk_sghost (h_user g) (Some (s, sem_status r)) (h_place g)]> Γ)
    (mk_sshared (ss_sem S) (<[s := p]> (ss_lock S)) (ss_wait S))
    (<[s := setf sem_spinlock locked r]> M) T sig w.
Proof.
  intros Ha Hg Ho Hcas Hs Hr Hl. pose proof Ha as [_ [] Hpr _ _]. pose proof (Hpr p g Hg) as [].
  eapply sabs_update; [done | done |..].
  - constructor; simpl; try done. intros s0 Hs0. destruct (sgo_sem0 s0 Hs0) as (c & r0 & Hc & Hgd).
    destruct (decide (s0 = s)) as [->|Hne].
    + exists c, (setf sem_spinlock locked r). split; [done|]. destruct Hgd. simplify_eq.
      constructor; simpl; rewrite ?lookup_insert_eq; done.
    + exists c, r0. split; [done|].
      eapply sem_good_other; [exact Hgd | simpl; by rewrite !lookup_insert_ne.. | done].
  - constructor; simpl; try done.
    + intros s0. rewrite lookup_insert. case_decide; [subst; naive_solver|].
      rewrite so_op0, Ho. naive_solver.
    + intros s0 v [= <- <-]. by rewrite lookup_insert_eq.
    + rewrite Hcas. by intros [].
  - intros q gq Hne Hq []. constructor; simpl; try done.
    + intros s0. rewrite lookup_insert. case_decide; [subst|apply so_op1].
      rewrite <- so_op1, Hl. split; [congruence | done].
    + intros s0 v Hv. rewrite lookup_insert_ne; [eauto|]. intros ->.
      assert (E : ss_lock S !! s0 = Some q) by (apply so_op1; eauto). congruence.
  - by apply scount_same.
  - by eapply sabs_user_same.
Qed.

Lemma sabs_unlock Γ S M T sig w p g s v r :
  sabs Γ S M T sig w -> Γ !! p = Some g -> h_op g = Some (s, v) -> s ∈ sems ->
  M !! s = Some r ->
  sabs (<[p := mk_sghost (h_user g) None (h_place g)]> Γ)
    (mk_sshared (ss_sem S) (delete s (ss_lock S)) (ss_wait S))
    (<[s := setf sem_spinlock 0 r]> M) T sig w.
Proof.
  intros Ha Hg Ho Hs Hr. pose proof Ha as [_ [] Hpr _ _]. pose proof (Hpr p g Hg) as [].
  assert (Hl : ss_lock S !! s = Some p) by (apply so_op0; eauto).
  eapply sabs_update; [done | done |..].
  - constructor; simpl; try done. intros s0 Hs0. destruct (sgo_sem0 s0 Hs0) as (c & r0 & Hc & Hgd).
    destruct (decide (s0 = s)) as [->|Hne].
    + exists c, (setf sem_spinlock 0 r). split; [done|]. destruct Hgd. simplify_eq.
      constructor; simpl; rewrite ?lookup_insert_eq, ?lookup_delete_eq; done.
    + exists c, r0. split; [done|].
      eapply sem_good_other; [exact Hgd | simpl; by rewrite ?lookup_insert_ne, ?lookup_delete_ne.. | done].
  - constructor; simpl; try done.
    intros s0. rewrite lookup_delete. case_decide; [subst; naive_solver|].
    rewrite so_op0, Ho. naive_solver.
  - intros q gq Hne Hq []. constructor; simpl; try done.
    + intros s0. rewrite lookup_delete. case_decide; [subst|apply so_op1].
      rewrite <- so_op1, Hl. split; [done | congruence].
    + intros s0 v0 Hv. rewrite lookup_insert_ne; [eauto|]. intros ->.
      assert (E : ss_lock S !! s0 = Some q) by (apply so_op1; eauto). congruence.
  - by apply scount_same.
  - by eapply sabs_user_same.
Qed.

(** *** Changing the status *)

(** Who may change the status [v] of [s]: the holder of the spinlock, or
    anybody on a machine with compare-and-swap. *)
Definition may_set (s v : Z) (op : option (addr * Z)) : Prop :=
  op = Some (s, v) \/ op = None /\ is_Some cas_op.

Definition op_set (s v : Z) (op : option (addr * Z)) : option (addr * Z) :=
  match op with Some _ => Some (s, v) | None => None end.

Lemma sabs_status Γ S M T sig w p u op pl s c r new u' pl' c' W' :
  let g := mk_sghost u op pl in
  let g' := mk_sghost u' (op_set s new op) pl' in
  let S' := mk_sshared (<[s := c']> (ss_sem S)) (ss_lock S) W' in
  let M' := <[s := setf sem_status new r]> M in
  sabs Γ S M T sig w -> Γ !! p = Some g -> s ∈ sems -> ss_sem S !! s = Some c ->
  M !! s = Some r -> may_set s (sem_status r) op ->
  match c' with
  | SCount n => 0 <= n /\ 2 * n + 1 <= SEM_VALUE_MAX /\ new = 2 * n + 1
  | SWaiters x l => new = long_of (self x) /\ NoDup (x :: l) /\ sem_chain T (self <$> (x :: l))
  end ->
  (forall q, q ∈ swaiters c' <-> W' !! q = Some (WListed s)) ->
  (forall q s0, s0 <> s -> W' !! q = Some (WListed s0) <-> ss_wait S !! q = Some (WListed s0)) ->
  (forall q x, W' !! q = Some x -> q ∈ ps) ->
  (forall x q, q <> p -> W' !! x = Some (WPopped q) <-> ss_wait S !! x = Some (WPopped q)) ->
  (forall q, q <> p -> is_Some (ss_wait S !! q) -> is_Some (W' !! q)) ->
  (forall q, q <> p -> W' !! q = Some WAwake <-> ss_wait S !! q = Some WAwake) ->
  (forall q s0, q <> p -> W' !! q = Some (WListed s0) -> ss_wait S !! q = Some (WListed s0)) ->
  (forall q, q <> p -> W' !! q = Some WSignaled <-> ss_wait S !! q = Some WSignaled) ->
  (sproc_ok S M T sig p g -> sproc_ok S' M' T sig p g') ->
  (forall s0, s0 <> s -> bal u' s0 = bal u s0) ->
  scount_of c' - scount_of c = bal u' s - bal u s ->
  UI (<[p := u']> (h_user <$> Γ)) w ->
  sabs (<[p := g']> Γ) S' M' T sig w.
Proof.
  intros g g' S' M' Ha Hg Hs Hc Hr Hmay Hst Hli Hlo Hdom Hpop Hsome Haw Hlis Hsig Hp Hbo Hbs HU.
  pose proof Ha as [Hd [] Hpr _ _]. pose proof (Hpr p g Hg) as Hok.
  assert (Hpp : p ∈ ps) by (apply Hd; eauto).
  eapply sabs_update; [done | done |..].
  - constructor; simpl.
    + intros s0 Hs0. destruct (sgo_sem0 s0 Hs0) as (c0 & r0 & Hc0 & []).
      destruct (decide (s0 = s)) as [->|Hne].
      * assert (r0 = r) as -> by congruence. exists c', (setf sem_status new r). unfold S', M'. simpl. rewrite !lookup_insert_eq.
        split; [done|]. constructor; simpl; rewrite ?lookup_insert_eq; done.
      * exists c0, r0. unfold S', M'. simpl. rewrite !lookup_insert_ne by done.
        split; [done|]. constructor; simpl; rewrite ?lookup_insert_ne by done; try done.
        intros q. rewrite sg_listed0. by rewrite Hlo.
    + done.
    + intros q s0 Hq. destruct (decide (s0 = s)) as [->|Hne]; [done|].
      apply (sgo_listed0 q). by apply Hlo.
    + intros x q Hx. destruct (decide (q = p)) as [->|Hne]; [done|].
      apply (sgo_popped0 x). by apply Hpop.
  - by apply Hp.
  - intros q gq Hne Hq []. constructor; simpl; try done.
    + intros s0 v Hv. unfold M'. rewrite lookup_insert. case_decide; [subst|by eauto].
      exfalso. destruct Hok as [Hop _ Hcas _ _ _ _ _ _ _]. simpl in *. destruct Hmay as [->|[-> Hc0]].
      * assert (E1 : ss_lock S !! s0 = Some p) by (apply Hop; eauto).
        assert (E2 : ss_lock S !! s0 = Some q) by (apply so_op0; eauto). congruence.
      * rewrite so_cas0 in Hv; done.
    + destruct (h_place gq); try (intros x; rewrite Hpop by done; apply so_waking0).
      destruct so_waking0 as (? & ? & ? & Hx). repeat (split; [done|]). intros x.
      by rewrite Hpop.
    + by apply Hsome.
    + by rewrite Haw.
    + intros s0 s1 Hpl Hw. eapply so_listed0; [exact Hpl | by apply Hlis].
    + by rewrite Hsig.
  - intros s0 c0 c1 Hs0 H1. unfold S'. simpl. rewrite lookup_insert.
    case_decide; intros; simplify_eq; [done|]. rewrite Hbo by done. lia.
  - done.
Qed.

Context (self_addr : forall p, p ∈ ps -> 1 < self p < 2 ^ long_bits /\ Z.odd (self p) = false).

(** A process that does not wait and does not wake others. *)
Definition idle (pl : splace) : Prop := exists b, pl = SRun b \/ exists v, pl = SPush v.

Lemma idle_awake S M T sig p g : sproc_ok S M T sig p g -> idle (h_place g) ->
  ss_wait S !! p = Some WAwake /\ (forall x, ss_wait S !! x <> Some (WPopped p)).
Proof.
  intros [] (b & [E|[v E]]); rewrite E in *; (split; [by apply so_awake0 | done]).
Qed.

Lemma status_odd Γ S M T sig w s c r :
  sabs Γ S M T sig w -> ss_sem S !! s = Some c -> sem_good self S M T s c r ->
  Z.odd (sem_status r) = match c with SCount _ => true | SWaiters _ _ => false end.
Proof.
  intros Ha Hc []. destruct c as [n|x l].
  - destruct sg_status0 as (_ & _ & ->). apply odd_count.
  - destruct sg_status0 as (-> & _). rewrite odd_long. apply self_addr.
    eapply (sgo_wait _ _ _ _ _ _ (sa_glob _ _ _ _ _ _ _ _ _ _ _ _ Ha)).
    apply (sg_listed0 x). simpl. set_solver.
Qed.

Lemma sabs_sem Γ S M T sig w s : sabs Γ S M T sig w -> s ∈ sems ->
  exists c r, ss_sem S !! s = Some c /\ sem_good self S M T s c r.
Proof. intros Ha. apply Ha. Qed.

(** [sem_wait] takes a unit. *)
Lemma sabs_take Γ S M T sig w p u op pl s r u' :
  sabs Γ S M T sig w -> Γ !! p = Some (mk_sghost u op pl) -> idle pl -> s ∈ sems ->
  M !! s = Some r -> may_set s (sem_status r) op ->
  Z.odd (sem_status r) = true -> sem_status r <> 1 ->
  (forall s0, bal u' s0 = if decide (s0 = s) then bal u s0 - 1 else bal u s0) ->
  UI (<[p := u']> (h_user <$> Γ)) w ->
  exists S', sabs (<[p := mk_sghost u' (op_set s (sem_status r - 2) op) (SRun false)]> Γ) S'
    (<[s := setf sem_status (sem_status r - 2) r]> M) T sig w.
Proof.
  intros Ha Hg Hid Hs Hr Hmay Hodd H1 Hbal HU.
  destruct (sabs_sem _ _ _ _ _ _ s Ha Hs) as (c & r0 & Hc & Hgd).
  assert (r0 = r) as -> by (destruct Hgd; congruence).
  pose proof (status_odd _ _ _ _ _ _ _ _ _ Ha Hc Hgd) as Hcase.
  destruct c as [n|]; [|congruence]. pose proof Hgd as []. destruct sg_status0 as (Hn & Hmax & Hst).
  eexists. eapply (sabs_status Γ S M T sig w p u op pl s (SCount n) r (sem_status r - 2) u' (SRun false)
    (SCount (n - 1)) (ss_wait S)); try done.
  - rewrite Hst. split; lia.
  - apply (sgo_wait _ _ _ _ _ _ (sa_glob _ _ _ _ _ _ _ _ _ _ _ _ Ha)).
  - intros Hok. destruct (idle_awake _ _ _ _ _ _ Hok Hid) as (Haw & Hnp). destruct Hok.
    simpl in *. constructor; simpl; try done.
    + intros s0. rewrite so_op0. destruct op as [[]|]; simpl; [|done].
      destruct Hmay as [[= -> ->]|[[=] _]]. naive_solver.
    + intros s0 v. destruct op as [[]|]; simpl; [|done]. intros [= <- <-].
      by rewrite lookup_insert_eq.
    + intros Hcs. by rewrite (so_cas0 Hcs).
  - intros s0 Hne. rewrite Hbal. by case_decide.
  - simpl. rewrite Hbal. case_decide; [lia | done].
Qed.

(** [sem_wait] puts the process into the list. *)
Lemma sabs_push Γ S M T sig w p u op s r :
  sabs Γ S M T sig w -> Γ !! p = Some (mk_sghost u op (SPush (ptr_of (sem_status r)))) ->
  s ∈ sems -> M !! s = Some r -> may_set s (sem_status r) op ->
  Z.odd (sem_status r) = false \/ sem_status r = 1 ->
  exists S', sabs (<[p := mk_sghost u (op_set s (long_of (self p)) op) (SSusp s)]> Γ) S'
    (<[s := setf sem_status (long_of (self p)) r]> M) T sig w.
Proof.
  intros Ha Hg Hs Hr Hmay Hst. pose proof Ha as [Hdom Hgl Hpr _ _].
  assert (Hp : p ∈ ps) by (apply Hdom; eauto).
  destruct (sabs_sem _ _ _ _ _ _ s Ha Hs) as (c & r0 & Hc & Hgd).
  assert (r0 = r) as -> by (destruct Hgd; congruence).
  pose proof (status_odd _ _ _ _ _ _ _ _ _ Ha Hc Hgd) as Hcase.
  pose proof (Hpr p _ Hg) as Hok. destruct (idle_awake _ _ _ _ _ _ Hok) as (Haw & Hnp);
    [exists true; eauto|].
  pose proof Hgd as [].
  assert (Hnx : next_of T (self p) = Some (default 1 (head (self <$> swaiters c))) /\
    scount_of c = 0 /\ NoDup (swaiters c) /\ sem_chain T (self <$> swaiters c)).
  { rewrite (so_push _ _ _ _ _ _ _ Hok _ eq_refl). destruct c as [n|x l].
    - destruct sg_status0 as (Hn & _ & E), Hst as [Hst|Hst]; [congruence|].
      rewrite Hst. split; [by rewrite <- ptr_of_one at 2|]. split; [simpl; lia|].
      split; [apply NoDup_nil_2 | done].
    - destruct sg_status0 as (E & Hnd & Hch). rewrite E, ptr_of_long.
      + split; [done|]. split; [done|]. split; done.
      + destruct (self_addr x); [|lia]. apply (sgo_wait _ _ _ _ _ _ Hgl x (WListed s)).
        apply sg_listed0. simpl. set_solver. }
  destruct Hnx as (Hnx & Hcnt & Hnd & Hch).
  assert (Hpl : p ∉ swaiters c) by (rewrite sg_listed0; congruence).
  eexists. eapply (sabs_status Γ S M T sig w p u op _ s c r (long_of (self p)) u (SSusp s)
    (SWaiters p (swaiters c)) (<[p := WListed s]> (ss_wait S))); try done.
  - split; [done|]. split; [by apply NoDup_cons|]. by split.
  - intros q. simpl. rewrite lookup_insert, elem_of_cons, sg_listed0. case_decide; naive_solver.
  - intros q s0 Hne. rewrite lookup_insert. case_decide; naive_solver.
  - intros q x [[<- _]|[_ Hq]]%lookup_insert_Some; [done|]. by apply (sgo_wait _ _ _ _ _ _ Hgl q x).
  - intros x q Hne. rewrite lookup_insert. case_decide; naive_solver.
  - intros q Hne. by rewrite lookup_insert_ne.
  - intros q Hne. by rewrite lookup_insert_ne.
  - intros q s0 Hne. by rewrite lookup_insert_ne.
  - intros q Hne. by rewrite lookup_insert_ne.
  - intros []. simpl in *. constructor; simpl; try done; rewrite ?lookup_insert_eq; eauto.
    + intros s0. rewrite so_op0. destruct op as [[]|]; simpl; [|done].
      destruct Hmay as [[= -> ->]|[[=] _]]. naive_solver.
    + intros s0 v. destruct op as [[]|]; simpl; [|done]. intros [= <- <-].
      by rewrite lookup_insert_eq.
    + intros Hcs. by rewrite (so_cas0 Hcs).
    + intros x. rewrite lookup_insert. case_decide; [done | apply Hnp].
    + split; [done|]. intros E. by destruct (E s).
    + intros s0 s' [= <-] [= <-]. done.
    + rewrite so_signaled0, Haw. by split.
  - simpl. lia.
  - rewrite insert_id; [apply Ha|]. by rewrite lookup_fmap, Hg.
Qed.

(** [sem_post] adds a unit. *)
Lemma sabs_post Γ S M T sig w p u op b s r u' :
  sabs Γ S M T sig w -> Γ !! p = Some (mk_sghost u op (SRun b)) -> s ∈ sems ->
  M !! s = Some r -> may_set s (sem_status r) op ->
  Z.odd (sem_status r) = true -> sem_status r < SEM_VALUE_MAX ->
  (forall s0, bal u' s0 = if decide (s0 = s) then bal u s0 + 1 else bal u s0) ->
  UI (<[p := u']> (h_user <$> Γ)) w ->
  exists S', sabs (<[p := mk_sghost u' (op_set s (sem_status r + 2) op) (SRun b)]> Γ) S'
    (<[s := setf sem_status (sem_status r + 2) r]> M) T sig w.
Proof.
  intros Ha Hg Hs Hr Hmay Hodd Hmax Hbal HU.
  destruct (sabs_sem _ _ _ _ _ _ s Ha Hs) as (c & r0 & Hc & Hgd).
  assert (r0 = r) as -> by (destruct Hgd; congruence).
  pose proof (status_odd _ _ _ _ _ _ _ _ _ Ha Hc Hgd) as Hcase.
  destruct c as [n|]; [|congruence]. pose proof Hgd as []. destruct sg_status0 as (Hn & _ & Hst).
  eexists. eapply (sabs_status Γ S M T sig w p u op (SRun b) s (SCount n) r (sem_status r + 2) u'
    (SRun b) (SCount (n + 1)) (ss_wait S)); try done.
  - rewrite Hst in *. unfold SEM_VALUE_MAX, INT_MAX in *. split; lia.
  - apply (sgo_wait _ _ _ _ _ _ (sa_glob _ _ _ _ _ _ _ _ _ _ _ _ Ha)).
  - intros []. simpl in *. constructor; simpl; try done.
    + intros s0. rewrite so_op0. destruct op as [[]|]; simpl; [|done].
      destruct Hmay as [[= -> ->]|[[=] _]]. naive_solver.
    + intros s0 v. destruct op as [[]|]; simpl; [|done]. intros [= <- <-].
      by rewrite lookup_insert_eq.
    + intros Hcs. by rewrite (so_cas0 Hcs).
  - intros s0 Hne. rewrite Hbal. by case_decide.
  - simpl. rewrite Hbal. case_decide; [lia | done].
Qed.

(** [sem_post] finds processes that wait, and takes them all off the
    semaphore. *)
Lemma sabs_post_all Γ S M T sig w p u op b s r u' :
  sabs Γ S M T sig w -> Γ !! p = Some (mk_sghost u op (SRun b)) -> s ∈ sems ->
  M !! s = Some r -> may_set s (sem_status r) op -> Z.odd (sem_status r) = false ->
  (forall s0, bal u' s0 = if decide (s0 = s) then bal u s0 + 1 else bal u s0) ->
  UI (<[p := u']> (h_user <$> Γ)) w ->
  exists S' x l, sem_status r = long_of (self x) /\ x ∈ ps /\
    sabs (<[p := mk_sghost u' (op_set s 3 op) (SWaking None (x :: l))]> Γ) S'
      (<[s := setf sem_status 3 r]> M) T sig w.
Proof.
  intros Ha Hg Hs Hr Hmay Hodd Hbal HU. pose proof Ha as [Hdom Hgl Hpr _ _].
  assert (Hp : p ∈ ps) by (apply Hdom; eauto).
  destruct (sabs_sem _ _ _ _ _ _ s Ha Hs) as (c & r0 & Hc & Hgd).
  assert (r0 = r) as -> by (destruct Hgd; congruence).
  pose proof (status_odd _ _ _ _ _ _ _ _ _ Ha Hc Hgd) as Hcase.
  destruct c as [|x l]; [congruence|]. pose proof Hgd as []. destruct sg_status0 as (Hst & Hnd & Hch).
  pose proof (Hpr p _ Hg) as Hok. destruct (idle_awake _ _ _ _ _ _ Hok) as (Haw & Hnp);
    [exists b; eauto|].
  assert (Hxp : x ∈ ps).
  { apply (sgo_wait _ _ _ _ _ _ Hgl x (WListed s)), sg_listed0. simpl. set_solver. }
  assert (Hpl : p ∉ x :: l) by (rewrite (sg_listed0 p); congruence).
  set (W' := tabulate (fun _ => WPopped p) (x :: l) ∪ ss_wait S).
  assert (HW : forall q, W' !! q = if decide (q ∈ x :: l) then Some (WPopped p) else ss_wait S !! q)
    by (intros q; unfold W'; rewrite lookup_tabulate_union; repeat case_decide; done).
  assert (HL : forall q, q ∈ x :: l <-> ss_wait S !! q = Some (WListed s)) by done.
  eexists _, x, l. split; [done|]. split; [done|].
  eapply (sabs_status Γ S M T sig w p u op (SRun b) s (SWaiters x l) r 3 u' (SWaking None (x :: l))
    (SCount 1) W'); try done.
  - intros q. rewrite HW. split; [set_solver|]. case_decide as Hq; [done|]. by intros E%HL.
  - intros q s0 Hne. rewrite HW. case_decide as Hq; [|done]. apply HL in Hq. split; congruence.
  - intros q y. rewrite HW. case_decide as Hq; [|apply (sgo_wait _ _ _ _ _ _ Hgl)].
    intros _. by apply (sgo_wait _ _ _ _ _ _ Hgl q (WListed s)), HL.
  - intros y q Hne. rewrite HW. case_decide as Hq; [|done]. apply HL in Hq. split; congruence.
  - intros q Hne Hsome. rewrite HW. case_decide; [eauto | done].
  - intros q Hne. rewrite HW. case_decide as Hq; [|done]. apply HL in Hq. split; congruence.
  - intros q s0 Hne. rewrite HW. by case_decide.
  - intros q Hne. rewrite HW. case_decide as Hq; [|done]. apply HL in Hq. split; congruence.
  - intros []. simpl in *. constructor; simpl; try done;
      rewrite ?(HW p), ?decide_False by done; try done.
    + intros s0. rewrite so_op0. destruct op as [[]|]; simpl; [|done].
      destruct Hmay as [[= -> ->]|[[=] _]]. naive_solver.
    + intros s0 v. destruct op as [[]|]; simpl; [|done]. intros [= <- <-].
      by rewrite lookup_insert_eq.
    + intros Hcs. by rewrite (so_cas0 Hcs).
    + split; [done|]. split; [done|]. split; [done|]. intros y.
      rewrite HW. case_decide as Hy; [by split; [right|]|].
      split; [intros E; by apply Hnp in E | by intros [[=]|]].
  - intros s0 Hne. rewrite Hbal. by case_decide.
  - simpl. rewrite Hbal. case_decide; [lia | done].
Qed.

(** *** Links *)

(** The chains of the other processes do not pass through a process that is
    awake, or that has been taken off by another one. *)
Lemma chain_avoids T T' x l :
  (forall y, y ∈ l -> y ∈ ps) -> x ∈ ps -> x ∉ l ->
  (forall y, y <> self x -> next_of T' y = next_of T y) ->
  sem_chain T (self <$> l) -> sem_chain T' (self <$> l).
Proof.
  intros Hl Hx Hnx Hn. apply sem_chain_ext. intros y (z & -> & Hz)%list_elem_of_fmap.
  apply Hn. intros E%self_inj; [congruence | auto | done].
Qed.

(** A write to the link of [x], which is in no chain of a semaphore, nor in
    one of a process other than [p]. *)
Lemma sabs_link Γ S M T sig w p g g' x T' :
  sabs Γ S M T sig w -> Γ !! p = Some g -> h_user g' = h_user g ->
  (forall y, y <> self x -> next_of T' y = next_of T y) ->
  (forall y, p_signal <$> T' !! y = p_signal <$> T !! y) -> x ∈ ps ->
  (forall s, ss_wait S !! x <> Some (WListed s)) ->
  (forall q, q <> p -> ss_wait S !! x <> Some (WPopped q)) ->
  (x = p \/ ss_wait S !! x <> Some WAwake) ->
  sproc_ok S M T' sig p g' ->
  sabs (<[p := g']> Γ) S M T' sig w.
Proof.
  intros Ha Hg Hu Hn Hsg Hx Hnl Hnp Haw Hp. pose proof Ha as [Hdom [] Hpr _ _].
  eapply sabs_update; [done | done | .. | by apply scount_same | by eapply sabs_user_same].
  - constructor; try done. intros s Hs. destruct (sgo_sem0 s Hs) as (c & r & Hc & []).
    exists c, r. split; [done|]. constructor; try done. destruct c as [|y l]; [done|].
    destruct sg_status0 as (? & ? & Hch). split; [done|]. split; [done|].
    eapply chain_avoids; [| exact Hx | | exact Hn | exact Hch].
    + intros z Hz%sg_listed0. eauto.
    + intros Hin%sg_listed0. by apply Hnl in Hin.
  - done.
  - intros q gq Hne Hq []. constructor; try done.
    + intros Hpl. rewrite Hsg. auto.
    + intros v Hpl. rewrite Hn; [auto|]. intros E%self_inj; [|done|done]. subst x.
      destruct Haw as [Haw|Haw]; [done|]. apply Haw, so_awake0. intros s. by rewrite Hpl.
    + destruct (h_place gq); try done. destruct so_waking0 as (? & ? & Hch & Hpop).
      repeat (split; [done|]). split; [|done].
      eapply chain_avoids; [| exact Hx | | exact Hn | exact Hch].
      * intros z Hz. eapply sgo_wait0, Hpop. by right.
      * intros Hin. eapply (Hnp q Hne), Hpop. by right.
Qed.

(** [sem_wait] writes the status to the link of the caller. *)
Lemma sabs_push_link Γ S M T sig w p u pl v T' :
  sabs Γ S M T sig w -> Γ !! p = Some (mk_sghost u None pl) -> idle pl ->
  (forall y, y <> self p -> next_of T' y = next_of T y) -> next_of T' (self p) = Some v ->
  (forall y, p_signal <$> T' !! y = p_signal <$> T !! y) ->
  sabs (<[p := mk_sghost u None (SPush v)]> Γ) S M T' sig w.
Proof.
  intros Ha Hg Hid Hn Hv Hsg. pose proof Ha as [Hdom Hgl Hpr _ _].
  pose proof (Hpr p _ Hg) as Hok. destruct (idle_awake _ _ _ _ _ _ Hok Hid) as [Haw Hnp].
  eapply (sabs_link _ _ _ _ _ _ p _ _ p T' Ha Hg); try done;
    [apply Hdom; eauto | intros; congruence | intros; congruence | by left |].
  destruct Hok. constructor; simpl; try done. by intros v0 [= <-].
Qed.

(** [sem_post] clears the link of the next process it wakes. *)
Lemma sabs_clear Γ S M T sig w p u x l T' :
  sabs Γ S M T sig w -> Γ !! p = Some (mk_sghost u None (SWaking None (x :: l))) ->
  (forall y, y <> self x -> next_of T' y = next_of T y) ->
  (forall y, p_signal <$> T' !! y = p_signal <$> T !! y) ->
  sabs (<[p := mk_sghost u None (SWaking (Some x) l)]> Γ) S M T' sig w.
Proof.
  intros Ha Hg Hn Hsg. pose proof Ha as [Hdom [] Hpr _ _]. pose proof (Hpr p _ Hg) as [].
  simpl in *. destruct so_waking0 as (Hnd & _ & [Hx Hch] & Hpop).
  apply NoDup_cons in Hnd as [Hxl Hnd].
  assert (Hwx : ss_wait S !! x = Some (WPopped p)) by (apply Hpop; right; set_solver).
  eapply (sabs_link _ _ _ _ _ _ p _ _ x T' Ha Hg); try done;
    [eauto | congruence | congruence | right; congruence |].
  constructor; simpl; try done; [|by rewrite so_awake0].
  split; [done|]. split; [by intros y [= <-]|]. split.
  - eapply chain_avoids; [| | exact Hxl | exact Hn | exact Hch]; [|eauto].
    intros y Hy. eapply sgo_wait0, Hpop. right. set_solver.
  - intros y. rewrite Hpop. set_solver.
Qed.

(** The place after the signal has been sent. *)
Definition waking_rest (l : list Z) : splace :=
  match l with [] => SRun false | _ => SWaking None l end.

Lemma sabs_kill Γ S M T sig w p u x l sig' :
  sabs Γ S M T sig w -> Γ !! p = Some (mk_sghost u None (SWaking (Some x) l)) ->
  (forall q, sig' q <-> q = x \/ sig q) ->
  sabs (<[p := mk_sghost u None (waking_rest l)]> Γ)
    (mk_sshared (ss_sem S) (ss_lock S) (<[x := WSignaled]> (ss_wait S))) M T sig' w.
Proof.
  intros Ha Hg Hsig. pose proof Ha as [Hdom [] Hpr _ _]. pose proof (Hpr p _ Hg) as [].
  simpl in *. destruct so_waking0 as (Hnd & Hxl & Hch & Hpop).
  assert (Hwx : ss_wait S !! x = Some (WPopped p)) by (apply Hpop; by left).
  assert (Haw : ss_wait S !! p = Some WAwake) by by apply so_awake0.
  assert (Hpx : x <> p) by congruence. specialize (Hxl x eq_refl).
  eapply sabs_update; [done | done | .. | by apply scount_same | by eapply sabs_user_same].
  - constructor; simpl.
    + intros s Hs. destruct (sgo_sem0 s Hs) as (c & r & Hc & []). exists c, r.
      split; [done|]. constructor; simpl; try done. intros q. rewrite sg_listed0, lookup_insert.
      case_decide; [subst; rewrite Hwx; by split | done].
    + intros q y [[<- _]|[_ Hq]]%lookup_insert_Some; eauto.
    + intros q s [[_ [=]]|[_ Hq]]%lookup_insert_Some; eauto.
    + intros q r [[_ [=]]|[_ Hq]]%lookup_insert_Some; eauto.
  - constructor; simpl; rewrite ?(lookup_insert_ne _ x p) by done; try done.
    + by destruct l.
    + by destruct l.
    + destruct l as [|y l]; simpl.
      * intros z. rewrite lookup_insert. case_decide; [done|]. intros [[= ->]|Hz]%Hpop; [done|set_solver].
      * split; [done|]. split; [done|]. split; [done|]. intros z. rewrite lookup_insert.
        case_decide; [subst; split; [done | by intros [[=]|]]|]. rewrite Hpop. naive_solver.
    + rewrite so_awake0. destruct l; naive_solver.
    + by destruct l.
    + rewrite Hsig, so_signaled0. naive_solver.
  - intros q gq Hne Hq []. constructor; simpl; try done.
    + destruct (h_place gq); try (intros z; rewrite lookup_insert; by case_decide).
      destruct so_waking0 as (? & ? & ? & Hpop1). repeat (split; [done|]). intros z.
      rewrite lookup_insert. case_decide; [subst|apply Hpop1]. rewrite <- Hpop1, Hwx.
      split; [done | congruence].
    + rewrite lookup_insert. case_decide; [eauto | done].
    + rewrite lookup_insert. case_decide; [subst; rewrite <- so_awake1, Hwx; by split | done].
    + intros s s' Hpl. rewrite lookup_insert. case_decide; [done | by eapply so_listed1].
    + rewrite Hsig, lookup_insert. case_decide; [naive_solver|]. rewrite so_signaled1. naive_solver.
Qed.

(** Taking the restart signal in [suspend_with_cancellation]. *)
Lemma sabs_taken Γ S M T sig w p u s sig' :
  sabs Γ S M T sig w -> Γ !! p = Some (mk_sghost u None (SSusp s)) -> sig p ->
  (forall q, sig' q <-> q <> p /\ sig q) ->
  sabs (<[p := mk_sghost u None SWoken]> Γ)
    (mk_sshared (ss_sem S) (ss_lock S) (<[p := WAwake]> (ss_wait S))) M T sig' w.
Proof.
  intros Ha Hg Hsp Hsig. pose proof Ha as [Hdom [] Hpr _ _]. pose proof (Hpr p _ Hg) as [].
  simpl in *. assert (Hwp : ss_wait S !! p = Some WSignaled) by by apply so_signaled0.
  assert (Hp : p ∈ ps) by (apply Hdom; eauto).
  eapply sabs_update; [done | done | .. | by apply scount_same | by eapply sabs_user_same].
  - constructor; simpl.
    + intros s0 Hs. destruct (sgo_sem0 s0 Hs) as (c & r & Hc & []). exists c, r.
      split; [done|]. constructor; simpl; try done. intros q. rewrite sg_listed0, lookup_insert.
      case_decide; [subst; rewrite Hwp; by split | done].
    + intros q y [[<- _]|[_ Hq]]%lookup_insert_Some; eauto.
    + intros q s0 [[_ [=]]|[_ Hq]]%lookup_insert_Some; eauto.
    + intros q r [[_ [=]]|[_ Hq]]%lookup_insert_Some; eauto.
  - constructor; simpl; rewrite ?lookup_insert_eq; try done; [|rewrite Hsig; naive_solver].
    intros x. rewrite lookup_insert. by case_decide.
  - intros q gq Hne Hq []. constructor; simpl; rewrite ?(lookup_insert_ne _ p q) by done; try done.
    + destruct (h_place gq); try (intros z; rewrite lookup_insert; by case_decide).
      destruct so_waking1 as (? & ? & ? & Hpop1). repeat (split; [done|]). intros z.
      rewrite lookup_insert. case_decide; [subst|apply Hpop1]. rewrite <- Hpop1, Hwp. by split.
    + rewrite Hsig, so_signaled1. naive_solver.
Qed.

(** The handler records the signal. *)
Lemma sabs_woken Γ S M T sig w p u T' :
  sabs Γ S M T sig w -> Γ !! p = Some (mk_sghost u None SWoken) ->
  (forall x, next_of T' x = next_of T x) ->
  p_signal <$> T' !! self p = Some PTHREAD_SIG_RESTART ->
  (forall q, q ∈ ps -> q <> p -> T' !! self q = T !! self q) ->
  sabs (<[p := mk_sghost u None (SRun true)]> Γ) S M T' sig w.
Proof.
  intros Ha Hg HT Hs Hoth. pose proof Ha as [Hdom [] Hpr _ _]. pose proof (Hpr p _ Hg) as [].
  simpl in *.
  assert (Hch : forall l, sem_chain T l -> sem_chain T' l)
    by (intros l; apply sem_chain_ext; intros; apply HT).
  eapply sabs_update; [done | done | .. | by apply scount_same | by eapply sabs_user_same].
  - constructor; try done. intros s Hin. destruct (sgo_sem0 s Hin) as (c & r & Hc & []).
    exists c, r. split; [done|]. constructor; try done. destruct c as [|x l]; [done|].
    destruct sg_status0 as (? & ? & ?). auto.
  - constructor; simpl; try done. rewrite so_awake0. done.
  - intros q gq Hne Hq []. constructor; try done.
    + intros Hpl. rewrite Hoth by done. auto.
    + intros v Hpl. rewrite HT. auto.
    + destruct (h_place gq); try done. destruct so_waking1 as (? & ? & ? & ?). auto.
Qed.

(** Leaving the wait. *)
Lemma sabs_run Γ S M T sig w p u b : sabs Γ S M T sig w ->
  Γ !! p = Some (mk_sghost u None (SRun b)) ->
  sabs (<[p := mk_sghost u None (SRun false)]> Γ) S M T sig w.
Proof.
  intros Ha Hg. pose proof Ha as [Hdom Hgl Hpr _ _]. pose proof (Hpr p _ Hg) as [].
  eapply sabs_update; [done | done | done | .. | by apply scount_same | by eapply sabs_user_same].
  - constructor; simpl in *; try done. rewrite so_awake0. done.
  - done.
Qed.

(** The client does something on its own. *)
Lemma sabs_client Γ S M T sig w p u pl u' w' :
  sabs Γ S M T sig w -> Γ !! p = Some (mk_sghost u None pl) ->
  (forall s, bal u' s = bal u s) -> UI (<[p := u']> (h_user <$> Γ)) w' ->
  sabs (<[p := mk_sghost u' None pl]> Γ) S M T sig w'.
Proof.
  intros Ha Hg Hb HU. pose proof Ha as [Hdom Hgl Hpr _ _]. pose proof (Hpr p _ Hg) as [].
  eapply sabs_update; [done | done | done | by constructor | done | | done].
  intros s c c' _ H1 H2. simplify_eq. simpl. rewrite Hb. lia.
Qed.
End steps.

(** ** The functions of the library *)

Section rules.
Context {H : Handlers} {P : Platform} {Pok : PlatformOk P} {UC : UserCode} {Hr : RestartHandler H P}.
Context {U : Type}.
Context (ps : list Z) (self : Z -> addr) (sems : list Z) (init : Z -> Z).
Context (bal : U -> Z -> Z) (UI : gmap Z U -> gmap Z Z -> Prop) (waits : U -> Z -> Prop).
Context (ps_nodup : NoDup ps).
Context (self_inj : forall p q, p ∈ ps -> q ∈ ps -> self p = self q -> p = q).
Context (self_addr : forall p, p ∈ ps -> 1 < self p < 2 ^ long_bits /\ Z.odd (self p) = false).
Context (self_mgr : forall p, p ∈ ps -> self p <> addr_manager_thread).

Abbreviation Inv := (SInv ps self sems init bal UI).
Abbreviation triple := (triple Inv (sasleep waits)).
Abbreviation sabs := (sabs ps self sems init bal UI).
Abbreviation avail := (avail ps init bal).

Lemma sinv_in Γ σ p g : Inv Γ σ -> Γ !! p = Some g -> p ∈ ps.
Proof.
  intros (_ & _ & S & Ha) Hg. apply (sa_dom _ _ _ _ _ _ _ _ _ _ _ _ Ha). eauto.
Qed.

(** Only the memory changes, and in the descriptors neither the process, the
    jump buffer of the handler nor the request to cancel. *)
Lemma sthreads_mem σ σ' :
  krn σ' = krn σ -> glb σ' = glb σ ->
  (forall x d, thr σ !! x = Some d -> exists d', thr σ' !! x = Some d' /\
     p_pid d' = p_pid d /\ p_signal_jmp d' = p_signal_jmp d /\ p_canceled d' = p_canceled d) ->
  threads_ok ps self σ /\ not_canceled ps self σ -> threads_ok ps self σ' /\ not_canceled ps self σ'.
Proof.
  intros Hk Hg Ht [H1 H2]. split.
  - eapply threads_ok_mem; [done | done | | exact H1].
    intros x d Hd. destruct (Ht x d Hd) as (d' & ? & ? & ? & _). eauto.
  - intros p Hp. specialize (H2 p Hp). destruct (thr σ !! self p) as [d|] eqn:Hd; [|done].
    destruct (Ht _ d Hd) as (d' & -> & _ & _ & E). simpl in *. congruence.
Qed.

Lemma sabs_sig_ext Γ S M T sig sig' w : (forall q, sig' q <-> sig q) ->
  sabs Γ S M T sig w -> sabs Γ S M T sig' w.
Proof.
  intros Hs [Hd Hg Hp Hb Hu]. constructor; [done | done | | done | done].
  intros p g Hpg. destruct (Hp p g Hpg). constructor; try done. by rewrite Hs.
Qed.

#[local] Instance sinv_pool : PoolInv ps self Inv.
Proof.
  constructor.
  - by intros Γ σ [? _].
  - by intros Γ σ (_ & ? & _).
  - apply sinv_in.
  - exact self_mgr.
  - intros Γ σ σ' (_ & _ & S & Ha) Hth Hnc _ _ E1 E2 HT Hs Hsig.
    split; [done|]. split; [done|]. exists S. rewrite E1, E2.
    eapply sabs_sig_ext; [exact Hsig|]. by eapply sabs_mem.
Qed.

(** The values the status of a semaphore can have. *)
Definition status_val (v : Z) : Prop :=
  (exists n, 0 <= n /\ 2 * n + 1 <= SEM_VALUE_MAX /\ v = 2 * n + 1) \/
  (exists x, x ∈ ps /\ v = long_of (self x)).

Lemma sem_status_val Γ S M T sig w s : sabs Γ S M T sig w -> s ∈ sems ->
  exists r, M !! s = Some r /\ status_val (sem_status r).
Proof.
  intros Ha Hs. destruct (sabs_sem _ _ _ _ _ _ _ _ _ _ _ _ s Ha Hs) as (c & r & Hc & []).
  exists r. split; [done|]. destruct c as [n|x l].
  - left. exists n. tauto.
  - right. exists x. split; [|tauto].
    eapply (sgo_wait _ _ _ _ _ _ (sa_glob _ _ _ _ _ _ _ _ _ _ _ _ Ha)).
    apply (sg_listed0 x). simpl. set_solver.
Qed.

Lemma t_load_status {A} p g s (k : Z -> itree evt A) Q :
  s ∈ sems -> (forall v, status_val v -> triple p g (k v) Q) ->
  triple p g (ITree.bind (load sms s sem_status) k) Q.
Proof.
  intros Hs Hk. apply triple_read. intros Γ σ (_ & _ & S & Ha) Hg.
  destruct (sem_status_val _ _ _ _ _ _ _ Ha Hs) as (r & Hr0 & Hv). exists (sem_status r).
  rewrite Hr0. auto.
Qed.

(** *** compare_and_swap *)

Section cas.
Context (p s old new : Z) (u : U) (pl : splace) (R : U -> splace -> Prop).
Context (s_in : s ∈ sems).
Context (step : forall Γ S M T sig w op r, sabs Γ S M T sig w ->
  Γ !! p = Some (mk_sghost u op pl) -> M !! s = Some r -> sem_status r = old ->
  may_set s old op -> exists S' u' pl', R u' pl' /\
    sabs (<[p := mk_sghost u' (op_set s new op) pl']> Γ) S' (<[s := setf sem_status new r]> M)
      T sig w).

Lemma t_sem_acquire {A} (k : unit -> itree evt A) Q :
  cas_op = None ->
  (forall v, triple p (mk_sghost u (Some (s, v)) pl) (k tt) Q) ->
  triple p (mk_sghost u None pl) (ITree.bind (acquire (sem_spinlock_at s)) k) Q.
Proof.
  intros Hcas Hk. eapply (triple_bind _ _ _ _ _ _ (fun _ g' => exists v,
    g' = mk_sghost u (Some (s, v)) pl)).
  - unfold acquire, c_while.
    apply (triple_loop _ _ _ _ (fun _ g' => g' = mk_sghost u None pl)); [|done].
    intros [] g' ->. apply triple_assoc, triple_act.
    intros Γ σ (Hth & Hnc & S & Ha) Hg.
    destruct (sabs_sem _ _ _ _ _ _ _ _ _ _ _ _ s Ha s_in) as (c & r & Hc & []).
    simpl. rewrite sg_mem0. simpl. destruct (ss_lock S !! s) as [q|] eqn:Hl.
    + destruct tas_taken as [Hnz Hsame]. rewrite sg_lock0. eexists _, σ, _.
      split; [|split].
      * do 2 f_equal. rewrite Hsame. apply (put_int_id (sem_spinlock_at s)). simpl.
        rewrite sg_mem0. simpl. by f_equal.
      * rewrite insert_id by done. split; [done|]. split; [done|]. by exists S.
      * rewrite (istrue_nonzero _ Hnz). apply triple_assoc. unfold sched_yield.
        apply triple_read. intros Γ' σ' _ _. exists tt. split; [done|].
        by apply triple_bind_ret, triple_ret.
    + rewrite sg_lock0, tas_free. simpl. eexists 0, _, (mk_sghost u (Some (s, sem_status r)) pl).
      split; [done|]. split.
      * destruct (sthreads_mem σ (put_int (sem_spinlock_at s) locked σ)) as [H1 H2]; eauto 10.
        split; [done|]. split; [done|]. eexists. simpl. fields.
        rewrite <- (insert_alter (setf sem_spinlock locked) _ _ _ sg_mem0).
        by apply (sabs_lock _ _ _ _ _ _ ps_nodup _ _ _ _ _ _ p _ s r Ha Hg).
      * simpl. apply triple_bind_ret, triple_ret. eauto.
  - intros [] g' [v ->]. apply Hk.
Qed.

Lemma t_sem_release {A} u' v pl' (k : unit -> itree evt A) Q :
  triple p (mk_sghost u' None pl') (k tt) Q ->
  triple p (mk_sghost u' (Some (s, v)) pl') (ITree.bind (release (sem_spinlock_at s)) k) Q.
Proof.
  intros Hk. apply triple_act. intros Γ σ (Hth & Hnc & S & Ha) Hg.
  destruct (sabs_sem _ _ _ _ _ _ _ _ _ _ _ _ s Ha s_in) as (c & r & Hc & []).
  simpl. rewrite sg_mem0. simpl.
  assert (Hl : ss_lock S !! s = Some p).
  { apply (so_op _ _ _ _ _ _ _ (sa_proc _ _ _ _ _ _ _ _ _ _ _ _ Ha p _ Hg)). simpl. eauto. }
  rewrite sg_lock0, Hl, release_taken. eexists tt, _, _. split; [done|]. split; [|exact Hk].
  destruct (sthreads_mem σ (put_int (sem_spinlock_at s) 0 σ)) as [H1 H2]; eauto 10.
  split; [done|]. split; [done|]. eexists. simpl. fields.
  rewrite <- (insert_alter (setf sem_spinlock 0) _ _ _ sg_mem0).
  by apply (sabs_unlock _ _ _ _ _ _ ps_nodup _ _ _ _ _ _ p _ s v r Ha Hg).
Qed.

Lemma t_cas {A} (k : Z -> itree evt A) Q :
  (forall v u' pl', istrue v = true -> R u' pl' -> triple p (mk_sghost u' None pl') (k v) Q) ->
  (forall v, istrue v = false -> triple p (mk_sghost u None pl) (k v) Q) ->
  triple p (mk_sghost u None pl) (ITree.bind (compare_and_swap s old new) k) Q.
Proof.
  intros Hyes Hno. unfold compare_and_swap. destruct cas_op as [f|] eqn:Hcas.
  - apply triple_act. intros Γ σ (Hth & Hnc & S & Ha) Hg.
    destruct (sem_status_val _ _ _ _ _ _ _ Ha s_in) as (r & Hr0 & _). rewrite Hr0.
    destruct (cas_spec f (sem_status r) old new Hcas) as [Hret Hval]. rewrite Hval.
    destruct (sem_status r =? old) eqn:E.
    + apply Z.eqb_eq in E.
      destruct (step Γ S _ _ _ _ None r Ha Hg Hr0 E) as (S' & u' & pl' & HR & Ha').
      { right. rewrite Hcas. eauto. }
      eexists _, _, _. split; [done|]. split; [|by apply Hyes].
      destruct (sthreads_mem σ (setf sms (<[s := setf sem_status new r]> (sms σ)) σ))
        as [H1 H2]; eauto 10.
      split; [done|]. split; [done|]. exists S'. exact Ha'.
    + eexists _, σ, _. split; [|split; [|by apply Hno]].
      * do 2 f_equal. replace (setf sem_status (sem_status r) r) with r by by destruct r.
        rewrite insert_id by done. by destruct σ.
      * rewrite insert_id by done. split; [done|]. split; [done|]. by exists S.
  - apply triple_assoc, t_sem_acquire; [done|]. intros v. apply triple_assoc, triple_read.
    intros Γ σ (_ & _ & S & Ha) Hg.
    pose proof (so_status _ _ _ _ _ _ _ (sa_proc _ _ _ _ _ _ _ _ _ _ _ _ Ha p _ Hg) s v eq_refl) as Hv.
    destruct (sms σ !! s) as [r|] eqn:Hr0; [|done]. injection Hv as Hv. exists v.
    split; [by rewrite Hv|]. rewrite istrue_c_bool. clear S Γ σ Ha Hg Hr0 Hv r.
    destruct (v =? old) eqn:E; simpl.
    + apply Z.eqb_eq in E. subst v. apply triple_assoc, triple_act.
      intros Γ σ (Hth & Hnc & S & Ha) Hg.
      pose proof (so_status _ _ _ _ _ _ _ (sa_proc _ _ _ _ _ _ _ _ _ _ _ _ Ha p _ Hg) s old eq_refl)
        as Hv.
      destruct (sms σ !! s) as [r|] eqn:Hr0; [|done]. injection Hv as Hv.
      destruct (step Γ S _ _ _ _ _ r Ha Hg Hr0 Hv) as (S' & u' & pl' & HR & Ha'); [by left|].
      eexists tt, _, _. split; [done|]. split; cycle 1.
      * apply triple_assoc, t_sem_release. apply triple_bind_ret. by apply Hyes.
      * destruct (sthreads_mem σ (setf sms (<[s := setf sem_status new r]> (sms σ)) σ))
          as [H1 H2]; eauto 10.
        split; [done|]. split; [done|]. exists S'. exact Ha'.
    + apply triple_assoc, triple_bind_ret, triple_assoc, t_sem_release, triple_bind_ret.
      by apply Hno.
Qed.
End cas.

(** *** Waiting *)

Lemma s_wakes p u s : p ∈ ps -> waits u s ->
  wakes ps self Inv (sasleep waits) p (mk_sghost u None (SSusp s)) (mk_sghost u None SWoken)
    (mk_sghost u None (SRun true)).
Proof.
  intros Hp Hw. constructor.
  - intros Γ σ _ _ Hn. by exists s.
  - intros Γ σ σ' (_ & _ & S & Ha) Hg Hs [_ _ E1 E2 E3] Hth Hnc Hsig.
    split; [done|]. split; [done|]. eexists. rewrite E1, E2, E3.
    by eapply (sabs_taken _ _ _ _ _ _ ps_nodup self_addr Γ S).
  - intros Γ σ d (_ & _ & S & Ha) Hg Hd σ' Hth Hnc. split; [done|]. split; [done|]. exists S.
    unfold σ'. fields. apply (sabs_woken _ _ _ _ _ _ ps_nodup Γ S (sms σ) (thr σ) _ _ p u _ Ha Hg).
    + intros x. rewrite next_of_insert. case_decide; [subst|done]. unfold next_of. by rewrite Hd.
    + by rewrite lookup_insert_eq.
    + intros q Hq Hne. rewrite lookup_insert_ne; [done|]. intros E%self_inj; congruence.
  - intros Γ σ (_ & _ & S & Ha) Hg.
    by apply (so_sig _ _ _ _ _ _ _ (sa_proc _ _ _ _ _ _ _ _ _ _ _ _ Ha p _ Hg)).
Qed.

(** *** sem_wait *)

(** [self->p_nextwaiting = v] *)
Lemma t_push_link {A} p u pl v (k : unit -> itree evt A) Q :
  p ∈ ps -> idle pl ->
  triple p (mk_sghost u None (SPush v)) (k tt) Q ->
  triple p (mk_sghost u None pl) (ITree.bind (store thr (self p) p_nextwaiting v) k) Q.
Proof.
  intros Hp Hid Hk. apply triple_act. intros Γ σ (Hth & Hnc & S & Ha) Hg.
  destruct (proj2 Hth p Hp) as (pr & d & [_ _ Hd] & _). rewrite Hd.
  eexists tt, _, (mk_sghost u None (SPush v)). split; [done|]. split.
  { destruct (threads_ok_store ps self σ (self p) d (setf p_nextwaiting v d)) as [H1 H2]; try done.
    split; [done|]. split; [done|]. exists S. fields.
    apply (sabs_push_link _ _ _ _ _ _ ps_nodup self_inj Γ S (sms σ) (thr σ) _ _ p u pl _ _ Ha Hg Hid).
    - intros y Hy. rewrite next_of_insert. case_decide; [congruence | done].
    - rewrite next_of_insert. by case_decide.
    - intros y. rewrite lookup_insert. case_decide; [subst; by rewrite Hd | done]. }
  exact Hk.
Qed.

(** The inner loop: the process has a unit, or is in the list. *)
Lemma t_sem_wait_try p s u u' pl :
  p ∈ ps -> s ∈ sems -> idle pl ->
  (forall s0, bal u' s0 = if decide (s0 = s) then bal u s0 - 1 else bal u s0) ->
  (forall us w, UI us w -> us !! p = Some u -> UI (<[p := u']> us) w) ->
  triple p (mk_sghost u None pl) (c_loop (sem_wait_try s (self p)) tt)
    (fun new g => Z.odd new = true /\ g = mk_sghost u' None (SRun false) \/
       new = long_of (self p) /\ g = mk_sghost u None (SSusp s)).
Proof.
  intros Hp Hs Hid Hbal HU.
  apply (triple_loop _ _ _ _ (fun _ g => exists pl, idle pl /\ g = mk_sghost u None pl)); [|eauto].
  clear pl Hid. intros [] g (pl & Hid & ->). unfold sem_wait_try.
  apply t_load_status; [done|]. intros v Hv.
  destruct (is_count v && negb (v =? 1)) eqn:Hc.
  + apply andb_true_iff in Hc as [Hodd H1]. rewrite is_count_odd in Hodd.
    apply negb_true_iff, Z.eqb_neq in H1. apply triple_bind_ret.
    assert (E : wrapS long_bits (v - 2) = v - 2).
    { destruct Hv as [(n & Hn & Hm & ->)|(x & Hx & ->)].
      - apply long_small. unfold SEM_VALUE_MAX in *. lia.
      - rewrite odd_long in Hodd. destruct (self_addr x Hx). congruence. }
    rewrite E. eapply (t_cas p s v (v - 2) u pl (fun u1 pl1 => u1 = u' /\ pl1 = SRun false));
      [done | | |].
    * intros Γ S M T sig w op r Ha Hg Hr0 <- Hm.
      destruct (sabs_take _ _ _ _ _ _ ps_nodup self_inj self_addr Γ S M T sig w p u op pl s r u'
        Ha Hg Hid Hs Hr0 Hm Hodd H1 Hbal) as (S' & Ha'); [|by exists S', u', (SRun false)].
      apply HU; [apply Ha | by rewrite lookup_fmap, Hg].
    * intros ok u1 pl1 Hok [-> ->]. rewrite Hok. apply triple_ret. left.
      rewrite Z.odd_sub. by rewrite Hodd.
    * intros ok Hok. rewrite Hok. apply triple_ret. eauto.
  + apply triple_assoc, (t_push_link p u pl (ptr_of v)); [done..|]. apply triple_bind_ret.
    eapply (t_cas p s v (long_of (self p)) u _ (fun u1 pl1 => u1 = u /\ pl1 = SSusp s));
      [done | | |].
    * intros Γ S M T sig w op r Ha Hg Hr0 <- Hm.
      destruct (sabs_push _ _ _ _ _ _ ps_nodup self_inj self_addr Γ S M T sig w p u op s r Ha Hg Hs Hr0 Hm)
        as (S' & Ha'); [|by exists S', u, (SSusp s)].
      rewrite is_count_odd in Hc. destruct (Z.odd (sem_status r)); [right | by left].
      simpl in Hc. by apply negb_false_iff, Z.eqb_eq in Hc.
    * intros ok u1 pl1 Hok [-> ->]. rewrite Hok. apply triple_ret. by right.
    * intros ok Hok. rewrite Hok. apply triple_ret. exists (SPush (ptr_of v)).
      split; [exists true; eauto | done].
Qed.

(** [sem_wait]: the client's account [u] becomes [u'], with one unit less. *)
Lemma t_sem_wait p s u u' b :
  s ∈ sems -> waits u s ->
  (forall s0, bal u' s0 = if decide (s0 = s) then bal u s0 - 1 else bal u s0) ->
  (forall us w, UI us w -> us !! p = Some u -> UI (<[p := u']> us) w) ->
  triple p (mk_sghost u None (SRun b)) (sem_wait s)
    (fun r g => r = 0 /\ g = mk_sghost u' None (SRun false)).
Proof.
  intros Hs Hw Hbal HU. unfold sem_wait. apply (t_self ps self Inv (sasleep waits)). intros Hp.
  apply (triple_loop _ _ _ _ (fun _ g => exists pl, idle pl /\ g = mk_sghost u None pl)); cycle 1.
  { exists (SRun b). split; [exists b; by left | done]. }
  intros [] g (pl & Hid & ->). unfold sem_wait_body.
  eapply triple_bind; [by apply (t_sem_wait_try p s u u')|].
  intros new g [[Hodd ->]|[-> ->]]; rewrite is_count_odd.
  - rewrite Hodd. by apply triple_ret.
  - rewrite odd_long, (proj2 (self_addr p Hp)). 
    eapply (t_suspend_cancel ps self Inv (sasleep waits) p _ _ _ Hp (s_wakes p u s Hp Hw)).
    { intros Γ σ Hi Hg. by rewrite insert_id. }
    apply (t_cancel_pending ps self Inv (sasleep waits)); [done|]. apply triple_ret. exists (SRun true).
    split; [exists true; by left | done].
Qed.

(** *** sem_post *)

Lemma t_sem_restart {A} p u x l (k : unit -> itree evt A) Q :
  triple p (mk_sghost u None (waking_rest l)) (k tt) Q ->
  triple p (mk_sghost u None (SWaking (Some x) l)) (ITree.bind (restart (self x)) k) Q.
Proof.
  intros Hk. eapply (t_restart ps self Inv (sasleep waits)); [| |exact Hk].
  - intros Γ σ (_ & _ & S & Ha) Hg.
    pose proof (so_waking _ _ _ _ _ _ _ (sa_proc _ _ _ _ _ _ _ _ _ _ _ _ Ha p _ Hg))
      as (_ & _ & _ & Hpop).
    eapply (sgo_wait _ _ _ _ _ _ (sa_glob _ _ _ _ _ _ _ _ _ _ _ _ Ha)), Hpop. by left.
  - intros Γ σ σ' (_ & _ & S & Ha) Hg [_ _ E1 E2 E3] Hth Hnc Hsig.
    split; [done|]. split; [done|]. eexists. rewrite E1, E2, E3.
    by eapply (sabs_kill _ _ _ _ _ _ ps_nodup self_inj self_addr Γ S).
Qed.

Lemma t_sem_wake p u x l :
  triple p (mk_sghost u None (SWaking None (x :: l))) (c_loop sem_post_wake (self x))
    (fun _ g => g = mk_sghost u None (SRun false)).
Proof.
  apply (triple_loop _ _ _ _ (fun th g => exists x l, th = self x /\
    g = mk_sghost u None (SWaking None (x :: l)))); [|eauto].
  clear x l. intros th g (x & l & -> & ->). unfold sem_post_wake.
  set (next := default 1 (head (self <$> l))).
  apply triple_read. intros Γ σ Hi Hg.
  assert (Hx : forall Γ σ, Inv Γ σ -> Γ !! p = Some (mk_sghost u None (SWaking None (x :: l))) ->
    next_of (thr σ) (self x) = Some next /\ forall y, y ∈ l -> y ∈ ps).
  { intros Γ1 σ1 (_ & _ & S1 & Ha1) Hg1.
    pose proof (so_waking _ _ _ _ _ _ _ (sa_proc _ _ _ _ _ _ _ _ _ _ _ _ Ha1 p _ Hg1))
      as (_ & _ & [Hnx _] & Hpop). split; [done|]. intros y Hy.
    eapply (sgo_wait _ _ _ _ _ _ (sa_glob _ _ _ _ _ _ _ _ _ _ _ _ Ha1)), Hpop. set_solver. }
  destruct (Hx Γ σ Hi Hg) as [Hnx Hl].
  destruct (next_of_lookup _ _ _ Hnx) as (d & Hd & Hdn). rewrite Hd. exists next.
  split; [by rewrite Hdn|]. clear Γ σ Hi Hg d Hnx Hd Hdn.
  apply triple_act. intros Γ σ Hi Hg. destruct (Hx Γ σ Hi Hg) as [Hnx _].
  destruct Hi as (Hth & Hnc & S & Ha). destruct (next_of_lookup _ _ _ Hnx) as (d & Hd & _).
  rewrite Hd. eexists tt, _, (mk_sghost u None (SWaking (Some x) l)). split; [done|]. split.
  { destruct (threads_ok_store ps self σ (self x) d (setf p_nextwaiting NULL d)) as [H1 H2]; try done.
    split; [done|]. split; [done|]. exists S. fields.
    apply (sabs_clear _ _ _ _ _ _ ps_nodup self_inj self_addr Γ S (sms σ) (thr σ) _ _ p u x l _ Ha Hg).
    - intros y Hy. rewrite next_of_insert. case_decide; [congruence | done].
    - intros y. rewrite lookup_insert. case_decide; [subst; by rewrite Hd | done]. }
  apply t_sem_restart, triple_ret. unfold next. destruct l as [|y l]; simpl; [done|].
  assert (Hy : self y <> 1) by (destruct (self_addr y); [apply Hl; set_solver | lia]).
  rewrite (proj2 (Z.eqb_neq _ _) Hy). simpl. eauto.
Qed.

(** The encoded status has room for one more unit. *)
Lemma post_small v : Z.odd v = true -> 0 <= v -> v < SEM_VALUE_MAX ->
  wrapS long_bits (v + 2) = v + 2.
Proof.
  intros E Hpos Hlt. pose proof long_bits_wide. apply wrapS_small; [lia|].
  pose proof (Z.pow_le_mono_r 2 31 (long_bits - 1)). unfold SEM_VALUE_MAX, INT_MAX in *.
  assert (v + 2 < 2 ^ 31); [|lia].
  destruct (Z.eq_dec (v + 2) (2 ^ 31)) as [E2|]; [|lia].
  assert (v = 2 ^ 31 - 2) as -> by lia. done.
Qed.

(** The loop: one more unit, or the waiting processes are taken off. *)
Lemma t_sem_post_try p s u u' b :
  s ∈ sems ->
  (forall s0, bal u' s0 = if decide (s0 = s) then bal u s0 + 1 else bal u s0) ->
  (forall us w, UI us w -> us !! p = Some u -> UI (<[p := u']> us) w) ->
  (forall us w, UI us w -> us !! p = Some u -> (forall s0, s0 ∈ sems -> 0 <= avail us s0) ->
     2 * avail us s + 1 < SEM_VALUE_MAX) ->
  triple p (mk_sghost u None (SRun b)) (c_loop (sem_post_try s) tt)
    (fun r g => exists old, r = inl old /\
       (Z.odd old = true /\ g = mk_sghost u' None (SRun b) \/
        exists x l, x ∈ ps /\ old = long_of (self x) /\
          g = mk_sghost u' None (SWaking None (x :: l)))).
Proof.
  intros Hs Hbal HU Hroom.
  apply (triple_loop _ _ _ _ (fun _ g => g = mk_sghost u None (SRun b))); [|done].
  intros [] g ->. unfold sem_post_try. apply triple_read. intros Γ σ (_ & _ & S & Ha) Hg.
  destruct (sabs_sem _ _ _ _ _ _ _ _ _ _ _ _ s Ha Hs) as (c & r & Hc & Hgd).
  pose proof (status_odd _ _ _ _ _ _ ps_nodup self_inj self_addr _ _ _ _ _ _ _ _ _ Ha Hc Hgd) as Hodd.
  destruct Hgd. exists (sem_status r). rewrite sg_mem0. split; [done|].
  rewrite is_count_odd. destruct (Z.odd (sem_status r)) eqn:E; simpl.
  + destruct c as [n|]; [|done].
    assert (Hlt : sem_status r < SEM_VALUE_MAX).
    { destruct sg_status0 as (_ & _ & ->).
      pose proof (sa_bal _ _ _ _ _ _ _ _ _ _ _ _ Ha s _ Hs Hc) as Hb. simpl in Hb. rewrite Hb.
      eapply Hroom; [apply Ha | by rewrite lookup_fmap, Hg |].
      intros s0 Hs0. by eapply sabs_avail. }
    assert (Hpos : 0 <= sem_status r) by (destruct sg_status0 as (? & _ & ->); lia).
    rewrite Z.geb_leb, (proj2 (Z.leb_gt _ _) Hlt).
    rewrite (post_small _ E) by done. set (v := sem_status r) in *. clearbody v.
    clear Γ σ S Ha Hg Hc sg_mem0 sg_lock0 sg_status0 sg_listed0 r Hodd n.
    eapply (t_cas p s v (v + 2) u _ (fun u1 pl1 => u1 = u' /\ pl1 = SRun b)); [done | | |].
    * intros Γ S M T sig w op r Ha Hg Hr0 Hv Hm. subst v.
      destruct (sabs_post _ _ _ _ _ _ ps_nodup self_inj self_addr Γ S M T sig w p u op b s r u'
        Ha Hg Hs Hr0 Hm E Hlt Hbal) as (S' & Ha'); [|by exists S', u', (SRun b)].
      apply HU; [apply Ha | by rewrite lookup_fmap, Hg].
    * intros ok u1 pl1 Hok [-> ->]. rewrite Hok. apply triple_ret. eauto.
    * intros ok Hok. rewrite Hok. by apply triple_ret.
  + set (v := sem_status r) in *. clearbody v.
    clear Γ σ S Ha Hg Hc sg_mem0 sg_lock0 sg_status0 sg_listed0 r Hodd c.
    eapply (t_cas p s v 3 u _ (fun u1 pl1 => u1 = u' /\
      exists x l, x ∈ ps /\ v = long_of (self x) /\ pl1 = SWaking None (x :: l))); [done | | |].
    * intros Γ S M T sig w op r Ha Hg Hr0 Hv Hm. subst v.
      destruct (sabs_post_all _ _ _ _ _ _ ps_nodup self_inj self_addr Γ S M T sig w p u op b s r u'
        Ha Hg Hs Hr0 Hm E Hbal) as (S' & x & l & Ex & Hx & Ha').
      { apply HU; [apply Ha | by rewrite lookup_fmap, Hg]. }
      exists S', u', (SWaking None (x :: l)). split; [eauto 10 | done].
    * intros ok u1 pl1 Hok (-> & x & l & Hx & -> & ->). rewrite Hok. apply triple_ret. eauto 10.
    * intros ok Hok. rewrite Hok. by apply triple_ret.
Qed.

(** [sem_post]: the client's account [u] becomes [u'], with one unit more;
    there must be room for it. *)
Lemma t_sem_post p s u u' b :
  s ∈ sems ->
  (forall s0, bal u' s0 = if decide (s0 = s) then bal u s0 + 1 else bal u s0) ->
  (forall us w, UI us w -> us !! p = Some u -> UI (<[p := u']> us) w) ->
  (forall us w, UI us w -> us !! p = Some u -> (forall s0, s0 ∈ sems -> 0 <= avail us s0) ->
     2 * avail us s + 1 < SEM_VALUE_MAX) ->
  triple p (mk_sghost u None (SRun b)) (sem_post s)
    (fun r g => r = 0 /\ exists b', g = mk_sghost u' None (SRun b')).
Proof.
  intros Hs Hbal HU Hroom. unfold sem_post.
  eapply triple_bind; [by apply (t_sem_post_try p s u u')|].
  intros r g (old & -> & [[Hodd ->]|(x & l & Hx & -> & ->)]); rewrite is_count_odd.
  - rewrite Hodd. simpl. apply triple_bind_ret, triple_ret. eauto.
  - rewrite odd_long, (proj2 (self_addr x Hx)), ptr_of_long by (destruct (self_addr x Hx); lia).
    simpl. eapply triple_bind; [apply t_sem_wake|]. intros [] g ->. apply triple_ret. eauto.
Qed.

(** *** The clients' own accesses *)

(** One access to the [int] objects; the books tell how many units there are
    at least. *)
Lemma t_sem_act {A X} p u b f u' (k : X -> itree evt A) Q :
  (forall s, bal u' s = bal u s) ->
  (forall us w, UI us w -> us !! p = Some u -> (forall s, s ∈ sems -> 0 <= avail us s) ->
     forall σ, words σ = w -> exists x w', f p σ = Some (x, setf words w' σ) /\
       UI (<[p := u']> us) w' /\ triple p (mk_sghost u' None (SRun b)) (k x) Q) ->
  triple p (mk_sghost u None (SRun b)) (ITree.bind (act f) k) Q.
Proof.
  intros Hbal Hf. apply triple_act. intros Γ σ (Hth & Hnc & S & Ha) Hg.
  destruct (Hf (h_user <$> Γ) (words σ)) with (σ := σ) as (x & w' & Hx & HU & Ht); try done.
  - apply Ha.
  - by rewrite lookup_fmap, Hg.
  - intros s Hs. by eapply sabs_avail.
  - eexists x, _, _. split; [done|]. split; [|exact Ht].
    destruct (sthreads_mem σ (setf words w' σ)) as [H1 H2]; eauto 10.
    split; [done|]. split; [done|]. exists S. fields.
    by eapply (sabs_client _ _ _ _ _ _ ps_nodup).
Qed.
End rules.

(** ** Pools of clients *)

Section pools.
Context {H : Handlers} {P : Platform} {Pok : PlatformOk P} {U : Type}.
Context (ps : list Z) (self : Z -> addr) (sems : list Z) (init : Z -> Z).
Context (bal : U -> Z -> Z) (UI : gmap Z U -> gmap Z Z -> Prop) (waits : U -> Z -> Prop).

Abbreviation Inv := (SInv ps self sems init bal UI).
Abbreviation avail := (avail ps init bal).

(** The processes run threads of the library at even addresses, nobody waits,
    is being canceled or has a signal pending, and the semaphores have their
    initial values. *)
Record sem_start (σ : state) : Prop := {
  ss_nodup : NoDup ps;
  ss_inj : forall p q, p ∈ ps -> q ∈ ps -> self p = self q -> p = q;
  ss_addr : forall p, p ∈ ps -> 1 < self p < 2 ^ long_bits /\ Z.odd (self p) = false;
  ss_mgr : forall p, p ∈ ps -> self p <> addr_manager_thread;
  ss_threads : threads_ok ps self σ;
  ss_cancel : not_canceled ps self σ;
  ss_quiet : forall p, ~ signaled σ p;
  ss_sems : forall s, s ∈ sems -> 0 <= init s /\ 2 * init s + 1 <= SEM_VALUE_MAX /\
    sms σ !! s = Some (mk_sem (2 * init s + 1) 0)
}.

Lemma sem_start_inv (us : Z -> U) σ :
  sem_start σ -> (forall s, s ∈ sems -> avail (tabulate us ps) s = init s) ->
  UI (tabulate us ps) (words σ) ->
  Inv (tabulate (fun p => mk_sghost (us p) None (SRun false)) ps) σ.
Proof.
  intros [] Hav HU. split; [done|]. split; [done|].
  exists (mk_sshared (tabulate (fun s => SCount (init s)) sems) ∅ (tabulate (fun _ => WAwake) ps)).
  assert (E : h_user <$> tabulate (fun p => mk_sghost (us p) None (SRun false)) ps = tabulate us ps).
  { apply map_eq. intros p. rewrite lookup_fmap, !lookup_tabulate. by case_decide. }
  constructor; rewrite ?E; try done.
  - intros p. rewrite lookup_tabulate. case_decide; by split; intros; eauto.
  - constructor; simpl.
    + intros s Hs. destruct (ss_sems0 s Hs) as (H0 & Hm & Hr0).
      exists (SCount (init s)), (mk_sem (2 * init s + 1) 0). rewrite lookup_tabulate, decide_True by done.
      split; [done|]. constructor; simpl; try done. intros p. rewrite lookup_tabulate.
      split; [set_solver | by case_decide].
    + intros p w. rewrite lookup_tabulate. by case_decide.
    + intros p s. rewrite lookup_tabulate. by case_decide.
    + intros p q. rewrite lookup_tabulate. by case_decide.
  - intros p g. rewrite lookup_tabulate. case_decide as Hp; [intros [= <-]|done].
    constructor; simpl; try done; rewrite ?lookup_tabulate, ?(decide_True _ _ Hp); try done.
    + intros s. rewrite lookup_empty. split; [done | by intros []].
    + intros x. rewrite lookup_tabulate. by case_decide.
    + split; [intros Hs; by apply ss_quiet0 in Hs | done].
  - intros s c Hs. simpl. rewrite lookup_tabulate, decide_True by done. intros [= <-].
    symmetry. by apply Hav.
Qed.

Lemma sinv_quiet Γ σ p g pr :
  Inv Γ σ -> Γ !! p = Some g -> procs (krn σ) !! p = Some pr ->
  pick_signal (pr_pending pr) (pr_mask pr) = None.
Proof.
  intros Hi Hg. pose proof (sinv_in _ _ _ _ _ _ _ _ _ _ Hi Hg) as Hps.
  eapply threads_quiet; [apply Hi | exact Hps].
Qed.

(** If every process sleeps or has ended, those that sleep wait for
    semaphores without units. *)
Lemma asleep_empty Γ σ :
  Inv Γ σ ->
  (forall p g, Γ !! p = Some g -> sasleep waits p σ g \/ exists b, h_place g = SRun b) ->
  forall p g, Γ !! p = Some g -> sasleep waits p σ g ->
  exists s, waits (h_user g) s /\ avail (h_user <$> Γ) s = 0.
Proof.
  intros (_ & _ & S & [Hdom [] Hpr Hbal _]) Hall p g Hg (s & Hpl & Ho & Hw & Hns).
  exists s. split; [done|]. destruct (Hpr p g Hg). destruct so_some0 as [w Hwp]. destruct w as [|s'|q|].
  - exfalso. by apply (proj1 so_awake0 Hwp s).
  - pose proof (so_listed0 _ _ Hpl Hwp) as ->. pose proof (sgo_listed0 _ _ Hwp) as Hs.
    destruct (sgo_sem0 s Hs) as (c & r & Hc & []). rewrite <- (Hbal s c Hs Hc).
    apply sg_listed0 in Hwp. destruct c; [set_solver | done].
  - exfalso. destruct (proj2 (Hdom q) (sgo_popped0 _ _ Hwp)) as [gq Hgq].
    pose proof (so_waking _ _ _ _ _ _ _ (Hpr q gq Hgq)) as Hq.
    destruct (Hall q gq Hgq) as [(s1 & E & _)|[b E]]; rewrite E in Hq; by apply Hq in Hwp.
  - exfalso. by apply Hns, so_signaled0.
Qed.
End pools.
