(* ===== verification/Ring.v ===== *)
(** * Circular buffers

    What the two producer-consumer programs, ex2.c and ex5.c, have in common:
    the positions of a buffer of 16 elements, and the statements that advance
    a position, as a rule of the logic of [Interleave]. *)

From S2P Require Import Prelude Types Machine MachineFacts Memory Interleave.

(** The [k]-th element of those put: [n] numbers and the mark at the end. *)
Definition element (n over k : Z) : Z := if k <? n then k else over.

Lemma element_lt n over k : k < n -> element n over k = k.
Proof. intros Hk. unfold element. by rewrite (proj2 (Z.ltb_lt k n) Hk). Qed.

Lemma element_end n over : element n over n = over.
Proof. unfold element. by rewrite Z.ltb_irrefl. Qed.

Lemma seqZ_next k : 0 <= k -> seqZ 0 k ++ [k] = seqZ 0 (k + 1).
Proof. intros Hk. rewrite (seqZ_app 0 k 1) by lia. simpl. by rewrite Z.add_0_l. Qed.

Lemma ring_range k : 0 <= k mod 16 < 16.
Proof. apply Z.mod_pos_bound. lia. Qed.

Lemma ring_next k : (k + 1) mod 16 = if k mod 16 + 1 >=? 16 then 0 else k mod 16 + 1.
Proof.
  pose proof (ring_range k). rewrite <- (Z.add_mod_idemp_l k 1 16) by lia.
  destruct (Z.geb_spec (k mod 16 + 1) 16) as [E|E]; [|by rewrite Z.mod_small by lia].
  by replace (k mod 16 + 1) with 16 by lia.
Qed.

(** Elements less than a buffer apart have different places. *)
Lemma ring_inj j k : j mod 16 = k mod 16 -> -16 < k - j < 16 -> j = k.
Proof. intros E Hr. pose proof (Z.div_mod j 16). pose proof (Z.div_mod k 16). lia. Qed.

Section advance.
Context {H : Handlers} {G : Type} (Inv : gmap Z G -> state -> Prop).
Context (asleep : Z -> state -> G -> Prop) (p : Z) (a : addr) (k : Z) (g g1 g2 : G).

Abbreviation triple := (triple Inv asleep).

(** The rules for the single accesses: [g] before, [g1] with the position
    incremented, [g2] with the position reduced. *)
Context (load0 : forall A (c : Z -> itree evt A) Q,
  triple p g (c (k mod 16)) Q -> triple p g (ITree.bind (load words a id) c) Q).
Context (store1 : forall A (c : unit -> itree evt A) Q,
  triple p g1 (c tt) Q -> triple p g (ITree.bind (store_word a (k mod 16 + 1)) c) Q).
Context (load1 : forall A (c : Z -> itree evt A) Q,
  triple p (if k mod 16 + 1 >=? 16 then g1 else g2) (c (k mod 16 + 1)) Q ->
  triple p g1 (ITree.bind (load words a id) c) Q).
Context (store2 : k mod 16 + 1 >=? 16 = true -> forall A (c : unit -> itree evt A) Q,
  triple p g2 (c tt) Q -> triple p g1 (ITree.bind (store_word a 0) c) Q).

Lemma t_advance {A} (rest : itree evt A) Q :
  triple p g2 rest Q ->
  triple p g
    (r <- load words a id ;;
     store_word a (int_of (r + 1)) ;;
     r <- load words a id ;;
     when (r >=? 16) (store_word a 0) ;;
     rest) Q.
Proof.
  intros Hrest. pose proof (ring_range k). apply load0.
  rewrite int_of_small by lia. apply store1, load1.
  destruct (_ >=? 16) eqn:E; simpl; [by apply store2 | by apply triple_bind_ret].
Qed.
End advance.
