(* ===== verification/Ex3.v ===== *)
(** * Searching with several threads (Examples/ex3.c)

    Each thread tries numbers, from a random one on, until it finds the one
    that is searched for; it then cancels the other threads.
    [search_terminates] shows that a thread that is not canceled finds the
    number, and after how many tries. *)

From S2P Require Import Prelude Types Machine MachineFacts Platform Memory Spinlock Queue.
From S2P Require Import Restart Mutex Cleanup Specific Join Cancel PThread.

Module Search.

Definition NUM_THREADS : Z := 5.
Definition MASK : Z := 16777215.

Section program.
Context {P : Platform} {U : UserCode}.

(** The global variables, and the address of [print_it]. *)
Context (threads lock tries : addr) (addr_print_it : addr).

(** The values that [print_it] prints. *)
Definition print_it (arg : addr) : itree evt (addr * Z) :=
  tid <- pthread_self ;;
  v <- load words arg id ;;
  Ret (tid, v).

(** Waiting for the lock. *)
Definition trylock_body : itree evt bool :=
  r <- __pthread_mutex_trylock lock ;;
  if r =? EBUSY then
    pthread_testcancel ;;
    Ret true
  else Ret false.

Definition cancel_body (tid : addr) (j : Z) : itree evt (Z + unit) :=
  if j <? NUM_THREADS then
    t <- load words (threads + 4 * j) id ;;
    when (negb (t =? tid)) (pthread_cancel t ;; Ret tt) ;;
    Ret (inl (int_of (j + 1)))
  else Ret (inr tt).

(** The number has been found. *)
Definition found (tid ntries : addr) : itree evt unit :=
  c_while trylock_body ;;
  n <- load words ntries id ;;
  store_word tries n ;;
  c_loop (cancel_body tid) 0.

Definition search_body (num : Z) (tid ntries : addr) (i : Z) : itree evt (Z + unit) :=
  let i := Z.land (int_of (i + 1)) MASK in
  n <- load words ntries id ;;
  store_word ntries (int_of (n + 1)) ;;
  if num =? i then
    found tid ntries ;;
    Ret (inr tt)
  else
    n <- load words ntries id ;;
    when (Z.rem n 100 =? 0) (pthread_testcancel ;; sched_yield) ;;
    Ret (inl i).

(** The result of [rand] is an answer of the environment. *)
Definition search (arg : Z) : itree evt Z :=
  let num := int_of arg in
  ntries <- auto_int ;;
  tid <- pthread_self ;;
  r <- ask ;;
  let i := Z.land r MASK in
  store_word ntries 0 ;;
  pthread_setcancelstate PTHREAD_CANCEL_ENABLE NULL ;;
  pthread_setcanceltype PTHREAD_CANCEL_DEFERRED NULL ;;
  _buffer <- pthread_cleanup_push addr_print_it ntries ;;
  c_loop (search_body num tid ntries) i ;;
  pthread_cleanup_pop _buffer 0 ;;
  auto_end ntries ;;
  Ret 0.
End program.

(** ** Cancelling the other threads *)

(** What [pthread_cancel] does to a thread. *)
Definition cancel_thread (th : addr) (σ : state) : state :=
  match thr σ !! th with
  | Some d => post_signal (p_pid d) PTHREAD_SIG_CANCEL (put_thr th (setf p_canceled 1 d) σ)
  | None => σ
  end.

Definition cancel_all (tid : addr) (l : list addr) (σ : state) : state :=
  foldl (fun σ t => if t =? tid then σ else cancel_thread t σ) σ l.

(** The threads [l] exist, and their processes run. *)
Definition threads_live (l : list addr) (σ : state) : Prop :=
  forall th, th ∈ l -> exists d, thr σ !! th = Some d /\ is_Some (procs (krn σ) !! p_pid d).

Lemma cancel_thread_thr th σ x : thr (cancel_thread th σ) !! x =
  if decide (x = th) then setf p_canceled 1 <$> thr σ !! th else thr σ !! x.
Proof.
  unfold cancel_thread. destruct (thr σ !! th) as [d|] eqn:Hd.
  - change (thr (post_signal _ _ ?s)) with (thr s). unfold put_thr. fields. rewrite lookup_insert.
    destruct (decide (th = x)) as [->|]; [by rewrite decide_True | by rewrite decide_False].
  - case_decide; [by subst | done].
Qed.

Lemma cancel_thread_procs th σ p : is_Some (procs (krn (cancel_thread th σ)) !! p) <->
  is_Some (procs (krn σ) !! p).
Proof.
  unfold cancel_thread. destruct (thr σ !! th) as [d|]; [|done].
  unfold post_signal. rewrite procs_upd_proc, lookup_alter_is_Some. done.
Qed.

Lemma threads_live_cancel th l σ : threads_live l σ -> threads_live l (cancel_thread th σ).
Proof.
  intros Hl x Hx. destruct (Hl x Hx) as (d & Hd & Hp). rewrite cancel_thread_thr.
  exists (if decide (x = th) then setf p_canceled 1 d else d).
  split; [case_decide; [by subst; rewrite Hd | done]|].
  apply cancel_thread_procs. by case_decide.
Qed.

Lemma cancel_thread_words th σ : words (cancel_thread th σ) = words σ.
Proof. unfold cancel_thread. by destruct (thr σ !! th). Qed.

(** Requests stay. *)
Definition asked (σ : state) (x : addr) : Prop :=
  exists d, thr σ !! x = Some d /\ p_canceled d = 1 /\
    exists pr, procs (krn σ) !! p_pid d = Some pr /\ PTHREAD_SIG_CANCEL ∈ pr_pending pr.

Lemma asked_now th σ : threads_live [th] σ -> asked (cancel_thread th σ) th.
Proof.
  intros Hl. destruct (Hl th) as (d & Hd & pr & Hp); [set_solver|].
  exists (setf p_canceled 1 d). rewrite cancel_thread_thr, decide_True, Hd by done.
  split; [done|]. split; [done|]. unfold cancel_thread. rewrite Hd. unfold post_signal.
  rewrite procs_upd_proc. eexists. change (p_pid (setf p_canceled 1 d)) with (p_pid d).
  split; [by rewrite lookup_alter_eq; unfold put_thr; fields; rewrite Hp|]. fields. set_solver.
Qed.

Lemma asked_mono th σ x : asked σ x -> asked (cancel_thread th σ) x.
Proof.
  intros (d & Hd & Hc & pr & Hp & Hin).
  exists (if decide (x = th) then setf p_canceled 1 d else d). rewrite cancel_thread_thr.
  split; [case_decide; [by subst; rewrite Hd | done]|]. split; [by case_decide|].
  replace (p_pid (if decide (x = th) then _ else d)) with (p_pid d) by by case_decide.
  unfold cancel_thread. destruct (thr σ !! th) as [e|]; [|eauto].
  unfold post_signal. rewrite procs_upd_proc, lookup_alter. unfold put_thr. fields.
  case_decide as E; [rewrite E|]; rewrite Hp; eexists; split; try done. fields. set_solver.
Qed.

Lemma cancel_all_asked tid l σ x : threads_live l σ ->
  asked σ x \/ (x ∈ l /\ x <> tid) -> asked (cancel_all tid l σ) x.
Proof.
  unfold cancel_all. revert σ. induction l as [|t l IH]; intros σ Hl Hx; simpl.
  - destruct Hx as [?|[?%not_elem_of_nil _]]; done.
  - apply IH.
    + destruct (t =? tid); [|apply threads_live_cancel]; intros y Hy; apply Hl; set_solver.
    + destruct Hx as [Hx|[Hx Hne]].
      * left. destruct (t =? tid); [done | by apply asked_mono].
      * apply elem_of_cons in Hx as [->|Hx]; [left|by right].
        rewrite (proj2 (Z.eqb_neq t tid) Hne). apply asked_now. intros y Hy. apply Hl. set_solver.
Qed.

(** Everything but the requests and the signals is as before. *)
Lemma cancel_all_frame tid l σ : let σ' := cancel_all tid l σ in
  words σ' = words σ /\ mtx σ' = mtx σ /\ bufs σ' = bufs σ /\ glb σ' = glb σ /\
  thr σ' !! tid = thr σ !! tid /\ envt (krn σ') = envt (krn σ) /\
  (forall q, pr_sp <$> procs (krn σ') !! q = pr_sp <$> procs (krn σ) !! q).
Proof.
  unfold cancel_all. revert σ. induction l as [|t l IH]; intros σ; simpl; [done|].
  destruct (IH (if t =? tid then σ else cancel_thread t σ)) as (-> & -> & -> & -> & -> & -> & Hsp).
  destruct (Z.eqb_spec t tid) as [->|Hne]; [done|]. rewrite cancel_thread_thr, decide_False by done.
  unfold cancel_thread in *. destruct (thr σ !! t) as [d|]; [|done]. split_and!; try done.
  intros q. rewrite Hsp. unfold post_signal. rewrite procs_upd_proc, lookup_alter.
  case_decide; [subst|done]. unfold put_thr. fields. by destruct (procs (krn σ) !! p_pid d).
Qed.

(** ** The search *)

Section proof.
Context {H : Handlers} {P : Platform} {Pok : PlatformOk P} {U : UserCode}
  {Hr : RestartHandler H P} {Hch : CancelHandler H P U}.
Context (threads lock tries : addr) (addr_print_it : addr).

(** The [j]-th thread is [nth j l]. *)
Definition array_of (w : gmap Z Z) (l : list addr) : Prop :=
  forall j t, 0 <= j -> l !! Z.to_nat j = Some t -> w !! (threads + 4 * j) = Some t.

Lemma cancel_loop p tid l1 l2 σ : Z.of_nat (length (l1 ++ l2)) = NUM_THREADS ->
  array_of (words σ) (l1 ++ l2) -> threads_live (l1 ++ l2) σ ->
  evals p (c_loop (cancel_body threads tid) (Z.of_nat (length l1))) σ (Done tt (cancel_all tid l2 σ)).
Proof.
  revert l1 σ. induction l2 as [|t l2 IH]; intros l1 σ Hlen Ha Hl.
  - rewrite app_nil_r in Hlen. eapply evals_loop_stop. unfold cancel_body. rewrite Hlen.
    rewrite Z.ltb_irrefl. by csteps.
  - assert (Hj : Z.of_nat (length l1) < NUM_THREADS) by (rewrite <- Hlen, length_app; simpl; lia).
    assert (Ht : words σ !! (threads + 4 * Z.of_nat (length l1)) = Some t).
    { apply Ha; [lia|]. rewrite Nat2Z.id. by rewrite list_lookup_middle. }
    destruct (Hl t) as (d & Hd & pr & Hp); [set_solver|].
    set (σ1 := if t =? tid then σ else cancel_thread t σ).
    eapply evals_loop_next with (σ1 := σ1) (a' := Z.of_nat (length (l1 ++ [t]))).
    + unfold cancel_body. rewrite (proj2 (Z.ltb_lt _ _) Hj).
      eapply evals_load; [exact Ht|]. unfold σ1, id. destruct (t =? tid); simpl.
      * csteps. rewrite length_app. simpl. unfold NUM_THREADS in *. rewrite int_of_small by lia.
        by replace (Z.of_nat (length l1 + 1)) with (Z.of_nat (length l1) + 1) by lia.
      * apply evals_assoc. eapply evals_bind; [by eapply cancel_spec|]. csteps.
        -- rewrite length_app. simpl. unfold NUM_THREADS in *. rewrite int_of_small by lia.
           by replace (Z.of_nat (length l1 + 1)) with (Z.of_nat (length l1) + 1) by lia.
        -- unfold cancel_thread. by rewrite Hd.
    + replace (cancel_all tid (t :: l2) σ) with (cancel_all tid l2 σ1) by done.
      assert (E : l1 ++ t :: l2 = (l1 ++ [t]) ++ l2) by by rewrite <- app_assoc.
      apply IH; rewrite <- E; [done | |].
      * unfold σ1. destruct (t =? tid); [done|].
        by rewrite cancel_thread_words.
      * unfold σ1. destruct (t =? tid); [done|]. by apply threads_live_cancel.
Qed.

(** The next number, and how far it is from the one searched for. *)
Lemma next_number i : 0 <= i < 2 ^ 24 -> Z.land (int_of (i + 1)) MASK = (i + 1) mod 2 ^ 24.
Proof.
  intros Hi. rewrite int_of_small by lia. change MASK with (Z.ones 24).
  by rewrite Z.land_ones by lia.
Qed.

Definition distance (num i : Z) : Z := (num - i - 1) mod 2 ^ 24.

Lemma distance_0 num i : 0 <= num < 2 ^ 24 -> 0 <= i < 2 ^ 24 ->
  (num =? (i + 1) mod 2 ^ 24) = (distance num i =? 0).
Proof.
  intros Hn Hi. unfold distance. apply eq_bool_prop_intro. rewrite !Is_true_true, !Z.eqb_eq.
  pose proof (Z.div_mod (i + 1) (2 ^ 24)). pose proof (Z.div_mod (num - i - 1) (2 ^ 24)).
  pose proof (Z.mod_pos_bound (i + 1) (2 ^ 24)). pose proof (Z.mod_pos_bound (num - i - 1) (2 ^ 24)).
  lia.
Qed.

Lemma distance_next num i : distance num i <> 0 ->
  distance num ((i + 1) mod 2 ^ 24) = distance num i - 1.
Proof.
  unfold distance. intros Hd.
  pose proof (Z.div_mod (i + 1) (2 ^ 24)). pose proof (Z.div_mod (num - i - 1) (2 ^ 24)).
  pose proof (Z.mod_pos_bound (i + 1) (2 ^ 24)). pose proof (Z.mod_pos_bound (num - i - 1) (2 ^ 24)).
  symmetry. apply (Z.mod_unique_pos _ _ ((num - i - 1) / 2 ^ 24 + (i + 1) / 2 ^ 24)); lia.
Qed.

(** The state of the [n]-th try. *)
Definition at_try (nt : addr) (n : Z) (σ : state) : state :=
  setf words (<[nt := n]> (words σ)) σ.

Lemma runs_at_try p self pr d nt n σ :
  runs_thread p self pr d σ -> runs_thread p self pr d (at_try nt n σ).
Proof. intros []. by constructor. Qed.

(** The loop ends at the number, after [distance + 1] tries. *)
Lemma search_loop p self pr d num nt σ σf k : forall i n,
  0 <= num < 2 ^ 24 -> 0 <= i < 2 ^ 24 -> runs_thread p self pr d σ -> to_cancel d = false ->
  distance num i = Z.of_nat k -> 0 <= n -> n + Z.of_nat k + 1 < 2 ^ 31 ->
  evals p (found threads lock tries self nt) (at_try nt (n + Z.of_nat k + 1) σ) (Done tt σf) ->
  evals p (c_loop (search_body threads lock tries num self nt) i) (at_try nt n σ) (Done tt σf).
Proof.
  induction k as [|k IH]; intros i n Hnum Hi Hrt Hc Hd Hn Hmax Hf.
  - eapply evals_loop_stop. unfold search_body. rewrite next_number, distance_0, Hd by done.
    unfold at_try in *. csteps. rewrite int_of_small by (unfold id; lia). collapse.
    eapply evals_bind; [|by csteps]. unfold id. by rewrite Z.add_0_r in Hf.
  - eapply evals_loop_next with (a' := (i + 1) mod 2 ^ 24) (σ1 := at_try nt (n + 1) σ).
    + unfold search_body. rewrite next_number, distance_0, Hd by done.
      unfold at_try. csteps. rewrite int_of_small by (unfold id; lia). collapse. unfold id.
      assert (Ht : evals p pthread_testcancel (at_try nt (n + 1) σ) (Done tt (at_try nt (n + 1) σ)))
        by by eapply testcancel_spec, Hc; apply runs_at_try.
      rewrite (proj2 (Z.eqb_neq (Z.of_nat (S k)) 0)) by lia.
      eapply evals_load; [lookup_tac|]. unfold when.
      destruct (Z.rem (n + 1) 100 =? 0); [|by csteps]. csteps.
      eapply evals_bind; [exact Ht|]. unfold sched_yield. by csteps.
    + apply IH; try done; [apply Z.mod_pos_bound; lia | rewrite distance_next; lia | lia | lia|].
      by replace (n + 1 + Z.of_nat k + 1) with (n + Z.of_nat (S k) + 1) by lia.
Qed.

(** The lock is free: the thread takes it, notes the number of tries and
    cancels the others. *)
Lemma found_spec p pr self nt n l o v σ :
  procs (krn σ) !! p = Some pr ->
  mtx σ !! lock = Some (mk_mutex 0 0 o PTHREAD_MUTEX_FAST_NP v) ->
  words σ !! nt = Some n -> is_Some (words σ !! tries) -> Z.of_nat (length l) = NUM_THREADS ->
  array_of (<[tries := n]> (words σ)) l -> threads_live l σ ->
  evals p (found threads lock tries self nt) σ
    (Done tt (cancel_all self l (setf words (<[tries := n]> (words σ))
      (put_mutex lock (mk_mutex 0 1 o PTHREAD_MUTEX_FAST_NP v) σ)))).
Proof.
  intros Hp Hm Hn [w Hw] Hlen Ha Hl. unfold found. eapply evals_bind with (a := tt).
  - unfold c_while. eapply (evals_loop_stop p _ tt tt).
    eapply evals_bind with (a := false); [|by apply evals_ret]. unfold trylock_body.
    eapply evals_bind with (a := 0); [|by csteps]. unfold __pthread_mutex_trylock. by csteps.
  - unfold put_mutex. collapse. eapply evals_load; [exact Hn|].
    eapply evals_store_word; [exact Hw|]. by apply (cancel_loop p self [] l).
Qed.

Lemma at_try_id nt n σ : words σ !! nt = Some n -> at_try nt n σ = σ.
Proof. intros Hn. unfold at_try. rewrite insert_id by done. by destruct σ. Qed.

(** The thread in the loop: its cancellation parameters are set, its cleanup
    handler is pushed. *)
Definition enabled (d : _pthread) : _pthread :=
  setf p_canceltype PTHREAD_CANCEL_DEFERRED (setf p_cancelstate PTHREAD_CANCEL_ENABLE d).

Definition searching (self buf nt : addr) (d : _pthread) (env : list Z) (σ : state) : state :=
  setf thr (<[self := setf p_cleanup buf (enabled d)]> (thr σ))
    (setf bufs (<[buf := mk_cleanup addr_print_it nt 0 (p_cleanup d)]> (bufs σ))
      (setf words (<[nt := 0]> (words σ)) (upd_krn (setf envt env) σ))).

Abbreviation nt_of σ := (fresh ({[NULL]} ∪ dom (words σ))).
Abbreviation buf_of σ := (fresh ({[NULL]} ∪ dom (bufs σ))).

Lemma search_prefix p self pr d num r env σ k :
  runs_thread p self pr d σ -> p_canceled d = 0 -> - 2 ^ 31 <= num < 2 ^ 31 ->
  envt (krn σ) = r :: env ->
  evals p (c_loop (search_body threads lock tries num self (nt_of σ)) (Z.land r MASK) ;;
           pthread_cleanup_pop (buf_of σ) 0 ;;
           auto_end (nt_of σ) ;;
           Ret 0) (searching self (buf_of σ) (nt_of σ) d env σ) k ->
  evals p (search threads lock tries addr_print_it num) σ k.
Proof.
  intros [Hp Hs Hd] Hc Hnum He Hk. unfold search, auto_int, pthread_self.
  rewrite int_of_small by done. csteps. rewrite Hs.
  eapply evals_ask; [exact He|]. csteps. collapse.
  assert (Hc1 : forall st e, p_canceled e = 0 -> to_cancel (setf p_cancelstate st e) = false).
  { intros st e He0. unfold to_cancel. fields. by rewrite He0. }
  eapply evals_bind; [eapply (setcancelstate_spec p self pr d);
    [by constructor | done | left; by apply Hc1]|].
  eapply evals_bind; [eapply (setcanceltype_spec p self pr); [constructor; [done | done |
    apply lookup_insert_eq] | done | done | left; by apply Hc1]|].
  unfold put_thr, pthread_cleanup_push, auto_buffer, old_stored. simpl. csteps. collapse.
  eapply evals_bind; [eapply (cleanup_push_spec p self pr); [constructor; [done | done |
    apply lookup_insert_eq] | apply lookup_insert_eq]|].
  csteps. collapse. exact Hk.
Qed.

(** After the loop: the handler is taken off, the variables end. *)
Lemma search_suffix p self pr d b nt buf σ :
  runs_thread p self pr d σ -> bufs σ !! buf = Some b ->
  evals p (pthread_cleanup_pop buf 0 ;; auto_end nt ;; Ret 0) σ
    (Done 0 (setf words (delete nt (words σ)) (setf bufs (delete buf (bufs σ))
      (setf thr (<[self := setf p_cleanup (prev b) d]> (thr σ)) σ)))).
Proof.
  intros Hrt Hb. unfold pthread_cleanup_pop, auto_end, auto_buffer_end. apply evals_assoc.
  eapply evals_bind; [by eapply cleanup_pop_spec|]. by csteps.
Qed.

Lemma asked_ext σ σ' x : thr σ' !! x = thr σ !! x -> krn σ' = krn σ -> asked σ x -> asked σ' x.
Proof. intros Ht Hk. unfold asked. by rewrite Ht, Hk. Qed.

(** The state with the lock taken and the number of tries noted. *)
Definition noted (self buf nt n : Z) o v d env σ : state :=
  setf words (<[tries := n]> (<[nt := n]> (words σ)))
    (put_mutex lock (mk_mutex 0 1 o PTHREAD_MUTEX_FAST_NP v) (searching self buf nt d env σ)).

Lemma search_runs p self pr d num r env l o v nt buf σ :
  runs_thread p self pr d σ -> p_canceled d = 0 -> 0 <= num < 2 ^ 24 ->
  mtx σ !! lock = Some (mk_mutex 0 0 o PTHREAD_MUTEX_FAST_NP v) ->
  is_Some (words σ !! tries) -> Z.of_nat (length l) = NUM_THREADS -> array_of (words σ) l ->
  (forall j, 0 <= j < NUM_THREADS -> threads + 4 * j <> tries) -> threads_live l σ ->
  words σ !! nt = None ->
  evals p (c_loop (search_body threads lock tries num self nt) (Z.land r MASK))
    (searching self buf nt d env σ)
    (Done tt (cancel_all self l (noted self buf nt (distance num (Z.land r MASK) + 1) o v d env σ))).
Proof.
  intros [Hp Hs Hd0] Hc Hnum Hm [w Hw] Hlen Ha Hne Hl Hnt.
  set (n := distance num (Z.land r MASK) + 1). set (σs := searching self buf nt d env σ).
  assert (Hi : 0 <= Z.land r MASK < 2 ^ 24).
  { change MASK with (Z.ones 24). rewrite Z.land_ones by lia. apply Z.mod_pos_bound. lia. }
  assert (Hd : 0 <= distance num (Z.land r MASK) < 2 ^ 24) by (apply Z.mod_pos_bound; lia).
  rewrite <- (at_try_id nt 0 σs) by apply lookup_insert_eq.
  eapply (search_loop p self pr (setf p_cleanup buf (enabled d)) num nt _ _
    (Z.to_nat (distance num (Z.land r MASK)))); rewrite ?Z2Nat.id by lia; try done; try lia.
  - constructor; [done | done | apply lookup_insert_eq].
  - unfold to_cancel, enabled. fields. by rewrite Hc.
  - rewrite Z.add_0_l. fold n.
    assert (Ew : words (at_try nt n σs) = <[nt := n]> (words σ)).
    { unfold at_try, σs, searching. fields. by rewrite insert_insert_eq. }
    assert (E : noted self buf nt n o v d env σ =
      setf words (<[tries := n]> (words (at_try nt n σs)))
        (put_mutex lock (mk_mutex 0 1 o PTHREAD_MUTEX_FAST_NP v) (at_try nt n σs)))
      by (unfold noted; by rewrite Ew).
    rewrite E. clear E.
    eapply found_spec; [exact Hp | exact Hm | rewrite Ew; apply lookup_insert_eq | | done | |]; rewrite ?Ew.
    + exists w. rewrite lookup_insert_ne by congruence. done.
    + intros j t Hj Ht. pose proof (Ha j t Hj Ht).
      assert (Hj' : 0 <= j < NUM_THREADS) by (apply lookup_lt_Some in Ht; lia).
      rewrite !lookup_insert_ne; [done | congruence | by apply not_eq_sym, Hne].
    + intros x Hx. destruct (Hl x Hx) as (e & Hx1 & Hx2). unfold at_try, σs, searching. fields.
      rewrite lookup_insert. case_decide as E; [subst|eauto]. simplify_eq. eauto.
Qed.

(** C32: [search] terminates: a thread that nobody cancels finds the number,
    whatever the random number it starts from, after [distance + 1] tries, at
    most 2^24; it then holds the lock, has noted the number of its tries and
    has canceled every other thread; it returns with its cleanup handler taken
    off and its variables gone, with deferred cancellation enabled. *)
Theorem search_terminates p self pr d num r env l o v σ :
  runs_thread p self pr d σ -> p_canceled d = 0 -> 0 <= num < 2 ^ 24 ->
  envt (krn σ) = r :: env ->
  mtx σ !! lock = Some (mk_mutex 0 0 o PTHREAD_MUTEX_FAST_NP v) ->
  is_Some (words σ !! tries) -> Z.of_nat (length l) = NUM_THREADS -> array_of (words σ) l ->
  (forall j, 0 <= j < NUM_THREADS -> threads + 4 * j <> tries) -> threads_live l σ ->
  exists σ', evals p (search threads lock tries addr_print_it num) σ (Done 0 σ') /\
    words σ' = <[tries := distance num (Z.land r MASK) + 1]> (words σ) /\
    mtx σ' = <[lock := mk_mutex 0 1 o PTHREAD_MUTEX_FAST_NP v]> (mtx σ) /\
    (forall x, x ∈ l -> x <> self -> asked σ' x) /\
    bufs σ' = bufs σ /\ thr σ' !! self = Some (enabled d) /\ envt (krn σ') = env.
Proof.
  intros Hrt Hc Hnum He Hm Hw Hlen Ha Hne Hl.
  set (nt := nt_of σ). set (buf := buf_of σ). set (n := distance num (Z.land r MASK) + 1).
  assert (Hnt : words σ !! nt = None).
  { pose proof (is_fresh ({[NULL]} ∪ dom (words σ))). apply not_elem_of_dom. set_solver. }
  assert (Hnt' : nt <> tries) by (destruct Hw; congruence).
  assert (Hbuf : bufs σ !! buf = None).
  { pose proof (is_fresh ({[NULL]} ∪ dom (bufs σ))). apply not_elem_of_dom. set_solver. }
  pose proof (search_runs p self pr d num r env l o v nt buf σ Hrt Hc Hnum Hm Hw Hlen Ha Hne Hl Hnt) as Hrun.
  set (σm := noted self buf nt n o v d env σ). fold n σm in Hrun.
  destruct (cancel_all_frame self l σm) as (Ew & Em & Eb & Eg & Et & Ee & Esp).
  set (σf := cancel_all self l σm) in *. destruct Hrt as [Hp Hs Hd].
  specialize (Esp p). change (procs (krn σm)) with (procs (krn σ)) in Esp. rewrite Hp in Esp.
  destruct (procs (krn σf) !! p) as [pr'|] eqn:Hp'; [|done]. injection Esp as Ep.
  eexists. split; [|split_and!].
  - eapply (search_prefix p self pr d num r env); [done | done | lia | done |].
    eapply evals_bind; [exact Hrun|].
    eapply (search_suffix p self pr' (setf p_cleanup buf (enabled d))
        (mk_cleanup addr_print_it nt 0 (p_cleanup d))).
    + constructor; [done | rewrite Eg, Ep; done | rewrite Et; apply lookup_insert_eq].
    + rewrite Eb. apply lookup_insert_eq.
  - fields. rewrite Ew. unfold σm, noted. fields. rewrite delete_insert_ne, delete_insert_id; done.
  - fields. rewrite Em. done.
  - intros x Hx Hxs. apply (asked_ext σf); [fields; by rewrite lookup_insert_ne | done |].
    apply cancel_all_asked; [|by right]. intros y Hy. destruct (Hl y Hy) as (e & H1 & H2).
    unfold σm, noted, put_mutex, searching. fields.
    rewrite lookup_insert. case_decide as E; [subst|eauto]. simplify_eq. eauto.
  - fields. rewrite Eb. unfold σm, noted, put_mutex, searching. fields. by rewrite delete_insert_id.
  - fields. rewrite lookup_insert_eq. by destruct d.
  - fields. rewrite Ee. done.
Qed.
End proof.
End Search.
