(* ===== verification/Ex4.v ===== *)
(** * A library function with thread-specific data (Examples/ex4.c)

    [str_accumulate] appends a string to a buffer of the calling thread, which
    it allocates at the first call.  [process_correct] shows what the function
    of the threads computes, whatever the other threads do with their buffers,
    and on what contents of the allocated memory it depends. *)

From S2P Require Import Prelude Types Machine MachineFacts Platform Memory Spinlock Queue.
From S2P Require Import Restart Mutex Specific.

Module Accumulate.

(** ** Strings of C *)

(** The bytes [l], none of them 0, at [a], followed by 0. *)
Definition cstring (w : gmap Z Z) (a : addr) (l : list Z) : Prop :=
  (forall i c, l !! i = Some c -> w !! (a + Z.of_nat i) = Some c /\ c <> 0) /\
  w !! (a + Z.of_nat (length l)) = Some 0.

(** <string.h> *)
Definition strlen_body (s : addr) (i : Z) : itree evt (Z + Z) :=
  c <- load words (s + i) id ;;
  if c =? 0 then Ret (inr i) else Ret (inl (i + 1)).
Definition strlen (s : addr) : itree evt Z := c_loop (strlen_body s) 0.

Definition strcpy_body (dst src : addr) (i : Z) : itree evt (Z + unit) :=
  c <- load words (src + i) id ;;
  store_word (dst + i) c ;;
  if c =? 0 then Ret (inr tt) else Ret (inl (i + 1)).
Definition strcat (dst src : addr) : itree evt addr :=
  n <- strlen dst ;;
  c_loop (strcpy_body (dst + n) src) 0 ;;
  Ret dst.

Section program.
Context {P : Platform} {U : UserCode}.

(** The global variables, the addresses of the two functions that are passed
    to the library, and the contents of memory that has just been
    allocated. *)
Context (str_key str_alloc_key_once : addr).
Context (addr_str_alloc_key addr_str_alloc_destroy_accu : addr).
Context (junk : addr -> Z).

Definition block (a n : Z) : list addr := (fun i => a + i) <$> seqZ 0 n.

#[global] Arguments block : simpl never.

(** <stdlib.h>; the size of the block is that of the only [malloc]. *)
Definition malloc (n : Z) : itree evt addr :=
  a <- ask ;;
  if a =? NULL then Ret NULL
  else
    act (fun _ σ => Some (tt, setf words (tabulate junk (block a n) ∪ words σ) σ)) ;;
    Ret a.
Definition free (a : addr) : itree evt unit :=
  act (fun _ σ => Some (tt, setf words (filter (fun x => x.1 ∉ block a 1024) (words σ)) σ)).

Definition str_alloc_key : itree evt unit :=
  __pthread_key_create str_key addr_str_alloc_destroy_accu ;;
  Ret tt.

Definition str_alloc_destroy_accu (accu : addr) : itree evt unit := free accu.

(** The buffer of the thread, or NULL if there is no memory. *)
Definition get_accu : itree evt addr :=
  k <- load words str_key id ;;
  accu <- __pthread_getspecific k ;;
  if accu =? NULL then
    accu <- malloc 1024 ;;
    if accu =? NULL then Ret NULL
    else
      k <- load words str_key id ;;
      __pthread_setspecific k accu ;;
      Ret accu
  else Ret accu.

Definition str_accumulate (s : addr) : itree evt addr :=
  pthread_once str_alloc_key_once addr_str_alloc_key ;;
  accu <- get_accu ;;
  if accu =? NULL then Ret NULL
  else
    strcat accu s ;;
    Ret accu.

(** The function of the threads, with the addresses of its two literals; the
    result is the string it prints. *)
Definition process (result_of thread_ arg : addr) : itree evt addr :=
  str_accumulate result_of ;;
  str_accumulate arg ;;
  str_accumulate thread_.
End program.

(** ** The string functions *)

(** The bytes [l] written from [a] on. *)
Fixpoint put_bytes (w : gmap Z Z) (a : addr) (l : list Z) : gmap Z Z :=
  match l with
  | [] => w
  | c :: l => put_bytes (<[a := c]> w) (a + 1) l
  end.

Lemma put_bytes_outside w a l x : x < a \/ a + Z.of_nat (length l) <= x ->
  put_bytes w a l !! x = w !! x.
Proof.
  revert w a. induction l as [|c l IH]; intros w a Hx; [done|]. simpl in *.
  rewrite IH by lia. apply lookup_insert_ne. lia.
Qed.

Lemma put_bytes_inside w a l i c : l !! i = Some c ->
  put_bytes w a l !! (a + Z.of_nat i) = Some c.
Proof.
  revert w a i. induction l as [|b l IH]; intros w a i Hi; [done|]. simpl.
  destruct i as [|i]; simplify_eq/=.
  - rewrite put_bytes_outside by lia. rewrite Z.add_0_r. apply lookup_insert_eq.
  - replace (a + Z.of_nat (S i)) with (a + 1 + Z.of_nat i) by lia. by apply IH.
Qed.

Lemma cstring_ext w w' a l :
  (forall x, a <= x <= a + Z.of_nat (length l) -> w' !! x = w !! x) ->
  cstring w a l -> cstring w' a l.
Proof.
  intros Hx [Hc He]. split; [|rewrite Hx by lia; done]. intros i c Hi.
  pose proof (lookup_lt_Some _ _ _ Hi). rewrite Hx by lia. auto.
Qed.

(** Writing a string, with its end, behind another one. *)
Lemma cstring_append w a l1 l2 : cstring w a l1 -> (forall c, c ∈ l2 -> c <> 0) ->
  cstring (put_bytes w (a + Z.of_nat (length l1)) (l2 ++ [0])) a (l1 ++ l2).
Proof.
  intros [Hc He] Hnz. split.
  - intros i c Hi. apply lookup_app_Some in Hi as [Hi|[Hge Hi]].
    + pose proof (lookup_lt_Some _ _ _ Hi). rewrite put_bytes_outside by lia. auto.
    + split; [|apply Hnz; by eapply list_elem_of_lookup_2].
      replace (a + Z.of_nat i) with (a + Z.of_nat (length l1) + Z.of_nat (i - length l1)) by lia.
      apply put_bytes_inside. by apply lookup_app_l_Some.
  - rewrite length_app, Nat2Z.inj_add, Z.add_assoc. apply put_bytes_inside.
    by apply list_lookup_middle.
Qed.

Section specs.
Context {H : Handlers}.

Lemma strlen_spec p s l σ : cstring (words σ) s l ->
  evals p (strlen s) σ (Done (Z.of_nat (length l)) σ).
Proof.
  intros [Hc He]. unfold strlen.
  assert (Hl : forall k i, (i + k = length l)%nat ->
    evals p (c_loop (strlen_body s) (Z.of_nat i)) σ (Done (Z.of_nat (length l)) σ)).
  { induction k as [|k IH]; intros i Hi.
    - eapply evals_loop_stop. unfold strlen_body. rewrite Nat.add_0_r in Hi. subst i. by csteps.
    - destruct (lookup_lt_is_Some_2 l i) as [c Hl]; [lia|]. destruct (Hc i c Hl) as [Hw Hn].
      eapply evals_loop_next with (a' := Z.of_nat (S i)); [|apply IH; lia].
      unfold strlen_body. eapply evals_load; [exact Hw|]. unfold id.
      rewrite (proj2 (Z.eqb_neq c 0) Hn). replace (Z.of_nat (S i)) with (Z.of_nat i + 1) by lia.
      apply evals_ret. }
  by apply (Hl (length l) 0%nat).
Qed.

(** The copy loop, with the bytes [l] still to come. *)
Lemma strcpy_loop p dst src l : forall i σ,
  cstring (words σ) (src + i) l ->
  (forall x, dst + i <= x <= dst + i + Z.of_nat (length l) -> is_Some (words σ !! x)) ->
  src + i + Z.of_nat (length l) < dst + i \/ dst + i + Z.of_nat (length l) < src + i ->
  evals p (c_loop (strcpy_body dst src) i) σ
    (Done tt (setf words (put_bytes (words σ) (dst + i) (l ++ [0])) σ)).
Proof.
  induction l as [|c l IH]; intros i σ Hs Hm Hd; pose proof Hs as [Hc He]; simpl in Hm, Hd.
  - simpl in He. rewrite Z.add_0_r in He. destruct (Hm (dst + i)) as [v Hv]; [lia|].
    eapply evals_loop_stop. unfold strcpy_body. eapply evals_load; [exact He|].
    eapply evals_store_word; [exact Hv|]. apply evals_ret.
  - destruct (Hc 0%nat c eq_refl) as [Hw Hn]. rewrite Z.add_0_r in Hw.
    destruct (Hm (dst + i)) as [v Hv]; [lia|].
    eapply evals_loop_next with (a' := i + 1).
    + unfold strcpy_body. eapply evals_load; [exact Hw|].
      eapply evals_store_word; [exact Hv|]. unfold id. rewrite (proj2 (Z.eqb_neq c 0) Hn).
      apply evals_ret.
    + cbn [app put_bytes].
      replace (dst + i + 1) with (dst + (i + 1)) by lia.
      pose proof (IH (i + 1) (setf words (<[dst + i := c]> (words σ)) σ)) as E. fields_in E.
      change (setf words ?v (setf words _ σ)) with (setf words v σ) in E. apply E; [| |lia]; clear E.
      * apply (cstring_ext (words σ)).
        { intros x Hx. apply lookup_insert_ne. lia. }
        replace (src + (i + 1)) with (src + i + 1) by lia.
        split; [|simpl in He; by replace (src + i + 1 + Z.of_nat (length l))
                   with (src + i + Z.of_nat (S (length l))) by lia].
        intros j b Hj. destruct (Hc (S j) b Hj) as [? ?].
        by replace (src + i + 1 + Z.of_nat j) with (src + i + Z.of_nat (S j)) by lia.
      * intros x Hx. rewrite lookup_insert. case_decide; [eauto | apply Hm; lia].
Qed.

Lemma strcat_spec p dst src l1 l2 σ :
  cstring (words σ) dst l1 -> cstring (words σ) src l2 ->
  (forall x, dst <= x <= dst + Z.of_nat (length l1 + length l2) -> is_Some (words σ !! x)) ->
  src + Z.of_nat (length l2) < dst \/ dst + Z.of_nat (length l1 + length l2) < src ->
  evals p (strcat dst src) σ
    (Done dst (setf words (put_bytes (words σ) (dst + Z.of_nat (length l1)) (l2 ++ [0])) σ)).
Proof.
  intros H1 H2 Hm Hd. unfold strcat. eapply evals_bind; [by apply strlen_spec|].
  pose proof (strcpy_loop p (dst + Z.of_nat (length l1)) src l2 0 σ) as Hcopy.
  rewrite !Z.add_0_r in Hcopy. eapply evals_bind; [apply Hcopy; [done | |lia]|].
  - intros x Hx. apply Hm. lia.
  - apply evals_ret.
Qed.
End specs.

(** ** The accumulator *)

Section proof.
Context {H : Handlers} {P : Platform} {Pok : PlatformOk P} {U : UserCode}.
Context (str_key str_alloc_key_once : addr).
Context (addr_str_alloc_key addr_str_alloc_destroy_accu : addr).
Context (junk : addr -> Z).

(** The key has been allocated. *)
Record key_ready (w : gmap Z Z) (k : Z) : Prop := {
  kr_once : w !! str_alloc_key_once = Some locked;
  kr_key : w !! str_key = Some k;
  kr_range : 0 <= k < PTHREAD_KEYS_MAX
}.

Lemma once_done p σ k : key_ready (words σ) k ->
  evals p (pthread_once str_alloc_key_once addr_str_alloc_key) σ (Done 0 σ).
Proof.
  intros [Ho _ _]. unfold pthread_once. destruct tas_taken as [Hn Hsame].
  eapply evals_act; [simpl; rewrite Ho; reflexivity|].
  rewrite (proj2 (Z.eqb_neq _ _) Hn). csteps. rewrite Hsame, insert_id by done. by destruct σ.
Qed.

(** The first call allocates the key. *)
Lemma once_first p o w k σ σ1 :
  (forall x, call_fn addr_str_alloc_key x = (str_alloc_key str_key addr_str_alloc_destroy_accu ;; Ret 0)) ->
  keys_full σ -> mtx σ !! addr_keys_mutex = Some (fast_mutex 0 o) ->
  words σ !! str_alloc_key_once = Some 0 -> words σ !! str_key = Some w ->
  str_key <> str_alloc_key_once ->
  first_free (pthread_keys (glb σ)) 0 = Some k -> 0 <= k < PTHREAD_KEYS_MAX ->
  σ1 = setf words (<[str_key := k]> (<[str_alloc_key_once := locked]> (words σ)))
        (put_keys (<[Z.to_nat k := mk_key 1 addr_str_alloc_destroy_accu]> (pthread_keys (glb σ))) σ) ->
  evals p (pthread_once str_alloc_key_once addr_str_alloc_key) σ (Done 0 σ1) /\
  key_ready (words σ1) k.
Proof.
  intros Hcall Hk Hm Ho Hw Hne Hf Hr ->. split.
  - unfold pthread_once. eapply evals_act; [simpl; rewrite Ho, tas_free; reflexivity|].
    cbn [Z.eqb fst snd]. rewrite Hcall. unfold str_alloc_key. csteps.
    pose proof (key_create_spec p str_key addr_str_alloc_destroy_accu o w
      (setf words (<[str_alloc_key_once := locked]> (words σ)) σ)) as E. fields_in E.
    rewrite Hf, lookup_insert_ne in E by done.
    eapply evals_bind; [by apply E|]. by csteps.
  - constructor; fields; [|apply lookup_insert_eq | done].
    rewrite lookup_insert_ne by done. apply lookup_insert_eq.
Qed.

Abbreviation in_block a x := (a <= x < a + 1024).

Lemma elem_of_block a n x : x ∈ block a n <-> a <= x < a + n.
Proof.
  unfold block. rewrite list_elem_of_fmap. split.
  - intros (i & -> & Hi%elem_of_seqZ). lia.
  - intros Hx. exists (x - a). split; [lia|]. apply elem_of_seqZ. lia.
Qed.

(** The buffer at [a] holds the string [l]. *)
Record accu_at (w : gmap Z Z) (k : Z) (a : addr) (l : list Z) : Prop := {
  aa_ready : key_ready w k;
  aa_string : cstring w a l;
  aa_mapped : forall x, in_block a x -> is_Some (w !! x);
  aa_apart : ~ in_block a str_key /\ ~ in_block a str_alloc_key_once
}.

Lemma get_accu_later p self pr d k a σ :
  runs_thread p self pr d σ -> length (p_specific d) = Z.to_nat PTHREAD_KEYS_MAX ->
  key_ready (words σ) k -> p_specific d !! Z.to_nat k = Some a -> a <> NULL ->
  evals p (get_accu str_key junk) σ (Done a σ).
Proof.
  intros Hrt Hlen [_ Hk Hr] Ha Hn. unfold get_accu. eapply evals_load; [exact Hk|].
  eapply evals_bind; [eapply getspecific_spec; [done | done | unfold id; lia]|].
  unfold id. rewrite Ha. cbn [default]. rewrite (proj2 (Z.eqb_neq a NULL) Hn). by csteps.
Qed.

(** The first call of a thread: the buffer is allocated, with the contents of
    fresh memory, and noted in the descriptor. *)
Definition allocated (self k a : Z) (d : _pthread) (env : list Z) (σ : state) : state :=
  setf thr (<[self := setf p_specific (<[Z.to_nat k := a]> (p_specific d)) d]> (thr σ))
    (setf words (tabulate junk (block a 1024) ∪ words σ) (upd_krn (setf envt env) σ)).

Lemma get_accu_first p self pr d k a env σ :
  runs_thread p self pr d σ -> length (p_specific d) = Z.to_nat PTHREAD_KEYS_MAX ->
  key_ready (words σ) k -> p_specific d !! Z.to_nat k = Some NULL ->
  envt (krn σ) = a :: env -> a <> NULL -> ~ in_block a str_key ->
  evals p (get_accu str_key junk) σ (Done a (allocated self k a d env σ)).
Proof.
  intros Hrt Hlen [_ Hk Hr] Ha He Hn Hb. unfold get_accu. eapply evals_load; [exact Hk|].
  eapply evals_bind; [eapply getspecific_spec; [done | done | unfold id; lia]|].
  unfold id. rewrite Ha. cbn [default]. rewrite Z.eqb_refl. unfold malloc.
  apply evals_assoc. eapply evals_ask; [exact He|].
  rewrite (proj2 (Z.eqb_neq a NULL) Hn). apply evals_assoc. eapply evals_act; [reflexivity|].
  apply evals_bind_ret. rewrite (proj2 (Z.eqb_neq a NULL) Hn).
  eapply evals_load.
  { fields. rewrite lookup_tabulate_union, decide_False; [exact Hk|]. by rewrite elem_of_block. }
  pose proof (setspecific_spec p self pr d k a
    (setf words (tabulate junk (block a 1024) ∪ words σ) (upd_krn (setf envt env) σ))) as E.
  replace (k >=? PTHREAD_KEYS_MAX) with false in E by lia.
  eapply evals_bind; [apply E; [|done|lia]|apply evals_ret]. destruct Hrt. by constructor.
Qed.

(** The string [s] is appended to that of the buffer. *)
Lemma append_spec p s k a l l2 σ :
  accu_at (words σ) k a l -> cstring (words σ) s l2 -> (length l + length l2 < 1024)%nat ->
  s + Z.of_nat (length l2) < a \/ a + 1024 <= s ->
  exists w', evals p (strcat a s) σ (Done a (setf words w' σ)) /\ accu_at w' k a (l ++ l2) /\
    forall x, ~ in_block a x -> w' !! x = words σ !! x.
Proof.
  intros [[Ho Hk Hr] Hc Hm [H1 H2]] Hs Hlen Hd.
  set (w' := put_bytes (words σ) (a + Z.of_nat (length l)) (l2 ++ [0])).
  assert (Hout : forall x, ~ in_block a x -> w' !! x = words σ !! x).
  { intros x Hx. apply put_bytes_outside. rewrite length_app. simpl. lia. }
  exists w'. split; [|split; [|done]].
  - apply strcat_spec; [done | done | intros x Hx; apply Hm; lia | lia].
  - constructor; [constructor; rewrite ?Hout; done | | | done].
    + apply cstring_append; [done|]. intros c [i Hi]%list_elem_of_lookup. by destruct (proj1 Hs i c Hi).
    + intros x Hx. destruct (decide (x < a + Z.of_nat (length l) \/
        a + Z.of_nat (length l) + Z.of_nat (length (l2 ++ [0])) <= x)) as [Ho'|Hi].
      * unfold w'. rewrite put_bytes_outside by done. auto.
      * destruct (lookup_lt_is_Some_2 (l2 ++ [0]) (Z.to_nat (x - a - Z.of_nat (length l)))) as [c Hc'];
          [lia|]. exists c. rewrite <- (put_bytes_inside (words σ) (a + Z.of_nat (length l)) _ _ _ Hc').
        unfold w'. f_equal. lia.
Qed.

Abbreviation accumulate := (str_accumulate str_key str_alloc_key_once addr_str_alloc_key junk).
Abbreviation apart a s l2 := (s + Z.of_nat (length l2) < a \/ a + 1024 <= s).

(** A call of [str_accumulate] once the thread has its buffer. *)
Lemma accumulate_later p self pr d k a s l l2 σ :
  runs_thread p self pr d σ -> length (p_specific d) = Z.to_nat PTHREAD_KEYS_MAX ->
  p_specific d !! Z.to_nat k = Some a -> a <> NULL -> accu_at (words σ) k a l ->
  cstring (words σ) s l2 -> (length l + length l2 < 1024)%nat -> apart a s l2 ->
  exists w', evals p (accumulate s) σ (Done a (setf words w' σ)) /\ accu_at w' k a (l ++ l2) /\
    forall x, ~ in_block a x -> w' !! x = words σ !! x.
Proof.
  intros Hrt Hlen Hsp Hn Ha Hs Hl Hd. destruct (append_spec p s k a l l2 σ) as (w' & E & Ha' & Hout); [done..|].
  exists w'. split; [|done]. unfold str_accumulate.
  eapply evals_bind; [eapply once_done, Ha|].
  eapply evals_bind; [eapply get_accu_later; [done | done | apply Ha | done | done]|].
  rewrite (proj2 (Z.eqb_neq a NULL) Hn). eapply evals_bind; [exact E | apply evals_ret].
Qed.

(** The first call. *)
Lemma accumulate_first p self pr d k a env s lj l2 σ :
  runs_thread p self pr d σ -> length (p_specific d) = Z.to_nat PTHREAD_KEYS_MAX ->
  key_ready (words σ) k -> p_specific d !! Z.to_nat k = Some NULL ->
  envt (krn σ) = a :: env -> a <> NULL -> (forall x, in_block a x -> words σ !! x = None) ->
  cstring (tabulate junk (block a 1024)) a lj ->
  cstring (words σ) s l2 -> (length lj + length l2 < 1024)%nat -> apart a s l2 ->
  exists w', evals p (accumulate s) σ (Done a (setf words w' (allocated self k a d env σ))) /\
    accu_at w' k a (lj ++ l2) /\ forall x, ~ in_block a x -> w' !! x = words σ !! x.
Proof.
  intros Hrt Hlen Hk Hsp He Hn Hfree Hj Hs Hl Hd. pose proof Hk as [Ho Hkey Hr].
  set (σ1 := allocated self k a d env σ).
  assert (Hin : forall x, in_block a x -> words σ1 !! x = tabulate junk (block a 1024) !! x).
  { intros x Hx. unfold σ1, allocated. fields.
    rewrite lookup_tabulate_union, lookup_tabulate. by case_decide; [|rewrite elem_of_block in *]. }
  assert (Hout : forall x, ~ in_block a x -> words σ1 !! x = words σ !! x).
  { intros x Hx. unfold σ1, allocated. fields.
    rewrite lookup_tabulate_union. by case_decide; [rewrite elem_of_block in *|]. }
  assert (Hk1 : ~ in_block a str_key) by (intros E%Hfree; congruence).
  assert (Ho1 : ~ in_block a str_alloc_key_once) by (intros E%Hfree; congruence).
  destruct (append_spec p s k a lj l2 σ1) as (w' & E & Ha' & Hout'); [| |done|done|].
  - constructor; [constructor; rewrite ?Hout; done | | |done].
    + eapply cstring_ext; [|exact Hj]. intros x Hx. apply Hin. lia.
    + intros x Hx. rewrite Hin, lookup_tabulate by done. case_decide; [eauto|]. by rewrite elem_of_block in *.
  - eapply cstring_ext; [|exact Hs]. intros x Hx. apply Hout. lia.
  - exists w'. split; [|split; [done|]].
    + unfold str_accumulate. eapply evals_bind; [by eapply once_done|].
      eapply evals_bind; [by eapply get_accu_first|].
      rewrite (proj2 (Z.eqb_neq a NULL) Hn). eapply evals_bind; [exact E | apply evals_ret].
    + intros x Hx. by rewrite Hout', Hout.
Qed.

(** C34: the function of the threads, in a thread that has no buffer yet, once
    the key has been allocated: the string it prints is the concatenation of
    the three arguments, in the order of the calls, preceded by the string
    [lj] that the allocated memory happens to hold, since the code never
    clears it; the result is right just in case that memory begins with 0.
    The buffer is noted for this thread only, and no other memory changes. *)
Theorem process_correct p self pr d k a env result_of arg thread_ lj l1 l2 l3 σ :
  runs_thread p self pr d σ -> length (p_specific d) = Z.to_nat PTHREAD_KEYS_MAX ->
  key_ready (words σ) k -> p_specific d !! Z.to_nat k = Some NULL ->
  envt (krn σ) = a :: env -> a <> NULL -> (forall x, in_block a x -> words σ !! x = None) ->
  cstring (tabulate junk (block a 1024)) a lj ->
  cstring (words σ) result_of l1 -> cstring (words σ) arg l2 -> cstring (words σ) thread_ l3 ->
  apart a result_of l1 -> apart a arg l2 -> apart a thread_ l3 ->
  (length lj + length l1 + length l2 + length l3 < 1024)%nat ->
  exists σ', evals p (process str_key str_alloc_key_once addr_str_alloc_key junk
      result_of thread_ arg) σ (Done a σ') /\
    cstring (words σ') a (lj ++ l1 ++ l2 ++ l3) /\
    (lj ++ l1 ++ l2 ++ l3 = l1 ++ l2 ++ l3 <-> junk a = 0) /\
    (forall x, ~ in_block a x -> words σ' !! x = words σ !! x) /\
    (forall th, th <> self -> thr σ' !! th = thr σ !! th) /\
    p_specific <$> thr σ' !! self = Some (<[Z.to_nat k := a]> (p_specific d)).
Proof.
  intros Hrt Hlen Hk Hsp He Hn Hfree Hj H1 H2 H3 D1 D2 D3 Hl.
  destruct (accumulate_first p self pr d k a env result_of lj l1 σ) as (w1 & E1 & A1 & O1);
    [assumption..|lia|assumption|].
  set (d1 := setf p_specific (<[Z.to_nat k := a]> (p_specific d)) d).
  set (σ1 := allocated self k a d env σ) in *.
  assert (Hrt1 : forall w, runs_thread p self pr d1 (setf words w σ1)).
  { intros w. destruct Hrt. constructor; [done | done | apply lookup_insert_eq]. }
  assert (Ht : thr σ1 = <[self := d1]> (thr σ)) by done. clearbody σ1.
  assert (Hlen1 : length (p_specific d1) = Z.to_nat PTHREAD_KEYS_MAX).
  { unfold d1. fields. by rewrite length_insert. }
  assert (Hsp1 : p_specific d1 !! Z.to_nat k = Some a).
  { unfold d1. fields. apply list_lookup_insert_eq. by apply lookup_lt_Some in Hsp. }
  destruct (accumulate_later p self pr d1 k a arg (lj ++ l1) l2 _ (Hrt1 w1)) as (w2 & E2 & A2 & O2);
    [assumption..| |rewrite length_app; lia|assumption|].
  { eapply cstring_ext; [|exact H2]. intros x Hx. apply O1. lia. }
  destruct (accumulate_later p self pr d1 k a thread_ ((lj ++ l1) ++ l2) l3 _ (Hrt1 w2)) as (w3 & E3 & A3 & O3);
    [assumption..| |rewrite !length_app; lia|assumption|].
  { eapply cstring_ext; [|exact H3]. intros x Hx. fields. rewrite O2 by lia. apply O1. lia. }
  eexists. split; [|split_and!].
  - unfold process. eapply evals_bind; [exact E1|]. eapply evals_bind; [exact E2|]. exact E3.
  - fields. rewrite !app_assoc. apply A3.
  - destruct Hj as [Hc Hz]. destruct lj as [|c lj].
    + simpl in Hz. rewrite Z.add_0_r, lookup_tabulate in Hz. case_decide; [|done]. by simplify_eq.
    + destruct (Hc 0%nat c eq_refl) as [Hz' Hcn]. rewrite Z.add_0_r, lookup_tabulate in Hz'.
      case_decide; simplify_eq. split; [|done]. intros E%(f_equal length). exfalso. simpl in E.
      rewrite !length_app in E. lia.
  - intros x Hx. fields. rewrite O3, O2 by done. fields. by apply O1.
  - intros th Hth. fields. rewrite Ht. by apply lookup_insert_ne.
  - fields. by rewrite Ht, lookup_insert_eq.
Qed.
End proof.
End Accumulate.
