(* ===== verification/Ex2.v ===== *)
(** * Producer and consumer with a mutex and conditions (Examples/ex2.c)

    The buffer is a circular array of 16 integers, protected by a mutex; the
    producer waits for the condition [notfull], the consumer for [notempty].
    [monitor_prodcons_correct] shows that the program does what its comment
    says: the consumer prints the integers the producer put, each once and in
    order, whatever the interleaving of the two threads. *)

From stdpp Require Import relations functions.
From S2P Require Import Prelude Types Machine MachineFacts Platform Memory Spinlock Queue.
From S2P Require Import Restart Mutex Cleanup Specific Join Cond Interleave PoolThreads.
From S2P Require Import MonitorPool Ring.

Module Monitor.

(** The fields of [struct prodcons] at [b]. *)
Definition BUFFER_SIZE : Z := 16.
Definition buffer_at (b : addr) (i : Z) : addr := b + 4 * i.
Definition lock_at (b : addr) : addr := b + 64.
Definition readpos_at (b : addr) : addr := b + 88.
Definition writepos_at (b : addr) : addr := b + 92.
Definition notempty_at (b : addr) : addr := b + 96.
Definition notfull_at (b : addr) : addr := b + 108.

Definition OVER : Z := -1.

Section program.
Context {P : Platform} {U : UserCode}.

Definition init (b : addr) : itree evt unit :=
  __pthread_mutex_init (lock_at b) NULL ;;
  pthread_cond_init (notempty_at b) NULL ;;
  pthread_cond_init (notfull_at b) NULL ;;
  store_word (readpos_at b) 0 ;;
  store_word (writepos_at b) 0.

Definition put_wait (b : addr) : itree evt bool :=
  w <- load words (writepos_at b) id ;;
  r <- load words (readpos_at b) id ;;
  if Z.rem (int_of (w + 1)) BUFFER_SIZE =? r then
    pthread_cond_wait (notfull_at b) (lock_at b) ;;
    Ret true
  else Ret false.

Definition put (b : addr) (data : Z) : itree evt unit :=
  __pthread_mutex_lock (lock_at b) ;;
  c_while (put_wait b) ;;
  w <- load words (writepos_at b) id ;;
  store_word (buffer_at b w) data ;;
  w <- load words (writepos_at b) id ;;
  store_word (writepos_at b) (int_of (w + 1)) ;;
  w <- load words (writepos_at b) id ;;
  when (w >=? BUFFER_SIZE) (store_word (writepos_at b) 0) ;;
  pthread_cond_signal (notempty_at b) ;;
  __pthread_mutex_unlock (lock_at b) ;;
  Ret tt.

Definition get_wait (b : addr) : itree evt bool :=
  w <- load words (writepos_at b) id ;;
  r <- load words (readpos_at b) id ;;
  if w =? r then
    pthread_cond_wait (notempty_at b) (lock_at b) ;;
    Ret true
  else Ret false.

Definition get (b : addr) : itree evt Z :=
  __pthread_mutex_lock (lock_at b) ;;
  c_while (get_wait b) ;;
  r <- load words (readpos_at b) id ;;
  data <- load words (buffer_at b r) id ;;
  r <- load words (readpos_at b) id ;;
  store_word (readpos_at b) (int_of (r + 1)) ;;
  r <- load words (readpos_at b) id ;;
  when (r >=? BUFFER_SIZE) (store_word (readpos_at b) 0) ;;
  pthread_cond_signal (notfull_at b) ;;
  __pthread_mutex_unlock (lock_at b) ;;
  Ret data.

(** The threads return the list of the integers they have printed; [n] is
    10000 in the program. *)
Definition producer_body (b n : Z) (a : Z * list Z) : itree evt ((Z * list Z) + list Z) :=
  if a.1 <? n then
    put b a.1 ;;
    Ret (inl (int_of (a.1 + 1), a.2 ++ [a.1]))
  else Ret (inr a.2).

Definition producer (b n : Z) : itree evt (list Z) :=
  out <- c_loop (producer_body b n) (0, []) ;;
  put b OVER ;;
  Ret out.

Definition consumer_body (b : addr) (out : list Z) : itree evt (list Z + list Z) :=
  d <- get b ;;
  if d =? OVER then Ret (inr out) else Ret (inl (out ++ [d])).

Definition consumer (b : addr) : itree evt (list Z) := c_loop (consumer_body b) [].
End program.

(** ** The books of the two threads *)

(** The producer has put [i] elements, the consumer has got [j]; [st] is the
    progress of the current call: 0 without the mutex, 1 with it, 2 if it has
    found that it must wait, 3 if it need not, 4 with the data written or
    read, 5 with the position advanced, 6 with the position reduced. *)
Inductive acct :=
| Prod (i st : Z)
| Cons (j st : Z).

Definition crit (u : acct) : bool :=
  match u with Prod _ st | Cons _ st => negb (st =? 0) end.

(** The position after [k] elements, at stage [st]. *)
Definition pos (k st : Z) : Z :=
  if st <=? 4 then k mod 16 else if st =? 5 then k mod 16 + 1 else (k + 1) mod 16.

(** 1 from stage [s] on. *)
Definition from (s st : Z) : Z := if st <? s then 0 else 1.

Section proof.
Context {H : Handlers} {P : Platform} {Pok : PlatformOk P} {UC : UserCode} {Hr : RestartHandler H P}.
Context (b n : Z) (pa pb : Z) (self : Z -> addr).
Context (pa_pb : pa <> pb) (n_range : 0 <= n < 2 ^ 31 - 1).
Context (self_inj : forall p q, p ∈ [pa; pb] -> q ∈ [pa; pb] -> self p = self q -> p = q).
Context (self_ok : forall p, p ∈ [pa; pb] -> self p <> NULL /\ self p <> addr_manager_thread).

Abbreviation data := (element n OVER).
Abbreviation nf := (notfull_at b).
Abbreviation ne := (notempty_at b).

(** The thread [p] is in the queue of a condition only if it must wait. *)
Definition waits_if (p : Z) (l : list Z) (st : Z) (C : Prop) : Prop :=
  l = [] \/ l = [p] /\ st <= 1 /\ C.

Record books (i si j sj : Z) (us : gmap Z acct) (w : gmap Z Z) (cq : Z -> list Z) : Prop := {
  bk_users : us = <[pa := Prod i si]> {[pb := Cons j sj]};
  bk_j : 0 <= j;
  bk_si : 0 <= si <= 6;
  bk_sj : 0 <= sj <= 6;
  bk_room : i + from 3 si <= j + 15;
  bk_some : j + from 3 sj <= i;
  bk_full : si = 2 -> i = j + 15;
  bk_empty : sj = 2 -> i = j;
  bk_write : w !! writepos_at b = Some (pos i si);
  bk_read : w !! readpos_at b = Some (pos j sj);
  bk_mapped : forall k, 0 <= k < 16 -> is_Some (w !! buffer_at b k);
  bk_data : forall k, j <= k < i + from 4 si -> w !! buffer_at b (k mod 16) = Some (data k);
  bk_nf : waits_if pa (cq nf) si (i = j + 15 /\ i <= n);
  bk_ne : waits_if pb (cq ne) sj (i = j /\ j <= n)
}.

Definition UI (us : gmap Z acct) (w : gmap Z Z) (cq : Z -> list Z) : Prop :=
  exists i si j sj, books i si j sj us w cq.

Abbreviation ps := [pa; pb].
Abbreviation Inv := (MInv (lock_at b) [ne; nf] ps self crit UI).
Abbreviation triple := (triple Inv asleep).
Abbreviation ghost_of u := (mk_ghost u None None (Running false)).

Lemma UI_ext us w q q' : (forall c, q' c = q c) -> UI us w q -> UI us w q'.
Proof.
  intros E (i & si & j & sj & []). exists i, si, j, sj. constructor; rewrite ?E; done.
Qed.

(** The processes other than [p] are outside of the monitor. *)
Abbreviation alone p us := (forall q uq, q <> p -> us !! q = Some uq -> crit uq = false).

(** The accounts the books hold. *)
Lemma books_prod us w cq i si : UI us w cq -> us !! pa = Some (Prod i si) -> alone pa us ->
  exists j, books i si j 0 us w cq.
Proof.
  intros (i' & si' & j & sj & Hb) Hp Hoth. rewrite (bk_users _ _ _ _ _ _ _ Hb) in Hp, Hoth.
  rewrite lookup_insert_eq in Hp. specialize (Hoth pb (Cons j sj)).
  rewrite lookup_insert_ne, lookup_singleton_eq in Hoth by done.
  apply negb_false_iff, Z.eqb_eq in Hoth; [|done..]. simplify_eq. eauto.
Qed.

Lemma books_cons us w cq j sj : UI us w cq -> us !! pb = Some (Cons j sj) -> alone pb us ->
  exists i, books i 0 j sj us w cq.
Proof.
  intros (i & si & j' & sj' & Hb) Hp Hoth. rewrite (bk_users _ _ _ _ _ _ _ Hb) in Hp, Hoth.
  rewrite lookup_insert_ne, lookup_singleton_eq in Hp by done. specialize (Hoth pa (Prod i si)).
  rewrite lookup_insert_eq in Hoth.
  apply negb_false_iff, Z.eqb_eq in Hoth; [|done..]. simplify_eq. eauto.
Qed.

(** ** Steps of the books *)

Lemma books_prod_step i si j sj us w cq i' si' w' cq' :
  books i si j sj us w cq -> 0 <= si' <= 6 ->
  i <= i' -> i' + from 3 si' <= j + 15 -> (si' = 2 -> i' = j + 15) -> (sj = 2 -> i' = j) ->
  w' !! writepos_at b = Some (pos i' si') -> w' !! readpos_at b = w !! readpos_at b ->
  (forall k, 0 <= k < 16 -> is_Some (w' !! buffer_at b k)) ->
  (forall k, j <= k < i' + from 4 si' -> w' !! buffer_at b (k mod 16) = Some (data k)) ->
  waits_if pa (cq' nf) si' (i' = j + 15 /\ i' <= n) -> waits_if pb (cq' ne) sj (i' = j /\ j <= n) ->
  UI (<[pa := Prod i' si']> us) w' cq'.
Proof.
  intros [] Hs Hi Hro Hf He Hw Hrd Hm Hd Hnf Hne. exists i', si', j, sj.
  constructor; try done; [by rewrite bk_users0, insert_insert_eq | lia | by rewrite Hrd].
Qed.

Lemma books_cons_step i si j sj us w cq j' sj' w' cq' :
  books i si j sj us w cq -> 0 <= sj' <= 6 ->
  j <= j' -> j' + from 3 sj' <= i -> (sj' = 2 -> i = j') -> (si = 2 -> i = j' + 15) ->
  w' !! readpos_at b = Some (pos j' sj') -> w' !! writepos_at b = w !! writepos_at b ->
  (forall k, 0 <= k < 16 -> w' !! buffer_at b k = w !! buffer_at b k) ->
  waits_if pa (cq' nf) si (i = j' + 15 /\ i <= n) -> waits_if pb (cq' ne) sj' (i = j' /\ j' <= n) ->
  UI (<[pb := Cons j' sj']> us) w' cq'.
Proof.
  intros [] Hs Hj Hro He Hf Hrd Hw Hb Hnf Hne. exists i, si, j', sj'.
  constructor; try done; try lia.
  - by rewrite bk_users0, insert_insert_ne, insert_singleton_eq.
  - by rewrite Hw.
  - intros k Hk. rewrite Hb by done. auto.
  - intros k Hk. rewrite Hb by apply ring_range. apply bk_data0. lia.
Qed.

(** A new stage of [put], with the position of this stage. *)
Lemma prod_goto i si j us w cq si' : books i si j 0 us w cq ->
  0 <= si' <= 6 -> i + from 3 si' <= j + 15 -> (si' = 2 -> i = j + 15) ->
  from 4 si' <= from 4 si -> (si' <= 1 \/ pa ∉ cq nf) ->
  UI (<[pa := Prod i si']> us) (<[writepos_at b := pos i si']> w) cq.
Proof.
  intros Hb Hs Hr3 Hf H4 Hq. pose proof Hb as [].
  eapply books_prod_step; [exact Hb | done | lia | done | done | by auto |
    by rewrite lookup_insert_eq |..].
  - rewrite lookup_insert_ne; [done | unfold readpos_at, writepos_at; lia].
  - intros k Hk. rewrite lookup_insert_ne; [by apply bk_mapped0 | unfold buffer_at, writepos_at; lia].
  - intros k Hk. pose proof (ring_range k).
    rewrite lookup_insert_ne by (unfold buffer_at, writepos_at; lia). apply bk_data0. lia.
  - destruct bk_nf0 as [->|(E & Hs1 & HC)]; [by left|].
    destruct Hq as [?|Hq]; [by right | rewrite E in Hq; set_solver].
  - done.
Qed.

(** A new stage of [get], with the position of this stage. *)
Lemma cons_goto i j sj us w cq sj' : books i 0 j sj us w cq ->
  0 <= sj' <= 6 -> j + from 3 sj' <= i -> (sj' = 2 -> i = j) ->
  (sj' <= 1 \/ pb ∉ cq ne) ->
  UI (<[pb := Cons j sj']> us) (<[readpos_at b := pos j sj']> w) cq.
Proof.
  intros Hb Hs Hr3 He Hq. pose proof Hb as [].
  eapply books_cons_step; [exact Hb | done | lia | done | done | by auto |
    by rewrite lookup_insert_eq |..].
  - rewrite lookup_insert_ne; [done | unfold readpos_at, writepos_at; lia].
  - intros k Hk. rewrite lookup_insert_ne; [done | unfold buffer_at, readpos_at; lia].
  - done.
  - destruct bk_ne0 as [->|(E & Hs1 & HC)]; [by left|].
    destruct Hq as [?|Hq]; [by right | rewrite E in Hq; set_solver].
Qed.

(** *** The accesses *)

Lemma t_load_word {A} p u u' a x (k : Z -> itree evt A) Q :
  crit u = true -> crit u' = true ->
  (forall us w cq, UI us w cq -> us !! p = Some u -> alone p us -> (forall c, p ∉ cq c) ->
     w !! a = Some x /\ UI (<[p := u']> us) w cq) ->
  triple p (ghost_of u') (k x) Q ->
  triple p (ghost_of u) (ITree.bind (load words a id) k) Q.
Proof.
  intros Hc Hc' Hf Hk. apply t_client_act. intros us w cq HU Hu Hoth Hq σ <-.
  destruct (Hf us _ cq HU Hu (Hoth Hc) Hq) as [Ha HU'].
  exists x, (words σ), u'. rewrite Ha, Hc. by destruct σ.
Qed.

Lemma t_store_word {A} p u u' a x (k : unit -> itree evt A) Q :
  crit u = true -> crit u' = true ->
  (forall us w cq, UI us w cq -> us !! p = Some u -> alone p us -> (forall c, p ∉ cq c) ->
     is_Some (w !! a) /\ UI (<[p := u']> us) (<[a := x]> w) cq) ->
  triple p (ghost_of u') (k tt) Q ->
  triple p (ghost_of u) (ITree.bind (store_word a x) k) Q.
Proof.
  intros Hc Hc' Hf Hk. apply t_client_act. intros us w cq HU Hu Hoth Hq σ <-.
  destruct (Hf us _ cq HU Hu (Hoth Hc) Hq) as [[y Hy] HU'].
  exists tt, (<[a := x]> (words σ)), u'. by rewrite Hy, Hc.
Qed.

(** The statements that advance a position. *)
Lemma t_advance_pos {A} p a (u : Z -> acct) k (rest : itree evt A) Q :
  (forall st, 4 <= st -> crit (u st) = true) ->
  (forall us w cq st st', 4 <= st <= 6 -> 4 <= st' <= 6 -> UI us w cq -> us !! p = Some (u st) ->
     alone p us -> (forall c, p ∉ cq c) ->
     w !! a = Some (pos k st) /\ UI (<[p := u st']> us) (<[a := pos k st']> w) cq) ->
  triple p (ghost_of (u 6)) rest Q ->
  triple p (ghost_of (u 4))
    (r <- load words a id ;;
     store_word a (int_of (r + 1)) ;;
     r <- load words a id ;;
     when (r >=? BUFFER_SIZE) (store_word a 0) ;;
     rest) Q.
Proof.
  intros Hcr Hst Hrest. pose proof (ring_next k) as Hn.
  apply (t_advance _ _ p a k (ghost_of (u 4)) (ghost_of (u 5)) (ghost_of (u 6))); [..|done].
  - intros B c Q' Hk. apply (t_load_word p (u 4) (u 4) a (k mod 16)); [by apply Hcr..| |done].
    intros us w cq HU Hu Ho Hq. rewrite insert_id by done.
    by destruct (Hst us w cq 4 4 ltac:(lia) ltac:(lia) HU Hu Ho Hq).
  - intros B c Q' Hk. apply (t_store_word p (u 4) (u 5)); [by apply Hcr..| |done].
    intros us w cq HU Hu Ho Hq.
    destruct (Hst us w cq 4 5 ltac:(lia) ltac:(lia) HU Hu Ho Hq) as [-> ?]. eauto.
  - intros B c Q' Hk. destruct (_ >=? _) eqn:E.
    + apply (t_load_word p (u 5) (u 5) a (k mod 16 + 1)); [by apply Hcr..| |done].
      intros us w cq HU Hu Ho Hq. rewrite insert_id by done.
      by destruct (Hst us w cq 5 5 ltac:(lia) ltac:(lia) HU Hu Ho Hq).
    + apply (t_load_word p (u 5) (u 6) a (k mod 16 + 1)); [by apply Hcr..| |done].
      intros us w cq HU Hu Ho Hq.
      destruct (Hst us w cq 5 6 ltac:(lia) ltac:(lia) HU Hu Ho Hq) as [Hw HU']. split; [done|].
      rewrite (insert_id w) in HU'; [done|]. rewrite Hw. unfold pos. simpl. by rewrite Hn.
  - intros E B c Q' Hk. apply (t_store_word p (u 5) (u 6)); [by apply Hcr..| |done].
    intros us w cq HU Hu Ho Hq.
    destruct (Hst us w cq 5 6 ltac:(lia) ltac:(lia) HU Hu Ho Hq) as [-> HU']. split; [eauto|].
    unfold pos in HU'. simpl in HU'. by rewrite Hn, E in HU'.
Qed.

(** *** [put] *)

(** The test of [put] tells whether the buffer is full. *)
Lemma full_test i j : j <= i <= j + 15 ->
  (Z.rem (int_of (i mod 16 + 1)) BUFFER_SIZE =? j mod 16) = (i =? j + 15).
Proof.
  intros Hij. pose proof (ring_range i). rewrite int_of_small by lia.
  unfold BUFFER_SIZE. rewrite Z.rem_mod_nonneg, Z.add_mod_idemp_l by lia.
  destruct (Z.eqb_spec i (j + 15)) as [->|Hne].
  - replace (j + 15 + 1) with (j + 1 * 16) by lia. rewrite Z.mod_add by lia. apply Z.eqb_refl.
  - apply Z.eqb_neq. intros E. apply ring_inj in E; lia.
Qed.

Lemma empty_test i j : j <= i <= j + 15 -> (i mod 16 =? j mod 16) = (i =? j).
Proof.
  intros Hij. destruct (Z.eqb_spec i j) as [->|Hne]; [apply Z.eqb_refl|].
  apply Z.eqb_neq. intros E. apply ring_inj in E; lia.
Qed.

(** Entering and leaving the monitor. *)
Lemma prod_may out i st st' : (st = 0 \/ st = 1) -> (st' = 0 \/ st' = 1) ->
  may_step crit UI out pa (Prod i st) (Prod i st').
Proof.
  intros Hst Hst' us w cq HU Hu Hoth _. destruct (books_prod _ _ _ _ _ HU Hu Hoth) as [j Hb].
  pose proof (prod_goto _ _ _ _ _ _ st' Hb) as Hg. destruct Hb.
  rewrite (insert_id w) in Hg by (destruct Hst, Hst'; by subst).
  apply Hg; destruct Hst, Hst'; subst; unfold from in *; simpl in *; lia.
Qed.

Lemma cons_may out j st st' : (st = 0 \/ st = 1) -> (st' = 0 \/ st' = 1) ->
  may_step crit UI out pb (Cons j st) (Cons j st').
Proof.
  intros Hst Hst' us w cq HU Hu Hoth _. destruct (books_cons _ _ _ _ _ HU Hu Hoth) as [i Hb].
  pose proof (cons_goto _ _ _ _ _ _ st' Hb) as Hg. destruct Hb.
  rewrite (insert_id w) in Hg by (destruct Hst, Hst'; by subst).
  apply Hg; destruct Hst, Hst'; subst; unfold from in *; simpl in *; lia.
Qed.

(** The producer lists itself only while the buffer is full. *)
Lemma prod_enqueue i : 0 <= i <= n ->
  may_queue crit UI pa nf (fun l => l ++ [pa]) (Prod i 2) (Prod i 1).
Proof.
  intros Hi us w cq HU Hu Ho Hq.
  destruct (books_prod _ _ _ _ _ HU Hu (Ho eq_refl)) as [j Hb]. pose proof Hb as [].
  unfold from in *. simpl in *.
  eapply books_prod_step; [exact Hb | lia | lia | unfold from; simpl; lia | lia | lia | done..| |].
  - rewrite fn_lookup_insert. destruct bk_nf0 as [->|(E & _)]; [right | destruct (Hq nf); rewrite E; apply list_elem_of_here].
    split; [done|]. split; [lia|]. split; [auto | lia].
  - by rewrite fn_lookup_insert_ne by (unfold notfull_at, notempty_at; lia).
Qed.

Lemma t_put_wait i : 0 <= i <= n ->
  triple pa (ghost_of (Prod i 1)) (put_wait b)
    (fun r g => g = ghost_of (Prod i (if r then 1 else 3))).
Proof.
  intros Hi. unfold put_wait.
  apply (t_load_word pa (Prod i 1) (Prod i 1) _ (i mod 16)); [done | done | |].
  { intros us w cq HU Hu Ho Hq. destruct (books_prod _ _ _ _ _ HU Hu Ho) as [j Hb].
    rewrite insert_id by done. split; [apply Hb | done]. }
  apply t_client_act. intros us w cq HU Hu Ho Hq σ <-.
  destruct (books_prod _ _ _ _ _ HU Hu (Ho eq_refl)) as [j Hb]. pose proof Hb as [].
  exists (j mod 16), (words σ), (Prod i (if i =? j + 15 then 2 else 3)).
  rewrite bk_read0. split; [by destruct (i =? j + 15)|]. split; [by destruct σ|].
  unfold from in *. simpl in *. rewrite full_test by lia. split.
  { pose proof (prod_goto _ _ _ _ _ _ (if i =? j + 15 then 2 else 3) Hb) as Hg.
    rewrite (insert_id (words σ)) in Hg by (by destruct (i =? j + 15)).
    apply Hg; destruct (Z.eqb_spec i (j + 15)); unfold from; simpl; auto; lia. }
  destruct (i =? j + 15); [|by apply triple_ret].
  eapply triple_bind; [apply (t_cond_wait _ _ _ _ _ _ UI_ext self_inj self_ok pa nf
    (Prod i 2) (Prod i 1) (Prod i 0) (Prod i 1)); try done|].
  - set_solver.
  - by apply prod_enqueue.
  - apply prod_may; auto.
  - apply prod_may; auto.
  - intros r g [-> ->]. by apply triple_ret.
Qed.

(** The cell that [put] writes is free. *)
Lemma prod_write i j us w cq : books i 3 j 0 us w cq -> (forall c, pa ∉ cq c) ->
  UI (<[pa := Prod i 4]> us) (<[buffer_at b (i mod 16) := data i]> w) cq.
Proof.
  intros Hb Hq. pose proof Hb as []. pose proof (ring_range i). unfold from in *. simpl in *.
  eapply books_prod_step; [exact Hb | lia | lia | | done | done |..].
  - unfold from. simpl. lia.
  - rewrite lookup_insert_ne; [done | unfold buffer_at, writepos_at; lia].
  - rewrite lookup_insert_ne; [done | unfold buffer_at, readpos_at; lia].
  - intros k Hk. rewrite lookup_insert. case_decide; [eauto | by apply bk_mapped0].
  - intros k Hk. unfold from in Hk. simpl in Hk. rewrite lookup_insert. case_decide as E.
    + do 2 f_equal. unfold buffer_at in E. apply ring_inj; lia.
    + apply bk_data0. destruct (Z.eq_dec k i) as [->|]; [by destruct E | lia].
  - destruct bk_nf0 as [?|(E & ? & ?)]; [by left | lia].
  - done.
Qed.

Lemma t_put i : 0 <= i <= n ->
  triple pa (ghost_of (Prod i 0)) (put b (data i)) (fun _ g => g = ghost_of (Prod (i + 1) 0)).
Proof.
  intros Hi. unfold put.
  eapply triple_bind; [apply (t_lock _ _ _ _ _ _ UI_ext self_inj self_ok pa (Prod i 0) (Prod i 1));
    [done | done | apply prod_may; auto]|]. intros r g [-> ->].
  eapply triple_bind; [apply (triple_while _ _ _ _ (fun g => g = ghost_of (Prod i 1))
    (fun _ g => g = ghost_of (Prod i 3))); [|done]|].
  { intros g ->. eapply triple_conseq; [by apply t_put_wait|]. by intros [] g ->. }
  intros [] g ->.
  apply (t_load_word pa (Prod i 3) (Prod i 3) _ (i mod 16)); [done | done | |].
  { intros us w cq HU Hu Ho Hq. destruct (books_prod _ _ _ _ _ HU Hu Ho) as [j Hb].
    rewrite insert_id by done. split; [apply Hb | done]. }
  apply (t_store_word pa (Prod i 3) (Prod i 4)); [done | done | |].
  { intros us w cq HU Hu Ho Hq. destruct (books_prod _ _ _ _ _ HU Hu Ho) as [j Hb].
    split; [apply (bk_mapped _ _ _ _ _ _ _ Hb), ring_range | by eapply prod_write]. }
  apply (t_advance_pos pa _ (Prod i) i).
  { intros st Hst. simpl. by destruct (Z.eqb_spec st 0); [lia|]. }
  { intros us w cq st st' Hst Hst' HU Hu Ho Hq. destruct (books_prod _ _ _ _ _ HU Hu Ho) as [j Hb].
    split; [apply Hb|]. pose proof Hb as []. apply (prod_goto _ _ _ _ _ _ _ Hb); auto; try lia.
    - unfold from in *. destruct (Z.ltb_spec st 3), (Z.ltb_spec st' 3); lia.
    - unfold from in *. destruct (Z.ltb_spec st 4), (Z.ltb_spec st' 4); lia. }
  eapply triple_bind; [apply (t_cond_signal _ _ _ _ _ _ UI_ext self_inj self_ok pa ne (Prod i 6)
    (Prod (i + 1) 1)); [set_solver | done |]|].
  { intros us w cq HU Hu Ho Hq. destruct (books_prod _ _ _ _ _ HU Hu (Ho eq_refl)) as [j Hb].
    pose proof Hb as []. unfold from in *. simpl in *.
    eapply books_prod_step; [exact Hb | lia | lia | unfold from; simpl; lia | lia | lia | done | done | done |..].
    - unfold from. simpl. intros k Hk. apply bk_data0. lia.
    - rewrite fn_lookup_insert_ne by (unfold notfull_at, notempty_at; lia).
      destruct bk_nf0 as [?|(E & ? & ?)]; [by left | lia].
    - rewrite fn_lookup_insert. destruct bk_ne0 as [->|(-> & _)]; by left. }
  intros r g [-> ->].
  eapply triple_bind; [apply (t_unlock _ _ _ _ _ _ UI_ext self_inj self_ok pa (Prod (i + 1) 1)
    (Prod (i + 1) 0)); [done | done | apply prod_may; auto]|].
  intros r g ->. by apply triple_ret.
Qed.

(** *** [get] *)

(** The consumer lists itself only while the buffer is empty. *)
Lemma cons_enqueue j : 0 <= j <= n ->
  may_queue crit UI pb ne (fun l => l ++ [pb]) (Cons j 2) (Cons j 1).
Proof.
  intros Hj us w cq HU Hu Ho Hq.
  destruct (books_cons _ _ _ _ _ HU Hu (Ho eq_refl)) as [i Hb]. pose proof Hb as [].
  unfold from in *. simpl in *.
  eapply books_cons_step; [exact Hb | lia | lia | unfold from; simpl; lia | lia | lia | done..| |].
  - by rewrite fn_lookup_insert_ne by (unfold notfull_at, notempty_at; lia).
  - rewrite fn_lookup_insert. destruct bk_ne0 as [->|(E & _)]; [right | destruct (Hq ne); rewrite E; apply list_elem_of_here].
    split; [done|]. split; [lia|]. split; [auto | lia].
Qed.

Lemma t_get_wait j : 0 <= j <= n ->
  triple pb (ghost_of (Cons j 1)) (get_wait b)
    (fun r g => g = ghost_of (Cons j (if r then 1 else 3))).
Proof.
  intros Hj. unfold get_wait.
  apply t_client_act. intros us w cq HU Hu Ho Hq σ <-.
  destruct (books_cons _ _ _ _ _ HU Hu (Ho eq_refl)) as [i Hb]. pose proof Hb as [].
  exists (i mod 16), (words σ), (Cons j (if i =? j then 2 else 3)).
  rewrite bk_write0. split; [by destruct (i =? j)|]. split; [by destruct σ|].
  unfold from in *. simpl in *. split.
  { pose proof (cons_goto _ _ _ _ _ _ (if i =? j then 2 else 3) Hb) as Hg.
    rewrite (insert_id (words σ)) in Hg by (by destruct (i =? j)).
    apply Hg; destruct (Z.eqb_spec i j); unfold from; simpl; auto; lia. }
  pose proof (empty_test i j ltac:(lia)) as Htest. clear us cq HU Hu Ho Hq Hb bk_users0 bk_nf0 bk_ne0.
  eapply (t_load_word pb _ (Cons j (if i =? j then 2 else 3)) _ (j mod 16)); [by destruct (i =? j)..| |].
  { intros us w cq HU Hu Ho Hq. destruct (books_cons _ _ _ _ _ HU Hu Ho) as [i' Hb].
    rewrite insert_id by done. split; [|done]. rewrite (bk_read _ _ _ _ _ _ _ Hb).
    by destruct (i =? j). }
  rewrite Htest. destruct (i =? j); [|by apply triple_ret].
  eapply triple_bind; [apply (t_cond_wait _ _ _ _ _ _ UI_ext self_inj self_ok pb ne
    (Cons j 2) (Cons j 1) (Cons j 0) (Cons j 1)); try done|].
  - set_solver.
  - by apply cons_enqueue.
  - apply cons_may; auto.
  - apply cons_may; auto.
  - intros r g [-> ->]. by apply triple_ret.
Qed.

Lemma t_get j : 0 <= j <= n ->
  triple pb (ghost_of (Cons j 0)) (get b)
    (fun d g => d = data j /\ g = ghost_of (Cons (j + 1) 0)).
Proof.
  intros Hj. unfold get.
  eapply triple_bind; [apply (t_lock _ _ _ _ _ _ UI_ext self_inj self_ok pb (Cons j 0) (Cons j 1));
    [done | done | apply cons_may; auto]|]. intros r g [-> ->].
  eapply triple_bind; [apply (triple_while _ _ _ _ (fun g => g = ghost_of (Cons j 1))
    (fun _ g => g = ghost_of (Cons j 3))); [|done]|].
  { intros g ->. eapply triple_conseq; [by apply t_get_wait|]. by intros [] g ->. }
  intros [] g ->.
  apply (t_load_word pb (Cons j 3) (Cons j 3) _ (j mod 16)); [done | done | |].
  { intros us w cq HU Hu Ho Hq. destruct (books_cons _ _ _ _ _ HU Hu Ho) as [i Hb].
    rewrite insert_id by done. split; [apply Hb | done]. }
  apply (t_load_word pb (Cons j 3) (Cons j 4) _ (data j)); [done | done | |].
  { intros us w cq HU Hu Ho Hq. destruct (books_cons _ _ _ _ _ HU Hu Ho) as [i Hb].
    pose proof (cons_goto _ _ _ _ _ _ 4 Hb) as Hg. destruct Hb. unfold from in *. simpl in *.
    rewrite (insert_id w) in Hg by done. split; [apply bk_data0; lia|]. apply Hg; auto; lia. }
  apply (t_advance_pos pb _ (Cons j) j).
  { intros st Hst. simpl. by destruct (Z.eqb_spec st 0); [lia|]. }
  { intros us w cq st st' Hst Hst' HU Hu Ho Hq. destruct (books_cons _ _ _ _ _ HU Hu Ho) as [i Hb].
    split; [apply Hb|]. pose proof Hb as []. apply (cons_goto _ _ _ _ _ _ _ Hb); auto; try lia.
    unfold from in *. destruct (Z.ltb_spec st 3), (Z.ltb_spec st' 3); lia. }
  eapply triple_bind; [apply (t_cond_signal _ _ _ _ _ _ UI_ext self_inj self_ok pb nf (Cons j 6)
    (Cons (j + 1) 1)); [set_solver | done |]|].
  { intros us w cq HU Hu Ho Hq. destruct (books_cons _ _ _ _ _ HU Hu (Ho eq_refl)) as [i Hb].
    pose proof Hb as []. unfold from in *. simpl in *.
    eapply books_cons_step; [exact Hb | lia | lia | unfold from; simpl; lia | lia | lia | done | done | done |..].
    - rewrite fn_lookup_insert. destruct bk_nf0 as [->|(-> & _)]; by left.
    - rewrite fn_lookup_insert_ne by (unfold notfull_at, notempty_at; lia).
      destruct bk_ne0 as [?|(E & ? & ?)]; [by left | lia]. }
  intros r g [-> ->].
  eapply triple_bind; [apply (t_unlock _ _ _ _ _ _ UI_ext self_inj self_ok pb (Cons (j + 1) 1)
    (Cons (j + 1) 0)); [done | done | apply cons_may; auto]|].
  intros r g ->. by apply triple_ret.
Qed.

(** *** The threads *)

Lemma t_producer :
  triple pa (ghost_of (Prod 0 0)) (producer b n)
    (fun out g => out = seqZ 0 n /\ g = ghost_of (Prod (n + 1) 0)).
Proof.
  eapply triple_bind.
  - apply (triple_loop _ _ _ _ (fun (a : Z * list Z) g => 0 <= a.1 <= n /\ a.2 = seqZ 0 a.1 /\
      g = ghost_of (Prod a.1 0)) (fun out g => out = seqZ 0 n /\ g = ghost_of (Prod n 0)));
      [|simpl; split_and!; [lia | lia | done..]].
    intros [i out] g (Hi & Ho & ->). simpl in *. subst out. unfold producer_body. simpl.
    destruct (Z.ltb_spec i n) as [Hlt|Hge].
    + replace (put b i) with (put b (data i)) by by rewrite element_lt.
      eapply triple_bind; [by apply t_put|]. intros _ g ->. apply triple_ret. simpl.
      rewrite int_of_small, seqZ_next by lia. split_and!; [lia | lia | done..].
    + apply triple_ret. assert (i = n) as -> by lia. done.
  - intros out g [-> ->]. replace (put b OVER) with (put b (data n)) by by rewrite element_end.
    eapply triple_bind; [apply t_put; lia|]. intros [] g Hg. by apply triple_ret.
Qed.

Lemma t_consumer :
  triple pb (ghost_of (Cons 0 0)) (consumer b)
    (fun out g => out = seqZ 0 n /\ g = ghost_of (Cons (n + 1) 0)).
Proof.
  apply (triple_loop _ _ _ _ (fun out g => exists j, 0 <= j <= n /\ out = seqZ 0 j /\
    g = ghost_of (Cons j 0))); [|exists 0; split_and!; [lia | lia | done..]].
  intros out g (j & Hj & -> & ->). unfold consumer_body.
  eapply triple_bind; [by apply t_get|]. intros d g [-> ->].
  destruct (Z.ltb_spec j n) as [Hlt|Hge].
  - rewrite element_lt by done. rewrite (proj2 (Z.eqb_neq j OVER)) by (unfold OVER; lia).
    apply triple_ret. exists (j + 1). rewrite seqZ_next by lia. split_and!; [lia | lia | done..].
  - assert (j = n) as -> by lia. rewrite element_end, Z.eqb_refl. by apply triple_ret.
Qed.

(** ** The pool *)

Definition finished (p : Z) (out : list Z) (g : ghost acct) : Prop :=
  out = seqZ 0 n /\ g = ghost_of (if decide (p = pa) then Prod (n + 1) 0 else Cons (n + 1) 0).

(** Who sleeps waits for the other one to go on. *)
Lemma books_sleep i si j sj us w cq c : books i si j sj us w cq ->
  (pa ∈ cq nf \/ pa ∈ cq ne -> i = j + 15 /\ i <= n) /\
  (pb ∈ cq nf \/ pb ∈ cq ne -> i = j /\ j <= n) /\ (c ∈ [ne; nf] -> cq c = cq nf \/ cq c = cq ne).
Proof.
  intros []. split; [|split].
  - intros [Hin|Hin]; destruct bk_nf0 as [E|(E & _ & ?)], bk_ne0 as [E'|(E' & _ & ?)];
      rewrite ?E, ?E' in Hin; set_unfold in Hin; naive_solver.
  - intros [Hin|Hin]; destruct bk_nf0 as [E|(E & _ & ?)], bk_ne0 as [E'|(E' & _ & ?)];
      rewrite ?E, ?E' in Hin; set_unfold in Hin; naive_solver.
  - intros Hc. set_unfold in Hc. destruct Hc as [->|[->|[]]]; auto.
Qed.

(** The two threads cannot both be asleep. *)
Lemma not_all_asleep ts σ Γ :
  pool_inv Inv asleep finished ts σ Γ ->
  (forall p t J, ts !! p = Some (t, J) -> exists g, Γ !! p = Some g /\ asleep p σ g) ->
  ts = ∅.
Proof.
  intros [Hi Hrun Hend] Hsl.
  assert (Hcase : forall p g, Γ !! p = Some g ->
    asleep p σ g \/ ts !! p = None /\ exists out, finished p out g).
  { intros p g Hg. destruct (ts !! p) as [[t J]|] eqn:Hp; [left | right; eauto].
    destruct (Hsl p t J Hp) as (g' & Hg' & Has). by simplify_eq. }
  destruct (asleep_on_conds _ _ _ _ _ _ _ _ Hi) as (cq & (i & si & j & sj & Hb) & _ & Hq).
  { intros p g Hg. destruct (Hcase p g Hg) as [?|(_ & out & _ & ->)]; [by left | right].
    split; [done|]. split; [done|]. simpl. by case_decide. }
  assert (Hus := bk_users _ _ _ _ _ _ _ Hb).
  pose proof (f_equal (lookup pa) Hus) as H1. pose proof (f_equal (lookup pb) Hus) as H2.
  rewrite lookup_insert_eq, lookup_fmap in H1.
  rewrite lookup_insert_ne, lookup_singleton_eq, lookup_fmap in H2 by done.
  destruct (Γ !! pa) as [ga|] eqn:Hga; [|done]. destruct (Γ !! pb) as [gb|] eqn:Hgb; [|done].
  simpl in *. injection H1 as H1. injection H2 as H2.
  assert (Ha : i = j + 15 /\ i <= n \/ ts !! pa = None /\ i = n + 1).
  { destruct (Hcase pa ga Hga) as [Has|(Hpa & _ & _ & ->)].
    - left. destruct (Hq pa ga Hga Has) as (c & Hc & Hin).
      destruct (books_sleep _ _ _ _ _ _ _ c Hb) as (HA & _ & HC).
      destruct (HC Hc) as [E|E]; rewrite E in Hin; auto.
    - right. rewrite decide_True in H1 by done. simpl in H1. by simplify_eq. }
  assert (Hb' : i = j /\ j <= n \/ ts !! pb = None /\ j = n + 1).
  { destruct (Hcase pb gb Hgb) as [Has|(Hpb & _ & _ & ->)].
    - left. destruct (Hq pb gb Hgb Has) as (c & Hc & Hin).
      destruct (books_sleep _ _ _ _ _ _ _ c Hb) as (_ & HB & HC).
      destruct (HC Hc) as [E|E]; rewrite E in Hin; auto.
    - right. rewrite decide_False in H2 by done. simpl in H2. by simplify_eq. }
  destruct Ha as [[? ?]|[Hpa ?]], Hb' as [[? ?]|[Hpb ?]]; try lia.
  apply map_empty. intros p. destruct (ts !! p) as [[t J]|] eqn:Hp; [exfalso|done].
  destruct (Hsl p t J Hp) as (g & Hg & _).
  assert (Hdom : is_Some ((g_user <$> Γ) !! p)) by (rewrite lookup_fmap, Hg; eauto).
  rewrite Hus, lookup_insert, lookup_singleton in Hdom. repeat case_decide; subst; try congruence.
  by destruct Hdom.
Qed.
End proof.

(** ** The program *)

Section main.
Context {H : Handlers} {P : Platform} {Pok : PlatformOk P} {UC : UserCode} {Hr : RestartHandler H P}.

(** The program before [init]: two threads of the library, and the global
    [buffer], whose contents do not matter. *)
Record before_init (b pa pb : Z) (self : Z -> addr) (σ : state) : Prop := {
  bi_idle : idle_threads [pa; pb] self σ;
  bi_words : forall k, 0 <= k < 16 -> is_Some (words σ !! buffer_at b k);
  bi_readpos : is_Some (words σ !! readpos_at b);
  bi_writepos : is_Some (words σ !! writepos_at b);
  bi_mutex : is_Some (mtx σ !! lock_at b);
  bi_notempty : is_Some (cnd σ !! notempty_at b);
  bi_notfull : is_Some (cnd σ !! notfull_at b)
}.

(** The state after [init]. *)
Definition initialized (b : addr) (σ : state) : state :=
  setf words (<[writepos_at b := 0]> (<[readpos_at b := 0]> (words σ)))
    (put_cond (notfull_at b) PTHREAD_COND_INITIALIZER
      (put_cond (notempty_at b) PTHREAD_COND_INITIALIZER
        (put_mutex (lock_at b) (mk_mutex 0 0 NULL PTHREAD_MUTEX_FAST_NP (mk_queue NULL NULL)) σ))).

Lemma init_spec b pa pb self p σ : before_init b pa pb self σ ->
  evals p (init b) σ (Done tt (initialized b σ)).
Proof.
  intros [_ _ [w1 Hw1] [w2 Hw2] [mu Hm] [c1 H1] [c2 H2]]. unfold init.
  eapply evals_bind; [apply (mutex_init_spec _ _ NULL mu _ PTHREAD_MUTEX_FAST_NP); [done | by left]|].
  eapply evals_bind; [eapply cond_init_spec; exact H1|].
  eapply evals_bind; [apply (cond_init_spec _ _ NULL c2)|].
  { unfold put_cond. fields.
    rewrite lookup_insert_ne; [exact H2 | unfold notempty_at, notfull_at; lia]. }
  eapply evals_store_word; [exact Hw1|].
  apply evals_unbind. eapply evals_store_word.
  { unfold put_cond, put_mutex. fields.
    rewrite lookup_insert_ne; [exact Hw2 | unfold readpos_at, writepos_at; lia]. }
  apply evals_ret.
Qed.

Definition threads (b n pa pb : Z) : gmap Z (itree evt (list Z) * jtab (list Z)) :=
  {[pa := (producer b n, ∅); pb := (consumer b, ∅)]}.

Lemma initialized_start b pa pb self σ : before_init b pa pb self σ ->
  monitor_start (lock_at b) [notempty_at b; notfull_at b] [pa; pb] self (initialized b σ).
Proof.
  intros [[] _ _ _ _ _ _]. constructor.
  - constructor; try done. apply (threads_ok_mem _ _ σ); [done | done | eauto | done].
  - exists NULL. constructor. eexists. split; [apply lookup_insert_eq | apply queue_rep_nil].
  - intros c Hc. unfold initialized, put_cond. fields. set_unfold in Hc.
    destruct Hc as [->|[->|[]]]; [|apply lookup_insert_eq].
    rewrite lookup_insert_ne by (unfold notempty_at, notfull_at; lia). apply lookup_insert_eq.
Qed.

Abbreviation account pa := (fun p => if decide (p = pa) then Prod 0 0 else Cons 0 0).

Lemma initialized_books b n pa pb self σ : 0 <= n -> before_init b pa pb self σ ->
  UI b n pa pb (tabulate (account pa) [pa; pb]) (words (initialized b σ)) (fun _ => []).
Proof.
  intros Hn [[] Hw _ _ _ _ _]. exists 0, 0, 0, 0. unfold initialized. constructor; fields; try done; try lia.
  - apply map_eq. intros p. rewrite lookup_tabulate, lookup_insert, lookup_singleton.
    repeat case_decide; set_solver.
  - by rewrite lookup_insert_eq.
  - rewrite lookup_insert_ne by (unfold readpos_at, writepos_at; lia). by rewrite lookup_insert_eq.
  - intros k Hk. rewrite !lookup_insert_ne by (unfold buffer_at, readpos_at, writepos_at; lia). auto.
  - intros k. unfold from. simpl. lia.
  - by left.
  - by left.
Qed.

Lemma threads_reach b n pa pb self σ ts σ' :
  0 <= n < 2 ^ 31 - 1 -> before_init b pa pb self σ ->
  rtc pool_step (threads b n pa pb, initialized b σ) (ts, σ') ->
  exists Γ, pool_inv (MInv (lock_at b) [notempty_at b; notfull_at b] [pa; pb] self crit
    (UI b n pa pb)) asleep (finished n pa) ts σ' Γ.
Proof.
  intros Hn Hst Hsteps. pose proof Hst as [[Hnd Hinj Hself _ _ _ _] _ _ _ _ _ _].
  assert (Hne : pa <> pb) by (apply NoDup_cons in Hnd; set_solver).
  eapply (pool_reach _ _ _ (minv_quiet _ _ _ _ _ _)
    (tabulate (fun p => mk_ghost (account pa p) None None (Running false)) [pa; pb]));
    [| | |exact Hsteps].
  - apply monitor_start_inv; [by apply initialized_start | | by eapply initialized_books; [lia|]].
    intros p _. by case_decide.
  - apply set_eq. intros p. rewrite !elem_of_dom, lookup_tabulate. unfold threads.
    rewrite lookup_insert, lookup_singleton. repeat case_decide; set_solver.
  - intros p t J Hp. unfold threads in Hp. rewrite lookup_tabulate.
    apply lookup_insert_Some in Hp as [[<- [= <- <-]]|[Hp0 [<- [= <- <-]]%lookup_singleton_Some]];
      rewrite decide_True by set_solver; eexists; split; try done.
    + rewrite decide_True by done. eapply triple_conseq; [by apply t_producer|].
      intros out g [-> Hg]. split; [done|]. by rewrite decide_True.
    + rewrite decide_False by done. eapply triple_conseq; [by apply t_consumer|].
      intros out g [-> Hg]. split; [done|]. by rewrite decide_False.
Qed.

(** C3: the producer and consumer of ex2.c, after [init], under every
    interleaving of their memory accesses: no thread faults, they never wait
    for each other for ever (until both have ended some thread can go on: no
    signal of a condition is lost), and a thread that returns has printed the
    integers from 0 to [n - 1] exactly once and in order, the producer those
    it put and the consumer those it got. *)
Theorem monitor_prodcons_correct b n pa pb self p σ0 :
  0 <= n < 2 ^ 31 - 1 -> before_init b pa pb self σ0 ->
  exists σ, evals p (init b) σ0 (Done tt σ) /\
    forall ts σ', rtc pool_step (threads b n pa pb, σ) (ts, σ') ->
      ~ pool_faults (ts, σ') /\ (ts = ∅ \/ exists c, pool_step (ts, σ') c) /\
      forall q t J out J' σ2, ts !! q = Some (t, J) -> istep q t J σ' = SHalt (ODone out J' σ2) ->
        out = seqZ 0 n.
Proof.
  intros Hn Hst. exists (initialized b σ0). split; [by eapply init_spec|]. intros ts σ' Hsteps.
  destruct (threads_reach _ _ _ _ _ _ _ _ Hn Hst Hsteps) as [Γ Hinv].
  split; [|split].
  - by eapply (pool_inv_no_fault _ _ _ (minv_quiet _ _ _ _ _ _)).
  - destruct (pool_inv_progress _ _ _ _ _ _ Hinv) as [?|Hall]; [by right | left].
    destruct Hst as [[Hnd Hinj Hself _ _ _ _] _ _ _ _ _ _]. apply NoDup_cons in Hnd.
    eapply (not_all_asleep b n pa pb self); [set_solver | try done.. | exact Hinv|].
    intros q t J Hq. destruct (Hall q t J Hq) as (g & _ & _ & _ & ? & ? & _). eauto.
  - intros q t J out J' σ2 Hq E. destruct (pi_run _ _ _ _ _ _ Hinv q t J Hq) as (g & _ & Hg).
    rewrite E in Hg. apply Hg.
Qed.
End main.
End Monitor.
