(* ===== verification/Ex5.v ===== *)
(** * Producer and consumer with semaphores (Examples/ex5.c)

    The buffer is a circular array of 16 integers; [sem_write] counts the
    places that may be written, [sem_read] the elements that may be read.
    [prodcons_correct] shows that the program does what its comment says: the
    consumer prints the integers the producer put, each once and in order,
    whatever the interleaving of the two threads. *)

From stdpp Require Import relations.
From S2P Require Import Prelude Types Machine MachineFacts Platform Memory Spinlock Queue.
From S2P Require Import Restart Mutex Cleanup Specific Join Semaphore Interleave PoolThreads SemPool Ring.

Module ProdCons.

(** The fields of [struct prodcons] at [b]. *)
Definition BUFFER_SIZE : Z := 16.
Definition buffer_at (b : addr) (i : Z) : addr := b + 4 * i.
Definition readpos_at (b : addr) : addr := b + 64.
Definition writepos_at (b : addr) : addr := b + 68.
Definition sem_read_at (b : addr) : addr := b + 72.
Definition sem_write_at (b : addr) : addr := b + 80.

Definition OVER : Z := -1.

Section program.
Context {P : Platform} {U : UserCode}.

Definition init (b : addr) : itree evt unit :=
  sem_init (sem_write_at b) 0 (BUFFER_SIZE - 1) ;;
  sem_init (sem_read_at b) 0 0 ;;
  store_word (readpos_at b) 0 ;;
  store_word (writepos_at b) 0.

Definition put (b : addr) (data : Z) : itree evt unit :=
  sem_wait (sem_write_at b) ;;
  w <- load words (writepos_at b) id ;;
  store_word (buffer_at b w) data ;;
  w <- load words (writepos_at b) id ;;
  store_word (writepos_at b) (int_of (w + 1)) ;;
  w <- load words (writepos_at b) id ;;
  when (w >=? BUFFER_SIZE) (store_word (writepos_at b) 0) ;;
  sem_post (sem_read_at b) ;;
  Ret tt.

Definition get (b : addr) : itree evt Z :=
  sem_wait (sem_read_at b) ;;
  r <- load words (readpos_at b) id ;;
  data <- load words (buffer_at b r) id ;;
  r <- load words (readpos_at b) id ;;
  store_word (readpos_at b) (int_of (r + 1)) ;;
  r <- load words (readpos_at b) id ;;
  when (r >=? BUFFER_SIZE) (store_word (readpos_at b) 0) ;;
  sem_post (sem_write_at b) ;;
  Ret data.

(** The threads return the list of the integers they have printed; [n] is
    10000 in the program. *)
Definition producer_body (b n : Z) (a : Z * list Z) : itree evt ((Z * list Z) + list Z) :=
  if a.1 <? n then
    put b a.1 ;;
    Ret (inl (int_of (a.1 + 1), a.2 ++ [a.1]))
  else Ret (inr a.2).

Definition producer (b n : Z) : itree evt (list Z) :=
  out <- c_loop (producer_body b n) (0, []) ;;
  put b OVER ;;
  Ret out.

Definition consumer_body (b : addr) (out : list Z) : itree evt (list Z + list Z) :=
  d <- get b ;;
  if d =? OVER then Ret (inr out) else Ret (inl (out ++ [d])).

Definition consumer (b : addr) : itree evt (list Z) := c_loop (consumer_body b) [].
End program.

(** ** The books of the two threads *)

(** The producer has put [i] elements, the consumer has got [j]; [st] is the
    progress of the current call: 0 outside, 1 after [sem_wait], 2 with the
    data written or read, 3 with the position advanced, 4 with the position
    reduced. *)
Inductive acct :=
| Prod (i st : Z)
| Cons (j st : Z).

Definition begun (st : Z) : Z := if st =? 0 then 0 else 1.

Section proof.
Context {H : Handlers} {P : Platform} {Pok : PlatformOk P} {UC : UserCode} {Hr : RestartHandler H P}.
Context (b n : Z) (pa pb : Z) (self : Z -> addr).
Context (pa_pb : pa <> pb) (n_range : 0 <= n < 2 ^ 31 - 1).
Context (ps_nodup : NoDup [pa; pb]).
Context (self_inj : forall p q, p ∈ [pa; pb] -> q ∈ [pa; pb] -> self p = self q -> p = q).
Context (self_addr : forall p, p ∈ [pa; pb] ->
  1 < self p < 2 ^ long_bits /\ Z.odd (self p) = false).
Context (self_mgr : forall p, p ∈ [pa; pb] -> self p <> addr_manager_thread).

Abbreviation data := (element n OVER).
Abbreviation sr := (sem_read_at b).
Abbreviation sw := (sem_write_at b).

Definition bal (u : acct) (s : Z) : Z :=
  match u with
  | Prod i st => if decide (s = sw) then - (i + begun st) else if decide (s = sr) then i else 0
  | Cons j st => if decide (s = sr) then - (j + begun st) else if decide (s = sw) then j else 0
  end.

Definition init_units (s : Z) : Z := if decide (s = sw) then 15 else 0.

(** The position after [k] elements, at stage [st]. *)
Definition pos (k st : Z) : Z :=
  if st <=? 2 then k mod 16 else if st =? 3 then k mod 16 + 1 else (k + 1) mod 16.

Record books (i si j sj : Z) (us : gmap Z acct) (w : gmap Z Z) : Prop := {
  bk_users : us = <[pa := Prod i si]> {[pb := Cons j sj]};
  bk_i : 0 <= i;
  bk_j : 0 <= j;
  bk_si : 0 <= si <= 4;
  bk_sj : 0 <= sj <= 4;
  bk_write : w !! writepos_at b = Some (pos i si);
  bk_read : w !! readpos_at b = Some (pos j sj);
  bk_mapped : forall k, 0 <= k < 16 -> is_Some (w !! buffer_at b k);
  bk_data : forall k, j <= k < i + (if si <=? 1 then 0 else 1) ->
    w !! buffer_at b (k mod 16) = Some (data k)
}.

Definition UI (us : gmap Z acct) (w : gmap Z Z) : Prop := exists i si j sj, books i si j sj us w.

(** Where a thread can sleep. *)
Definition waits (u : acct) (s : Z) : Prop :=
  match u with
  | Prod i st => s = sw /\ st = 0 /\ i <= n
  | Cons j st => s = sr /\ st = 0 /\ j <= n
  end.

Abbreviation ps := [pa; pb].
Abbreviation sems := [sr; sw].
Abbreviation Inv := (SInv ps self sems init_units bal UI).
Abbreviation triple := (triple Inv (sasleep waits)).
Abbreviation avail := (avail ps init_units bal).

Lemma avail_write i si j sj us w : books i si j sj us w ->
  avail us sw = 15 - (i + begun si) + j.
Proof.
  intros [-> _ _ _ _ _ _ _ _]. unfold avail, map_sum, init_units. simpl.
  rewrite lookup_insert_eq, lookup_insert_ne, lookup_singleton_eq by done. simpl.
  repeat case_decide; unfold sem_read_at, sem_write_at in *; lia.
Qed.

Lemma avail_read i si j sj us w : books i si j sj us w ->
  avail us sr = i - (j + begun sj).
Proof.
  intros [-> _ _ _ _ _ _ _ _]. unfold avail, map_sum, init_units. simpl.
  rewrite lookup_insert_eq, lookup_insert_ne, lookup_singleton_eq by done. simpl.
  repeat case_decide; unfold sem_read_at, sem_write_at in *; lia.
Qed.

(** The accounts the books hold. *)
Lemma sem_books_prod us w i si : UI us w -> us !! pa = Some (Prod i si) ->
  exists j sj, books i si j sj us w.
Proof.
  intros (i' & si' & j & sj & Hb) Hp. rewrite (bk_users _ _ _ _ _ _ Hb) in Hp.
  rewrite lookup_insert_eq in Hp. simplify_eq. eauto.
Qed.

Lemma sem_books_cons us w j sj : UI us w -> us !! pb = Some (Cons j sj) ->
  exists i si, books i si j sj us w.
Proof.
  intros (i & si & j' & sj' & Hb) Hp. rewrite (bk_users _ _ _ _ _ _ Hb) in Hp.
  rewrite lookup_insert_ne, lookup_singleton_eq in Hp by done. simplify_eq. eauto.
Qed.
(** ** Steps of the books *)

Lemma sem_books_prod_step i si j sj us w i' si' w' :
  books i si j sj us w -> 0 <= i' -> 0 <= si' <= 4 ->
  w' !! writepos_at b = Some (pos i' si') -> w' !! readpos_at b = w !! readpos_at b ->
  (forall k, 0 <= k < 16 -> is_Some (w' !! buffer_at b k)) ->
  (forall k, j <= k < i' + (if si' <=? 1 then 0 else 1) ->
     w' !! buffer_at b (k mod 16) = Some (data k)) ->
  UI (<[pa := Prod i' si']> us) w'.
Proof.
  intros [-> ? ? ? ? ? ? ? ?] Hi Hs Hw Hrd Hm Hd. exists i', si', j, sj.
  constructor; try done; [by rewrite insert_insert_eq | by rewrite Hrd].
Qed.

Lemma sem_books_cons_step i si j sj us w j' sj' w' :
  books i si j sj us w -> 0 <= j' -> 0 <= sj' <= 4 ->
  w' !! readpos_at b = Some (pos j' sj') -> w' !! writepos_at b = w !! writepos_at b ->
  (forall k, 0 <= k < 16 -> w' !! buffer_at b k = w !! buffer_at b k) -> j <= j' ->
  UI (<[pb := Cons j' sj']> us) w'.
Proof.
  intros [-> ? ? ? ? ? ? ? Hd] Hj Hs Hrd Hw Hb Hle. exists i, si, j', sj'.
  constructor; try done.
  - by rewrite insert_insert_ne, insert_singleton_eq.
  - by rewrite Hw.
  - intros k Hk. rewrite Hb by done. auto.
  - intros k Hk. rewrite Hb by apply ring_range. apply Hd. lia.
Qed.

Lemma t_sem_load_word {A} p u u' a x sg (k : Z -> itree evt A) Q :
  (forall s, bal u' s = bal u s) ->
  (forall us w, UI us w -> us !! p = Some u -> (forall s, s ∈ sems -> 0 <= avail us s) ->
     w !! a = Some x /\ UI (<[p := u']> us) w) ->
  triple p (mk_sghost u' None (SRun sg)) (k x) Q ->
  triple p (mk_sghost u None (SRun sg)) (ITree.bind (load words a id) k) Q.
Proof.
  intros Hb Hf Hk. apply (t_sem_act _ _ _ _ _ _ _ ps_nodup _ _ _ _ u'); [done|].
  intros us w HU Hu Hav σ <-. destruct (Hf us _ HU Hu Hav) as [Ha HU'].
  exists x, (words σ). rewrite Ha. by destruct σ.
Qed.

Lemma t_sem_store_word {A} p u u' a x sg (k : unit -> itree evt A) Q :
  (forall s, bal u' s = bal u s) ->
  (forall us w, UI us w -> us !! p = Some u -> (forall s, s ∈ sems -> 0 <= avail us s) ->
     is_Some (w !! a) /\ UI (<[p := u']> us) (<[a := x]> w)) ->
  triple p (mk_sghost u' None (SRun sg)) (k tt) Q ->
  triple p (mk_sghost u None (SRun sg)) (ITree.bind (store_word a x) k) Q.
Proof.
  intros Hb Hf Hk. apply (t_sem_act _ _ _ _ _ _ _ ps_nodup _ _ _ _ u'); [done|].
  intros us w HU Hu Hav σ <-. destruct (Hf us _ HU Hu Hav) as [[y Hy] HU'].
  exists tt, (<[a := x]> (words σ)). by rewrite Hy.
Qed.

(** The statements that advance a position. *)
Lemma t_sem_advance_pos {A} p a (u : Z -> acct) k sg (rest : itree evt A) Q :
  (forall s st, 2 <= st <= 4 -> bal (u st) s = bal (u 2) s) ->
  (forall us w st st', 2 <= st <= 4 -> 2 <= st' <= 4 -> UI us w -> us !! p = Some (u st) ->
     w !! a = Some (pos k st) /\ UI (<[p := u st']> us) (<[a := pos k st']> w)) ->
  triple p (mk_sghost (u 4) None (SRun sg)) rest Q ->
  triple p (mk_sghost (u 2) None (SRun sg))
    (r <- load words a id ;;
     store_word a (int_of (r + 1)) ;;
     r <- load words a id ;;
     when (r >=? BUFFER_SIZE) (store_word a 0) ;;
     rest) Q.
Proof.
  intros Hbal Hst Hrest. pose proof (ring_next k) as Hn.
  assert (Hb : forall st st' s, 2 <= st <= 4 -> 2 <= st' <= 4 -> bal (u st') s = bal (u st) s).
  { intros st st' s H1 H2. by rewrite (Hbal s st), (Hbal s st'). }
  apply (t_advance _ _ p a k (mk_sghost (u 2) None (SRun sg)) (mk_sghost (u 3) None (SRun sg))
    (mk_sghost (u 4) None (SRun sg))); [..|done].
  - intros B c Q' Hk. apply (t_sem_load_word p (u 2) (u 2) a (k mod 16)); [done | |done].
    intros us w HU Hu _. rewrite insert_id by done.
    by destruct (Hst us w 2 2 ltac:(lia) ltac:(lia) HU Hu).
  - intros B c Q' Hk. apply (t_sem_store_word p (u 2) (u 3)); [intros s; apply Hb; lia | |done].
    intros us w HU Hu _. destruct (Hst us w 2 3 ltac:(lia) ltac:(lia) HU Hu) as [-> ?]. eauto.
  - intros B c Q' Hk. destruct (_ >=? _) eqn:E.
    + apply (t_sem_load_word p (u 3) (u 3) a (k mod 16 + 1)); [done | |done].
      intros us w HU Hu _. rewrite insert_id by done.
      by destruct (Hst us w 3 3 ltac:(lia) ltac:(lia) HU Hu).
    + apply (t_sem_load_word p (u 3) (u 4) a (k mod 16 + 1)); [intros s; apply Hb; lia | |done].
      intros us w HU Hu _.
      destruct (Hst us w 3 4 ltac:(lia) ltac:(lia) HU Hu) as [Hw HU']. split; [done|].
      rewrite (insert_id w) in HU'; [done|]. rewrite Hw. unfold pos. simpl. by rewrite Hn.
  - intros E B c Q' Hk. apply (t_sem_store_word p (u 3) (u 4)); [intros s; apply Hb; lia | |done].
    intros us w HU Hu _.
    destruct (Hst us w 3 4 ltac:(lia) ltac:(lia) HU Hu) as [-> HU']. split; [eauto|].
    unfold pos in HU'. simpl in HU'. by rewrite Hn, E in HU'.
Qed.

(** *** [put] *)

(** The buffer cell that [put] writes is free. *)
Lemma books_write i j sj us w : books i 1 j sj us w -> 0 <= avail us sw ->
  UI (<[pa := Prod i 2]> us) (<[buffer_at b (i mod 16) := data i]> w).
Proof.
  intros Hb. rewrite (avail_write _ _ _ _ _ _ Hb). unfold begun. simpl. intros Hav.
  pose proof Hb as [? ? ? ? ? Hw Hrd Hm Hd]. pose proof (ring_range i).
  eapply sem_books_prod_step; [exact Hb | lia | lia | ..].
  - rewrite lookup_insert_ne; [done | unfold buffer_at, writepos_at; lia].
  - rewrite lookup_insert_ne; [done | unfold buffer_at, readpos_at; lia].
  - intros k Hk. rewrite lookup_insert. case_decide; [eauto | by apply Hm].
  - intros k Hk. simpl in Hk. rewrite lookup_insert. case_decide as E.
    + do 2 f_equal. unfold buffer_at in E. apply ring_inj; lia.
    + apply Hd. simpl. destruct (Z.eq_dec k i) as [->|]; [by destruct E | lia].
Qed.

Lemma books_write_pos i st st' us w : 2 <= st <= 4 -> 2 <= st' <= 4 ->
  UI us w -> us !! pa = Some (Prod i st) ->
  UI (<[pa := Prod i st']> us) (<[writepos_at b := pos i st']> w).
Proof.
  intros Hst Hst' HU Hu. destruct (sem_books_prod _ _ _ _ HU Hu) as (j & sj & Hb).
  pose proof Hb as [? ? ? ? ? Hw Hrd Hm Hd].
  eapply sem_books_prod_step; [exact Hb | lia | lia | by rewrite lookup_insert_eq |..].
  - rewrite lookup_insert_ne; [done | unfold readpos_at, writepos_at; lia].
  - intros k Hk. rewrite lookup_insert_ne; [by apply Hm | unfold buffer_at, writepos_at; lia].
  - intros k Hk. pose proof (ring_range k).
    rewrite lookup_insert_ne by (unfold buffer_at, writepos_at; lia). apply Hd.
    destruct (Z.leb_spec st 1), (Z.leb_spec st' 1); lia.
Qed.

Lemma t_sem_put i sg : 0 <= i <= n ->
  triple pa (mk_sghost (Prod i 0) None (SRun sg)) (put b (data i))
    (fun _ g => exists sg', g = mk_sghost (Prod (i + 1) 0) None (SRun sg')).
Proof.
  intros Hi. unfold put.
  eapply triple_bind; [apply (t_sem_wait _ _ _ _ _ _ _ ps_nodup self_inj self_addr self_mgr
    pa sw (Prod i 0) (Prod i 1))|].
  - set_solver.
  - split_and!; lia.
  - intros s. simpl. unfold begun. simpl. repeat case_decide; simplify_eq; lia.
  - intros us w HU Hu. destruct (sem_books_prod _ _ _ _ HU Hu) as (j & sj & Hb).
    eapply sem_books_prod_step; [exact Hb | lia | lia | done || apply Hb..].
  - intros r g [-> ->].
    apply (t_sem_load_word pa (Prod i 1) (Prod i 1) _ (i mod 16)); [done | |].
    { intros us w HU Hu _. destruct (sem_books_prod _ _ _ _ HU Hu) as (j & sj & Hb).
      rewrite insert_id by done. split; [apply Hb | done]. }
    apply (t_sem_store_word pa (Prod i 1) (Prod i 2)); [done | |].
    { intros us w HU Hu Hav. destruct (sem_books_prod _ _ _ _ HU Hu) as (j & sj & Hb).
      split; [apply (bk_mapped _ _ _ _ _ _ Hb), ring_range|].
      eapply books_write; [exact Hb | apply Hav; set_solver]. }
    apply (t_sem_advance_pos pa (writepos_at b) (Prod i) i).
    + intros s st Hst. simpl. unfold begun. destruct (Z.eqb_spec st 0); [lia | done].
    + intros us w st st' Hst Hst' HU Hu. split; [|by apply (books_write_pos i st)].
      destruct (sem_books_prod _ _ _ _ HU Hu) as (j & sj & Hb). apply Hb.
    + eapply triple_bind; [apply (t_sem_post _ _ _ _ _ _ _ ps_nodup self_inj self_addr self_mgr
        pa sr (Prod i 4) (Prod (i + 1) 0))|].
      * set_solver.
      * intros s. unfold bal, begun, sem_read_at, sem_write_at. simpl.
        repeat case_decide; simplify_eq; lia.
      * intros us w HU Hu. destruct (sem_books_prod _ _ _ _ HU Hu) as (j & sj & Hb).
        pose proof Hb as [? ? ? ? ? Hw Hrd Hm Hd].
        eapply sem_books_prod_step; [exact Hb | lia | lia | done | done | done |].
        intros k Hk. apply Hd. simpl in *. lia.
      * intros us w HU Hu Hav. destruct (sem_books_prod _ _ _ _ HU Hu) as (j & sj & Hb).
        pose proof (Hav sw ltac:(set_solver)) as H1. rewrite (avail_write _ _ _ _ _ _ Hb) in H1.
        rewrite (avail_read _ _ _ _ _ _ Hb). destruct Hb. unfold begun in *. simpl in *.
        unfold SEM_VALUE_MAX, INT_MAX. destruct (sj =? 0); lia.
      * intros r g [-> [sg' ->]]. apply triple_ret. eauto.
Qed.

(** *** [get] *)

(** The element that [get] takes has been put. *)
Lemma books_take i si j us w : books i si j 1 us w -> 0 <= avail us sr ->
  w !! buffer_at b (j mod 16) = Some (data j).
Proof.
  intros Hb. rewrite (avail_read _ _ _ _ _ _ Hb). unfold begun. simpl. intros Hav.
  apply Hb. destruct (si <=? 1); lia.
Qed.

Lemma books_read_pos j st st' us w : 2 <= st <= 4 -> 2 <= st' <= 4 ->
  UI us w -> us !! pb = Some (Cons j st) ->
  UI (<[pb := Cons j st']> us) (<[readpos_at b := pos j st']> w).
Proof.
  intros Hst Hst' HU Hu. destruct (sem_books_cons _ _ _ _ HU Hu) as (i & si & Hb).
  eapply sem_books_cons_step; [exact Hb | apply Hb | lia | by rewrite lookup_insert_eq | ..]; [| |lia].
  - rewrite lookup_insert_ne; [done | unfold readpos_at, writepos_at; lia].
  - intros k Hk. rewrite lookup_insert_ne; [done | unfold buffer_at, readpos_at; lia].
Qed.

Lemma t_sem_get j sg : 0 <= j <= n ->
  triple pb (mk_sghost (Cons j 0) None (SRun sg)) (get b)
    (fun d g => d = data j /\ exists sg', g = mk_sghost (Cons (j + 1) 0) None (SRun sg')).
Proof.
  intros Hj. unfold get.
  eapply triple_bind; [apply (t_sem_wait _ _ _ _ _ _ _ ps_nodup self_inj self_addr self_mgr
    pb sr (Cons j 0) (Cons j 1))|].
  - set_solver.
  - split_and!; lia.
  - intros s. simpl. unfold begun. simpl. repeat case_decide; simplify_eq; lia.
  - intros us w HU Hu. destruct (sem_books_cons _ _ _ _ HU Hu) as (i & si & Hb).
    eapply sem_books_cons_step; [exact Hb | lia | lia | done || apply Hb..].
  - intros r g [-> ->].
    apply (t_sem_load_word pb (Cons j 1) (Cons j 1) _ (j mod 16)); [done | |].
    { intros us w HU Hu _. destruct (sem_books_cons _ _ _ _ HU Hu) as (i & si & Hb).
      rewrite insert_id by done. split; [apply Hb | done]. }
    apply (t_sem_load_word pb (Cons j 1) (Cons j 2) _ (data j)); [done | |].
    { intros us w HU Hu Hav. destruct (sem_books_cons _ _ _ _ HU Hu) as (i & si & Hb).
      split; [eapply books_take; [exact Hb | apply Hav; set_solver]|].
      eapply sem_books_cons_step; [exact Hb | lia | lia | done || apply Hb..]. }
    apply (t_sem_advance_pos pb (readpos_at b) (Cons j) j).
    + intros s st Hst. simpl. unfold begun. destruct (Z.eqb_spec st 0); [lia | done].
    + intros us w st st' Hst Hst' HU Hu. split; [|by apply (books_read_pos j st)].
      destruct (sem_books_cons _ _ _ _ HU Hu) as (i & si & Hb). apply Hb.
    + eapply triple_bind; [apply (t_sem_post _ _ _ _ _ _ _ ps_nodup self_inj self_addr self_mgr
        pb sw (Cons j 4) (Cons (j + 1) 0))|].
      * set_solver.
      * intros s. unfold bal, begun, sem_read_at, sem_write_at. simpl.
        repeat case_decide; simplify_eq; lia.
      * intros us w HU Hu. destruct (sem_books_cons _ _ _ _ HU Hu) as (i & si & Hb).
        eapply sem_books_cons_step; [exact Hb | lia | lia | done || apply Hb.. | lia].
      * intros us w HU Hu Hav. destruct (sem_books_cons _ _ _ _ HU Hu) as (i & si & Hb).
        pose proof (Hav sr ltac:(set_solver)) as H1. rewrite (avail_read _ _ _ _ _ _ Hb) in H1.
        rewrite (avail_write _ _ _ _ _ _ Hb). destruct Hb. unfold begun in *. simpl in *.
        unfold SEM_VALUE_MAX, INT_MAX. destruct (si =? 0); lia.
      * intros r g [-> [sg' ->]]. apply triple_ret. eauto.
Qed.

(** *** The threads *)

Lemma t_sem_producer sg :
  triple pa (mk_sghost (Prod 0 0) None (SRun sg)) (producer b n)
    (fun out g => out = seqZ 0 n /\ exists sg', g = mk_sghost (Prod (n + 1) 0) None (SRun sg')).
Proof.
  eapply triple_bind.
  - apply (triple_loop _ _ _ _ (fun (a : Z * list Z) g => 0 <= a.1 <= n /\ a.2 = seqZ 0 a.1 /\
      exists sg', g = mk_sghost (Prod a.1 0) None (SRun sg'))
      (fun out g => out = seqZ 0 n /\ exists sg', g = mk_sghost (Prod n 0) None (SRun sg')));
      [|simpl; split_and!; [lia | lia | done | eauto]].
    intros [i out] g (Hi & Ho & sg' & ->). simpl in *. subst out. unfold producer_body. simpl.
    destruct (Z.ltb_spec i n) as [Hlt|Hge].
    + replace (put b i) with (put b (data i)) by by rewrite element_lt.
      eapply triple_bind; [by apply t_sem_put|].
      intros _ g [sg2 ->]. apply triple_ret. simpl.
      rewrite int_of_small, seqZ_next by lia.
      split_and!; [lia | lia | done | eauto].
    + apply triple_ret. assert (i = n) as -> by lia. eauto.
  - intros out g (-> & sg' & ->).
    replace (put b OVER) with (put b (data n)) by by rewrite element_end.
    eapply triple_bind; [apply t_sem_put; lia|]. intros [] g Hg. by apply triple_ret.
Qed.

Lemma t_sem_consumer sg :
  triple pb (mk_sghost (Cons 0 0) None (SRun sg)) (consumer b)
    (fun out g => out = seqZ 0 n /\ exists sg', g = mk_sghost (Cons (n + 1) 0) None (SRun sg')).
Proof.
  apply (triple_loop _ _ _ _ (fun out g => exists j, 0 <= j <= n /\ out = seqZ 0 j /\
    exists sg', g = mk_sghost (Cons j 0) None (SRun sg')));
    [|exists 0; split_and!; [lia | lia | done | eauto]].
  intros out g (j & Hj & -> & sg' & ->). unfold consumer_body.
  eapply triple_bind; [by apply t_sem_get|]. intros d g (-> & sg2 & ->).
  destruct (Z.ltb_spec j n) as [Hlt|Hge].
  - rewrite element_lt, (proj2 (Z.eqb_neq j OVER)) by (unfold OVER; lia). apply triple_ret.
    exists (j + 1). rewrite seqZ_next by lia. split_and!; [lia | lia | done | eauto].
  - assert (j = n) as -> by lia. rewrite element_end, Z.eqb_refl. apply triple_ret. eauto.
Qed.

(** ** The pool *)

Definition finished (p : Z) (out : list Z) (g : sghost acct) : Prop :=
  out = seqZ 0 n /\ exists sg, g = mk_sghost (if decide (p = pa) then Prod (n + 1) 0 else Cons (n + 1) 0)
    None (SRun sg).

(** The two threads cannot both be asleep. *)
Lemma sem_not_all_asleep ts σ Γ :
  pool_inv Inv (sasleep waits) finished ts σ Γ ->
  (forall p t J, ts !! p = Some (t, J) -> exists g, Γ !! p = Some g /\ sasleep waits p σ g) ->
  ts = ∅.
Proof.
  intros [Hi Hrun Hend] Hsl.
  assert (Hcase : forall p g, Γ !! p = Some g ->
    ts !! p <> None /\ sasleep waits p σ g \/ ts !! p = None /\ exists out, finished p out g).
  { intros p g Hg. destruct (ts !! p) as [[t J]|] eqn:Hp; [left | right; eauto].
    destruct (Hsl p t J Hp) as (g' & Hg' & Has). by simplify_eq. }
  assert (Hemp : forall p g, Γ !! p = Some g -> sasleep waits p σ g ->
    exists s, waits (h_user g) s /\ avail (h_user <$> Γ) s = 0).
  { intros p g Hg Has. eapply asleep_empty; [exact Hi | | exact Hg | exact Has].
    intros q gq Hq. destruct (Hcase q gq Hq) as [[_ ?]|(_ & out & _ & sg & ->)]; eauto. }
  destruct Hi as (_ & _ & S & Ha). destruct (sa_user _ _ _ _ _ _ _ _ _ _ _ _ Ha) as (i & si & j & sj & Hb).
  pose proof (bk_users _ _ _ _ _ _ Hb) as Hus.
  pose proof (f_equal (lookup pa) Hus) as H1. pose proof (f_equal (lookup pb) Hus) as H2.
  rewrite lookup_insert_eq, lookup_fmap in H1.
  rewrite lookup_insert_ne, lookup_singleton_eq, lookup_fmap in H2 by done.
  destruct (Γ !! pa) as [ga|] eqn:Hga; [|done]. destruct (Γ !! pb) as [gb|] eqn:Hgb; [|done].
  simpl in *. injection H1 as H1. injection H2 as H2.
  pose proof (avail_write _ _ _ _ _ _ Hb) as Hw. pose proof (avail_read _ _ _ _ _ _ Hb) as Hr0.
  destruct (Hcase pa ga Hga) as [[_ Hpa]|(Hpa & o1 & _ & sg1 & Ea)],
    (Hcase pb gb Hgb) as [[_ Hpb]|(Hpb & o2 & _ & sg2 & Eb)].
  - exfalso. destruct (Hemp _ _ Hga Hpa) as (s1 & Hs1 & Hv1), (Hemp _ _ Hgb Hpb) as (s2 & Hs2 & Hv2).
    rewrite H1 in Hs1. rewrite H2 in Hs2. destruct Hs1 as (-> & -> & ?), Hs2 as (-> & -> & ?).
    unfold begun in *. simpl in *. lia.
  - exfalso. destruct (Hemp _ _ Hga Hpa) as (s1 & Hs1 & Hv1). rewrite H1 in Hs1.
    destruct Hs1 as (-> & -> & ?). subst gb. rewrite decide_False in H2 by done.
    simpl in H2. simplify_eq. unfold begun in *. simpl in *. lia.
  - exfalso. destruct (Hemp _ _ Hgb Hpb) as (s2 & Hs2 & Hv2). rewrite H2 in Hs2.
    destruct Hs2 as (-> & -> & ?). subst ga. rewrite decide_True in H1 by done.
    simpl in H1. simplify_eq. unfold begun in *. simpl in *. lia.
  - apply map_empty. intros p. destruct (ts !! p) as [[t J]|] eqn:Hp; [exfalso|done].
    destruct (Hsl p t J Hp) as (g & Hg & _).
    assert (Hin : p ∈ ps) by (apply (sa_dom _ _ _ _ _ _ _ _ _ _ _ _ Ha); eauto).
    set_unfold in Hin. destruct Hin as [->|[->|[]]]; congruence.
Qed.

End proof.

(** ** The program *)

Section main.
Context {H : Handlers} {P : Platform} {Pok : PlatformOk P} {UC : UserCode} {Hr : RestartHandler H P}.

(** The program before [init]: two threads of the library, and the global
    [buffer], whose bytes are 0 before the program starts. *)
Record before_init (b pa pb : Z) (self : Z -> addr) (σ : state) : Prop := {
  bi_start : sem_start [pa; pb] self [] (fun _ => 0) σ;
  bi_words : forall k, 0 <= k < 18 -> is_Some (words σ !! buffer_at b k);
  bi_sems : forall s, s ∈ [sem_read_at b; sem_write_at b] -> exists v, sms σ !! s = Some (mk_sem v 0)
}.

(** The state after [init]. *)
Definition initialized (b : addr) (σ : state) : state :=
  setf words (<[writepos_at b := 0]> (<[readpos_at b := 0]> (words σ)))
    (setf sms (<[sem_read_at b := mk_sem 1 0]> (<[sem_write_at b := mk_sem 31 0]> (sms σ))) σ).

Lemma buffer_init_spec b pa pb self p σ : before_init b pa pb self σ ->
  evals p (init b) σ (Done tt (initialized b σ)).
Proof.
  intros [_ Hw Hs]. destruct (Hs (sem_read_at b)) as [v1 H1]; [set_solver|].
  destruct (Hs (sem_write_at b)) as [v2 H2]; [set_solver|].
  destruct (Hw 16) as [w1 Hw1]; [lia|]. destruct (Hw 17) as [w2 Hw2]; [lia|].
  assert (Hne : sem_write_at b <> sem_read_at b) by (unfold sem_read_at, sem_write_at; lia).
  unfold init. eapply evals_bind; [apply (sem_init_spec _ _ 15); [lia | done | exact H2]|].
  eapply evals_bind; [apply (sem_init_spec _ _ 0); [lia | done |]|].
  { fields. by rewrite lookup_insert_ne. }
  eapply evals_store_word; [exact Hw1|].
  apply evals_unbind. eapply evals_store_word.
  { fields. rewrite lookup_insert_ne; [exact Hw2 | unfold readpos_at, writepos_at; lia]. }
  apply evals_ret.
Qed.

Definition threads (b n pa pb : Z) : gmap Z (itree evt (list Z) * jtab (list Z)) :=
  {[pa := (producer b n, ∅); pb := (consumer b, ∅)]}.

Lemma sem_threads_reach b n pa pb self σ ts σ' :
  0 <= n < 2 ^ 31 - 1 -> before_init b pa pb self σ ->
  rtc pool_step (threads b n pa pb, initialized b σ) (ts, σ') ->
  exists Γ, pool_inv (SInv [pa; pb] self [sem_read_at b; sem_write_at b] (init_units b) (bal b)
    (UI b n pa pb)) (sasleep (waits b n)) (finished n pa) ts σ' Γ.
Proof.
  intros Hn [[Hnd Hinj Haddr Hmgr Hth Hnc Hq _] Hw Hs] Hsteps.
  assert (Hne : pa <> pb) by (apply NoDup_cons in Hnd; set_solver).
  assert (Hab : sem_write_at b <> sem_read_at b) by (unfold sem_read_at, sem_write_at; lia).
  set (us := fun p => if decide (p = pa) then Prod 0 0 else Cons 0 0).
  assert (Eus : tabulate us [pa; pb] = <[pa := Prod 0 0]> {[pb := Cons 0 0]}).
  { apply map_eq. intros p. rewrite lookup_tabulate, lookup_insert, lookup_singleton.
    unfold us. repeat case_decide; set_solver. }
  assert (Hb : books b n pa pb 0 0 0 0 (tabulate us [pa; pb]) (words (initialized b σ))).
  { constructor; try done; try lia.
    - unfold initialized. fields. by rewrite lookup_insert_eq.
    - unfold initialized. fields.
      rewrite lookup_insert_ne by (unfold readpos_at, writepos_at; lia). by rewrite lookup_insert_eq.
    - intros k Hk. unfold initialized. fields.
      rewrite !lookup_insert_ne by (unfold buffer_at, readpos_at, writepos_at; lia). apply Hw. lia.
    - intros k. simpl. lia. }
  eapply (pool_reach _ _ _ (fun _ _ _ _ _ => sinv_quiet _ _ _ _ _ _ _ _ _ _ _)
    (tabulate (fun p => mk_sghost (us p) None (SRun false)) [pa; pb])); [| | |exact Hsteps].
  - apply sem_start_inv; [|..|by exists 0, 0, 0, 0].
    + constructor; try done; [apply (threads_ok_mem _ _ σ); [done | done | eauto | exact Hth]|].
      unfold initialized, init_units. fields. intros s Hin. set_unfold in Hin.
      destruct Hin as [->|[->|[]]]; simpl.
      * rewrite decide_False by done. by rewrite lookup_insert_eq.
      * rewrite decide_True by done. by rewrite lookup_insert_ne, lookup_insert_eq.
    + intros s Hin. set_unfold in Hin. destruct Hin as [->|[->|[]]].
      * rewrite (avail_read _ _ _ _ Hne _ _ _ _ _ _ Hb). unfold init_units. by rewrite decide_False.
      * rewrite (avail_write _ _ _ _ Hne _ _ _ _ _ _ Hb). unfold init_units. by rewrite decide_True.
  - apply set_eq. intros p. rewrite !elem_of_dom, lookup_tabulate. unfold threads.
    rewrite lookup_insert, lookup_singleton. repeat case_decide; set_solver.
  - intros p t J Hp. unfold threads in Hp. rewrite lookup_tabulate.
    apply lookup_insert_Some in Hp as [[<- [= <- <-]]|[Hp0 [<- [= <- <-]]%lookup_singleton_Some]];
      rewrite decide_True by set_solver; eexists; split; try done; unfold us.
    + rewrite decide_True by done. eapply triple_conseq; [by apply t_sem_producer|].
      intros out g [-> Hg]. split; [done|]. by rewrite decide_True.
    + rewrite decide_False by done. eapply triple_conseq; [by eapply t_sem_consumer|].
      intros out g [-> Hg]. split; [done|]. by rewrite decide_False.
Qed.

(** C4: the producer and consumer of ex5.c, after [init], under every
    interleaving of their memory accesses: no thread faults, they never wait
    for each other for ever (until both have ended some thread can go on), and
    a thread that returns has printed the integers from 0 to [n - 1] exactly
    once and in order, the producer those it put and the consumer those it
    got. *)
Theorem prodcons_correct b n pa pb self p σ0 :
  0 <= n < 2 ^ 31 - 1 -> before_init b pa pb self σ0 ->
  exists σ, evals p (init b) σ0 (Done tt σ) /\
    forall ts σ', rtc pool_step (threads b n pa pb, σ) (ts, σ') ->
      ~ pool_faults (ts, σ') /\ (ts = ∅ \/ exists c, pool_step (ts, σ') c) /\
      forall q t J out J' σ2, ts !! q = Some (t, J) -> istep q t J σ' = SHalt (ODone out J' σ2) ->
        out = seqZ 0 n.
Proof.
  intros Hn Hst. exists (initialized b σ0). split; [by eapply buffer_init_spec|]. intros ts σ' Hsteps.
  destruct (sem_threads_reach _ _ _ _ _ _ _ _ Hn Hst Hsteps) as [Γ Hinv].
  split; [|split].
  - eapply pool_inv_no_fault; [|exact Hinv]. intros. by eapply sinv_quiet.
  - destruct (pool_inv_progress _ _ _ _ _ _ Hinv) as [?|Hall]; [by right | left].
    eapply sem_not_all_asleep; [|exact Hinv|].
    + destruct Hst as [[Hnd _ _ _ _ _ _ _] _ _]. apply NoDup_cons in Hnd. set_solver.
    + intros q t J Hq. destruct (Hall q t J Hq) as (g & _ & _ & _ & ? & ? & _). eauto.
  - intros q t J out J' σ2 Hq E. destruct (pi_run _ _ _ _ _ _ Hinv q t J Hq) as (g & _ & Hg).
    rewrite E in Hg. apply Hg.
Qed.
End main.
End ProdCons.
