(* ===== verification/Proxy.v ===== *)
(** * The requests of a web proxy (Examples/proxy.c)

    [process_request] reads a request from the client, connects to the server
    named in it, and copies the request, the headers and the reply.  The
    functions below translate it statement by statement; the two ends of the
    connection are lists of bytes, and the results of the system calls are
    fields of [net].  Loops run with a bound on the number of rounds: [None] is
    a loop that has not ended within the bound.  An array is a list of its bytes;
    a store outside of it is an overrun.  A write to the client may send
    fewer bytes than it is given, or fail; writes to the server, whose results
    the code ignores, send all of them.  Not modelled: the time limit (SIGALRM, [key_alarm] and the jump to [timeout]),
    the options of the sockets and their closing.  The threads of the server
    are the subject of [ProxyPool], the options of the program that of
    [ProxyMain]. *)

From Stdlib Require Import Ascii String.
From S2P Require Import Prelude.
Open Scope char_scope.
Open Scope Z_scope.

Module Proxy.

Abbreviation bytes := (list ascii).
Definition lit (s : string) : bytes := list_ascii_of_string s.

Definition LDATA : Z := 1024.
Definition LADR : Z := 128.
Definition DEFAULTPORT : Z := 80.
Definition METHOD_GET : Z := 1.
Definition METHOD_POST : Z := 2.
Definition METHOD_HEAD : Z := 3.
Definition ERR_SOCKET : Z := -5.
Definition ERR_GETHOSTBYNAME : Z := -6.
Definition ERR_CONNECT : Z := -7.

(** *** The error pages *)

Definition lf : bytes := ["010"%char].
Definition crlf : bytes := ["013"%char; "010"%char].

Definition BADREQ : bytes :=
  lit "HTTP/1.0 400 ERROR" ++ crlf ++
  lit "Server: thproxyd" ++ crlf ++
  lit "Content-type: text/html" ++ crlf ++
  crlf ++
  lit "<HEAD><TITLE>400 Bad Request</TITLE></HEAD>" ++ lf ++
  lit "<BODY><H1>400 Bad Request</H1>" ++ lf ++
  lit "Your client sent a query that this server could not" ++ lf ++
  lit "understand.<P>" ++ lf ++
  lit "Reason: Invalid or unsupported method.<P>" ++ lf ++
  lit "</BODY>" ++ lf.

Definition SERVERR : bytes :=
  lit "HTTP/1.0 500 ERROR" ++ crlf ++
  lit "Server: thproxyd" ++ crlf ++
  lit "Content-type: text/html" ++ crlf ++
  crlf ++
  lit "<HEAD><TITLE>500 Server Error</TITLE></HEAD>" ++ lf ++
  lit "<BODY><H1>500 Server Error</H1>" ++ lf ++
  lit "Internal proxy error while processing your query.<P>" ++ lf ++
  lit "Reason: Internal proxy error.<P>" ++ lf ++
  lit "</BODY>" ++ lf.

Definition SERVCOERR : bytes :=
  lit "HTTP/1.0 500 ERROR" ++ crlf ++
  lit "Server: thproxyd" ++ crlf ++
  lit "Content-type: text/html" ++ crlf ++
  crlf ++
  lit "<HEAD><TITLE>500 Server Error</TITLE></HEAD>" ++ lf ++
  lit "<BODY><H1>500 Server Error</H1>" ++ lf ++
  lit "Internal proxy error while processing your query.<P>" ++ lf ++
  lit "Reason: Invalid connection.<P>" ++ lf ++
  lit "</BODY>" ++ lf.

Definition SERVDNSERR : bytes :=
  lit "HTTP/1.0 500 ERROR" ++ crlf ++
  lit "Server: thproxyd" ++ crlf ++
  lit "Content-type: text/html" ++ crlf ++
  crlf ++
  lit "<HEAD><TITLE>500 Server Error</TITLE></HEAD>" ++ lf ++
  lit "<BODY><H1>500 Server Error</H1>" ++ lf ++
  lit "Internal proxy error while processing your query.<P>" ++ lf ++
  lit "Reason: Bad address - DNS cann't resolve address.<P>" ++ lf ++
  lit "</BODY>" ++ lf.

Definition SERVTIMEOUT : bytes :=
  lit "HTTP/1.0 500 ERROR" ++ crlf ++
  lit "Server: thproxyd" ++ crlf ++
  lit "Content-type: text/html" ++ crlf ++
  crlf ++
  lit "<HEAD><TITLE>500 Server Error</TITLE></HEAD>" ++ lf ++
  lit "<BODY><H1>500 Server Error</H1>" ++ lf ++
  lit "Internal proxy error while processing your query.<P>" ++ lf ++
  lit "Reason: Server time out while connection establishment or data transfer.<P>" ++ lf ++
  lit "</BODY>" ++ lf.

Definition POSTERR : bytes :=
  lit "HTTP/1.0 500 ERROR" ++ crlf ++
  lit "Server: thproxyd" ++ crlf ++
  lit "Content-type: text/html" ++ crlf ++
  crlf ++
  lit "<HEAD><TITLE>500 Proxy Server Error</TITLE></HEAD>" ++ lf ++
  lit "<BODY><H1>500 Proxy Server Error</H1>" ++ lf ++
  lit "Failed to POST.<P>" ++ lf ++
  lit "Reason: post method error ???.<P>" ++ lf ++
  lit "</BODY>" ++ lf.

(** ** The C library

    A string is the list of its bytes, without the 0 at the end. *)

(** [strncmp(s, t, n) == 0] and [strncasecmp(s, t, n) == 0] *)
Definition strncmp_0 (s t : bytes) (n : nat) : bool := bool_decide (take n s = take n t).

Definition tolower (c : ascii) : ascii :=
  let n := nat_of_ascii c in
  if ((65 <=? n) && (n <=? 90))%nat then ascii_of_nat (n + 32) else c.
Definition strncasecmp_0 (s t : bytes) (n : nat) : bool :=
  strncmp_0 (tolower <$> s) (tolower <$> t) n.

(** [strchr]: the number of bytes before the first [c]. *)
Fixpoint strchr (s : bytes) (c : ascii) : option nat :=
  match s with
  | [] => None
  | x :: s => if Ascii.eqb x c then Some O else S <$> strchr s c
  end.

Definition isspace (c : ascii) : bool :=
  let n := nat_of_ascii c in ((n =? 32) || ((9 <=? n) && (n <=? 13)))%nat.
Definition isdigit (c : ascii) : bool :=
  let n := nat_of_ascii c in ((48 <=? n) && (n <=? 57))%nat.
Definition digit_val (c : ascii) : Z := Z.of_nat (nat_of_ascii c) - 48.

Fixpoint digits_value (acc : Z) (s : bytes) : Z :=
  match s with
  | [] => acc
  | c :: s => if isdigit c then digits_value (10 * acc + digit_val c) s else acc
  end.

Fixpoint skip (f : ascii -> bool) (s : bytes) : bytes :=
  match s with
  | [] => []
  | c :: s' => if f c then skip f s' else s
  end.

(** [atoi], with the range of [long], which is that of [int]. *)
Definition clamp (n : Z) : Z := Z.max (- 2 ^ 31) (Z.min n (2 ^ 31 - 1)).
Definition atoi (s : bytes) : Z :=
  match skip isspace s with
  | [] => 0
  | c :: s' =>
      if Ascii.eqb c "-" then clamp (- digits_value 0 s')
      else if Ascii.eqb c "+" then clamp (digits_value 0 s')
      else clamp (digits_value 0 (c :: s'))
  end.

(** The bytes up to a 0. *)
Fixpoint cstr (s : bytes) : bytes :=
  match s with
  | [] => []
  | c :: s => if Ascii.eqb c zero then [] else c :: cstr s
  end.

(** At most [n] bytes, up to the end of the line, and the rest. *)
Fixpoint read_line (n : nat) (s : bytes) : bytes * bytes :=
  match n, s with
  | S n, c :: s' =>
      if Ascii.eqb c "010" then ([c], s')
      else let (l, r) := read_line n s' in (c :: l, r)
  | _, _ => ([], s)
  end.

(** [fgets(data, LDATA, fsin)]: whether it succeeds, the new contents of
    [data], which do not change at the end of the input, and the rest of the
    input. *)
Definition fgets (data input : bytes) : bool * bytes * bytes :=
  match input with
  | [] => (false, data, [])
  | _ => let (l, r) := read_line (Z.to_nat (LDATA - 1)) input in (true, cstr l, r)
  end.

(** A loop, with a bound on the number of rounds. *)
Fixpoint loop {S R} (fuel : nat) (body : S -> S + R) (s : S) : option R :=
  match fuel with
  | O => None
  | Datatypes.S fuel => match body s with
                        | inl s' => loop fuel body s'
                        | inr r => Some r
                        end
  end.

(** ** The analysis of the request *)

Definition request_method (data : bytes) : option (Z * nat) :=
  if strncmp_0 data (lit "GET ") 4 then Some (METHOD_GET, 4%nat)
  else if strncmp_0 data (lit "POST ") 5 then Some (METHOD_POST, 5%nat)
  else if strncmp_0 data (lit "HEAD ") 5 then Some (METHOD_HEAD, 5%nat)
  else None.

(** The result: an error, a write past the end of [adr], or the host, the port
    and the rest of the request. *)
Inductive analysis :=
| Badreq
| Overrun
| Target (adr : bytes) (port : Z) (str : bytes).

(** [a[i] = c] *)
Definition put_byte (a : bytes) (i : nat) (c : ascii) : option bytes :=
  if bool_decide (i < length a)%nat then Some (<[i := c]> a) else None.

(** [strncpy(a + i, s, n)]: [n] bytes, zeros behind the end of [s]. *)
Fixpoint strncpy (a : bytes) (i : nat) (s : bytes) (n : nat) : option bytes :=
  match n with
  | O => Some a
  | S n => a' ← put_byte a i (default zero (head s)); strncpy a' (S i) (tail s) n
  end.

(** [adr] is the array of LADR bytes the address is copied to. *)
Definition analyze (adr data : bytes) (req_len : nat) : analysis :=
  let str := skip (Ascii.eqb " ") (drop req_len data) in
  let str := if strncmp_0 str (lit "http://") 7 then drop 7 str else str in
  match strchr str "/" with
  | None => Badreq
  | Some p =>
      match (adr ← strncpy adr 0 str p; put_byte adr p zero) with
      | None => Overrun
      | Some adr =>
          let str := drop p str in
          let adr := cstr adr in
          if bool_decide (adr = []) then Badreq
          else match strchr adr ":" with
               | None => Target adr DEFAULTPORT str
               | Some q => Target (take q adr) (atoi (drop (S q) adr)) str
               end
      end
  end.

(** [char adr[LADR];], whose contents do not matter. *)
Definition adr_0 : bytes := replicate (Z.to_nat LADR) zero.

(** What is sent to the server instead of the first line. *)
Definition request_line (req_method : Z) (str : bytes) : bytes :=
  (if req_method =? METHOD_GET then lit "GET "
   else if req_method =? METHOD_POST then lit "POST "
   else lit "HEAD ") ++ str.

(** ** Copying the headers and the body *)

(** The state of the connection: the buffer, what the client still sends, what
    has been written to the server. *)
Record conn := mk_conn {
  c_data : bytes;
  c_in : bytes;
  c_out : bytes
}.

(** [ldata && data[0] != '\n' && data[0] != '\r'] *)
Definition more (data : bytes) : bool :=
  match data with
  | [] => false
  | c :: _ => negb (Ascii.eqb c "010") && negb (Ascii.eqb c "013")
  end.

Definition get_body (NoCache : bool) (s : conn) : conn + conn :=
  let '(_, data, inp) := fgets (c_data s) (c_in s) in
  let out := if negb NoCache || negb (strncmp_0 data (lit "If-Mod") 6)
             then c_out s ++ data else c_out s in
  let s' := mk_conn data inp out in
  if more data then inl s' else inr s'.

(** The loop over the headers of a POST request; [None]: the search for the
    colon leaves the buffer. *)
Definition content_length (data : bytes) (c_len : Z) : option Z :=
  if strncasecmp_0 data (lit "Content-Length") 14 then
    match strchr (drop 14 data) ":" with
    | None => None
    | Some q => Some (atoi (drop (S q) (drop 14 data)))
    end
  else Some c_len.

Definition post_headers_body (a : conn * Z) : (conn * Z) + option (conn * Z) :=
  let '(_, data, inp) := fgets (c_data a.1) (c_in a.1) in
  match content_length data a.2 with
  | None => inr None
  | Some c_len =>
      let s' := mk_conn data inp (c_out a.1 ++ data) in
      if more data then inl (s', c_len) else inr (Some (s', c_len))
  end.

(** The loop over the body; [fread] with a negative count, as a [size_t],
    overruns the buffer. *)
Definition post_body (a : conn * Z) : (conn * Z) + option conn :=
  let '(s, c_len) := a in
  if c_len =? 0 then inr (Some s)
  else
    let n := if LDATA >? c_len then c_len else LDATA in
    if n <? 0 then inr None
    else
      let data := take (Z.to_nat n) (c_in s) in
      let s' := mk_conn data (drop (Z.to_nat n) (c_in s)) (c_out s ++ data) in
      inl (s', int_of (c_len - Z.of_nat (length data))).

(** ** Copying the reply *)

Definition EINTR : Z := 4.
Definition EPIPE : Z := 32.

(** The results of read(2) on the server's socket, until the end of the file,
    and of write(2) on the client's: data, or the number of bytes sent, or an
    error number.  A write that is not listed sends everything. *)
Record reply := mk_reply {
  r_reads : list (Z + bytes);
  r_writes : list (Z + nat);
  r_out : bytes;
  r_errno : Z
}.

(** [do ldata = read(...); while (ldata == -1 && errno == EINTR)]; [None]: -1 *)
Fixpoint read_retry (l : list (Z + bytes)) (errno : Z) : option bytes * list (Z + bytes) * Z :=
  match l with
  | [] => (Some [], [], errno)
  | inl e :: l => if e =? EINTR then read_retry l e else (None, l, e)
  | inr data :: l => (Some data, l, errno)
  end.

(** [do err = write(...); while (err == -1 && errno == EINTR)] for [data]: the
    bytes sent; [None]: -1 *)
Fixpoint write_retry (l : list (Z + nat)) (data : bytes) (errno : Z)
    : option bytes * list (Z + nat) * Z :=
  match l with
  | [] => (Some data, [], errno)
  | inr n :: l => (Some (take n data), l, errno)
  | inl e :: l => if e =? EINTR then write_retry l data e else (None, l, e)
  end.

Definition reply_body (s : reply) : reply + (Z * reply) :=
  let '(ldata, reads, errno) := read_retry (r_reads s) (r_errno s) in
  match ldata with
  | None => inr (-2, mk_reply reads (r_writes s) (r_out s) errno)
  | Some [] => inr (0, mk_reply reads (r_writes s) (r_out s) errno)
  | Some data =>
      let '(sent, writes, errno) := write_retry (r_writes s) data errno in
      let s' := mk_reply reads writes (r_out s ++ default [] sent) errno in
      if errno =? EPIPE then inr (0, s')
      else if bool_decide (sent = None) then inr (-2, s')
      else inl s'
  end.

(** ** The whole request *)

(** The options of the program, and what the network answers. *)
Record config := mk_config {
  ConnectToProxy : bool;
  NextProxyAdr : bytes;
  NextProxyPort : Z;
  NoCache : bool
}.

Record net := mk_net {
  n_fdopen : bool;
  n_socket : Z;
  n_resolve : bytes -> option Z;
  n_connect : Z -> Z -> bool
}.

Definition connectto (w : net) (hote : bytes) (port : Z) : Z :=
  if n_socket w =? -1 then ERR_SOCKET
  else match n_resolve w hote with
       | None => ERR_GETHOSTBYNAME
       | Some a => if n_connect w a (port mod 2 ^ 16) then n_socket w else ERR_CONNECT
       end.

(** The result: the code that is returned, what has been sent to the server
    and to the client; or a buffer has been overrun. *)
Inductive result :=
| Returns (code : Z) (to_server to_client : bytes)
| Overruns.

(** [sayerror(msg, ...); return code;] *)
Definition sayerror (msg : bytes) (code : Z) (to_server to_client : bytes) : result :=
  Returns code to_server (to_client ++ msg).

Definition connect_error (sockOut : Z) : result :=
  if sockOut =? ERR_GETHOSTBYNAME then sayerror SERVDNSERR (-5) [] []
  else sayerror SERVCOERR (-4) [] [].

(** After the request has been copied: "retrieve data from server". *)
Definition copy_reply (fuel : nat) (s : conn) (r : reply) : option result :=
  match loop fuel reply_body r with
  | None => None
  | Some (code, r') =>
      Some (if code =? 0 then Returns 0 (c_out s) (r_out r')
            else sayerror SERVERR (-2) (c_out s) (r_out r'))
  end.

(** The part after the first line: "copy all what we don't have copied yet". *)
Definition copy_request (fuel : nat) (cf : config) (req_method : Z) (s : conn) (r : reply)
    : option result :=
  if req_method =? METHOD_POST then
    match loop fuel post_headers_body (s, 0) with
    | None => None
    | Some None => Some Overruns
    | Some (Some (s, c_len)) =>
        if c_len =? 0 then Some (sayerror POSTERR (-6) (c_out s) (r_out r))
        else match loop fuel post_body (s, c_len) with
             | None => None
             | Some None => Some Overruns
             | Some (Some s) => copy_reply fuel s r
             end
    end
  else
    match loop fuel (get_body (NoCache cf)) s with
    | None => None
    | Some s => copy_reply fuel s r
    end.

Definition process_request (fuel : nat) (cf : config) (w : net) (input : bytes) (r : reply)
    : option result :=
  if negb (n_fdopen w) then Some (sayerror SERVERR (-2) [] [])
  else
    let '(ok, data, inp) := fgets [] input in
    if negb ok then Some (sayerror BADREQ (-1) [] [])
    else match request_method data with
    | None => Some (sayerror BADREQ (-1) [] [])
    | Some (req_method, req_len) =>
        if negb (ConnectToProxy cf) then
          match analyze adr_0 data req_len with
          | Badreq => Some (sayerror BADREQ (-1) [] [])
          | Overrun => Some Overruns
          | Target adr port str =>
              let sockOut := connectto w adr port in
              if sockOut <? 0 then Some (connect_error sockOut)
              else copy_request fuel cf req_method (mk_conn data inp (request_line req_method str)) r
          end
        else
          let sockOut := connectto w (NextProxyAdr cf) (NextProxyPort cf) in
          if sockOut <? 0 then Some (connect_error sockOut)
          else copy_request fuel cf req_method (mk_conn data inp data) r
    end.

(** ** The string functions *)

Lemma strchr_first s c t : c ∉ s -> strchr (s ++ c :: t) c = Some (length s).
Proof.
  intros Hc. induction s as [|x s IH]; simpl; [by rewrite Ascii.eqb_refl|].
  apply not_elem_of_cons in Hc as [Hne Hc]. rewrite (proj2 (Ascii.eqb_neq x c)) by done.
  by rewrite IH.
Qed.

Lemma strchr_absent s c : c ∉ s -> strchr s c = None.
Proof.
  intros Hc. induction s as [|x s IH]; [done|]. simpl.
  apply not_elem_of_cons in Hc as [Hne Hc]. rewrite (proj2 (Ascii.eqb_neq x c)) by done.
  by rewrite IH.
Qed.

Lemma strncmp_0_prefix t s : strncmp_0 (t ++ s) t (length t) = true.
Proof. unfold strncmp_0. apply bool_decide_eq_true. by rewrite take_app_length, firstn_all. Qed.

Lemma cstr_id s : zero ∉ s -> cstr s = s.
Proof.
  intros Hz. induction s as [|c s IH]; [done|]. simpl.
  apply not_elem_of_cons in Hz as [Hne Hz]. rewrite (proj2 (Ascii.eqb_neq c zero)) by done.
  by rewrite IH.
Qed.

(** A line that fits into the buffer. *)
Record is_line (l : bytes) : Prop := {
  il_end : exists b, l = b ++ lf /\ "010"%char ∉ b /\ zero ∉ b;
  il_len : Z.of_nat (length l) < LDATA
}.

Lemma read_line_app b s n : "010"%char ∉ b -> (length b < n)%nat ->
  read_line n (b ++ lf ++ s) = (b ++ lf, s).
Proof.
  revert n. induction b as [|c b IH]; intros n Hb Hn; (destruct n as [|n]; [simpl in Hn; lia|]); simpl.
  - done.
  - apply not_elem_of_cons in Hb as [Hne Hb]. rewrite (proj2 (Ascii.eqb_neq c "010")) by done.
    by rewrite IH by (done || simpl in Hn; lia).
Qed.

Lemma fgets_line data l s : is_line l -> fgets data (l ++ s) = (true, l, s).
Proof.
  intros [(b & -> & Hn & Hz) Hlen]. rewrite length_app in Hlen. simpl in Hlen.
  assert (E : read_line (Z.to_nat (LDATA - 1)) ((b ++ lf) ++ s) = (b ++ lf, s)).
  { rewrite <- app_assoc. apply read_line_app; [done | unfold LDATA in *; lia]. }
  unfold fgets. rewrite E, cstr_id by (rewrite elem_of_app; unfold lf; set_solver).
  by destruct b.
Qed.

Lemma is_line_zero l : is_line l -> zero ∉ l.
Proof.
  intros [(b & -> & _ & Hb) _]. rewrite elem_of_app. intros [?|Hlf]; [done|].
  by apply list_elem_of_singleton in Hlf.
Qed.

Lemma atoi_digits ds : ds <> [] -> Forall (fun c => isdigit c = true) ds ->
  atoi ds = clamp (digits_value 0 ds).
Proof.
  intros Hne Hd. destruct ds as [|c ds]; [done|]. apply Forall_cons in Hd as [Hc _].
  assert (Hs : isspace c = false /\ Ascii.eqb c "-" = false /\ Ascii.eqb c "+" = false).
  { clear -Hc. destruct c as [[] [] [] [] [] [] [] []]; vm_compute in Hc |- *; done. }
  destruct Hs as (H1 & H2 & H3). unfold atoi. cbn [skip]. by rewrite H1, H2, H3.
Qed.

(** ** The analysis of the request *)

(** The methods, with the words the request line begins with. *)
Definition methods : list (Z * bytes) :=
  [(METHOD_GET, lit "GET "); (METHOD_POST, lit "POST "); (METHOD_HEAD, lit "HEAD ")].

(** The part between "http://" and the path: a host and, unless [ds] is empty,
    the digits of a port. *)
Definition address (host ds : bytes) : bytes :=
  host ++ match ds with [] => [] | _ => ":"%char :: ds end.

Definition port_of (ds : bytes) : Z :=
  match ds with [] => DEFAULTPORT | _ => clamp (digits_value 0 ds) end.

Lemma request_method_spec m w s : (m, w) ∈ methods ->
  request_method (w ++ s) = Some (m, length w) /\ request_line m s = w ++ s.
Proof.
  intros Hm. unfold methods in Hm. set_unfold in Hm.
  destruct Hm as [[= -> ->]|[[= -> ->]|[[= -> ->]|[]]]]; unfold request_method.
  - by rewrite (strncmp_0_prefix (lit "GET ")).
  - by rewrite (strncmp_0_prefix (lit "POST ")).
  - by rewrite (strncmp_0_prefix (lit "HEAD ")).
Qed.

(** Copying into an array: what comes out, or an overrun if the array is too
    short. *)
Lemma put_byte_spec a1 x a2 c : put_byte (a1 ++ x :: a2) (length a1) c = Some (a1 ++ c :: a2).
Proof.
  unfold put_byte. rewrite bool_decide_eq_true_2 by (rewrite length_app; simpl; lia).
  f_equal. rewrite insert_app_r_alt, Nat.sub_diag by lia. done.
Qed.

Lemma strncpy_spec s t a1 a2 : (length s <= length a2)%nat ->
  strncpy (a1 ++ a2) (length a1) (s ++ t) (length s) = Some (a1 ++ s ++ drop (length s) a2).
Proof.
  revert a1 a2. induction s as [|c s IH]; intros a1 a2 Hl; [done|].
  destruct a2 as [|x a2]; [simpl in Hl; lia|]. cbn [length strncpy app head tail default from_option].
  rewrite put_byte_spec. cbn [mbind option_bind]. unfold id.
  replace (a1 ++ c :: a2) with ((a1 ++ [c]) ++ a2) by (by rewrite <- app_assoc).
  replace (S (length a1)) with (length (a1 ++ [c])) by (rewrite length_app; simpl; lia).
  rewrite IH by (simpl in Hl; lia). by rewrite <- app_assoc.
Qed.

Lemma put_byte_length a i c a' : put_byte a i c = Some a' -> length a' = length a.
Proof. unfold put_byte. case_bool_decide; [|done]. intros [= <-]. apply length_insert. Qed.

Lemma strncpy_length a i s n a' :
  strncpy a i s n = Some a' -> length a' = length a /\ (n = O \/ (i + n <= length a)%nat).
Proof.
  revert a i s. induction n as [|n IH]; intros a i s; cbn [strncpy]; [intros [= <-]; auto|].
  destruct (put_byte a i _) as [a1|] eqn:E; [|done]. cbn [mbind option_bind]. intros Hr.
  assert (Hi : (i < length a)%nat) by (unfold put_byte in E; by case_bool_decide).
  apply IH in Hr as [Hl Hn]. apply put_byte_length in E. split; [congruence|]. right.
  destruct Hn; lia.
Qed.

(** [strncpy] and the 0 behind it. *)
Lemma copy_fits a s t : (length s < length a)%nat -> zero ∉ s ->
  exists a', (b ← strncpy a 0 (s ++ t) (length s); put_byte b (length s) zero) = Some a' /\ cstr a' = s.
Proof.
  intros Hl Hz. pose proof (strncpy_spec s t [] a ltac:(lia)) as Ec. cbn [app length] in Ec.
  rewrite Ec. cbn [mbind option_bind].
  destruct (drop (length s) a) as [|x a2] eqn:E.
  { apply (f_equal length) in E. rewrite length_drop in E. simpl in E. lia. }
  rewrite put_byte_spec. eexists. split; [done|]. clear -Hz. induction s as [|c s IH]; [done|]. simpl.
  apply not_elem_of_cons in Hz as [Hne Hz]. rewrite (proj2 (Ascii.eqb_neq c zero)) by done.
  by rewrite IH.
Qed.

Lemma copy_overruns a s n : (length a <= n)%nat ->
  (b ← strncpy a 0 s n; put_byte b n zero) = None.
Proof.
  intros Hl. destruct (strncpy a 0 s n) as [b|] eqn:E; [|done].
  apply strncpy_length in E as [Hb _]. cbn [mbind option_bind]. unfold put_byte.
  by rewrite bool_decide_eq_false_2 by lia.
Qed.

(** The text of the address in a request line: behind the method, spaces and
    "http://", up to the first slash. *)
Record addressed (w : bytes) (adr rest line : bytes) : Prop := {
  ad_line : exists sp pre, line = w ++ sp ++ pre ++ adr ++ "/"%char :: rest /\
    Forall (fun c => c = " "%char) sp /\
    (pre = lit "http://" \/
     pre = [] /\ head (adr ++ "/"%char :: rest) <> Some " "%char /\
     strncmp_0 (adr ++ "/"%char :: rest) (lit "http://") 7 = false);
  ad_slash : "/"%char ∉ adr
}.

Lemma skip_spaces sp s : Forall (fun c => c = " "%char) sp -> head s <> Some " "%char ->
  skip (Ascii.eqb " ") (sp ++ s) = s.
Proof.
  intros Hsp Hs. induction Hsp as [|c sp -> Hsp IH]; [|exact IH]. destruct s as [|c s]; [done|]. cbn [app skip].
  destruct (Ascii.eqb_spec " " c); [subst; by destruct Hs | done].
Qed.

(** The address ends at the first slash; it is copied whatever its length. *)
Lemma analyze_address a w adr rest line : addressed w adr rest line ->
  analyze a line (length w) =
    match (b ← strncpy a 0 (adr ++ "/"%char :: rest) (length adr); put_byte b (length adr) zero) with
    | None => Overrun
    | Some b =>
        if bool_decide (cstr b = []) then Badreq
        else match strchr (cstr b) ":" with
             | None => Target (cstr b) DEFAULTPORT ("/"%char :: rest)
             | Some q => Target (take q (cstr b)) (atoi (drop (S q) (cstr b))) ("/"%char :: rest)
             end
    end.
Proof.
  intros [(sp & pre & -> & Hsp & Hpre) Hs]. unfold analyze. rewrite drop_app_length, skip_spaces; [|done|].
  2: { destruct Hpre as [->|(-> & Hh & _)]; [done | exact Hh]. }
  assert (E : (if strncmp_0 (pre ++ adr ++ "/"%char :: rest) (lit "http://") 7
    then drop 7 (pre ++ adr ++ "/"%char :: rest) else pre ++ adr ++ "/"%char :: rest)
    = adr ++ "/"%char :: rest).
  { destruct Hpre as [->|(-> & _ & Hn)]; [|cbn [app]; by rewrite Hn].
    change 7%nat with (length (lit "http://")).
    by rewrite strncmp_0_prefix, drop_app_length. }
  rewrite E. by rewrite strchr_first, drop_app_length.
Qed.

Lemma addressed_http w adr rest : "/"%char ∉ adr ->
  addressed w adr rest (w ++ lit "http://" ++ adr ++ "/"%char :: rest).
Proof. intros Hs. constructor; [|done]. exists [], (lit "http://"). split; [done|]. split; [done | by left]. Qed.

Lemma analyze_target a w host ds rest :
  host <> [] -> "/"%char ∉ host -> ":"%char ∉ host -> zero ∉ host ->
  Forall (fun c => isdigit c = true) ds -> (length (address host ds) < length a)%nat ->
  analyze a (w ++ lit "http://" ++ address host ds ++ "/"%char :: rest) (length w) =
    Target host (port_of ds) ("/"%char :: rest).
Proof.
  intros Hne Hs Hc Hz Hd Hlen. rewrite Forall_forall in Hd.
  assert (Hds : forall c, isdigit c = false -> c <> ":"%char -> c ∉ host -> c ∉ address host ds).
  { intros c Hc1 Hc2 Hh. unfold address. rewrite elem_of_app. intros [Hin|Hin]; [done|].
    destruct ds as [|x ds]; [by apply elem_of_nil in Hin|].
    apply elem_of_cons in Hin as [->|Hin]; [done|]. apply Hd in Hin. congruence. }
  rewrite (analyze_address a w (address host ds) rest) by (by apply addressed_http, Hds).
  destruct (copy_fits a (address host ds) ("/"%char :: rest) Hlen) as (b & -> & ->); [by apply Hds|].
  rewrite bool_decide_eq_false_2 by (unfold address; by destruct host).
  rewrite <- Forall_forall in Hd. unfold address, port_of. destruct ds as [|c ds].
  - by rewrite app_nil_r, strchr_absent.
  - rewrite strchr_first, take_app_length by done.
    replace (drop (S (length host)) (host ++ ":"%char :: c :: ds)) with (c :: ds)
      by (by rewrite <- Nat.add_1_r, drop_app_add).
    by rewrite atoi_digits.
Qed.

(** ** The headers *)

(** A header is sent on, unless it asks for a cached page and [NoCache] is
    set. *)
Definition sent (nocache : bool) (l : bytes) : bool :=
  negb nocache || negb (strncmp_0 l (lit "If-Mod") 6).

Lemma get_headers nocache hs blank data out rest :
  Forall (fun l => is_line l /\ more l = true) hs -> is_line blank -> more blank = false ->
  forall n, (length hs < n)%nat -> loop n (get_body nocache) (mk_conn data (concat hs ++ blank ++ rest) out) =
    Some (mk_conn blank rest (out ++ concat (filter (fun l => sent nocache l = true) (hs ++ [blank])))).
Proof.
  intros Hhs Hb Hmb n. revert n data out.
  induction Hhs as [|l hs [Hl Hm] Hhs IH]; intros [|n] data out Hn; simpl in Hn; try lia.
  - cbn [loop concat app]. unfold get_body at 1. cbn [c_data c_in c_out].
    rewrite fgets_line, Hmb by done. fold (sent nocache blank).
    destruct (sent nocache blank) eqn:E.
    + rewrite filter_cons_True, filter_nil by done. cbn [concat]. by rewrite app_nil_r.
    + rewrite filter_cons_False, filter_nil by congruence. cbn [concat]. by rewrite app_nil_r.
  - cbn [loop concat app]. unfold get_body at 1. cbn [c_data c_in c_out]. rewrite <- app_assoc.
    rewrite fgets_line, Hm by done. fold (sent nocache l). rewrite IH by lia. do 2 f_equal.
    destruct (sent nocache l) eqn:E.
    + rewrite filter_cons_True by done. cbn [concat]. by rewrite <- app_assoc.
    + by rewrite filter_cons_False by congruence.
Qed.

(** ** The reply *)

Lemma reply_copied chunks out errno : Forall (fun l => l <> []) chunks -> errno <> EPIPE ->
  forall n, (length chunks < n)%nat -> loop n reply_body (mk_reply (inr <$> chunks) [] out errno) =
    Some (0, mk_reply [] [] (out ++ concat chunks) errno).
Proof.
  intros Hc He n. revert n out.
  induction Hc as [|l ch Hl Hch IH]; intros [|n] out Hn; simpl in Hn; try lia.
  - cbn. by rewrite app_nil_r.
  - cbn [loop fmap list_fmap]. unfold reply_body at 1. simpl.
    destruct l as [|c l]; [done|]. rewrite (proj2 (Z.eqb_neq errno EPIPE) He). simpl.
    rewrite IH by lia. by rewrite <- app_assoc.
Qed.

(** A number of the program's error [EPIPE] that is left over from an earlier
    request ends the reply after its first part. *)
Lemma reply_cut l chunks out : l <> [] ->
  forall n, (0 < n)%nat -> loop n reply_body (mk_reply (inr <$> l :: chunks) [] out EPIPE) =
    Some (0, mk_reply (inr <$> chunks) [] (out ++ l) EPIPE).
Proof. intros Hl [|n] Hn; [lia|]. by destruct l. Qed.

(** ** The body of a POST request *)

Definition length_of (hs : list bytes) (c : option Z) : option Z :=
  foldl (fun c l => c ≫= content_length l) c hs.

Lemma post_headers hs blank data out rest c_len k :
  Forall (fun l => is_line l /\ more l = true) hs -> is_line blank -> more blank = false ->
  length_of (hs ++ [blank]) (Some c_len) = Some k ->
  forall n, (length hs < n)%nat ->
    loop n post_headers_body (mk_conn data (concat hs ++ blank ++ rest) out, c_len) =
    Some (Some (mk_conn blank rest (out ++ concat (hs ++ [blank])), k)).
Proof.
  intros Hhs Hb Hmb Hk n. revert n data out c_len Hk.
  induction Hhs as [|l hs [Hl Hm] Hhs IH]; intros [|n] data out c_len Hk Hn; simpl in Hn; try lia.
  - cbn [loop concat app]. unfold post_headers_body at 1. cbn [c_data c_in c_out fst snd].
    rewrite fgets_line, Hmb by done. cbn in Hk. rewrite Hk. by rewrite app_nil_r.
  - cbn [loop concat app]. unfold post_headers_body at 1. cbn [c_data c_in c_out fst snd].
    rewrite <- app_assoc, fgets_line, Hm by done. unfold length_of in Hk. cbn in Hk.
    destruct (content_length l c_len) as [c|].
    + rewrite (IH n l (out ++ l) c Hk) by lia. by rewrite <- app_assoc.
    + exfalso. clear -Hk. induction (hs ++ [blank]) as [|x ls IHl]; [done|]. by apply IHl.
Qed.

Lemma post_copied body data out rest : forall n, (length body < n)%nat ->
  Z.of_nat (length body) < 2 ^ 31 ->
  exists data', loop n post_body (mk_conn data (body ++ rest) out, Z.of_nat (length body)) =
    Some (Some (mk_conn data' rest (out ++ body))).
Proof.
  intros n. revert body data out. induction n as [|n IH]; intros body data out Hn Hmax; [lia|].
  cbn [loop]. unfold post_body at 1. destruct (Z.eqb_spec (Z.of_nat (length body)) 0) as [E|E].
  { destruct body; [|done]. exists data. by rewrite app_nil_r. }
  set (k := if LDATA >? Z.of_nat (length body) then Z.of_nat (length body) else LDATA).
  assert (Hk : 0 < k <= Z.of_nat (length body)).
  { unfold k, LDATA. destruct (Z.gtb_spec 1024 (Z.of_nat (length body))); lia. }
  rewrite (proj2 (Z.ltb_ge k 0)) by lia. cbn [c_data c_in c_out].
  rewrite take_app_le, drop_app_le, length_take_le by lia.
  rewrite int_of_small by lia.
  replace (Z.of_nat (length body) - Z.of_nat (Z.to_nat k))
    with (Z.of_nat (length (drop (Z.to_nat k) body))) by (rewrite length_drop; lia).
  destruct (IH (drop (Z.to_nat k) body) (take (Z.to_nat k) body) (out ++ take (Z.to_nat k) body))
    as [data' ->]; [rewrite length_drop; lia..|].
  exists data'. by rewrite <- app_assoc, take_drop.
Qed.

(** ** The theorems *)

(** A request for [host], with the digits [ds] of the port, and the rest of the
    request line, from the path on; [w] is the word of the method. *)
Definition first_line (w host ds rest : bytes) : bytes :=
  w ++ lit "http://" ++ address host ds ++ "/"%char :: rest.

Record good_request (m : Z) (w host ds rest : bytes) (hs : list bytes) (blank : bytes) : Prop := {
  gr_method : (m, w) ∈ methods;
  gr_host : host <> [] /\ "/"%char ∉ host /\ ":"%char ∉ host;
  gr_digits : Forall (fun c => isdigit c = true) ds;
  gr_line : is_line (first_line w host ds rest);
  gr_headers : Forall (fun l => is_line l /\ more l = true) hs;
  gr_blank : is_line blank /\ more blank = false
}.

(** The server can be reached. *)
Definition reachable (w : net) (host : bytes) (port : Z) : Prop :=
  n_fdopen w = true /\ 0 <= n_socket w /\
  exists a, n_resolve w host = Some a /\ n_connect w a (port mod 2 ^ 16) = true.

Lemma connectto_reachable w host port : reachable w host port ->
  n_fdopen w = true /\ (connectto w host port <? 0) = false.
Proof.
  intros (Hf & Hs & a & Ha & Hc). split; [done|]. unfold connectto. rewrite Ha, Hc.
  destruct (Z.eqb_spec (n_socket w) (-1)); [lia|]. by apply Z.ltb_ge.
Qed.

(** Up to the connection. *)
Lemma request_accepted fuel cf nw m w host ds rest hs blank input r :
  good_request m w host ds rest hs blank -> ConnectToProxy cf = false ->
  Z.of_nat (length (address host ds)) < LADR -> reachable nw host (port_of ds) ->
  process_request fuel cf nw (first_line w host ds rest ++ input) r =
    copy_request fuel cf m (mk_conn (first_line w host ds rest) input (w ++ "/"%char :: rest)) r.
Proof.
  intros [Hm (Hh & Hs & Hc) Hd Hl _ _] Hcf Hlen Hre. unfold process_request.
  destruct (connectto_reachable nw host (port_of ds) Hre) as [-> Hsock]. cbn [negb].
  rewrite fgets_line by done. cbn [negb]. unfold first_line at 1.
  destruct (request_method_spec m w (lit "http://" ++ address host ds ++ "/"%char :: rest) Hm)
    as [-> _]. rewrite Hcf. cbn [negb].
  assert (Hz : zero ∉ host).
  { intros Hin. apply (is_line_zero _ Hl). unfold first_line, address. rewrite !elem_of_app. auto. }
  unfold first_line at 1. rewrite analyze_target; [|done..|].
  2: { unfold adr_0. rewrite length_replicate. lia. }
  rewrite Hsock.
  by destruct (request_method_spec m w ("/"%char :: rest) Hm) as [_ ->].
Qed.

(** C35: a well-formed request reaches the server named in it, and the reply
    reaches the client: the first line is sent with the address taken out,
    then the headers (without those that [NoCache] suppresses) and, for POST,
    as many bytes of the body as Content-Length says; all parts of the reply
    are sent to the client in order, and 0 is returned.  The bound on the
    rounds only has to exceed the number of headers, of bytes of the body and
    of parts of the reply. *)
Theorem process_request_correct fuel cf nw m w host ds rest hs blank body tail chunks errno :
  good_request m w host ds rest hs blank -> ConnectToProxy cf = false ->
  Z.of_nat (length (address host ds)) < LADR -> reachable nw host (port_of ds) ->
  (if m =? METHOD_POST then
     length_of (hs ++ [blank]) (Some 0) = Some (Z.of_nat (length body)) /\ body <> [] /\
     Z.of_nat (length body) < 2 ^ 31
   else body = []) ->
  Forall (fun l => l <> []) chunks -> errno <> EPIPE ->
  (length hs < fuel)%nat -> (length body < fuel)%nat -> (length chunks < fuel)%nat ->
  process_request fuel cf nw (first_line w host ds rest ++ concat hs ++ blank ++ body ++ tail)
      (mk_reply (inr <$> chunks) [] [] errno) =
    Some (Returns 0 (w ++ "/"%char :: rest ++
      (if m =? METHOD_POST then concat (hs ++ [blank]) ++ body
       else concat (filter (fun l => sent (NoCache cf) l = true) (hs ++ [blank])))) (concat chunks)).
Proof.
  intros Hg Hcf Hlen Hre Hbody Hch He F1 F2 F3.
  rewrite (request_accepted _ _ _ m _ _ _ _ hs blank) by done. unfold copy_request.
  destruct Hg as [_ _ _ _ Hhs [Hb Hmb]]. destruct (m =? METHOD_POST).
  - destruct Hbody as (Hl & Hne & Hmax). rewrite (post_headers hs blank) with (k := Z.of_nat (length body)) by done.
    destruct (Z.eqb_spec (Z.of_nat (length body)) 0) as [E|_]; [by destruct body|].
    destruct (post_copied body blank ((w ++ "/"%char :: rest) ++ concat (hs ++ [blank])) tail fuel F2 Hmax)
      as [data' ->]. unfold copy_reply. rewrite reply_copied by done. cbn [c_out r_out Z.eqb].
    by rewrite <- !app_assoc.
  - subst body. cbn [app]. rewrite (get_headers (NoCache cf) hs blank) by done. unfold copy_reply.
    rewrite reply_copied by done. cbn [c_out r_out Z.eqb]. by rewrite <- !app_assoc.
Qed.

(** A write to the client that sends fewer bytes than it is given: the rest of
    this part of the reply is lost. *)
Lemma reply_short l n k out errno : (0 < n < length l)%nat -> errno <> EPIPE -> (1 < k)%nat ->
  loop k reply_body (mk_reply [inr l] [inr n] out errno) =
    Some (0, mk_reply [] [] (out ++ take n l) errno).
Proof.
  intros Hn He Hk. destruct k as [|[|k]]; [lia..|]. destruct l as [|c l]; [simpl in Hn; lia|].
  cbn [loop]. unfold reply_body at 1. cbn [read_retry write_retry r_reads r_writes r_errno r_out].
  rewrite (proj2 (Z.eqb_neq errno EPIPE) He). done.
Qed.

(** C36: a request line (of fewer than LDATA bytes) with the address [adr],
    behind the method, spaces and possibly "http://", up to the first slash, and a
    proxy that does not send its requests to another proxy.  The array [adr] of
    LADR bytes is overrun exactly if the address has LADR bytes or more, whatever
    the array held before: its length is never compared with LADR.  Then the
    whole request overruns it. *)
Theorem process_request_overruns fuel cf nw m w adr rest line input r :
  (m, w) ∈ methods -> addressed w adr rest line -> is_line line ->
  n_fdopen nw = true -> ConnectToProxy cf = false ->
  (forall a, length a = Z.to_nat LADR ->
     analyze a line (length w) = Overrun <-> LADR <= Z.of_nat (length adr)) /\
  (LADR <= Z.of_nat (length adr) ->
     process_request fuel cf nw (line ++ input) r = Some Overruns).
Proof.
  intros Hm Ha Hl Hf Hcf. assert (Hz : zero ∉ adr).
  { intros Hin. apply (is_line_zero _ Hl). destruct Ha as [(sp & pre & -> & _) _].
    rewrite !elem_of_app. auto. }
  assert (Hov : forall a, length a = Z.to_nat LADR ->
    analyze a line (length w) = Overrun <-> LADR <= Z.of_nat (length adr)).
  { intros a Hla. rewrite (analyze_address a w adr rest line Ha). split; intros Hlen.
    - destruct (decide (LADR <= Z.of_nat (length adr))) as [|Hlt]; [done|].
      destruct (copy_fits a adr ("/"%char :: rest)) as (b & E & _); [lia | done |].
      rewrite E in Hlen. by repeat case_match.
    - by rewrite copy_overruns by lia. }
  split; [exact Hov|]. intros Hlen. unfold process_request. rewrite Hf. cbn [negb].
  rewrite fgets_line by done. cbn [negb].
  assert (Hw : request_method line = Some (m, length w)).
  { destruct Ha as [(sp & pre & -> & _) _]. by apply request_method_spec. }
  rewrite Hw, Hcf. cbn [negb].
  by rewrite (proj2 (Hov adr_0 (length_replicate _ _)) Hlen).
Qed.

Lemma get_eof nocache data : more data = true ->
  forall n out, loop n (get_body nocache) (mk_conn data [] out) = None.
Proof.
  intros Hm n. induction n as [|n IH]; intros out; [done|].
  cbn [loop]. unfold get_body at 1. cbn [fgets c_data c_in c_out]. rewrite Hm. apply IH.
Qed.

Lemma get_headers_eof nocache hs : Forall (fun l => is_line l /\ more l = true) hs ->
  forall n data out, more data = true ->
    loop n (get_body nocache) (mk_conn data (concat hs) out) = None.
Proof.
  intros Hhs n. revert n. induction Hhs as [|l hs [Hl Hm] Hhs IH]; intros n data out Hd.
  - by apply get_eof.
  - destruct n as [|n]; [done|]. cbn [loop concat]. unfold get_body at 1. cbn [c_data c_in c_out].
    rewrite fgets_line, Hm by done. by apply IH.
Qed.

(** a GET or HEAD request that ends before the blank line is never done
    with: at the end of the input [fgets] fails, the buffer keeps the last
    line, and the loop sends it again, for ever, whatever the bound on the
    rounds. *)
Theorem process_request_eof_loops fuel cf nw m w host ds rest hs blank r :
  good_request m w host ds rest hs blank -> m <> METHOD_POST -> ConnectToProxy cf = false ->
  Z.of_nat (length (address host ds)) < LADR -> reachable nw host (port_of ds) ->
  process_request fuel cf nw (first_line w host ds rest ++ concat hs) r = None.
Proof.
  intros Hg Hm Hcf Hlen Hre. rewrite (request_accepted _ _ _ m _ _ _ _ hs blank) by done.
  unfold copy_request. rewrite (proj2 (Z.eqb_neq m METHOD_POST) Hm).
  rewrite get_headers_eof; [done | apply Hg|].
  destruct Hg as [Hin _ _ _ _ _]. unfold methods in Hin. set_unfold in Hin.
  by destruct Hin as [[= -> ->]|[[= -> ->]|[[= -> ->]|[]]]].
Qed.
End Proxy.
