(* ===== verification/ProxyPool.v ===== *)
(** * The pool of threads of the web proxy (Examples/proxy.c)

    The thread that runs [server] accepts connections and hands each of them
    to a thread that runs [client]: one from the list [free_q], or a new one as
    long as there are fewer than [max_proxy_threads]; if neither works it
    waits on [free_q_cond].  A client that has had nothing to do for
    TIMEOUT_THREAD_EXIT seconds takes itself off the list and exits.

    The threads are a transition system: one step is one statement of the
    source, or several inside one critical section.  Mutexes and conditions
    are used through what the library promises: a mutex has at most one owner
    and is given only to a thread that asks for it; a wait releases the mutex,
    ends by a signal, by an interruption or, if it is timed, at any time, and
    takes the mutex again.  Memory from malloc is a map; an access to memory that has been
    freed is a fault. *)

From stdpp Require Import relations.
From S2P Require Import Prelude.

Module Pool.

(** ** Data *)

(** The owner of the mutex of a client's structure. *)
Inductive owner := Server | Client.

Record th_proxy_struct := mk_th_proxy {
  next_free : Z;
  sock_in : Z;
  mu : option owner
}.

#[export] Instance set_next_free : Setter next_free := fun v r =>
  mk_th_proxy v (sock_in r) (mu r).
#[export] Instance set_sock_in : Setter sock_in := fun v r =>
  mk_th_proxy (next_free r) v (mu r).
#[export] Instance set_mu : Setter mu := fun v r =>
  mk_th_proxy (next_free r) (sock_in r) v.

(** Where the thread in [server] is, with the values of [sockIn] and
    [th_proxy]. *)
Inductive server_pc :=
| S_accept
| A_lock (sockIn : Z)
| A_take (sockIn : Z)
| A_wait (sockIn : Z)
| A_relock (sockIn : Z)
| A_unlock (sockIn th_proxy : Z)
| S_lock (sockIn th_proxy : Z)
| S_set (sockIn th_proxy : Z)
| S_unlock (sockIn th_proxy : Z)
| S_signal (th_proxy : Z)
| S_exit.

(** Where a thread in [client] is. *)
Inductive client_pc :=
| C_lock
| C_test
| C_wait
| C_relock (timedout : bool)
| C_qlock
| C_find
| C_qunlock
| C_qunlock_exit
| C_free
| C_unlock
| C_process
| C_lock2
| C_clear
| C_unlock2
| C_qlock2
| C_push
| C_qunlock2
| C_signal.

#[export] Instance client_pc_eq_dec : EqDecision client_pc.
Proof. solve_decision. Defined.

(** The threads that can own [free_q_mu]. *)
Inductive tid := T_server | T_client (th_proxy : Z).

#[export] Instance tid_eq_dec : EqDecision tid.
Proof. solve_decision. Defined.

(** Global variables, allocated structures, threads (a client by the address
    of its structure), and what has happened: the connections accepted, the
    ones given to clients, the ones clients have begun to process. *)
Record pool := mk_pool {
  free_q : Z;
  free_q_mu : option tid;
  thread_count : Z;
  structs : gmap Z th_proxy_struct;
  srv : server_pc;
  clients : gmap Z client_pc;
  accepted : list Z;
  given : list (Z * Z);
  served : list (Z * Z)
}.

#[export] Instance set_free_q : Setter free_q := fun v r =>
  mk_pool v (free_q_mu r) (thread_count r) (structs r) (srv r) (clients r) (accepted r) (given r) (served r).
#[export] Instance set_free_q_mu : Setter free_q_mu := fun v r =>
  mk_pool (free_q r) v (thread_count r) (structs r) (srv r) (clients r) (accepted r) (given r) (served r).
#[export] Instance set_thread_count : Setter thread_count := fun v r =>
  mk_pool (free_q r) (free_q_mu r) v (structs r) (srv r) (clients r) (accepted r) (given r) (served r).
#[export] Instance set_structs : Setter structs := fun v r =>
  mk_pool (free_q r) (free_q_mu r) (thread_count r) v (srv r) (clients r) (accepted r) (given r) (served r).
#[export] Instance set_srv : Setter srv := fun v r =>
  mk_pool (free_q r) (free_q_mu r) (thread_count r) (structs r) v (clients r) (accepted r) (given r) (served r).
#[export] Instance set_clients : Setter clients := fun v r =>
  mk_pool (free_q r) (free_q_mu r) (thread_count r) (structs r) (srv r) v (accepted r) (given r) (served r).
#[export] Instance set_accepted : Setter accepted := fun v r =>
  mk_pool (free_q r) (free_q_mu r) (thread_count r) (structs r) (srv r) (clients r) v (given r) (served r).
#[export] Instance set_given : Setter given := fun v r =>
  mk_pool (free_q r) (free_q_mu r) (thread_count r) (structs r) (srv r) (clients r) (accepted r) v (served r).
#[export] Instance set_served : Setter served := fun v r =>
  mk_pool (free_q r) (free_q_mu r) (thread_count r) (structs r) (srv r) (clients r) (accepted r) (given r) v.

(** Computes the fields of updated structures. *)
Ltac pfields :=
  cbn [setf next_free set_next_free sock_in set_sock_in mu set_mu free_q set_free_q free_q_mu
    set_free_q_mu thread_count set_thread_count structs set_structs srv set_srv clients set_clients
    accepted set_accepted given set_given served set_served].

(** [main]: an empty list, no threads. *)
Definition initial_pool : pool := mk_pool NULL None 0 ∅ S_accept ∅ [] [] [].

(** What a step of a thread leads to: [Blocked] if the thread has to wait,
    [Fault] if it accesses memory that is not allocated. *)
Inductive outcome := Next (σ : pool) | Blocked | Fault.

(** ** Operations *)

Section code.
Context (max_proxy_threads : Z).

(** What the environment decides: the result of accept, of malloc and
    pthread_create in [new_proxy_th], and how a wait ends. *)
Inductive choice :=
| accepts (sock : Z)
| interrupted
| fails
| allocates (th_proxy : Z)
| times_out
| goes_on.

Definition go_server (pc : server_pc) (σ : pool) : pool := setf srv pc σ.
Definition go_client (t : Z) (pc : client_pc) (σ : pool) : pool :=
  setf clients (<[t := pc]> (clients σ)) σ.

(** An access to the structure at [t]. *)
Definition with_struct (t : Z) (σ : pool) (k : th_proxy_struct -> outcome) : outcome :=
  match structs σ !! t with Some st => k st | None => Fault end.
Definition put_struct (t : Z) (st : th_proxy_struct) (σ : pool) : pool :=
  setf structs (<[t := st]> (structs σ)) σ.

(** [pthread_mutex_lock] and [pthread_mutex_unlock], of [free_q_mu] and of
    [t->mu] *)
Definition lock_q (who : tid) (σ : pool) (k : pool -> pool) : outcome :=
  match free_q_mu σ with
  | None => Next (k (setf free_q_mu (Some who) σ))
  | Some _ => Blocked
  end.
Definition unlock_q (σ : pool) : pool := setf free_q_mu None σ.

Definition lock_mu (who : owner) (t : Z) (σ : pool) (k : pool -> pool) : outcome :=
  with_struct t σ (fun st =>
    match mu st with
    | None => Next (k (put_struct t (setf mu (Some who) st) σ))
    | Some _ => Blocked
    end).
Definition unlock_mu (t : Z) (σ : pool) (k : pool -> pool) : outcome :=
  with_struct t σ (fun st => Next (k (put_struct t (setf mu None st) σ))).

(** [new_proxy_th]: NULL if malloc or pthread_create fails; otherwise the
    structure is initialized and its thread is about to run [client]. *)
Definition new_proxy_th (ch : choice) (σ : pool) : option (Z * pool) :=
  match ch with
  | allocates t =>
      if (t =? NULL) || bool_decide (is_Some (structs σ !! t)) then None
      else Some (t, go_client t C_lock (put_struct t (mk_th_proxy NULL (-1) None) σ))
  | _ => None
  end.

(** The body of the loop of [alloc_proxy_th], with [free_q_mu] held: a
    structure from the list, a new one, or a wait. *)
Definition alloc_proxy_th (ch : choice) (sockIn : Z) (σ : pool) : outcome :=
  if negb (free_q σ =? NULL) then
    with_struct (free_q σ) σ (fun st =>
      Next (go_server (A_unlock sockIn (free_q σ)) (setf free_q (next_free st) σ)))
  else
    match (if thread_count σ <? max_proxy_threads then new_proxy_th ch σ else None) with
    | Some (t, σ') =>
        Next (go_server (A_unlock sockIn t) (setf thread_count (int_of (thread_count σ' + 1)) σ'))
    | None => Next (go_server (A_wait sockIn) (unlock_q σ))
    end.

(** [pthread_cond_signal] of [free_q_cond], on which only the server waits,
    and of [t->cond], on which only the client of [t] waits *)
Definition signal_free_q (σ : pool) : pool :=
  match srv σ with A_wait s => go_server (A_relock s) σ | _ => σ end.
Definition signal_client (t : Z) (σ : pool) : pool :=
  match clients σ !! t with Some C_wait => go_client t (C_relock false) σ | _ => σ end.

(** One step of [server] and, inside it, of [alloc_proxy_th] *)
Definition server_step (ch : choice) (σ : pool) : outcome :=
  match srv σ with
  | S_accept =>
      match ch with
      | accepts s => if s <? 0 then Blocked
                     else Next (go_server (A_lock s) (setf accepted (accepted σ ++ [s]) σ))
      | interrupted => Next σ
      | fails => Next (go_server S_exit σ)
      | _ => Blocked
      end
  | A_lock s => lock_q T_server σ (go_server (A_take s))
  | A_take s => alloc_proxy_th ch s σ
  | A_wait s =>
      match ch with interrupted => Next (go_server (A_relock s) σ) | _ => Blocked end
  | A_relock s => lock_q T_server σ (go_server (A_take s))
  | A_unlock s t => Next (go_server (S_lock s t) (unlock_q σ))
  | S_lock s t => lock_mu Server t σ (go_server (S_set s t))
  | S_set s t => with_struct t σ (fun st =>
      Next (go_server (S_unlock s t)
        (setf given (given σ ++ [(t, s)]) (put_struct t (setf sock_in s st) σ))))
  | S_unlock s t => unlock_mu t σ (go_server (S_signal t))
  | S_signal t => with_struct t σ (fun _ => Next (go_server S_accept (signal_client t σ)))
  | S_exit => Blocked
  end.

(** [while ( *th && *th != th_proxy) th = &(( *th)->next_free);] and the test
    behind it, from a pointer with the value [a]: [Some None] if the list
    ends, [Some (Some w)] if the pointer to [t] is found, [w] being the
    structure whose [next_free] it is ([None] for [free_q]); [None] on a
    fault or without end. *)
Fixpoint find_self (fuel : nat) (M : gmap Z th_proxy_struct) (t : Z) (where_ : option Z) (a : Z)
    : option (option (option Z)) :=
  match fuel with
  | O => None
  | S fuel =>
      if a =? NULL then Some None
      else if a =? t then Some (Some where_)
      else match M !! a with
           | Some st => find_self fuel M t (Some a) (next_free st)
           | None => None
           end
  end.

(** [*th = v] *)
Definition store_link (where_ : option Z) (v : Z) (σ : pool) : pool :=
  match where_ with
  | None => setf free_q v σ
  | Some a => setf structs (alter (setf next_free v) a (structs σ)) σ
  end.

(** One step of [client], in the thread of [t], at [pc] *)
Definition client_step (ch : choice) (t : Z) (pc : client_pc) (σ : pool) : outcome :=
  match pc with
  | C_lock => lock_mu Client t σ (go_client t C_test)
  | C_test => with_struct t σ (fun st =>
      if sock_in st <? 0
      then Next (go_client t C_wait (put_struct t (setf mu None st) σ))
      else Next (go_client t C_unlock σ))
  | C_wait =>
      match ch with
      | times_out => Next (go_client t (C_relock true) σ)
      | interrupted => Next (go_client t (C_relock false) σ)
      | _ => Blocked
      end
  | C_relock timedout =>
      lock_mu Client t σ (go_client t (if timedout then C_qlock else C_test))
  | C_qlock => lock_q (T_client t) σ (go_client t C_find)
  | C_find =>
      match find_self (S (size (structs σ))) (structs σ) t None (free_q σ) with
      | None => Fault
      | Some None => Next (go_client t C_qunlock σ)
      | Some (Some where_) => with_struct t σ (fun st =>
          Next (go_client t C_qunlock_exit (setf thread_count (int_of (thread_count σ - 1))
            (store_link where_ (next_free st) σ))))
      end
  | C_qunlock => Next (go_client t C_test (unlock_q σ))
  | C_qunlock_exit => Next (go_client t C_free (unlock_q σ))
  | C_free => with_struct t σ (fun _ =>
      Next (setf clients (delete t (clients σ)) (setf structs (delete t (structs σ)) σ)))
  | C_unlock => unlock_mu t σ (go_client t C_process)
  | C_process => with_struct t σ (fun st =>
      Next (go_client t C_lock2 (setf served (served σ ++ [(t, sock_in st)]) σ)))
  | C_lock2 => lock_mu Client t σ (go_client t C_clear)
  | C_clear => with_struct t σ (fun st =>
      Next (go_client t C_unlock2 (put_struct t (setf sock_in (-1) st) σ)))
  | C_unlock2 => unlock_mu t σ (go_client t C_qlock2)
  | C_qlock2 => lock_q (T_client t) σ (go_client t C_push)
  | C_push => with_struct t σ (fun st =>
      Next (go_client t C_qunlock2 (setf free_q t
        (put_struct t (setf next_free (free_q σ) st) σ))))
  | C_qunlock2 => Next (go_client t C_signal (unlock_q σ))
  | C_signal => Next (go_client t C_lock (signal_free_q σ))
  end.

(** ** Runs *)

(** A step of the thread [who], if it exists. *)
Definition thread_step (who : tid) (ch : choice) (σ : pool) : outcome :=
  match who with
  | T_server => server_step ch σ
  | T_client t => match clients σ !! t with
                  | Some pc => client_step ch t pc σ
                  | None => Blocked
                  end
  end.

Inductive pool_step : pool -> pool -> Prop :=
| pool_next who ch σ σ' : thread_step who ch σ = Next σ' -> pool_step σ σ'.

Definition reachable (σ : pool) : Prop := rtc pool_step initial_pool σ.

(** The threads take steps in the given order. *)
Fixpoint pool_run (sched : list (tid * choice)) (σ : pool) : outcome :=
  match sched with
  | [] => Next σ
  | (who, ch) :: sched =>
      match thread_step who ch σ with Next σ' => pool_run sched σ' | o => o end
  end.
End code.

(** ** The invariant *)

(** What the threads hold where they are: [t->mu], [free_q_mu]. *)
Definition holds_mu (c : client_pc) : bool :=
  match c with
  | C_test | C_qlock | C_find | C_qunlock | C_qunlock_exit | C_free | C_unlock | C_clear
  | C_unlock2 => true
  | _ => false
  end.
Definition holds_q (c : client_pc) : bool :=
  match c with
  | C_find | C_qunlock | C_qunlock_exit | C_push | C_qunlock2 => true
  | _ => false
  end.
Definition srv_mu (s : server_pc) : option Z :=
  match s with S_set _ t | S_unlock _ t => Some t | _ => None end.
Definition srv_q (s : server_pc) : bool :=
  match s with A_take _ | A_unlock _ _ => true | _ => false end.

(** The structure and the connection the server has in hand. *)
Definition srv_hand (s : server_pc) : option Z :=
  match s with A_unlock _ t | S_lock _ t | S_set _ t => Some t | _ => None end.
Definition srv_sock (s : server_pc) : list Z :=
  match s with
  | A_lock s | A_take s | A_wait s | A_relock s | A_unlock s _ | S_lock s _ | S_set s _ => [s]
  | _ => []
  end.

(** Clients that wait for work or are about to look for it; that are between
    two connections; that still count as threads of the pool; that have not
    yet begun to process the connection they were given. *)
Definition idle (c : client_pc) : bool :=
  match c with
  | C_lock | C_test | C_wait | C_relock _ | C_qlock | C_find | C_qunlock2 | C_signal => true
  | _ => false
  end.
Definition away (c : client_pc) : bool :=
  match c with
  | C_unlock2 | C_qlock2 | C_push | C_qunlock_exit | C_free => true
  | _ => false
  end.
Definition busy (c : client_pc) : bool :=
  match c with
  | C_unlock | C_process | C_lock2 | C_clear => true
  | _ => false
  end.
Definition staying (c : client_pc) : bool :=
  match c with C_qunlock_exit | C_free => false | _ => true end.
Definition unserved (c : client_pc) : bool :=
  match c with C_lock2 | C_clear => false | _ => true end.

(** A client is in the list, in the hand of the server, has a connection, or
    is none of these. *)
Inductive placed (l : list Z) (hand : option Z) (t : Z) (c : client_pc) (sock : Z) : Prop :=
| in_list : t ∈ l -> hand <> Some t -> sock = -1 -> idle c = true -> placed l hand t c sock
| in_hand : t ∉ l -> hand = Some t -> sock = -1 -> idle c || bool_decide (c = C_qunlock) = true ->
    placed l hand t c sock
| has_connection : t ∉ l -> hand <> Some t -> 0 <= sock ->
    idle c || bool_decide (c = C_qunlock) || busy c = true -> placed l hand t c sock
| is_away : t ∉ l -> hand <> Some t -> sock = -1 -> away c = true -> placed l hand t c sock.

Record client_ok (l : list Z) (hand smu : option Z) (t : Z) (c : client_pc) (st : th_proxy_struct)
    : Prop := {
  co_null : t <> NULL;
  co_mu : mu st = if holds_mu c then Some Client
                  else if bool_decide (smu = Some t) then Some Server else None;
  co_excl : holds_mu c = true -> smu <> Some t;
  co_place : placed l hand t c (sock_in st)
}.

(** The structures linked from [a] on. *)
Fixpoint chain (M : gmap Z th_proxy_struct) (a : Z) (l : list Z) : Prop :=
  match l with
  | [] => a = NULL
  | x :: l' => a = x /\ x <> NULL /\ exists st, M !! x = Some st /\ chain M (next_free st) l'
  end.

Definition log (t : Z) (h : list (Z * Z)) : list Z := snd <$> filter (fun x => x.1 = t) h.

(** The connection given to [t] that it has not begun to process. *)
Definition outstanding (st : option th_proxy_struct) (c : option client_pc) : list Z :=
  match st, c with
  | Some st, Some c => if (0 <=? sock_in st) && unserved c then [sock_in st] else []
  | _, _ => []
  end.

Definition q_holder (σ : pool) (who : tid) : Prop :=
  match who with
  | T_server => srv_q (srv σ) = true
  | T_client t => holds_q <$> clients σ !! t = Some true
  end.

(** A client that will signal [free_q_cond]. *)
Definition will_signal (c : client_pc) : bool :=
  match c with C_qunlock2 | C_signal => true | _ => false end.

Definition count (m : gmap Z client_pc) : Z :=
  Z.of_nat (size (filter (fun x : Z * client_pc => staying x.2 = true) m)).

Record Inv (max : Z) (l : list Z) (σ : pool) : Prop := {
  iv_chain : chain (structs σ) (free_q σ) l;
  iv_nodup : NoDup l;
  iv_dom : dom (clients σ) = dom (structs σ);
  iv_clients : forall t c st, clients σ !! t = Some c -> structs σ !! t = Some st ->
    client_ok l (srv_hand (srv σ)) (srv_mu (srv σ)) t c st;
  iv_hand : forall t, srv_hand (srv σ) = Some t \/ srv_mu (srv σ) = Some t ->
    is_Some (structs σ !! t);
  iv_count : thread_count σ = count (clients σ);
  iv_max : thread_count σ <= Z.max 0 max;
  iv_q : forall who, free_q_mu σ = Some who <-> q_holder σ who;
  iv_wait : forall s, srv σ = A_wait s ->
    l = [] \/ exists t c, clients σ !! t = Some c /\ will_signal c = true;
  iv_sock : Forall (fun s => 0 <= s) (srv_sock (srv σ));
  iv_accepted : accepted σ = (snd <$> given σ) ++ srv_sock (srv σ);
  iv_log : forall t, log t (given σ) =
    log t (served σ) ++ outstanding (structs σ !! t) (clients σ !! t)
}.

(** ** Lists of structures *)

Lemma chain_ext M M' a l :
  (forall x, x ∈ l -> next_free <$> M' !! x = next_free <$> M !! x) ->
  chain M a l -> chain M' a l.
Proof.
  revert a. induction l as [|x l IH]; intros a Hx; [done|]. simpl. intros (-> & Hn & st & Hl & Hc).
  split; [done|]. split; [done|]. pose proof (Hx x ltac:(left)) as Ex. rewrite Hl in Ex.
  apply fmap_Some in Ex as (st' & Hl' & Enf). rewrite Enf in Hc. exists st'. split; [done|].
  apply IH; [|done]. intros y Hy. apply Hx. by right.
Qed.

Lemma chain_elem M a l x : chain M a l -> x ∈ l -> is_Some (M !! x) /\ x <> NULL.
Proof.
  revert a. induction l as [|y l IH]; intros a; [by intros _ ?%elem_of_nil|]. simpl.
  intros (-> & Hn & st & Hl & Hc) [->|Hx]%elem_of_cons; [by eauto | by eapply IH].
Qed.

Lemma chain_length M a l : chain M a l -> NoDup l -> (length l <= size M)%nat.
Proof.
  intros Hc Hnd. rewrite <- (size_list_to_set (C := gset Z)) by done.
  rewrite <- size_dom. apply subseteq_size. intros x Hx%elem_of_list_to_set.
  apply elem_of_dom. by eapply chain_elem.
Qed.

(** The search for [t] ends, and finds the pointer to it exactly if it is in
    the list. *)
Lemma find_self_in fuel M t w a l1 l2 :
  chain M a (l1 ++ t :: l2) -> NoDup (l1 ++ t :: l2) -> (length l1 < fuel)%nat ->
  find_self fuel M t w a = Some (Some (match last l1 with Some x => Some x | None => w end)).
Proof.
  revert fuel w a. induction l1 as [|x l1 IH]; intros [|fuel] w a Hc Hnd Hf; simpl in *; try lia.
  - destruct Hc as (-> & Hn & _). by rewrite (proj2 (Z.eqb_neq _ _) Hn), Z.eqb_refl.
  - destruct Hc as (-> & Hn & st & Hl & Hc). apply NoDup_cons in Hnd as [Hx Hnd].
    rewrite (proj2 (Z.eqb_neq _ _) Hn), (proj2 (Z.eqb_neq x t)) by set_solver. rewrite Hl.
    rewrite IH; [|done|done|lia]. by destruct l1 using rev_ind; [|rewrite app_comm_cons, !last_snoc].
Qed.

Lemma find_self_out fuel M t w a l :
  chain M a l -> t ∉ l -> (length l < fuel)%nat -> find_self fuel M t w a = Some None.
Proof.
  revert fuel w a. induction l as [|x l IH]; intros [|fuel] w a Hc Ht Hf; simpl in *; try lia.
  - by subst.
  - destruct Hc as (-> & Hn & st & Hl & Hc).
    rewrite (proj2 (Z.eqb_neq _ _) Hn), (proj2 (Z.eqb_neq x t)) by set_solver. rewrite Hl.
    apply IH; [done | set_solver | lia].
Qed.

(** Taking [t] out. *)
Lemma chain_unlink M a l1 t l2 st x st0 :
  last l1 = Some x -> M !! x = Some st0 ->
  chain M a (l1 ++ t :: l2) -> NoDup (l1 ++ t :: l2) -> M !! t = Some st ->
  chain (<[x := setf next_free (next_free st) st0]> M) a (l1 ++ l2).
Proof.
  intros Hx Hst0. apply last_Some in Hx as [l0 ->]. revert a.
  induction l0 as [|y l0 IH]; intros a Hc Hnd Ht; simpl in *.
  - destruct Hc as (-> & Hn & st' & Hl & Et & _ & st'' & Ht' & Hc). simplify_eq.
    split; [done|]. split; [done|]. eexists. split; [apply lookup_insert_eq|]. simpl.
    eapply chain_ext; [|exact Hc]. intros z Hz. rewrite lookup_insert_ne; [done|].
    apply NoDup_cons in Hnd as [Hx _]. set_solver.
  - destruct Hc as (-> & Hn & st' & Hl & Hc). apply NoDup_cons in Hnd as [Hy Hnd].
    split; [done|]. split; [done|]. exists st'. split; [|by apply IH].
    rewrite lookup_insert_ne; [done | set_solver].
Qed.

(** ** Counting *)

Lemma count_insert_same m t c c' :
  m !! t = Some c -> staying c' = staying c -> count (<[t := c']> m) = count m.
Proof.
  intros Hc Hs. unfold count. f_equal. destruct (staying c) eqn:E.
  - rewrite map_filter_insert_True by done.
    apply map_size_insert_Some. exists c. by apply map_lookup_filter_Some.
  - rewrite map_filter_insert_False by (simpl; congruence).
    rewrite map_filter_delete, delete_id; [done|]. apply map_lookup_filter_None. right.
    intros x Hx. simpl. congruence.
Qed.

Lemma count_new m t c : m !! t = None -> staying c = true -> count (<[t := c]> m) = count m + 1.
Proof.
  intros Hm Hs. unfold count. rewrite map_filter_insert_True by done.
  rewrite map_size_insert_None; [lia|]. apply map_lookup_filter_None. by left.
Qed.

Lemma count_leave m t c c' :
  m !! t = Some c -> staying c = true -> staying c' = false -> count (<[t := c']> m) = count m - 1.
Proof.
  intros Hm Hs Hs'. unfold count. rewrite map_filter_insert_False by (simpl; congruence).
  rewrite map_filter_delete.
  assert (E : filter (fun x : Z * client_pc => staying x.2 = true) m !! t = Some c)
    by (by apply map_lookup_filter_Some).
  rewrite map_size_delete_Some by eauto.
  assert (size (filter (fun x : Z * client_pc => staying x.2 = true) m) <> 0%nat); [|lia].
  apply map_size_ne_0_lookup. eauto.
Qed.

Lemma count_delete m t c : m !! t = Some c -> staying c = false -> count (delete t m) = count m.
Proof.
  intros Hm Hs. unfold count. rewrite map_filter_delete, delete_id; [done|].
  apply map_lookup_filter_None. right. intros x Hx. simpl. congruence.
Qed.

Lemma log_snoc t t' s h : log t (h ++ [(t', s)]) = log t h ++ (if decide (t' = t) then [s] else []).
Proof.
  unfold log. rewrite filter_app, fmap_app. f_equal. rewrite filter_cons, filter_nil. simpl.
  by case_decide.
Qed.

(** ** Preservation *)

Section inv.
Context (max : Z) (Hmax : max < 2 ^ 31).

Lemma inv_client l σ t : Inv max l σ -> is_Some (clients σ !! t) -> is_Some (structs σ !! t).
Proof. intros [] Hc. apply elem_of_dom. rewrite <- iv_dom0. by apply elem_of_dom. Qed.

Lemma inv_struct l σ t : Inv max l σ -> is_Some (structs σ !! t) -> is_Some (clients σ !! t).
Proof. intros [] Hc. apply elem_of_dom. rewrite iv_dom0. by apply elem_of_dom. Qed.

(** How a step changes the holder of [free_q_mu]. *)
Inductive q_change (t : Z) (c c' : client_pc) (q q' : option tid) : Prop :=
| q_same : holds_q c' = holds_q c -> q' = q -> q_change t c c' q q'
| q_taken : holds_q c = false -> holds_q c' = true -> q = None -> q' = Some (T_client t) ->
    q_change t c c' q q'
| q_given : holds_q c = true -> holds_q c' = false -> q' = None -> q_change t c c' q q'.

Lemma inv_q_client l σ t c c' q' :
  Inv max l σ -> clients σ !! t = Some c -> q_change t c c' (free_q_mu σ) q' ->
  forall who, q' = Some who <->
    q_holder (setf clients (<[t := c']> (clients σ)) σ) who.
Proof.
  intros [] Hc Hq who. unfold q_holder. pfields.
  pose proof (iv_q0 who) as H1. pose proof (iv_q0 T_server) as H2.
  pose proof (iv_q0 (T_client t)) as H3. unfold q_holder in H1, H2, H3.
  rewrite Hc in H3. simpl in H3.
  assert (Hb : forall b : bool, Some b = Some true <-> b = true) by (intros b; split; congruence).
  rewrite Hb in H3.
  destruct who as [|t']; [|rewrite lookup_insert; case_decide; [subst t'; simpl; rewrite Hb|]];
    destruct Hq as [E1 E2|E1 E2 E3 E4|E1 E2 E3]; rewrite ?E1, ?E2, ?E3, ?E4 in *; intuition congruence.
Qed.

(** A step of the client of [t] that changes only [t] and, possibly, the
    holder of [free_q_mu]. *)
Lemma inv_client_step l σ t c c' st st' q' h' :
  Inv max l σ -> clients σ !! t = Some c -> structs σ !! t = Some st ->
  client_ok l (srv_hand (srv σ)) (srv_mu (srv σ)) t c' st' ->
  next_free st' = next_free st -> staying c' = staying c ->
  q_change t c c' (free_q_mu σ) q' -> (forall s, srv σ = A_wait s -> will_signal c = true -> will_signal c' = true) ->
  (forall t', log t' h' ++ outstanding (<[t := st']> (structs σ) !! t') (<[t := c']> (clients σ) !! t')
     = log t' (served σ) ++ outstanding (structs σ !! t') (clients σ !! t')) ->
  Inv max l (setf served h' (setf free_q_mu q' (go_client t c' (put_struct t st' σ)))).
Proof.
  intros HI Hc Hst Hok Hn Hs Hq Hw Hlog. pose proof (inv_q_client l σ t c c' q' HI Hc Hq) as Hq'.
  destruct HI. unfold go_client, put_struct. constructor; pfields; try done.
  - eapply chain_ext; [|done]. intros x Hx. rewrite lookup_insert. case_decide; [subst|done].
    rewrite Hst. simpl. by rewrite Hn.
  - rewrite !dom_insert_L, iv_dom0. set_solver.
  - intros t' c1 st1. rewrite !lookup_insert. case_decide; [subst; by intros [= <-] [= <-]|]. auto.
  - intros t' Ht. rewrite lookup_insert. case_decide; [done | auto].
  - by rewrite (count_insert_same _ t c).
  - intros s0 Hs0. destruct (iv_wait0 s0 Hs0) as [?|(t1 & c1 & Hc1 & Hw1)]; [by left|]. right.
    destruct (decide (t1 = t)) as [->|Hne].
    + exists t, c'. rewrite lookup_insert_eq. split; [done|]. apply (Hw s0 Hs0). congruence.
    + exists t1, c1. by rewrite lookup_insert_ne.
  - intros t'. by rewrite Hlog.
Qed.

(** The log of a client whose connection stays as it is. *)
Lemma log_same t t' c c' st st' σ :
  clients σ !! t = Some c -> structs σ !! t = Some st ->
  outstanding (Some st') (Some c') = outstanding (Some st) (Some c) ->
  log t' (served σ) ++ outstanding (<[t := st']> (structs σ) !! t') (<[t := c']> (clients σ) !! t')
  = log t' (served σ) ++ outstanding (structs σ !! t') (clients σ !! t').
Proof.
  intros Hc Hst Ho. rewrite !lookup_insert. case_decide; [subst|done]. by rewrite Ho, Hc, Hst.
Qed.

(** The mutex of [t] when its client takes it, drops it or leaves it. *)
Lemma ok_take l h smu t c c' st :
  client_ok l h smu t c st -> holds_mu c = false -> mu st = None -> holds_mu c' = true ->
  placed l h t c' (sock_in st) -> client_ok l h smu t c' (setf mu (Some Client) st).
Proof.
  intros [Hn Hm _ _] Hc Hf Hc' Hp. rewrite Hc, Hf in Hm.
  constructor; pfields; [done | by rewrite Hc' | | done]. intros _ E. by rewrite bool_decide_eq_true_2 in Hm.
Qed.

Lemma ok_drop l h smu t c c' st :
  client_ok l h smu t c st -> holds_mu c = true -> holds_mu c' = false ->
  placed l h t c' (sock_in st) -> client_ok l h smu t c' (setf mu None st).
Proof.
  intros [Hn _ Hx _] Hc Hc' Hp. constructor; pfields; [done | | congruence | done].
  rewrite Hc', bool_decide_eq_false_2; [done | auto].
Qed.

Lemma ok_keep l l' h smu t c c' st st' :
  client_ok l h smu t c st -> holds_mu c' = holds_mu c -> mu st' = mu st ->
  placed l' h t c' (sock_in st') -> client_ok l' h smu t c' st'.
Proof. intros [Hn Hm Hx _] Hc Hmu Hp. constructor; [done | by rewrite Hc, Hmu | by rewrite Hc | done]. Qed.

Lemma pool_eta t c st σ :
  go_client t c (put_struct t st σ) =
  setf served (served σ) (setf free_q_mu (free_q_mu σ) (go_client t c (put_struct t st σ))).
Proof. by destruct σ. Qed.

Lemma put_struct_id t st σ : structs σ !! t = Some st -> put_struct t st σ = σ.
Proof. intros Hst. unfold put_struct. rewrite insert_id by done. by destruct σ. Qed.

Ltac place_tac :=
  match goal with H : placed _ _ _ _ _ |- _ =>
    destruct H; simpl in *; try done; try lia;
    first [by apply in_list | by apply in_hand | by apply has_connection | by apply is_away]
  end.

(** A client takes or drops its mutex, or changes nothing but its place in
    the program. *)
Lemma inv_client_mu l σ t c c' st st' :
  Inv max l σ -> clients σ !! t = Some c -> structs σ !! t = Some st ->
  client_ok l (srv_hand (srv σ)) (srv_mu (srv σ)) t c' st' ->
  next_free st' = next_free st -> staying c' = staying c -> holds_q c' = holds_q c ->
  (forall s, srv σ = A_wait s -> will_signal c = true -> will_signal c' = true) ->
  outstanding (Some st') (Some c') = outstanding (Some st) (Some c) ->
  Inv max l (go_client t c' (put_struct t st' σ)).
Proof.
  intros HI Hc Hst Hok Hn Hs Hq Hw Ho. rewrite pool_eta.
  eapply inv_client_step; [done | done | done | done | done | done | by apply q_same | done |].
  intros t'. by apply (log_same t t' c c' st st').
Qed.

Lemma inv_client_q l σ t c c' st q' :
  Inv max l σ -> clients σ !! t = Some c -> structs σ !! t = Some st ->
  client_ok l (srv_hand (srv σ)) (srv_mu (srv σ)) t c' st -> staying c' = staying c ->
  q_change t c c' (free_q_mu σ) q' -> (forall s, srv σ = A_wait s -> will_signal c = true -> will_signal c' = true) ->
  unserved c' = unserved c ->
  Inv max l (go_client t c' (setf free_q_mu q' σ)).
Proof.
  intros HI Hc Hst Hok Hs Hq Hw Ho.
  replace (go_client t c' (setf free_q_mu q' σ)) with
    (setf served (served σ) (setf free_q_mu q' (go_client t c' (put_struct t st σ))))
    by (rewrite put_struct_id by done; by destruct σ).
  eapply inv_client_step; [done | done | done | done | done | done | done | done |].
  intros t'. apply (log_same t t' c c' st st); [done | done |]. simpl. by rewrite Ho.
Qed.

(** All steps of a client but four: those that change the list, and the
    signal. *)
Definition plain (c : client_pc) : bool :=
  match c with C_find | C_free | C_push | C_signal => false | _ => true end.

Ltac take_mu := eapply inv_client_mu; try done; eapply ok_take; try done; place_tac.
Ltac drop_mu := eapply inv_client_mu; try done; eapply ok_drop; try done; place_tac.
Ltac keep_mu := eapply inv_client_mu; try done; eapply ok_keep; try done; place_tac.
Ltac take_q := eapply inv_client_q; try done; [|by apply q_taken]; eapply ok_keep; try done; place_tac.
Ltac give_q := eapply inv_client_q; try done; [|by apply q_given]; eapply ok_keep; try done; place_tac.

(** The client begins to process its connection. *)
Lemma client_process_preserves l σ t st :
  Inv max l σ -> clients σ !! t = Some C_process -> structs σ !! t = Some st ->
  Inv max l (go_client t C_lock2 (setf served (served σ ++ [(t, sock_in st)]) σ)).
Proof.
  intros HI Hc Hst. pose proof (iv_clients _ _ _ HI t _ st Hc Hst) as Hok.
  pose proof (co_place _ _ _ _ _ _ Hok) as Hpc.
  assert (Hs : 0 <= sock_in st) by (destruct Hpc; simpl in *; done || lia).
  replace (go_client t C_lock2 _) with (setf served (served σ ++ [(t, sock_in st)])
    (setf free_q_mu (free_q_mu σ) (go_client t C_lock2 (put_struct t st σ))))
    by (rewrite put_struct_id by done; by destruct σ).
  eapply inv_client_step; try done; [eapply ok_keep; try done; place_tac | by apply q_same |].
  intros t'. rewrite log_snoc, !lookup_insert. case_decide; [subst t'|by rewrite app_nil_r].
  rewrite Hc, Hst. simpl. rewrite (proj2 (Z.leb_le _ _) Hs). apply app_nil_r.
Qed.

Lemma client_plain_preserves l σ t c ch σ' :
  Inv max l σ -> clients σ !! t = Some c -> plain c = true -> client_step ch t c σ = Next σ' ->
  Inv max l σ'.
Proof.
  intros HI Hc Hpl Hstep. destruct (inv_client l σ t HI) as [st Hst]; [by rewrite Hc|].
  pose proof (iv_clients _ _ _ HI t c st Hc Hst) as Hok. pose proof (co_place _ _ _ _ _ _ Hok) as Hpc.
  destruct c; try done; simpl in Hstep;
    unfold lock_mu, unlock_mu, lock_q, unlock_q, with_struct in Hstep; rewrite ?Hst in Hstep.
  - (* C_lock *) destruct (mu st) eqn:Hmu; [done|]. injection Hstep as <-. take_mu.
  - (* C_test *) destruct (Z.ltb_spec (sock_in st) 0); injection Hstep as <-; [drop_mu|].
    rewrite <- (put_struct_id t st σ Hst). keep_mu.
  - (* C_wait *) rewrite <- (put_struct_id t st σ Hst) in Hstep.
    destruct ch; try done; injection Hstep as <-; keep_mu.
  - (* C_relock *) destruct (mu st) eqn:Hmu; [done|]. injection Hstep as <-.
    destruct timedout; take_mu.
  - (* C_qlock *) destruct (free_q_mu σ) eqn:Hq; [done|]. injection Hstep as <-. take_q.
  - (* C_qunlock *) injection Hstep as <-. give_q.
  - (* C_qunlock_exit *) injection Hstep as <-. give_q.
  - (* C_unlock *) injection Hstep as <-. drop_mu.
  - (* C_process *) injection Hstep as <-. by apply client_process_preserves.
  - (* C_lock2 *) destruct (mu st) eqn:Hmu; [done|]. injection Hstep as <-. take_mu.
  - (* C_clear *) injection Hstep as <-.
    eapply inv_client_mu; try done; [eapply ok_keep; try done|].
    + destruct Hpc; simpl in *; try done. by apply is_away.
    + simpl. by rewrite andb_false_r.
  - (* C_unlock2 *) injection Hstep as <-. drop_mu.
  - (* C_qlock2 *) destruct (free_q_mu σ) eqn:Hq; [done|]. injection Hstep as <-. take_q.
  - (* C_qunlock2 *) injection Hstep as <-. give_q.
Qed.

(** *** Steps that change the list *)

Lemma placed_ext l l' h t c s : (t ∈ l' <-> t ∈ l) -> placed l h t c s -> placed l' h t c s.
Proof.
  intros Hl []; [apply in_list | apply in_hand | apply has_connection | apply is_away];
    rewrite ?Hl; done.
Qed.

Definition same_struct (st st' : th_proxy_struct) : Prop :=
  mu st' = mu st /\ sock_in st' = sock_in st.

Lemma inv_list_step l l' σ σ' t c c' :
  Inv max l σ -> clients σ !! t = Some c ->
  (forall x st, structs σ !! x = Some st -> exists st', structs σ' !! x = Some st' /\ same_struct st st') ->
  dom (structs σ') = dom (structs σ) -> clients σ' = <[t := c']> (clients σ) ->
  srv σ' = srv σ -> free_q_mu σ' = free_q_mu σ -> accepted σ' = accepted σ ->
  given σ' = given σ -> served σ' = served σ ->
  chain (structs σ') (free_q σ') l' -> NoDup l' -> (forall x, x <> t -> x ∈ l' <-> x ∈ l) ->
  (forall st, structs σ !! t = Some st -> placed l' (srv_hand (srv σ)) t c' (sock_in st)) ->
  holds_mu c' = holds_mu c -> holds_q c' = holds_q c -> unserved c' = unserved c ->
  thread_count σ' = count (clients σ') -> thread_count σ' <= Z.max 0 max ->
  (forall s, srv σ = A_wait s ->
    l' = [] \/ exists t c, clients σ' !! t = Some c /\ will_signal c = true) ->
  Inv max l' σ'.
Proof.
  intros HI Hc Hst Hdom Hcl Hsrv Hqm Hac Hgi Hse Hch Hnd Hl Hp Hmu Hq Hun Hct Hmx Hw.
  pose proof (inv_q_client l σ t c c' (free_q_mu σ) HI Hc ltac:(by apply q_same)) as Hq'.
  assert (Hst' : forall x st', structs σ' !! x = Some st' ->
    exists st, structs σ !! x = Some st /\ same_struct st st').
  { intros x st' E. assert (is_Some (structs σ !! x)) as [st Hs]
      by (apply elem_of_dom; rewrite <- Hdom; by apply elem_of_dom).
    destruct (Hst x st Hs) as (st1 & E1 & ?). simplify_eq. eauto. }
  destruct HI. constructor; rewrite ?Hsrv, ?Hqm, ?Hac, ?Hgi, ?Hse; try done.
  - assert (t ∈ dom (clients σ)) by (apply elem_of_dom; by rewrite Hc).
    rewrite Hcl, Hdom, dom_insert_L, <- iv_dom0. set_solver.
  - intros x c1 st1 E1 E2. destruct (Hst' x st1 E2) as (st & Hs & Em & Es).
    rewrite Hcl, lookup_insert in E1. case_decide; [subst x; simplify_eq|].
    + eapply ok_keep; [by eapply (iv_clients0 t c st) | done | done | rewrite Es; by apply Hp].
    + pose proof (iv_clients0 x c1 st E1 Hs) as Hok.
      eapply ok_keep; [exact Hok | done | done | rewrite Es].
      eapply placed_ext; [by apply Hl | by apply Hok].
  - intros x Hx. destruct (iv_hand0 x Hx) as [st Hs]. destruct (Hst x st Hs) as (st' & -> & _). eauto.
  - intros who. rewrite Hq'. unfold q_holder. pfields. by rewrite Hsrv, Hcl.
  - intros x. rewrite iv_log0. f_equal. rewrite Hcl, lookup_insert. case_decide as Hx; [subst x|].
    + rewrite Hc. destruct (structs σ !! t) as [st|] eqn:Hs.
      * destruct (Hst t st Hs) as (st' & -> & _ & Es). simpl. by rewrite Hun, Es.
      * destruct (structs σ' !! t) as [st'|] eqn:E'; [|done].
        destruct (Hst' t st' E') as (? & ? & _). congruence.
    + destruct (structs σ !! x) as [st|] eqn:Hs.
      * destruct (Hst x st Hs) as (st' & -> & _ & Es). simpl. case_match; [|done]. by rewrite Es.
      * destruct (structs σ' !! x) as [st'|] eqn:E'; [|done].
        destruct (Hst' x st' E') as (? & ? & _). congruence.
Qed.

Lemma inv_count_nonneg l σ : Inv max l σ -> 0 <= thread_count σ < 2 ^ 31.
Proof. intros []. rewrite iv_count0 in *. unfold count in *. lia. Qed.

(** The client finds itself in the list, and leaves. *)
Lemma client_leaves l1 l2 σ t st :
  Inv max (l1 ++ t :: l2) σ -> clients σ !! t = Some C_find -> structs σ !! t = Some st ->
  Inv max (l1 ++ l2) (go_client t C_qunlock_exit (setf thread_count (int_of (thread_count σ - 1))
    (store_link (last l1) (next_free st) σ))).
Proof.
  intros HI Hc Hst. pose proof (inv_count_nonneg _ _ HI) as Hn. pose proof HI as [].
  rewrite int_of_small by lia.
  assert (Hnd : NoDup (l1 ++ l2) /\ t ∉ l1 ++ l2).
  { rewrite <- Permutation_middle in iv_nodup0. by apply NoDup_cons in iv_nodup0 as []. }
  destruct Hnd as [Hnd Ht].
  assert (Hct : count (<[t := C_qunlock_exit]> (clients σ)) = count (clients σ) - 1)
    by (by eapply count_leave).
  assert (Hmid : exists q M, store_link (last l1) (next_free st) σ = setf free_q q (setf structs M σ) /\
    chain M q (l1 ++ l2) /\ dom M = dom (structs σ) /\
    forall x st, structs σ !! x = Some st -> exists st', M !! x = Some st' /\ same_struct st st').
  { destruct (last l1) as [x|] eqn:Hx; simpl.
    - assert (x ∈ l1) by (apply last_Some in Hx as [? ->]; clear; set_solver).
      destruct (chain_elem _ _ _ x iv_chain0) as [[st0 H0] _]; [by apply elem_of_app; left|].
      exists (free_q σ), (<[x := setf next_free (next_free st) st0]> (structs σ)).
      split; [rewrite (insert_alter (setf next_free (next_free st)) _ _ _ H0); by destruct σ|].
      split; [by eapply chain_unlink|]. split.
      + apply dom_insert_lookup_L. eauto.
      + intros y st1 Hy. rewrite lookup_insert. case_decide; [subst; simplify_eq; by eexists|].
        by exists st1.
    - apply last_None in Hx as ->. destruct iv_chain0 as (_ & _ & st' & E & Hch). simplify_eq.
      exists (next_free st), (structs σ). split; [by destruct σ|]. split; [done|]. split; [done|].
      intros x st1 Hx. by exists st1. }
  destruct Hmid as (q & M & -> & Hch & Hdom & Hsame).
  eapply (inv_list_step _ (l1 ++ l2) σ _ t C_find C_qunlock_exit); try done.
  - intros x Hx. clear -Hx. set_solver.
  - intros st1 E. simplify_eq. destruct (iv_clients0 t C_find st Hc Hst) as [_ _ _ Hpl].
    assert (t ∈ l1 ++ t :: l2) by (clear; set_solver). destruct Hpl; try done. by apply is_away.
  - unfold go_client. pfields. lia.
  - unfold go_client. pfields. lia.
  - intros s0 Hs0. destruct (iv_wait0 s0 Hs0) as [E|(t1 & c1 & Hc1 & Hw1)]; [by destruct l1|].
    right. exists t1, c1. split; [|done]. unfold go_client. pfields.
    rewrite lookup_insert_ne; [done|]. intros ->. simplify_eq.
Qed.

Lemma client_find_preserves l σ t ch σ' :
  Inv max l σ -> clients σ !! t = Some C_find -> client_step ch t C_find σ = Next σ' ->
  exists l', Inv max l' σ'.
Proof.
  intros HI Hc Hstep. destruct (inv_client l σ t HI) as [st Hst]; [by rewrite Hc|].
  pose proof HI as []. pose proof (chain_length _ _ _ iv_chain0 iv_nodup0) as Hlen.
  unfold client_step in Hstep. destruct (decide (t ∈ l)) as [Hin|Hout].
  - apply list_elem_of_split in Hin as (l1 & l2 & ->). rewrite length_app in Hlen. simpl in Hlen.
    erewrite find_self_in in Hstep; [|done|done|lia]. unfold with_struct in Hstep.
    rewrite Hst in Hstep. injection Hstep as <-. exists (l1 ++ l2).
    replace (match last l1 with Some x => Some x | None => None end) with (last l1) by by case_match.
    by apply client_leaves.
  - erewrite find_self_out in Hstep; [|done|done|lia]. injection Hstep as <-. exists l.
    rewrite <- (put_struct_id t st σ Hst). eapply inv_client_mu; try done.
    pose proof (iv_clients0 t _ st Hc Hst) as Hok. pose proof (co_place _ _ _ _ _ _ Hok) as Hpc.
    eapply ok_keep; try done. place_tac.
Qed.

Lemma client_push_preserves l σ t ch σ' :
  Inv max l σ -> clients σ !! t = Some C_push -> client_step ch t C_push σ = Next σ' ->
  Inv max (t :: l) σ'.
Proof.
  intros HI Hc Hstep. destruct (inv_client l σ t HI) as [st Hst]; [by rewrite Hc|].
  simpl in Hstep. unfold with_struct in Hstep. rewrite Hst in Hstep. injection Hstep as <-.
  pose proof HI as []. destruct (iv_clients0 t C_push st Hc Hst) as [Hn _ _ Hpl].
  assert (Htl : (t ∉ l) /\ srv_hand (srv σ) <> Some t /\ sock_in st = -1) by (by destruct Hpl).
  destruct Htl as (Hl & Hh & Hs).
  eapply (inv_list_step l (t :: l) σ _ t C_push C_qunlock2); try done; unfold go_client, put_struct; pfields.
  - intros x st1 Hx. rewrite lookup_insert. case_decide; [subst; simplify_eq; by eexists|].
    by exists st1.
  - apply dom_insert_lookup_L. eauto.
  - split; [done|]. split; [done|]. eexists. split; [apply lookup_insert_eq|]. pfields.
    eapply chain_ext; [|done]. intros x Hx. rewrite lookup_insert_ne; [done | by intros <-].
  - by apply NoDup_cons.
  - intros x Hx. clear -Hx. set_solver.
  - intros st1 E. simplify_eq. apply in_list; [left | done | done | done].
  - by rewrite (count_insert_same _ t C_push).
  - intros s0 _. right. exists t, C_qunlock2. by rewrite lookup_insert_eq.
Qed.

Lemma client_free_preserves l σ t ch σ' :
  Inv max l σ -> clients σ !! t = Some C_free -> client_step ch t C_free σ = Next σ' ->
  Inv max l σ'.
Proof.
  intros HI Hc Hstep. destruct (inv_client l σ t HI) as [st Hst]; [by rewrite Hc|].
  simpl in Hstep. unfold with_struct in Hstep. rewrite Hst in Hstep. injection Hstep as <-.
  destruct HI. destruct (iv_clients0 t C_free st Hc Hst) as [Hn _ Hx Hpl].
  specialize (Hx eq_refl).
  assert (Htl : (t ∉ l) /\ srv_hand (srv σ) <> Some t /\ sock_in st = -1) by (by destruct Hpl).
  destruct Htl as (Hl & Hh & Hs). constructor; pfields; try done.
  - eapply chain_ext; [|done]. intros x Hx'. rewrite lookup_delete_ne; [done | by intros <-].
  - by rewrite !dom_delete_L, iv_dom0.
  - intros x c1 st1 [Hne E1]%lookup_delete_Some [_ E2]%lookup_delete_Some. by apply iv_clients0.
  - intros x Hx'. rewrite lookup_delete_ne; [by apply iv_hand0|]. intros <-. by destruct Hx'.
  - by rewrite (count_delete _ t C_free).
  - intros who. rewrite (iv_q0 who). destruct who as [|x]; [done|]. simpl.
    rewrite lookup_delete. case_decide; [subst; by rewrite Hc | done].
  - intros s0 Hs0. destruct (iv_wait0 s0 Hs0) as [?|(t1 & c1 & Hc1 & Hw1)]; [by left|]. right.
    exists t1, c1. rewrite lookup_delete_ne; [done|]. intros <-. by simplify_eq.
  - intros x. rewrite iv_log0. f_equal. rewrite !lookup_delete. case_decide; [subst|done].
    rewrite Hst, Hc. simpl. by rewrite Hs.
Qed.

(** *** Steps of the server *)

Inductive srv_q_change (s s' : server_pc) (q q' : option tid) : Prop :=
| sq_same : srv_q s' = srv_q s -> q' = q -> srv_q_change s s' q q'
| sq_taken : srv_q s = false -> srv_q s' = true -> q = None -> q' = Some T_server ->
    srv_q_change s s' q q'
| sq_given : srv_q s = true -> srv_q s' = false -> q' = None -> srv_q_change s s' q q'.

Lemma inv_q_server l σ s' q' :
  Inv max l σ -> srv_q_change (srv σ) s' (free_q_mu σ) q' ->
  forall who, q' = Some who <-> q_holder (go_server s' σ) who.
Proof.
  intros [] Hq who. unfold q_holder. pfields. pose proof (iv_q0 who) as H1.
  pose proof (iv_q0 T_server) as H2. unfold q_holder in H1, H2.
  destruct who; destruct Hq as [E1 E2|E1 E2 E3 E4|E1 E2 E3]; rewrite ?E1, ?E2, ?E3, ?E4 in *;
    cbn [go_server setf srv set_srv]; rewrite ?E1, ?E2; intuition congruence.
Qed.

(** Neither structures nor clients change. *)
Lemma inv_server l σ s' q' a' :
  Inv max l σ -> srv_hand s' = srv_hand (srv σ) -> srv_mu s' = srv_mu (srv σ) ->
  srv_q_change (srv σ) s' (free_q_mu σ) q' -> (forall s, s' = A_wait s -> l = []) ->
  Forall (fun s => 0 <= s) (srv_sock s') -> a' = (snd <$> given σ) ++ srv_sock s' ->
  Inv max l (setf accepted a' (setf free_q_mu q' (go_server s' σ))).
Proof.
  intros HI Hh Hm Hq Hw Hs Ha. pose proof (inv_q_server l σ s' q' HI Hq) as Hq'.
  destruct HI. unfold go_server. constructor; pfields; rewrite ?Hh, ?Hm; try done.
  intros s0 Hs0. left. by eapply Hw.
Qed.

(** The structure of one client changes, or its place. *)
Lemma inv_server_struct l l' σ t c st st' s' q' f' g' :
  Inv max l σ -> clients σ !! t = Some c -> structs σ !! t = Some st ->
  client_ok l' (srv_hand s') (srv_mu s') t c st' ->
  (forall x, x <> t -> x ∈ l' <-> x ∈ l) ->
  (forall x, x <> t -> srv_hand s' = Some x <-> srv_hand (srv σ) = Some x) ->
  (forall x, x <> t -> srv_mu s' = Some x <-> srv_mu (srv σ) = Some x) ->
  chain (<[t := st']> (structs σ)) f' l' -> NoDup l' ->
  srv_q_change (srv σ) s' (free_q_mu σ) q' -> (forall s, s' <> A_wait s) ->
  Forall (fun s => 0 <= s) (srv_sock s') -> accepted σ = (snd <$> g') ++ srv_sock s' ->
  log t g' = log t (served σ) ++ outstanding (Some st') (Some c) ->
  (forall x, x <> t -> log x g' = log x (given σ)) ->
  Inv max l' (setf free_q f' (setf given g' (setf free_q_mu q' (go_server s' (put_struct t st' σ))))).
Proof.
  intros HI Hc Hst Hok Hl Hh Hm Hch Hnd Hq Hw Hs Ha Hlog Hlogs.
  pose proof (inv_q_server l σ s' q' HI Hq) as Hq'.
  destruct HI. unfold go_server, put_struct. constructor; pfields; try done.
  - rewrite dom_insert_lookup_L by eauto. done.
  - intros x c1 st1 E1. rewrite lookup_insert. case_decide as Hx; [intros; by simplify_eq|].
    intros E2. destruct (iv_clients0 x c1 st1 E1 E2) as [H1 H2 H3 H4]. constructor; [done | | |].
    + rewrite H2. destruct (holds_mu c1); [done|].
      by rewrite (bool_decide_ext (srv_mu (srv σ) = Some x) (srv_mu s' = Some x)) by (symmetry; auto).
    + intros E. rewrite Hm by done. auto.
    + destruct H4; [apply in_list | apply in_hand | apply has_connection | apply is_away];
        rewrite ?Hl, ?Hh by done; done.
  - intros x Hx. rewrite lookup_insert. case_decide as E; [done|].
    apply iv_hand0. by rewrite <- Hh, <- Hm.
  - intros s0 Hs0. by destruct (Hw s0).
  - intros x. rewrite !lookup_insert. case_decide as Hx; [subst x; by rewrite Hc|].
    by rewrite Hlogs.
Qed.

Lemma signal_free_q_preserves l σ : Inv max l σ -> Inv max l (signal_free_q σ).
Proof.
  intros HI. unfold signal_free_q. destruct (srv σ) as [| | |s| | | | | | |] eqn:E; try done.
  pose proof HI as []. replace (go_server (A_relock s) σ) with
    (setf accepted (accepted σ) (setf free_q_mu (free_q_mu σ) (go_server (A_relock s) σ)))
    by (by destruct σ).
  rewrite E in *. apply inv_server; rewrite ?E; try done. by apply sq_same.
Qed.

Lemma client_signal_preserves l σ t ch σ' :
  Inv max l σ -> clients σ !! t = Some C_signal -> client_step ch t C_signal σ = Next σ' ->
  Inv max l σ'.
Proof.
  intros HI Hc Hstep. injection Hstep as <-.
  assert (Hc' : clients (signal_free_q σ) !! t = Some C_signal)
    by (unfold signal_free_q; by case_match).
  assert (Hw : forall s, srv (signal_free_q σ) <> A_wait s)
    by (intros s; unfold signal_free_q; case_match; congruence || done).
  apply signal_free_q_preserves in HI. set (σ1 := signal_free_q σ) in *. clearbody σ1.
  destruct (inv_client l σ1 t HI) as [st Hst]; [by rewrite Hc'|].
  rewrite <- (put_struct_id t st σ1 Hst).
  pose proof (iv_clients _ _ _ HI t _ st Hc' Hst) as Hok.
  pose proof (co_place _ _ _ _ _ _ Hok) as Hpc.
  eapply inv_client_mu; try done; [eapply ok_keep; try done; place_tac|].
  intros s Hs. by destruct (Hw s).
Qed.

Lemma client_preserves l σ t c ch σ' :
  Inv max l σ -> clients σ !! t = Some c -> client_step ch t c σ = Next σ' ->
  exists l', Inv max l' σ'.
Proof.
  intros HI Hc Hstep. destruct (plain c) eqn:Hp; [exists l; by eapply client_plain_preserves|].
  destruct c; try done.
  - by eapply client_find_preserves.
  - exists l. by eapply client_free_preserves.
  - exists (t :: l). by eapply client_push_preserves.
  - exists l. by eapply client_signal_preserves.
Qed.

(** The structure the server has in hand, or whose mutex it holds. *)
Lemma inv_in_hand l σ t :
  Inv max l σ -> srv_hand (srv σ) = Some t \/ srv_mu (srv σ) = Some t ->
  exists c st, clients σ !! t = Some c /\ structs σ !! t = Some st /\
    client_ok l (srv_hand (srv σ)) (srv_mu (srv σ)) t c st.
Proof.
  intros HI Ht. destruct (iv_hand _ _ _ HI t Ht) as [st Hst].
  destruct (inv_struct l σ t HI) as [c Hc]; [by rewrite Hst|].
  exists c, st. split; [done|]. split; [done|]. by eapply iv_clients.
Qed.

Lemma server_struct_eta t st s' σ :
  go_server s' (put_struct t st σ) = setf free_q (free_q σ) (setf given (given σ)
    (setf free_q_mu (free_q_mu σ) (go_server s' (put_struct t st σ)))).
Proof. by destruct σ. Qed.

Lemma chain_put M a l t st st' :
  M !! t = Some st -> next_free st' = next_free st -> chain M a l -> chain (<[t := st']> M) a l.
Proof.
  intros Ht Hn. apply chain_ext. intros x _. rewrite lookup_insert. case_decide; [subst|done].
  rewrite Ht. simpl. by rewrite Hn.
Qed.

Lemma server_locks l σ s t σ' :
  Inv max l σ -> srv σ = S_lock s t -> lock_mu Server t σ (go_server (S_set s t)) = Next σ' ->
  Inv max l σ'.
Proof.
  intros HI Hs Hstep.
  destruct (inv_in_hand l σ t HI) as (c & st & Hc & Hst & [Hn Hm Hx Hp]); [left; by rewrite Hs|].
  unfold lock_mu, with_struct in Hstep. rewrite Hst in Hstep.
  destruct (mu st) eqn:Hmu; [done|]. injection Hstep as <-. pose proof HI as [].
  rewrite Hs in *. simpl in *. assert (Hmc : holds_mu c = false) by (by destruct (holds_mu c)).
  rewrite server_struct_eta.
  eapply (inv_server_struct l l σ t c st); rewrite ?Hs; try done.
  - constructor; pfields; [done | | congruence | done].
    by rewrite Hmc, bool_decide_eq_true_2.
  - intros x Hne. simpl. split; congruence.
  - by eapply chain_put.
  - by apply sq_same.
  - rewrite iv_log0, Hst, Hc. done.
Qed.

Lemma server_sets l σ s t st :
  Inv max l σ -> srv σ = S_set s t -> structs σ !! t = Some st ->
  Inv max l (go_server (S_unlock s t)
    (setf given (given σ ++ [(t, s)]) (put_struct t (setf sock_in s st) σ))).
Proof.
  intros HI Hs Hst.
  destruct (inv_in_hand l σ t HI) as (c & st1 & Hc & Hst1 & [Hn Hm Hx Hp]); [left; by rewrite Hs|].
  simplify_eq. pose proof HI as []. rewrite Hs in *. simpl in *.
  apply Forall_cons in iv_sock0 as [iv_sock0 _].
  destruct Hp as [|Hl _ Hk Hi| |]; try done.
  replace (go_server _ _) with (setf free_q (free_q σ) (setf given (given σ ++ [(t, s)])
    (setf free_q_mu (free_q_mu σ) (go_server (S_unlock s t) (put_struct t (setf sock_in s st) σ)))))
    by (by destruct σ).
  eapply (inv_server_struct l l σ t c st); rewrite ?Hs; try done.
  - constructor; pfields; [done | done | done |].
    apply has_connection; [done | done | done | by rewrite Hi].
  - intros x Hne. simpl. split; congruence.
  - by eapply chain_put.
  - by apply sq_same.
  - rewrite iv_accepted0, fmap_app, app_nil_r. done.
  - rewrite log_snoc, decide_True by done. rewrite iv_log0, Hst, Hc. simpl. rewrite Hk. simpl.
    rewrite app_nil_r, (proj2 (Z.leb_le _ _) iv_sock0). f_equal.
    by destruct c.
  - intros x Hne. rewrite log_snoc, decide_False by done. apply app_nil_r.
Qed.

Lemma server_unlocks l σ s t σ' :
  Inv max l σ -> srv σ = S_unlock s t -> unlock_mu t σ (go_server (S_signal t)) = Next σ' ->
  Inv max l σ'.
Proof.
  intros HI Hs Hstep.
  destruct (inv_in_hand l σ t HI) as (c & st & Hc & Hst & [Hn Hm Hx Hp]); [right; by rewrite Hs|].
  unfold unlock_mu, with_struct in Hstep. rewrite Hst in Hstep.
  injection Hstep as <-. pose proof HI as []. rewrite Hs in *. simpl in *.
  assert (Hmc : holds_mu c = false).
  { destruct (holds_mu c); [|done]. by destruct (Hx eq_refl). }
  rewrite server_struct_eta. eapply (inv_server_struct l l σ t c st); rewrite ?Hs; try done.
  - constructor; pfields; [done | by rewrite Hmc | done | done].
  - intros x Hne. simpl. split; congruence.
  - by eapply chain_put.
  - by apply sq_same.
  - rewrite iv_log0, Hst, Hc. done.
Qed.
(** The server takes or gives [free_q_mu], or only goes on. *)
Lemma inv_server_q l σ s' q' :
  Inv max l σ -> srv_hand s' = srv_hand (srv σ) -> srv_mu s' = srv_mu (srv σ) ->
  srv_sock s' = srv_sock (srv σ) ->
  srv_q_change (srv σ) s' (free_q_mu σ) q' -> (forall s, s' = A_wait s -> l = []) ->
  Inv max l (go_server s' (setf free_q_mu q' σ)).
Proof.
  intros HI Hh Hm Hs Hq Hw.
  replace (go_server s' (setf free_q_mu q' σ)) with
    (setf accepted (accepted σ) (setf free_q_mu q' (go_server s' σ))) by (by destruct σ).
  pose proof HI as []. apply inv_server; rewrite ?Hs; done.
Qed.

Lemma server_accepts l σ ch σ' :
  Inv max l σ -> srv σ = S_accept -> server_step max ch σ = Next σ' -> Inv max l σ'.
Proof.
  intros HI Hs Hstep. unfold server_step in Hstep. rewrite Hs in Hstep.
  destruct ch as [s| | | | |]; try done.
  - destruct (Z.ltb_spec s 0); [done|]. injection Hstep as <-.
    replace (go_server _ _) with (setf accepted (accepted σ ++ [s])
      (setf free_q_mu (free_q_mu σ) (go_server (A_lock s) σ))) by (by destruct σ).
    pose proof (iv_accepted _ _ _ HI) as Ha. rewrite Hs in Ha. simpl in Ha. rewrite app_nil_r in Ha.
    apply inv_server; rewrite ?Hs; try done; [by apply sq_same | by repeat constructor |].
    by rewrite Ha.
  - by injection Hstep as <-.
  - injection Hstep as <-. replace (go_server S_exit σ) with (go_server S_exit
      (setf free_q_mu (free_q_mu σ) σ)) by (by destruct σ).
    apply inv_server_q; rewrite ?Hs; try done. by apply sq_same.
Qed.

(** The head of the list is taken. *)
Lemma server_pops l σ s t st :
  Inv max (t :: l) σ -> srv σ = A_take s -> structs σ !! t = Some st ->
  Inv max l (go_server (A_unlock s t) (setf free_q (next_free st) σ)).
Proof.
  intros HI Hs Hst. destruct (inv_struct _ _ t HI) as [c Hc]; [by rewrite Hst|].
  pose proof HI as []. destruct iv_chain0 as (_ & Hn & st' & E & Hch). simplify_eq.
  apply NoDup_cons in iv_nodup0 as [Hl Hnd]. rewrite Hs in *. simpl in *.
  destruct (iv_clients0 t c st Hc Hst) as [_ Hm Hx Hp].
  replace (go_server _ _) with (setf free_q (next_free st) (setf given (given σ)
    (setf free_q_mu (free_q_mu σ) (go_server (A_unlock s t) (put_struct t st σ)))))
    by (rewrite put_struct_id by done; by destruct σ).
  eapply (inv_server_struct (t :: l) l σ t c st); rewrite ?Hs; try done.
  - constructor; [done | done | done |].
    destruct Hp as [_ _ Hk Hi|Hout|Hout|Hout]; try (destruct Hout; left).
    apply in_hand; [done | done | done | by rewrite Hi].
  - intros x Hne. rewrite elem_of_cons. intuition congruence.
  - intros x Hne. simpl. split; congruence.
  - by rewrite insert_id.
  - by apply sq_same.
  - by rewrite iv_log0, Hst, Hc.
Qed.

(** A new thread. *)
Lemma server_creates σ s t :
  Inv max [] σ -> srv σ = A_take s -> t <> NULL -> structs σ !! t = None -> thread_count σ < max ->
  Inv max [] (go_server (A_unlock s t) (setf thread_count (int_of (thread_count σ + 1))
    (go_client t C_lock (put_struct t (mk_th_proxy NULL (-1) None) σ)))).
Proof.
  intros HI Hs Hn Hst Hct. pose proof (inv_count_nonneg _ _ HI) as Hc0.
  rewrite int_of_small by lia.
  assert (Hc : clients σ !! t = None).
  { destruct (clients σ !! t) eqn:E; [|done]. destruct (inv_client _ _ t HI); [by rewrite E|].
    congruence. }
  pose proof HI as []. rewrite Hs in *. simpl in *.
  unfold go_server, go_client, put_struct. constructor; pfields; try done.
  - by rewrite !dom_insert_L, iv_dom0.
  - intros x c1 st1. rewrite !lookup_insert. case_decide; [subst x|].
    + intros [= <-] [= <-]. constructor; [done | done | done |]. apply in_hand; [|done..].
      by intros ?%elem_of_nil.
    + intros E1 E2. destruct (iv_clients0 x c1 st1 E1 E2) as [H1 H2 H3 H4].
      constructor; [done | done | done |]. simpl.
      destruct H4; [apply in_list | apply in_hand | apply has_connection | apply is_away];
        congruence || done.
  - intros x [[= <-]|?]; [|done]. by rewrite lookup_insert_eq.
  - rewrite count_new by done. lia.
  - lia.
  - intros who. rewrite (iv_q0 who). destruct who as [|x]; [simpl; by rewrite Hs|]. simpl.
    rewrite lookup_insert. case_decide; [subst; by rewrite Hc | done].
  - intros x. rewrite iv_log0, !lookup_insert. f_equal. case_decide; [subst|done].
    by rewrite Hst.
Qed.

Lemma server_takes l σ s ch σ' :
  Inv max l σ -> srv σ = A_take s -> alloc_proxy_th max ch s σ = Next σ' -> exists l', Inv max l' σ'.
Proof.
  intros HI Hs Hstep. pose proof (iv_chain _ _ _ HI) as Hch. unfold alloc_proxy_th in Hstep.
  destruct l as [|t l]; simpl in Hch.
  - rewrite Hch in Hstep. simpl in Hstep. exists [].
    assert (Hwait : Inv max [] (go_server (A_wait s) (unlock_q σ))).
    { apply inv_server_q; rewrite ?Hs; try done. by apply sq_given. }
    destruct (Z.ltb_spec (thread_count σ) max); [|by injection Hstep as <-].
    unfold new_proxy_th in Hstep. destruct ch as [| | |t| |]; try (by injection Hstep as <-).
    destruct (Z.eqb_spec t NULL) as [|Hn]; simpl in Hstep; [by injection Hstep as <-|].
    case_bool_decide as Hst; [by injection Hstep as <-|]. injection Hstep as <-.
    apply eq_None_not_Some in Hst. by apply server_creates.
  - destruct Hch as (Ht & Hn & st & Hst & Hch). rewrite Ht in Hstep.
    rewrite (proj2 (Z.eqb_neq _ _) Hn) in Hstep. simpl in Hstep. unfold with_struct in Hstep.
    rewrite Hst in Hstep. injection Hstep as <-. exists l. by apply server_pops.
Qed.

(** The signal that tells a client of its connection. *)
Lemma server_signals l σ t st :
  Inv max l σ -> srv σ = S_signal t -> structs σ !! t = Some st ->
  Inv max l (go_server S_accept (signal_client t σ)).
Proof.
  intros HI Hs Hst.
  assert (HI' : Inv max l (signal_client t σ)).
  { unfold signal_client. destruct (clients σ !! t) as [c|] eqn:Hc; [|done].
    destruct c; try done. rewrite <- (put_struct_id t st σ Hst).
    pose proof (iv_clients _ _ _ HI t _ st Hc Hst) as Hok.
    pose proof (co_place _ _ _ _ _ _ Hok) as Hpc.
    eapply inv_client_mu; try done. eapply ok_keep; try done. place_tac. }
  assert (Hs' : srv (signal_client t σ) = S_signal t)
    by (unfold signal_client; repeat case_match; done).
  set (σ1 := signal_client t σ) in *. clearbody σ1.
  replace (go_server S_accept σ1) with (go_server S_accept (setf free_q_mu (free_q_mu σ1) σ1))
    by (by destruct σ1).
  apply inv_server_q; rewrite ?Hs'; try done. by apply sq_same.
Qed.

Lemma server_preserves l σ ch σ' :
  Inv max l σ -> server_step max ch σ = Next σ' -> exists l', Inv max l' σ'.
Proof.
  intros HI Hstep. destruct (srv σ) eqn:Hs;
    [exists l; by eapply server_accepts | unfold server_step in Hstep; rewrite Hs in Hstep ..];
    try done.
  - unfold lock_q in Hstep. destruct (free_q_mu σ) eqn:Hq; [done|]. injection Hstep as <-.
    exists l. apply inv_server_q; rewrite ?Hs; try done. by apply sq_taken.
  - by eapply server_takes.
  - destruct ch; try done. injection Hstep as <-. exists l.
    replace (go_server _ σ) with (go_server (A_relock sockIn) (setf free_q_mu (free_q_mu σ) σ))
      by (by destruct σ).
    apply inv_server_q; rewrite ?Hs; try done. by apply sq_same.
  - unfold lock_q in Hstep. destruct (free_q_mu σ) eqn:Hq; [done|]. injection Hstep as <-.
    exists l. apply inv_server_q; rewrite ?Hs; try done. by apply sq_taken.
  - injection Hstep as <-. exists l. apply inv_server_q; rewrite ?Hs; try done. by apply sq_given.
  - exists l. by eapply server_locks.
  - unfold with_struct in Hstep. destruct (structs σ !! th_proxy) eqn:Hst; [|done].
    injection Hstep as <-. exists l. by apply server_sets.
  - exists l. by eapply server_unlocks.
  - unfold with_struct in Hstep. destruct (structs σ !! th_proxy) eqn:Hst; [|done].
    injection Hstep as <-. exists l. by eapply server_signals.
Qed.

Lemma inv_initial : Inv max [] initial_pool.
Proof.
  constructor; try done; simpl; try lia.
  - apply NoDup_nil_2.
  - by intros t [?|?].
  - intros [|t]; [done|]. simpl. by rewrite lookup_empty.
Qed.

Lemma reachable_inv σ : reachable max σ -> exists l, Inv max l σ.
Proof.
  intros Hr. unfold reachable in Hr. revert Hr.
  apply (rtc_ind_r (fun σ => exists l, Inv max l σ)); [exists []; apply inv_initial|].
  intros σ1 σ2 _ [who ch σ1' σ2' Hstep] [l HI]. destruct who as [|t]; simpl in Hstep.
  - by eapply server_preserves.
  - destruct (clients σ1' !! t) eqn:Hc; [|done]. by eapply client_preserves.
Qed.
(** ** Waiting clients

    A client sleeps on a connection it was given only until the server, which
    is on its way there, signals. *)

Definition telling (s : server_pc) : option Z :=
  match s with S_unlock _ t | S_signal t => Some t | _ => None end.

Definition awake (σ : pool) : Prop :=
  forall t st, clients σ !! t = Some C_wait -> structs σ !! t = Some st -> 0 <= sock_in st ->
    telling (srv σ) = Some t.

(** A step keeps [awake] if clients that wait afterwards waited before with
    the same connection, and the server does not forget one. *)
Lemma awake_mono σ σ' :
  awake σ -> telling (srv σ') = telling (srv σ) \/ telling (srv σ) = None ->
  (forall t st', clients σ' !! t = Some C_wait -> structs σ' !! t = Some st' -> 0 <= sock_in st' ->
    exists st, clients σ !! t = Some C_wait /\ structs σ !! t = Some st /\ 0 <= sock_in st) ->
  awake σ'.
Proof.
  intros HA Hs Hmon t st' Hc Hst Hk. destruct (Hmon t st' Hc Hst Hk) as (st & Hc0 & Hst0 & Hk0).
  specialize (HA t st Hc0 Hst0 Hk0). destruct Hs; congruence.
Qed.

Lemma awake_client t c' σ σ' :
  awake σ -> telling (srv σ') = telling (srv σ) \/ telling (srv σ) = None ->
  clients σ' = <[t := c']> (clients σ) ->
  structs σ' = structs σ \/ (exists st', structs σ' = <[t := st']> (structs σ)) -> c' <> C_wait ->
  awake σ'.
Proof.
  intros HA Hs Hc Hst Hw. eapply awake_mono; [done | done |]. intros x st1.
  rewrite Hc, lookup_insert. case_decide as Hx; [congruence|]. intros E1 E2 Hk. exists st1.
  split; [done|]. split; [|done]. destruct Hst as [Hst|[st' Hst]]; rewrite Hst in E2; [done|].
  by rewrite lookup_insert_ne in E2.
Qed.

Lemma awake_client_step t c ch σ σ' :
  awake σ -> clients σ !! t = Some c -> client_step ch t c σ = Next σ' -> awake σ'.
Proof.
  intros HA Hc Hstep. destruct c; simpl in Hstep;
    unfold lock_mu, unlock_mu, lock_q, with_struct in Hstep;
    try (repeat case_match; simplify_eq; eapply awake_client; [done | by left | done | | done];
      (by left) || (right; by eexists)).
  - (* C_test *) destruct (structs σ !! t) as [st|] eqn:Hst; [|done].
    destruct (Z.ltb_spec (sock_in st) 0); injection Hstep as <-.
    + eapply awake_mono; [done | by left |]. unfold go_client, put_struct. pfields. intros x st'.
      rewrite !lookup_insert. case_decide; [intros _ [= <-]; simpl; lia | eauto].
    + eapply awake_client; [done | by left | done | by left | done].
  - (* C_wait *) destruct ch; try done; injection Hstep as <-;
      (eapply awake_client; [done | by left | done | by left | done]).
  - (* C_relock *) destruct (structs σ !! t); [|done]. case_match; [done|]. injection Hstep as <-.
    eapply awake_client; [done | by left | done | right; by eexists | by destruct timedout].
  - (* C_find *) change (client_step ch t C_find σ = Next σ') in Hstep. unfold client_step in Hstep.
    destruct (find_self _ _ _ _ _) as [[where_|]|]; [| |done].
    + unfold with_struct in Hstep. destruct (structs σ !! t) as [st|]; [|done]. injection Hstep as <-.
      eapply awake_mono; [done | left; by destruct where_ |].
      intros x st'. destruct where_ as [a|]; unfold go_client, store_link; pfields;
        rewrite lookup_insert; (case_decide; [done|]); [|eauto].
      intros Hx Hst' Hk. apply lookup_alter_Some in Hst' as [(<- & st1 & E & ->)|[Hne E]]; eauto.
    + injection Hstep as <-. eapply awake_client; [done | by left | done | by left | done].
  - (* C_free *) destruct (structs σ !! t); [|done]. injection Hstep as <-.
    eapply awake_mono; [done | by left |]. pfields.
    intros x st' [_ Hx]%lookup_delete_Some [_ Hst']%lookup_delete_Some Hk. eauto.
  - (* C_signal *) injection Hstep as <-. unfold signal_free_q.
    apply (awake_client t C_lock σ); [done | | by case_match | left; by case_match | done].
    destruct (srv σ) eqn:E; try (left; simpl; by rewrite E). by right.
Qed.

Lemma awake_server_step ch σ σ' : awake σ -> server_step max ch σ = Next σ' -> awake σ'.
Proof.
  intros HA Hstep. unfold server_step, lock_q, lock_mu, unlock_mu, with_struct in Hstep.
  destruct (srv σ) eqn:Hs; try done.
  - destruct ch as [s| | | | |]; try done; [destruct (s <? 0); [done|]|..]; injection Hstep as <-;
      [eapply awake_mono; rewrite ?Hs; [done | by right | by eauto] | done | eapply awake_mono; rewrite ?Hs; [done | by right | by eauto]].
  - case_match; [done|]. injection Hstep as <-. eapply awake_mono; rewrite ?Hs; [done | by right | by eauto].
  - unfold alloc_proxy_th, new_proxy_th, with_struct in Hstep.
    repeat case_match; simplify_eq; (eapply awake_mono; rewrite ?Hs; [done | by right |]); try by eauto.
    unfold go_server, go_client, put_struct. pfields. intros x st'.
    rewrite !lookup_insert. case_decide; [done | eauto].
  - destruct ch; try done. injection Hstep as <-.
    eapply awake_mono; rewrite ?Hs; [done | by right | by eauto].
  - case_match; [done|]. injection Hstep as <-. eapply awake_mono; rewrite ?Hs; [done | by right | by eauto].
  - injection Hstep as <-. eapply awake_mono; rewrite ?Hs; [done | by right | by eauto].
  - destruct (structs σ !! th_proxy) as [st|] eqn:Hst; [|done]. destruct (mu st); [done|].
    injection Hstep as <-. eapply awake_mono; rewrite ?Hs; [done | by right |].
    unfold go_server, put_struct. pfields. intros x st' Hx. rewrite lookup_insert.
    case_decide; [subst; intros [= <-]; eauto | eauto].
  - destruct (structs σ !! th_proxy) as [st|] eqn:Hst; [|done]. injection Hstep as <-.
    intros x st' Hx Hst' Hk. unfold go_server, put_struct in *. pfields. simpl in Hx, Hst'.
    rewrite lookup_insert in Hst'. case_decide as E; [by subst|].
    pose proof (HA x st' Hx Hst' Hk) as Ht. rewrite Hs in Ht. simpl in *. congruence.
  - destruct (structs σ !! th_proxy) as [st|] eqn:Hst; [|done]. injection Hstep as <-.
    intros x st' Hx Hst' Hk. unfold go_server, put_struct in *. pfields. simpl in Hx, Hst'.
    rewrite lookup_insert in Hst'. case_decide as E; [by subst|].
    pose proof (HA x st' Hx Hst' Hk) as Ht. rewrite Hs in Ht. simpl in *. congruence.
  - destruct (structs σ !! th_proxy) as [st|] eqn:Hst; [|done]. injection Hstep as <-.
    intros x st' Hx Hst' Hk. unfold go_server, signal_client in *. simpl in Hx, Hst'.
    assert (Hx' : x <> th_proxy /\ clients σ !! x = Some C_wait /\ structs σ !! x = Some st').
    { destruct (clients σ !! th_proxy) as [c|] eqn:Hc; [destruct c|]; simpl in *;
        try (split_and!; [by intros -> | done | done]); try (split_and!; [congruence | done | done]).
      rewrite lookup_insert in Hx. by case_decide. }
    destruct Hx' as (Hne & Hx' & Hst1). pose proof (HA x st' Hx' Hst1 Hk) as Ht.
    rewrite Hs in Ht. simpl in Ht. congruence.
Qed.

Lemma reachable_awake σ : reachable max σ -> awake σ.
Proof.
  unfold reachable. apply (rtc_ind_r awake); [by intros t st Hc|].
  intros σ1 σ2 _ [who ch σ1' σ2' Hstep] HA. destruct who as [|t]; simpl in Hstep.
  - by eapply awake_server_step.
  - destruct (clients σ1' !! t) eqn:Hc; [|done]. by eapply awake_client_step.
Qed.
(** ** Who can go on *)

Definition can_step (σ : pool) : Prop :=
  exists who σ', thread_step max who goes_on σ = Next σ'.

Lemma client_can_step σ t c :
  clients σ !! t = Some c -> (exists σ', client_step goes_on t c σ = Next σ') -> can_step σ.
Proof. intros Hc [σ' Hstep]. exists (T_client t), σ'. simpl. by rewrite Hc. Qed.

Lemma server_can_step σ : (exists σ', server_step max goes_on σ = Next σ') -> can_step σ.
Proof. intros [σ' Hstep]. by exists T_server, σ'. Qed.

(** The search in the list always ends. *)
Lemma find_self_ends l σ t :
  Inv max l σ -> exists r, find_self (S (size (structs σ))) (structs σ) t None (free_q σ) = Some r.
Proof.
  intros []. pose proof (chain_length _ _ _ iv_chain0 iv_nodup0) as Hlen.
  destruct (decide (t ∈ l)) as [Hin|Hout].
  - apply list_elem_of_split in Hin as (l1 & l2 & ->). rewrite length_app in Hlen. simpl in Hlen.
    erewrite find_self_in; [by eexists|done|done|lia].
  - erewrite find_self_out; [by eexists|done|done|lia].
Qed.

(** Whoever holds [free_q_mu] can go on. *)
Lemma q_held_can_step l σ : Inv max l σ -> free_q_mu σ <> None -> can_step σ.
Proof.
  intros HI Hq. destruct (free_q_mu σ) as [who|] eqn:E; [|done]. apply (iv_q _ _ _ HI) in E.
  destruct who as [|t]; simpl in E.
  - destruct (srv σ) eqn:Hs; try done.
    + pose proof (iv_chain _ _ _ HI) as Hch. apply server_can_step. unfold server_step. rewrite Hs.
      unfold alloc_proxy_th. destruct l as [|t l]; simpl in Hch.
      * rewrite Hch. simpl. destruct (thread_count σ <? max); by eexists.
      * destruct Hch as (Ht & Hn & st & Hst & _). rewrite Ht, (proj2 (Z.eqb_neq _ _) Hn). simpl.
        unfold with_struct. rewrite Hst. by eexists.
    + apply server_can_step. unfold server_step. rewrite Hs. by eexists.
  - destruct (clients σ !! t) as [c|] eqn:Hc; [|done]. simpl in E.
    destruct (inv_client l σ t HI) as [st Hst]; [by rewrite Hc|].
    destruct c; try done; try (eapply client_can_step; [done | by eexists]).
    + destruct (find_self_ends l σ t HI) as [[w|] Hr]; eapply (client_can_step _ t); try done;
        unfold client_step; rewrite Hr; [|by eexists]. unfold with_struct. rewrite Hst. by eexists.
    + eapply (client_can_step _ t); [done|]. simpl. unfold with_struct. rewrite Hst. by eexists.
Qed.

(** A client that does not sleep goes on, or waits for someone who can. *)
Lemma awake_client_can_step l σ t c :
  Inv max l σ -> clients σ !! t = Some c -> c <> C_wait -> srv_mu (srv σ) <> Some t -> can_step σ.
Proof.
  intros HI Hc Hw Hm. destruct (inv_client l σ t HI) as [st Hst]; [by rewrite Hc|].
  destruct (decide (free_q_mu σ = None)) as [Hq|Hq]; [|by eapply q_held_can_step].
  destruct (iv_clients _ _ _ HI t c st Hc Hst) as [Hn Hmu Hx _].
  rewrite (bool_decide_eq_false_2 _ Hm) in Hmu.
  destruct c; try done; simpl in Hmu;
    try (eapply client_can_step; [done|]; simpl; unfold lock_mu, unlock_mu, lock_q, with_struct;
      rewrite ?Hst, ?Hmu, ?Hq; repeat case_match; by eexists).
  destruct (find_self_ends l σ t HI) as [[w|] Hr]; eapply (client_can_step _ t); try done;
    unfold client_step; rewrite Hr; [|by eexists]. unfold with_struct. rewrite Hst. by eexists.
Qed.

(** The server waits for a mutex. *)
Lemma server_lock_can_step l σ s t : Inv max l σ -> srv σ = S_lock s t -> can_step σ.
Proof.
  intros HI Hs.
  destruct (inv_in_hand l σ t HI) as (c & st & Hc & Hst & [Hn Hm Hx Hp]); [left; by rewrite Hs|].
  rewrite Hs in *. simpl in *.
  destruct (holds_mu c) eqn:Hh.
  - eapply (awake_client_can_step l σ t c); try done; [by destruct c | by rewrite Hs].
  - apply server_can_step. unfold server_step, lock_mu, with_struct. rewrite Hs, Hst, Hm. by eexists.
Qed.

(** The server waits for a thread. *)
Lemma server_wait_can_step l σ s :
  Inv max l σ -> awake σ -> srv σ = A_wait s -> clients σ <> ∅ -> can_step σ.
Proof.
  intros HI HA Hs Hne. destruct (iv_wait _ _ _ HI s Hs) as [->|(t & c & Hc & Hw)].
  - apply map_choose in Hne as (t & c & Hc).
    destruct (inv_client [] σ t HI) as [st Hst]; [by rewrite Hc|].
    eapply (awake_client_can_step [] σ t c); try done; [|by rewrite Hs].
    intros ->. destruct (iv_clients _ _ _ HI t _ st Hc Hst) as [_ _ _ Hp]. rewrite Hs in Hp.
    destruct Hp as [Hl| |_ _ Hk _|]; [by apply elem_of_nil in Hl | done | | done].
    pose proof (HA t st Hc Hst Hk) as Ht. by rewrite Hs in Ht.
  - eapply (awake_client_can_step l σ t c); try done; [by destruct c | by rewrite Hs].
Qed.
(** A client never accesses memory that has been freed. *)
Lemma client_no_fault l σ t c ch :
  Inv max l σ -> clients σ !! t = Some c -> client_step ch t c σ <> Fault.
Proof.
  intros HI Hc. destruct (inv_client l σ t HI) as [st Hst]; [by rewrite Hc|].
  destruct c; try (simpl; unfold lock_mu, unlock_mu, lock_q, with_struct; rewrite ?Hst;
    repeat case_match; done).
  unfold client_step. destruct (find_self_ends l σ t HI) as [r ->]. unfold with_struct. rewrite Hst.
  by repeat case_match.
Qed.

(** Neither does the server, as long as it has a structure in hand or holds
    its mutex. *)
Lemma server_fault l σ ch :
  Inv max l σ -> server_step max ch σ = Fault ->
  exists t, srv σ = S_signal t /\ structs σ !! t = None.
Proof.
  intros HI. unfold server_step.
  assert (Hh : forall t, srv_hand (srv σ) = Some t \/ srv_mu (srv σ) = Some t ->
    exists st, structs σ !! t = Some st) by (intros t; apply (iv_hand _ _ _ HI)).
  destruct (srv σ) as [|?|s|?|?|? ?|s t|s t|s t|t|] eqn:Hs; unfold lock_q; try by repeat case_match.
  - pose proof (iv_chain _ _ _ HI) as Hch. unfold alloc_proxy_th.
    destruct l as [|t l]; simpl in Hch.
    + rewrite Hch. simpl. by repeat case_match.
    + destruct Hch as (Ht & Hn & st & Hst & _). rewrite Ht, (proj2 (Z.eqb_neq _ _) Hn). simpl.
      unfold with_struct. by rewrite Hst.
  - destruct (Hh t (or_introl eq_refl)) as [st Hst]. unfold lock_mu, with_struct. rewrite Hst.
    by case_match.
  - destruct (Hh t (or_introl eq_refl)) as [st Hst]. unfold with_struct. by rewrite Hst.
  - destruct (Hh t (or_intror eq_refl)) as [st Hst]. unfold unlock_mu, with_struct. by rewrite Hst.
  - unfold with_struct. destruct (structs σ !! t) eqn:Hst; [done|]. by exists t.
Qed.
End inv.

Lemma pool_run_reaches max sched σ σ' :
  pool_run max sched σ = Next σ' -> rtc (pool_step max) σ σ'.
Proof.
  revert σ. induction sched as [|[who ch] sched IH]; intros σ; simpl; [by intros [= ->]|].
  destruct (thread_step max who ch σ) as [σ1| |] eqn:E; [|done|done]. intros Hr.
  eapply rtc_l; [by econstructor | by apply IH].
Qed.

(** ** Theorems *)

(** C6: in every reachable state of the pool: [thread_count] is the number of
    threads that have not left the pool, and is at most [max_proxy_threads];
    [free_q_mu] has the owner the places of the threads say, at most one; the
    list is a proper list of distinct structures, whose threads have no
    connection and are not the one the server has chosen; every accepted
    connection is given to one thread, in order of arrival, except the one
    in the hand of the server; and each thread processes the
    connections it was given, each once and in order, except the one it has not
    begun to process. *)
Theorem pool_conserves max σ :
  max < 2 ^ 31 -> reachable max σ ->
  thread_count σ = count (clients σ) /\ thread_count σ <= Z.max 0 max /\
  (forall who, free_q_mu σ = Some who <-> q_holder σ who) /\
  (exists l, chain (structs σ) (free_q σ) l /\ NoDup l /\
    forall t, t ∈ l -> srv_hand (srv σ) <> Some t /\ sock_in <$> structs σ !! t = Some (-1)) /\
  accepted σ = (given σ).*2 ++ srv_sock (srv σ) /\
  (forall t, log t (given σ) =
     log t (served σ) ++ outstanding (structs σ !! t) (clients σ !! t)).
Proof.
  intros Hmax Hr. destruct (reachable_inv max Hmax σ Hr) as [l HI]. pose proof HI as [].
  split_and!; try done. exists l. split_and!; [done | done |]. intros t Ht.
  destruct (chain_elem _ _ _ _ iv_chain0 Ht) as [[st Hst] _].
  destruct (inv_struct max l σ t HI) as [c Hc]; [by rewrite Hst|].
  destruct (iv_clients0 t c st Hc Hst) as [_ _ _ Hp]. rewrite Hst. simpl.
  destruct Hp as [_ Hh -> _|Hl|Hl|Hl]; done.
Qed.

(** C7: no thread of the pool ever blocks for good: whenever the server is
    not in accept (or has left), some thread can take a step, without any timed
    wait ending by its timeout; so the wait of the server for a free thread
    and the wait of a client for its connection are always ended by a signal.
    The exceptions are the two defects of the code: the server waits while
    there is no thread at all, or the structure it is about to signal has been
    freed. *)
Theorem pool_progress max σ :
  max < 2 ^ 31 -> reachable max σ -> srv σ <> S_accept -> srv σ <> S_exit ->
  (forall s, srv σ = A_wait s -> clients σ <> ∅) ->
  (forall t, srv σ = S_signal t -> is_Some (structs σ !! t)) ->
  exists who σ', thread_step max who goes_on σ = Next σ'.
Proof.
  intros Hmax Hr H1 H2 H3 H4. destruct (reachable_inv max Hmax σ Hr) as [l HI].
  pose proof (reachable_awake max σ Hr) as HA.
  assert (Hq : free_q_mu σ = None \/ can_step max σ)
    by (destruct (decide (free_q_mu σ = None)); [by left | right; by eapply q_held_can_step]).
  assert (Hh : forall t, srv_hand (srv σ) = Some t \/ srv_mu (srv σ) = Some t ->
    exists st, structs σ !! t = Some st) by (intros t; apply (iv_hand _ _ _ HI)).
  destruct Hq as [Hq|]; [|done].
  destruct (srv σ) as [|?|s|s|?|? ?|s t|s t|s t|t|] eqn:Hs; try done;
    try (by eapply server_lock_can_step); try (by eapply server_wait_can_step; eauto);
    apply server_can_step; unfold server_step; rewrite Hs; try by eexists.
  - unfold lock_q. rewrite Hq. by eexists.
  - pose proof (proj2 (iv_q _ _ _ HI T_server)) as E. simpl in E. rewrite Hs, Hq in E. by specialize (E eq_refl).
  - unfold lock_q. rewrite Hq. by eexists.
  - destruct (Hh t (or_introl eq_refl)) as [st Hst]. unfold with_struct. rewrite Hst. by eexists.
  - destruct (Hh t (or_intror eq_refl)) as [st Hst]. unfold unlock_mu, with_struct. rewrite Hst.
    by eexists.
  - destruct (H4 t eq_refl) as [st Hst]. unfold with_struct. rewrite Hst. by eexists.
Qed.

(** C37: an access to freed memory happens in one place only, the call
    [pthread_cond_signal(&th_proxy->cond)] of [server], and only if the thread
    of that structure has exited. *)
Theorem pool_faults max σ who ch :
  max < 2 ^ 31 -> reachable max σ ->
  thread_step max who ch σ = Fault <->
  who = T_server /\ exists t, srv σ = S_signal t /\ structs σ !! t = None.
Proof.
  intros Hmax Hr. destruct (reachable_inv max Hmax σ Hr) as [l HI]. split.
  - destruct who as [|t]; simpl; intros Hf; [split; [done | by eapply server_fault]|].
    destruct (clients σ !! t) as [c|] eqn:Hc; [|done]. by destruct (client_no_fault max l σ t c ch HI Hc).
  - intros (-> & t & Hs & Hst). simpl. unfold server_step, with_struct. by rewrite Hs, Hst.
Qed.

(** *** Two defects *)

(** A step in a state with at most one client, with the branches given by
    the equations in the context. *)
Ltac step_one who ch :=
  eapply rtc_l; [apply (pool_next _ who ch);
    cbn [thread_step]; pfields; rewrite ?lookup_singleton_eq; unfold server_step; cbn [client_step];
    pfields;
    unfold alloc_proxy_th, new_proxy_th, lock_q, lock_mu, unlock_mu, unlock_q, with_struct,
      put_struct, go_client, go_server, signal_free_q, store_link; cbn [find_self];
    repeat (progress (rewrite ?lookup_singleton_eq, ?insert_singleton_eq, ?insert_empty,
      ?delete_singleton_eq, ?Z.eqb_refl; pfields;
      repeat match goal with
      | H : (_ <? _) = _ |- _ => rewrite H
      | H : (_ =? _) = _ |- _ => rewrite H
      end)); reflexivity |];
  lazy beta iota delta [setf next_free set_next_free sock_in set_sock_in mu set_mu free_q set_free_q
    free_q_mu set_free_q_mu thread_count set_thread_count structs set_structs srv set_srv clients
    set_clients accepted set_accepted given set_given served set_served app].

(** The server gives the connection [s] to the new thread of [t]. *)
Lemma one_given max t s :
  1 <= max -> t <> NULL -> 0 <= s ->
  reachable max (mk_pool NULL None 1 {[t := mk_th_proxy NULL s None]} (S_signal t) {[t := C_lock]}
    [s] [(t, s)] []).
Proof.
  intros Hm Ht Hs. assert (Em : (0 <? max) = true) by lia. assert (Et : (t =? NULL) = false) by lia.
  assert (Es : (s <? 0) = false) by lia. unfold reachable, initial_pool.
  step_one T_server (accepts s). step_one T_server goes_on. step_one T_server (allocates t).
  do 4 step_one T_server goes_on. apply rtc_refl.
Qed.

(** Before the signal, that thread processes the connection, goes back to
    the list, waits in vain and exits. *)
Lemma one_served max t s :
  t <> NULL -> 0 <= s ->
  rtc (pool_step max)
    (mk_pool NULL None 1 {[t := mk_th_proxy NULL s None]} (S_signal t) {[t := C_lock]}
      [s] [(t, s)] [])
    (mk_pool NULL None 0 ∅ (S_signal t) ∅ [s] [(t, s)] [(t, s)]).
Proof.
  intros Ht Hs. assert (Et : (t =? NULL) = false) by lia. assert (Es : (s <? 0) = false) by lia.
  assert (E1 : (-1 <? 0) = true) by done.
  do 13 step_one (T_client t) goes_on. step_one (T_client t) times_out.
  do 5 step_one (T_client t) goes_on.
  apply rtc_refl.
Qed.

(** C38: whatever [max_proxy_threads] (at least one), whatever the connection
    and wherever malloc puts the structure, the access to freed memory can
    happen: the signal of [server] comes after the thread it is meant for has
    processed the connection, has waited in vain for the next and has freed
    the structure. *)
Theorem signal_after_free max t s :
  1 <= max -> t <> NULL -> 0 <= s ->
  exists σ, reachable max σ /\ served σ = [(t, s)] /\
    forall ch, thread_step max T_server ch σ = Fault.
Proof.
  intros Hm Ht Hs. exists (mk_pool NULL None 0 ∅ (S_signal t) ∅ [s] [(t, s)] [(t, s)]).
  split; [|done]. unfold reachable. by etrans; [apply one_given | apply one_served].
Qed.

(** If the first thread cannot be created (or none may be), [alloc_proxy_th]
    waits for a signal that nobody is there to send: unless the wait is
    interrupted, no thread takes another step and the connection is never
    served. *)
Theorem creation_failure_hangs max s :
  0 <= s ->
  exists σ, reachable max σ /\ accepted σ = [s] /\ given σ = [] /\
    forall who ch, ch <> interrupted -> thread_step max who ch σ = Blocked.
Proof.
  intros Hs. exists (mk_pool NULL None 0 ∅ (A_wait s) ∅ [s] [] []).
  assert (Es : (s <? 0) = false) by lia. split; [|split_and!; [done | done |]].
  - unfold reachable, initial_pool. step_one T_server (accepts s). step_one T_server goes_on.
    destruct (0 <? max) eqn:Em; step_one T_server fails; apply rtc_refl.
  - intros [|t] ch Hch; [by destruct ch|]. simpl. by rewrite lookup_empty.
Qed.
End Pool.
