(* ===== verification/ProxyMain.v ===== *)
(** * The start of the web proxy (Examples/proxy.c)

    [main] reads the options, makes the socket and calls [server].  What
    getopt finds in the arguments is given: option letters with their
    arguments.  So are the results of the system calls. *)

From Stdlib Require Import Ascii String.
From S2P Require Import Prelude Proxy ProxyPool.
Open Scope char_scope.
Open Scope Z_scope.

Module Main.
Import Proxy.

(** ** Data and operations *)

Definition LISTENPORT : Z := 8080.
Definition TIMEOUT_OUT : Z := 60.
Definition MAX_PROXY_THREADS : Z := 64.

(** [listenport] and the global variables the options set. *)
Record options := mk_options {
  listenport : Z;
  configuration : config;
  timeout_out : Z;
  max_proxy_threads : Z
}.

#[export] Instance set_listenport : Setter listenport := fun v o =>
  mk_options v (configuration o) (timeout_out o) (max_proxy_threads o).
#[export] Instance set_configuration : Setter configuration := fun v o =>
  mk_options (listenport o) v (timeout_out o) (max_proxy_threads o).
#[export] Instance set_timeout_out : Setter timeout_out := fun v o =>
  mk_options (listenport o) (configuration o) v (max_proxy_threads o).
#[export] Instance set_max_proxy_threads : Setter max_proxy_threads := fun v o =>
  mk_options (listenport o) (configuration o) (timeout_out o) v.

(** How [main] goes on: the [server] runs, the process exits with a status, or
    [strcpy] has written past the end of [NextProxyAdr]. *)
Inductive started := Serves (o : options) | Exits (status : Z) | Overruns.

(** The values of the variables at the start. *)
Definition defaults : options :=
  mk_options LISTENPORT (mk_config false [] 0 false) TIMEOUT_OUT MAX_PROXY_THREADS.

(** [-x host:port]; [strcpy] copies the host and the 0 behind it into the
    array [NextProxyAdr] of 128 bytes. *)
Definition next_proxy (optarg : bytes) (o : options) : started :=
  match strchr optarg ":" with
  | None => Exits 1
  | Some n =>
      let host := take n optarg in
      match (b ← strncpy (replicate 128 zero) 0 host n; put_byte b n zero) with
      | None => Overruns
      | Some b => Serves (setf configuration
          (mk_config true (cstr b) (atoi (drop (S n) optarg)) (NoCache (configuration o))) o)
      end
  end.

(** The [switch] over the option. *)
Definition set_option (x : ascii * bytes) (o : options) : started :=
  let '(opt, optarg) := x in
  if Ascii.eqb opt ":" || Ascii.eqb opt "?" then Exits 1
  else if Ascii.eqb opt "p" then Serves (setf listenport (atoi optarg) o)
  else if Ascii.eqb opt "x" then next_proxy optarg o
  else if Ascii.eqb opt "t" then Serves (setf timeout_out (atoi optarg) o)
  else if Ascii.eqb opt "n" then
    let c := configuration o in
    Serves (setf configuration
      (mk_config (ConnectToProxy c) (NextProxyAdr c) (NextProxyPort c) true) o)
  else if Ascii.eqb opt "m" then Serves (setf max_proxy_threads (atoi optarg) o)
  else Serves o.

(** The loop over the options. *)
Fixpoint get_options (l : list (ascii * bytes)) (o : options) : started :=
  match l with
  | [] => Serves o
  | x :: l => match set_option x o with Serves o' => get_options l o' | r => r end
  end.

(** [main]; [socket], [setsockopt], [bind] and [listen] are the results of
    these calls. *)
Definition main (l : list (ascii * bytes)) (socket setsockopt bind listen : Z) : started :=
  match get_options l defaults with
  | Serves o =>
      if socket =? -1 then Exits 1
      else if setsockopt =? -1 then Exits 1
      else if bind =? -1 then Exits 1
      else if listen =? -1 then Exits 1
      else Serves o
  | r => r
  end.

(** ** What the options mean *)

(** The argument of the last option [c], through [f]. *)
Definition last_option {A} (c : ascii) (f : bytes -> A) (d : A) (l : list (ascii * bytes)) : A :=
  default d ((fun x => f x.2) <$> last (filter (fun x => x.1 = c) l)).

Lemma last_option_snoc {A} c (f : bytes -> A) d l x :
  last_option c f d (l ++ [x]) = if decide (x.1 = c) then f x.2 else last_option c f d l.
Proof.
  unfold last_option. rewrite filter_app, filter_cons, filter_nil. case_decide.
  - by rewrite last_snoc.
  - by rewrite app_nil_r.
Qed.

(** The host and the port of [host:port]. *)
Definition host_of (s : bytes) : bytes := take (default O (strchr s ":")) s.
Definition port_of (s : bytes) : Z := atoi (drop (S (default O (strchr s ":"))) s).

Definition legal (x : ascii * bytes) : Prop :=
  x.1 ∈ ["p"; "t"; "n"; "m"] \/
  x.1 = "x" /\ is_Some (strchr x.2 ":") /\ zero ∉ x.2 /\ (length (host_of x.2) < 128)%nat.

Definition meaning (l : list (ascii * bytes)) : options :=
  mk_options (last_option "p" atoi LISTENPORT l)
    (mk_config (last_option "x" (fun _ => true) false l) (last_option "x" host_of [] l)
      (last_option "x" port_of 0 l) (last_option "n" (fun _ => true) false l))
    (last_option "t" atoi TIMEOUT_OUT l) (last_option "m" atoi MAX_PROXY_THREADS l).

Lemma set_legal x l : legal x -> set_option x (meaning l) = Serves (meaning (l ++ [x])).
Proof.
  destruct x as [c s]. unfold legal. simpl. intros Hx. unfold meaning. rewrite !last_option_snoc. simpl.
  destruct Hx as [Hx|(-> & [n Hn] & Hz & Hl)].
  - repeat (apply elem_of_cons in Hx as [->|Hx]; [reflexivity|]). by apply elem_of_nil in Hx.
  - cbn -[atoi]. unfold next_proxy, host_of, port_of in *. rewrite Hn in *. simpl in Hl.
    assert (Hz' : zero ∉ take n s) by (intros Hin%elem_of_take; destruct Hin as (k & Hk & _);
      by apply Hz; eapply list_elem_of_lookup_2).
    assert (Hln : length (take n s) = n).
    { apply length_take_le. clear -Hn. revert n Hn. induction s as [|c s IH]; intros n; [done|]. simpl.
      destruct (Ascii.eqb c ":"); [intros [= <-]; lia|]. destruct (strchr s ":") as [k|]; [|done].
      intros [= <-]. specialize (IH k eq_refl). lia. }
    destruct (copy_fits (replicate 128 zero) (take n s) []) as (b & E & Eb);
      [by rewrite length_replicate | done |].
    rewrite app_nil_r, Hln in E. rewrite E. cbn [default from_option id]. by rewrite Eb.
Qed.

Lemma get_legal l l' : Forall legal l' ->
  forall l2, get_options (l' ++ l2) (meaning l) = get_options l2 (meaning (l ++ l')).
Proof.
  revert l. induction l' as [|x l' IH]; intros l Hl l2; [by rewrite app_nil_r|].
  apply Forall_cons in Hl as [Hx Hl]. simpl. rewrite set_legal by done.
  rewrite IH by done. by rewrite <- app_assoc.
Qed.

Lemma atoi_int s : - 2 ^ 31 <= atoi s < 2 ^ 31.
Proof. unfold atoi, clamp. repeat case_match; lia. Qed.

(** With legal options [main] comes to [server], unless a system call fails;
    of each option the last one counts, in whatever order the different options
    are given; the limit on the number of threads is an [int], so that the pool
    never has more threads. *)
Theorem main_correct l socket setsockopt bind listen :
  Forall legal l ->
  main l socket setsockopt bind listen =
    (if bool_decide (-1 ∈ [socket; setsockopt; bind; listen]) then Exits 1 else Serves (meaning l)) /\
  forall σ, Pool.reachable (max_proxy_threads (meaning l)) σ ->
    Pool.thread_count σ <= Z.max 0 (max_proxy_threads (meaning l)).
Proof.
  intros Hl. split.
  - unfold main. pose proof (get_legal [] l Hl []) as E. rewrite app_nil_r in E.
    change (meaning []) with defaults in E. rewrite E. simpl.
    case_bool_decide as Hin; rewrite !elem_of_cons, elem_of_nil in Hin;
      repeat (case_match; [|]); try done; lia.
  - intros σ Hr.
    assert (Hm : max_proxy_threads (meaning l) < 2 ^ 31).
    { simpl. unfold last_option. destruct (last _) as [x|]; simpl; [|done].
      pose proof (atoi_int x.2). lia. }
    destruct (Pool.reachable_inv _ Hm σ Hr) as [k []]. done.
Qed.

(** A host of 128 bytes or more after [-x] overruns [NextProxyAdr]. *)
Theorem main_overruns l host port l2 socket setsockopt bind listen :
  Forall legal l -> ":" ∉ host -> (128 <= length host)%nat ->
  main (l ++ ("x", host ++ ":" :: port) :: l2) socket setsockopt bind listen = Overruns.
Proof.
  intros Hl Hc Hh. unfold main. change defaults with (meaning []). rewrite get_legal by done. simpl.
  unfold next_proxy.
  assert (E : forall h, ":" ∉ h -> strchr (h ++ ":" :: port) ":" = Some (length h)).
  { induction h as [|c h IH]; intros Hn; [done|]. apply not_elem_of_cons in Hn as [Hne Hn]. simpl.
    rewrite IH by done. destruct (Ascii.eqb_spec c ":"); [congruence | done]. }
  rewrite E by done. by rewrite copy_overruns by (rewrite length_replicate; lia).
Qed.
End Main.
