(* ===== verification/Samples.v ===== *)
(** * A concrete process

    A program of three threads and the manager on an i386, in a state the
    library reaches: the initial thread, two threads in the first two stack
    segments, and synchronization objects in various states.  The examples of
    the last file apply the theorems to it. *)

From S2P Require Import Prelude Types Machine MachineFacts Platform Layout Memory Spinlock Queue.
From S2P Require Import Restart Mutex Cleanup Specific Join Cancel Manager PThread.

#[export] Existing Instance i386.

(** The program's own functions return at once. *)
#[export] Instance quiet : UserCode := fun _ _ => Ret 0.

(** The stacks of the threads end here; the descriptors of the segments. *)
Definition bos0 : addr := 1534 * 2 ^ 21.
Definition ini : addr := addr_initial_thread.
Definition mgr : addr := addr_manager_thread.
Definition t0 : addr := bos0 - 712.
Definition t1 : addr := bos0 - 2 ^ 21 - 712.

Definition no_values : list Z := replicate 128 NULL.

(** A descriptor: links of the list, process, link of the queue. *)
Definition sample_thread (next prv pid waiting : Z) : _pthread :=
  mk_pthread next prv waiting pid 0 0 NULL NULL 0 0 0 NULL 0 NULL NULL 0 0 0 0 0 NULL NULL ∅
    no_values.

Definition sample_proc (sp ppid : Z) : proc :=
  mk_proc sp ppid {[PTHREAD_SIG_RESTART]} ∅ PTHREAD_SIG_RESTART SCHED_OTHER 0.

Definition sample_thr : gmap Z _pthread :=
  {[ini := sample_thread t1 t0 100 NULL; t1 := sample_thread t0 ini 103 NULL;
    t0 := sample_thread ini t1 102 NULL; mgr := sample_thread NULL NULL 101 NULL]}.

(** Free mutexes of both kinds, one that the thread [t0] holds and for which
    [t1] waits, one of an unknown kind, the two mutexes of the library. *)
Definition m_fast : addr := 5000.
Definition m_rec : addr := 5100.
Definition m_held : addr := 5200.
Definition m_bad : addr := 5300.

Definition sample_mtx : gmap Z pthread_mutex_t :=
  {[m_fast := PTHREAD_MUTEX_INITIALIZER; m_rec := PTHREAD_RECURSIVE_MUTEX_INITIALIZER_NP;
    m_held := mk_mutex 0 1 NULL PTHREAD_MUTEX_FAST_NP (mk_queue t1 t1);
    m_bad := mk_mutex 0 0 NULL 7 (mk_queue NULL NULL);
    addr_keys_mutex := fast_mutex 0 NULL; addr_atfork_lock := fast_mutex 0 NULL]}.

(** A condition nobody waits on, and one [t1] waits on. *)
Definition c_idle : addr := 6000.
Definition c_busy : addr := 6100.

Definition sample_cnd : gmap Z pthread_cond_t :=
  {[c_idle := PTHREAD_COND_INITIALIZER; c_busy := mk_cond 0 (mk_queue t1 t1)]}.

(** Semaphores with the counts 2 and 0. *)
Definition s_two : addr := 7000.
Definition s_zero : addr := 7100.

Definition sample_sms : gmap Z sem_t := {[s_two := mk_sem 5 0; s_zero := mk_sem 1 0]}.

Definition w_out : addr := 8000.

Definition sample_glb : globals :=
  mk_globals ini bos0 5 4 134600000 134608160 0 0 (1 :: 1 :: replicate 126 0) 128 0 0
    (mk_key 1 NULL :: replicate 127 (mk_key 0 NULL)) NULL NULL NULL.

Definition sample_krn : kernel :=
  mk_kernel
    {[100 := sample_proc (bos0 + 4096) 1; 101 := sample_proc 134604000 100;
      102 := sample_proc (bos0 - 5000) 101; 103 := sample_proc (bos0 - 2 ^ 21 - 5000) 101]}
    [] {[PTHREAD_SIG_RESTART := mk_sigaction (sa_handler addr_pthread_sighandler) ∅;
         PTHREAD_SIG_CANCEL := mk_sigaction (sa_handler addr_pthread_handle_sigcancel) ∅]}
    [] {[4; 5]} {[t0; t1]} [] [].

Definition sample : state :=
  mk_state sample_thr sample_mtx sample_cnd sample_sms
    {[9000 := mk_cleanup 0 0 0 NULL]} {[9100 := mk_attr 0 0 0 1 0]} {[9200 := mk_mutexattr 0]}
    ∅ ∅ {[w_out := 0]} sample_glb sample_krn.

(** The same with other answers of the environment. *)
Definition with_env (l : list Z) (σ : state) : state := upd_krn (setf envt l) σ.

(** The same with one descriptor changed. *)
Definition with_thread (a : addr) (d : _pthread) (σ : state) : state :=
  setf thr (<[a := d]> (thr σ)) σ.

Lemma sample_layout : layout_ok sample_glb 3.
Proof.
  constructor.
  - done.
  - exists 1534. reflexivity.
  - by vm_compute.
  - by vm_compute.
  - intros seg sp Hs [H1 _]. right.
    assert (134608160 <= THREAD_STACK_START_ADDRESS sample_glb - 4 * STACK_SIZE) by by vm_compute.
    assert (0 < STACK_SIZE) by by vm_compute. simpl in *. nia.
Qed.

(** Solves the decidable conditions of the examples. *)
Ltac sample_tac :=
  first [ reflexivity | done | by vm_compute | lia ].
Ltac sample_thread_tac := constructor; by vm_compute.
Ltac sample_queue_tac :=
  constructor;
  [ apply (bool_decide_unpack _); by vm_compute
  | apply (bool_decide_unpack _); by vm_compute | repeat split; by vm_compute | done | done ].
