(* ===== verification/Races.v ===== *)
(** * Interleavings that go wrong

    The queues of mutexes and conditions rely on a thread having a clear link
    [p_nextwaiting] when it starts to wait (the assertion in [enqueue] of
    queue.h).  [sem_wait] writes the link before it knows whether it will have
    to wait, and does not clear it when it gets the semaphore after all.  Two
    smaller cases follow: [pthread_once] returns while the routine still runs,
    and the compare-and-swap of the MIPS reports success on a mismatch. *)

From stdpp Require Import relations.
From S2P Require Import Prelude Types Machine MachineFacts Platform Layout Memory Spinlock Queue.
From S2P Require Import Restart Mutex Cleanup Specific Join Cancel Semaphore Manager PThread Interleave Samples.

(** The initial thread waits for the semaphore, then uses a mutex. *)
Definition race_waiter : itree evt unit :=
  sem_wait s_zero ;;
  __pthread_mutex_lock m_fast ;;
  __pthread_mutex_unlock m_fast ;;
  Ret tt.

(** The thread [t0] posts the semaphore while it holds the mutex. *)
Definition race_poster : itree evt unit :=
  __pthread_mutex_lock m_fast ;;
  sem_post s_zero ;;
  __pthread_mutex_unlock m_fast ;;
  Ret tt.

Definition racers : gmap Z (itree evt unit * jtab unit) :=
  {[100 := (race_waiter, ∅); 102 := (race_poster, ∅)]}.

(** [t0] takes the mutex; the waiter finds the semaphore empty and writes its
    link; [t0] posts; the waiter gets the semaphore and waits for the mutex. *)
Definition race_begin : list Z :=
  replicate 8 102 ++ replicate 4 100 ++ replicate 2 102 ++ replicate 100 100.

(** [t0] unlocks the mutex; the waiter locks and unlocks it. *)
Definition race_end : list Z := replicate 60 102 ++ replicate 100 100.

(** Process [p] of the pool is about to fault. *)
Definition at_fault (p : Z) (c : gmap Z (itree evt unit * jtab unit) * state) : bool :=
  match c.1 !! p with
  | Some (t, J) => match istep p t J c.2 with SHalt OFault => true | _ => false end
  | None => false
  end.

Lemma at_fault_faults p c : at_fault p c = true -> pool_faults c.
Proof.
  unfold at_fault. destruct (c.1 !! p) as [[t J]|] eqn:Hp; [|done].
  destruct (istep p t J c.2) as [|[]] eqn:E; try done. intros _.
  exists p, t, J. split; [done|]. left. rewrite <- E. constructor.
Qed.

(** C40: the threads of [racers] can reach a state in which the initial thread
    is in the queue of the mutex with a link that leads to the address 1, left
    there by a [sem_wait] that has returned; from there the unlocking of the
    mutex follows that link, and a thread accesses memory that is not
    mapped. *)
Theorem sem_wait_stale_link :
  exists c1 c2, rtc pool_step (racers, sample) c1 /\ rtc pool_step c1 c2 /\
    q_head ∘ m_waiting <$> mtx c1.2 !! m_fast = Some ini /\
    next_of (thr c1.2) ini = Some 1 /\ sem_status <$> sms c1.2 !! s_zero = Some 1 /\
    q_head ∘ m_waiting <$> mtx c2.2 !! m_fast = Some 1 /\ pool_faults c2.
Proof.
  exists (pool_run race_begin (racers, sample)),
    (pool_run race_end (pool_run race_begin (racers, sample))).
  split; [apply pool_run_steps|]. split; [apply pool_run_steps|].
  split; [by vm_compute|]. split; [by vm_compute|]. split; [by vm_compute|].
  split; [by vm_compute|]. apply (at_fault_faults 100). by vm_compute.
Qed.

(** ** [pthread_once] *)

(** The program's routine writes 1 to the word [w_out]. *)
Definition once_word : addr := 8004.
Definition once_init : UserCode := fun _ _ => store_word w_out 1 ;; Ret 0.

(** A thread that calls [pthread_once] and then reads what the routine
    wrote. *)
Definition once_client : itree evt Z :=
  pthread_once (U := once_init) once_word 1 ;;
  load words w_out id.

(** What process [p] of the pool is about to return. *)
Definition returning {A} (p : Z) (c : gmap Z (itree evt A * jtab A) * state) : option A :=
  match c.1 !! p with
  | Some (t, J) => match istep p t J c.2 with SHalt (ODone a _ _) => Some a | _ => None end
  | None => None
  end.

(** The second thread returns from [pthread_once] before the routine has
    written the word. *)
Theorem once_returns_early :
  exists c, rtc pool_step ({[102 := (once_client, ∅); 103 := (once_client, ∅)]},
                           setf words {[w_out := 0; once_word := 0]} sample) c /\
    returning 103 c = Some 0.
Proof.
  eexists (pool_run [102; 103; 103] _). split; [apply pool_run_steps|].
  by vm_compute.
Qed.

(** ** Compare-and-swap on the MIPS *)

(** Two threads wait for a semaphore with one unit, and both get it. *)
Definition mips_client : itree evt Z := sem_wait (P := mips) s_two.

Theorem mips_sem_wait_both :
  exists c, rtc pool_step ({[102 := (mips_client, ∅); 103 := (mips_client, ∅)]},
                           setf sms {[s_two := mk_sem 3 0]} sample) c /\
    returning 102 c = Some 0 /\ returning 103 c = Some 0 /\
    sem_status <$> sms c.2 !! s_two = Some 1.
Proof.
  eexists (pool_run [102; 103; 102; 103; 102; 103] _).
  split; [apply pool_run_steps|]. by vm_compute.
Qed.
