(* ===== verification/Witnesses.v ===== *)
(** * The theorems at work

    Each theorem applied to the process of [Samples], with its hypotheses
    discharged by computation. *)

From Stdlib Require Import Ascii String.
From S2P Require Import Prelude Types Machine MachineFacts Platform Layout Memory Spinlock Queue.
From S2P Require Import Restart Mutex Cleanup Specific Join Cancel Cond Semaphore Attr Signals.
From S2P Require Import Manager PThread Lifetime Fork Wrappers Weaks Syscalls Interleave PoolThreads MonitorPool MutexPool.
From S2P Require Import SemPool Ex2 Ex3 Ex4 Ex5 Proxy ProxyPool Samples.

Definition d_ini : _pthread := sample_thread t1 t0 100 NULL.
Definition d_t0 : _pthread := sample_thread ini t1 102 NULL.
Definition d_t1 : _pthread := sample_thread t0 ini 103 NULL.
Definition pr_ini : proc := sample_proc (bos0 + 4096) 1.
Definition pr_mgr : proc := sample_proc 134604000 100.
Definition pr_t0 : proc := sample_proc (bos0 - 5000) 101.
Definition pr_t1 : proc := sample_proc (bos0 - 2 ^ 21 - 5000) 101.

Lemma runs_ini : runs_thread 100 ini pr_ini d_ini sample.
Proof. sample_thread_tac. Qed.

Lemma runs_t0 : runs_thread 102 t0 pr_t0 d_t0 sample.
Proof. sample_thread_tac. Qed.

Lemma queue_t1 : queue_rep sample_thr (mk_queue t1 t1) [t1].
Proof. sample_queue_tac. Qed.

Lemma rep_fast : mutex_rep sample m_fast (mk_mutex_st PTHREAD_MUTEX_FAST_NP 0 NULL []).
Proof. constructor. exists (mk_queue NULL NULL). split; [reflexivity | apply queue_rep_nil]. Qed.

Lemma rep_rec : mutex_rep sample m_rec (mk_mutex_st PTHREAD_MUTEX_RECURSIVE_NP 0 NULL []).
Proof. constructor. exists (mk_queue NULL NULL). split; [reflexivity | apply queue_rep_nil]. Qed.

Lemma rep_held : mutex_rep sample m_held (mk_mutex_st PTHREAD_MUTEX_FAST_NP 1 NULL [t1]).
Proof. constructor. exists (mk_queue t1 t1). split; [reflexivity | apply queue_t1]. Qed.

Lemma running_t1 : all_running [t1] sample.
Proof. intros x ->%list_elem_of_singleton. exists d_t1, pr_t1. by vm_compute. Qed.

Lemma sample_restart : restart_installed sample.
Proof. reflexivity. Qed.

(** ** Locks and queues *)

(** The initial thread finds [m_held] taken and waits behind [t1]. *)
Lemma mutex_lock_correct_witness :
  exists σ', evals 100 (__pthread_mutex_lock m_held) sample (Blocks σ') /\
    mutex_rep σ' m_held (mk_mutex_st PTHREAD_MUTEX_FAST_NP 1 NULL [t1; ini]) /\
    links_only [t1] sample_thr (thr σ') /\ krn σ' = sample_krn.
Proof.
  refine (mutex_lock_correct 100 ini pr_ini d_ini m_held
            (mk_mutex_st PTHREAD_MUTEX_FAST_NP 1 NULL [t1]) sample runs_ini _ _ rep_held _ _ _).
  - done.
  - done.
  - by left.
  - apply (bool_decide_unpack _). by vm_compute.
  - by vm_compute.
Defined.

Lemma mutex_unlock_correct_witness :
  exists σ', evals 102 (__pthread_mutex_unlock m_held) sample (Done 0 σ') /\
    mutex_rep σ' m_held (mk_mutex_st PTHREAD_MUTEX_FAST_NP 0 NULL []) /\
    exists d pr, sample_thr !! t1 = Some d /\ procs sample_krn !! p_pid d = Some pr /\
      krn σ' = krn (post_signal (p_pid d) PTHREAD_SIG_RESTART sample) /\
      thr σ' = alter (setf p_nextwaiting NULL) t1 sample_thr.
Proof.
  refine (mutex_unlock_correct 102 m_held (mk_mutex_st PTHREAD_MUTEX_FAST_NP 1 NULL [t1]) sample
            rep_held _ _).
  - by left.
  - intros x [= <-]. exists d_t1, pr_t1. by vm_compute.
Defined.

Lemma mutex_trylock_refines_witness :
  evals 100 (__pthread_mutex_trylock m_held) sample (Done EBUSY sample).
Proof.
  refine (mutex_trylock_refines 100 ini pr_ini m_held
            (mk_mutex_st PTHREAD_MUTEX_FAST_NP 1 NULL [t1]) sample _ _ rep_held _).
  - by vm_compute.
  - by vm_compute.
  - by left.
Defined.

Lemma mutex_recursive_witness :
  exists σ1 σ2 σ3, evals 100 (times 3 (__pthread_mutex_lock m_rec)) sample (Done tt σ1) /\
    mutex_rep σ1 m_rec (mk_mutex_st PTHREAD_MUTEX_RECURSIVE_NP 3 ini []) /\
    evals 100 (times 2 (__pthread_mutex_unlock m_rec)) σ1 (Done tt σ2) /\
    mutex_rep σ2 m_rec (mk_mutex_st PTHREAD_MUTEX_RECURSIVE_NP 1 ini []) /\ krn σ2 = sample_krn /\
    evals 100 (__pthread_mutex_unlock m_rec) σ2 (Done 0 σ3) /\
    mutex_rep σ3 m_rec (mk_mutex_st PTHREAD_MUTEX_RECURSIVE_NP 0 ini []).
Proof.
  refine (mutex_recursive 100 ini pr_ini m_rec NULL [] 2 sample _ _ rep_rec _ _).
  - by vm_compute.
  - by vm_compute.
  - done.
  - by vm_compute.
Defined.

Lemma mutex_bad_kind_hangs_witness :
  exists σ', evals 100 (__pthread_mutex_lock m_bad) sample (Done EINVAL σ') /\
    evals 100 (__pthread_mutex_trylock m_bad) sample (Done EINVAL σ') /\
    evals 100 (__pthread_mutex_unlock m_bad) sample (Done EINVAL σ') /\
    forall q, hangs q (__pthread_mutex_lock m_bad) σ' /\ hangs q (__pthread_mutex_trylock m_bad) σ' /\
      hangs q (__pthread_mutex_unlock m_bad) σ' /\ hangs q (__pthread_mutex_destroy m_bad) σ'.
Proof.
  refine (mutex_bad_kind_hangs 100 m_bad (mk_mutex 0 0 NULL 7 (mk_queue NULL NULL)) sample _ _ _ _).
  - by vm_compute.
  - done.
  - done.
  - done.
Defined.

Lemma spinlock_exclusion_witness :
  exists σ1, evals 100 (acquire (m_spinlock_at m_fast)) sample (Done tt σ1) /\
    (forall q, hangs q (acquire (m_spinlock_at m_fast)) σ1) /\
    evals 100 (release (m_spinlock_at m_fast)) σ1 (Done tt sample).
Proof. refine (spinlock_exclusion 100 (m_spinlock_at m_fast) sample _). by vm_compute. Defined.

(** Two more threads on the queue of [m_held]. *)
Lemma queue_fifo_witness :
  exists σ1 σ2 v2, evals 100 (enqueue_all (m_waiting_at m_held) [t0; ini]) sample (Done tt σ1) /\
    evals 100 (dequeue_n (m_waiting_at m_held) 3) σ1 (Done [t1; t0; ini] σ2) /\
    get_queue (m_waiting_at m_held) σ2 = Some v2 /\ queue_rep (thr σ2) v2 [] /\
    (forall x, x ∈ [t1; t0; ini] -> next_of (thr σ2) x = Some NULL) /\
    (forall x, x ∉ [t1; t0; ini] -> thr σ2 !! x = sample_thr !! x).
Proof.
  refine (queue_fifo 100 (m_waiting_at m_held) (mk_queue t1 t1) [t1] [t0; ini] sample
            _ queue_t1 _ _ _).
  - by vm_compute.
  - apply (bool_decide_unpack _). by vm_compute.
  - apply (bool_decide_unpack _). by vm_compute.
  - intros x Hx. repeat (apply elem_of_cons in Hx as [->|Hx]); [by vm_compute..|].
    by apply elem_of_nil in Hx.
Defined.

Lemma remove_from_queue_refines_witness :
  exists σ' v', evals 100 (remove_from_queue (c_waiting_at c_busy) t1) sample (Done tt σ') /\
    get_queue (c_waiting_at c_busy) σ' = Some v' /\
    queue_rep (thr σ') v' (filter (fun x => x <> t1) [t1]) /\
    (t1 ∈ [t1] -> next_of (thr σ') t1 = Some NULL) /\
    (forall x d, sample_thr !! x = Some d ->
       exists n, thr σ' !! x = Some (setf p_nextwaiting n d)) /\
    krn σ' = sample_krn /\ glb σ' = sample_glb.
Proof.
  refine (remove_from_queue_refines 100 (c_waiting_at c_busy) (mk_queue t1 t1) [t1] t1 sample
            _ queue_t1).
  by vm_compute.
Defined.

Lemma restart_wakes_suspend_witness :
  evals 102 (suspend t0) sample (Blocks sample) /\
  exists σ1, evals 100 (restart t0) sample (Done tt σ1) /\
    evals 102 (suspend t0) σ1
      (Done tt (setf thr (<[t0 := setf p_signal PTHREAD_SIG_RESTART d_t0]> sample_thr) sample)).
Proof.
  refine (restart_wakes_suspend 100 102 t0 pr_t0 d_t0 sample runs_t0 _ _ _ sample_restart _).
  - done.
  - done.
  - done.
  - by vm_compute.
Defined.

Lemma thread_self_correct_witness :
  thread_self_at sample_glb (bos0 - 5000) = THREAD_SEG sample_glb 0 /\
  SEG_THREAD sample_glb (thread_self_at sample_glb (bos0 - 5000)) = 0 /\
  forall seg' sp', 0 <= seg' < 3 -> in_stack sample_glb seg' sp' ->
    thread_self_at sample_glb sp' = thread_self_at sample_glb (bos0 - 5000) -> seg' = 0.
Proof.
  refine (thread_self_correct sample_glb 3 0 (bos0 - 5000) sample_layout _ _).
  - lia.
  - by vm_compute.
Defined.

(** A program signal, with a handler of the program, ends the wait of a thread
    that was restarted earlier. *)
Definition d_stale : _pthread := setf p_signal PTHREAD_SIG_RESTART d_t0.
Definition pr_signal : proc := setf pr_pending {[15]} pr_t0.
Definition sample_stale : state :=
  setf krn (setf sigactions (<[15 := mk_sigaction (sa_handler 3000) ∅]> (sigactions sample_krn))
              (setf procs (<[102 := pr_signal]> (procs sample_krn)) sample_krn))
    (with_thread t0 d_stale sample).

Lemma suspend_stale_witness :
  evals 102 (suspend t0) sample_stale
    (Done tt (set_mask 102 (pr_mask pr_signal) (set_mask 102
      (sigdelset (pr_mask pr_signal) PTHREAD_SIG_RESTART ∪
       sa_mask (action_of sample_stale 15) ∪ {[15]}) (clear_signal 102 15 sample_stale)))).
Proof.
  refine (suspend_stale 102 t0 pr_signal d_stale 15 3000 sample_stale _ _ _ _ _ _ _).
  - sample_thread_tac.
  - done.
  - by vm_compute.
  - by vm_compute.
  - unfold handler_code, lib_handlers. simpl. eapply evals_bind; apply evals_ret.
  - by vm_compute.
Defined.

(** ** Condition variables *)

Lemma cond_busy : cond_rep sample c_busy [t1].
Proof. exists (mk_queue t1 t1). split; [by vm_compute | apply queue_t1]. Qed.

Lemma cond_signal_correct_witness :
  exists d σ', sample_thr !! t1 = Some d /\
    evals 100 (pthread_cond_signal c_busy) sample (Done 0 σ') /\ cond_rep σ' c_busy [] /\
    krn σ' = krn (post_signal (p_pid d) PTHREAD_SIG_RESTART sample) /\
    thr σ' = alter (setf p_nextwaiting NULL) t1 sample_thr.
Proof. exact (cond_signal_correct 100 c_busy [t1] sample cond_busy running_t1). Defined.

Lemma cond_broadcast_correct_witness :
  exists σ', evals 100 (pthread_cond_broadcast c_busy) sample (Done 0 σ') /\
    cond_rep σ' c_busy [] /\
    forall x d, x ∈ [t1] -> sample_thr !! x = Some d ->
      exists pr, procs (krn σ') !! p_pid d = Some pr /\ PTHREAD_SIG_RESTART ∈ pr_pending pr.
Proof. exact (cond_broadcast_correct 100 c_busy [t1] sample cond_busy running_t1). Defined.

(** [t0], which holds [m_rec] alone, waits on [c_busy] behind [t1]. *)
Definition st_rec1 : mutex_st := mk_mutex_st PTHREAD_MUTEX_RECURSIVE_NP 1 t0 [].
Definition sample_locked : state :=
  put_mutex m_rec (mk_mutex 0 1 t0 PTHREAD_MUTEX_RECURSIVE_NP (mk_queue NULL NULL)) sample.

Lemma cond_wait_blocks_witness :
  exists σ', evals 102 (pthread_cond_wait c_busy m_rec) sample_locked (Blocks σ') /\
    cond_rep σ' c_busy [t1; t0] /\
    mutex_rep σ' m_rec (mk_mutex_st PTHREAD_MUTEX_RECURSIVE_NP 0 t0 []) /\
    krn σ' = sample_krn.
Proof.
  refine (cond_wait_blocks 102 t0 pr_t0 d_t0 c_busy [t1] m_rec st_rec1 sample_locked
            _ _ _ _ _ _ _ _ _ _).
  - sample_thread_tac.
  - done.
  - done.
  - done.
  - by vm_compute.
  - exists (mk_queue t1 t1). split; [by vm_compute | apply queue_t1].
  - apply (bool_decide_unpack _). by vm_compute.
  - constructor. exists (mk_queue NULL NULL). split; [by vm_compute | apply queue_rep_nil].
  - by right.
  - intros x Hx. by apply elem_of_nil in Hx.
Defined.

(** [t1], alone on [c_busy], sleeps until the time is over. *)
Definition sample_sleep : state := with_env [0] sample.

Lemma timedwait_correct_witness :
  (exists σ1 σ', evals 102 (pthread_cond_signal c_busy) sample_sleep (Done 0 σ1) /\
     evals 103 (timedwait_sleep c_busy m_fast t1 (mk_timespec 1 0)) σ1 (Done 0 σ') /\
     cond_rep σ' c_busy [] /\
     mutex_rep σ' m_fast (mk_mutex_st PTHREAD_MUTEX_FAST_NP 1 NULL []) /\
     procs (krn σ') = procs sample_krn) /\
  (exists σ', evals 103 (timedwait_sleep c_busy m_fast t1 (mk_timespec 1 0)) sample_sleep
      (Done ETIMEDOUT σ') /\
    cond_rep σ' c_busy [] /\
    mutex_rep σ' m_fast (mk_mutex_st PTHREAD_MUTEX_FAST_NP 1 NULL []) /\
    procs (krn σ') = procs sample_krn) /\
  (forall r, evals 103 (timedwait_finish c_busy m_fast t1 0) (slept t1 d_t1 [] sample_sleep) r ->
             evals 103 (timedwait_sleep c_busy m_fast t1 (mk_timespec 1 0)) sample_sleep r) /\
  (exists σ1 σ', evals 102 (pthread_cond_signal c_busy) (slept t1 d_t1 [] sample_sleep) (Done 0 σ1) /\
     evals 103 (timedwait_finish c_busy m_fast t1 0) σ1 (Done ETIMEDOUT σ') /\
     cond_rep σ' c_busy [] /\
     mutex_rep σ' m_fast (mk_mutex_st PTHREAD_MUTEX_FAST_NP 1 NULL []) /\
     procs (krn σ') = procs (krn (post_signal 103 PTHREAD_SIG_RESTART sample_sleep))).
Proof.
  refine (timedwait_correct 103 102 t1 pr_t1 d_t1 c_busy [] m_fast (mk_timespec 1 0) []
            (mk_mutex_st PTHREAD_MUTEX_FAST_NP 0 NULL [])
            (mk_mutex_st PTHREAD_MUTEX_FAST_NP 1 NULL []) sample_sleep
            _ _ _ _ _ _ _ _ _ _ _ _ _).
  - sample_thread_tac.
  - done.
  - done.
  - apply sample_restart.
  - done.
  - apply (bool_decide_unpack _). by vm_compute.
  - by vm_compute.
  - done.
  - exists (mk_queue t1 t1). split; [by vm_compute | apply queue_t1].
  - constructor. exists (mk_queue NULL NULL). split; [by vm_compute | apply queue_rep_nil].
  - by left.
  - done.
  - done.
Defined.

(** From 10.75 s to 12.5 s it is 1.75 s. *)
Lemma relative_time_spec_witness :
  let t := relative_time (mk_timespec 12 500000000) (mk_timeval 10 750000) in
  0 <= tv_nsec t < 10 ^ 9 /\
  (10 + tv_sec t) * 10 ^ 9 + 750000 * 1000 + tv_nsec t = 12 * 10 ^ 9 + 500000000 /\
  (tv_sec t < 0 <-> 12 * 10 ^ 9 + 500000000 < 10 * 10 ^ 9 + 750000 * 1000).
Proof.
  refine (relative_time_spec (mk_timespec 12 500000000) (mk_timeval 10 750000) _ _ _ _);
    simpl; lia.
Defined.

(** ** Semaphores *)

(** [t1] waits on the semaphore [s_zero]. *)
Definition sample_sem : state :=
  setf sms (<[s_zero := mk_sem (wrapS 32 t1) 0]> sample_sms)
    (with_thread t1 (setf p_nextwaiting 1 d_t1) sample).

Lemma sem_waiting_t1 : sem_rep sample_sem s_zero (Waiters t1 []).
Proof.
  split; [by vm_compute|]. split; [|split].
  - constructor; [by vm_compute | constructor].
  - apply NoDup_singleton.
  - by vm_compute.
Qed.

Lemma sem_wait_correct_witness :
  (exists n, Waiters t1 [] = Count n /\ 0 < n /\
     exists σ', evals 102 (sem_wait s_zero) sample_sem (Done 0 σ') /\
       sem_rep σ' s_zero (Count (n - 1)) /\ thr σ' = thr sample_sem /\ krn σ' = krn sample_sem) \/
  (sem_empty (Waiters t1 []) /\
     exists σ', evals 102 (sem_wait s_zero) sample_sem (Blocks σ') /\
       sem_rep σ' s_zero (Waiters t0 [t1]) /\ krn σ' = krn sample_sem).
Proof.
  refine (sem_wait_correct 102 t0 pr_t0 d_t0 s_zero (Waiters t1 []) sample_sem
            _ sem_waiting_t1 _ _ _ _ _).
  - sample_thread_tac.
  - apply (bool_decide_unpack _). by vm_compute.
  - by vm_compute.
  - done.
  - done.
  - by vm_compute.
Defined.

Lemma sem_post_correct_witness :
  exists σ', evals 100 (sem_post s_zero) sample_sem (Done 0 σ') /\
    sem_rep σ' s_zero (Count 1) /\
    forall y d, y ∈ [t1] -> thr sample_sem !! y = Some d ->
      exists pr, procs (krn σ') !! p_pid d = Some pr /\ PTHREAD_SIG_RESTART ∈ pr_pending pr.
Proof.
  refine (sem_post_correct 100 s_zero (Waiters t1 []) sample_sem sem_waiting_t1 _ _).
  - intros x ->%list_elem_of_singleton. eexists _, _. split; by vm_compute.
  - right. right. by eexists _, _.
Defined.

Lemma sem_unqueue_spec_witness :
  exists σ', evals 103 (sem_unqueue s_zero t1) sample_sem (Done tt σ') /\
    sem_rep σ' s_zero (Count 0) /\ krn σ' = krn sample_sem.
Proof.
  refine (sem_unqueue_spec 103 t1 s_zero (Waiters t1 []) (setf p_nextwaiting 1 d_t1) sample_sem
            sem_waiting_t1 _ _ _ _).
  - done.
  - by vm_compute.
  - by vm_compute.
  - done.
Defined.

Lemma sem_trywait_correct_witness :
  (exists n, Count 2 = Count n /\ 0 < n /\
     exists σ', evals 100 (sem_trywait s_two) sample (Done 0 σ') /\
       sem_rep σ' s_two (Count (n - 1)) /\ thr σ' = sample_thr /\ krn σ' = sample_krn) \/
  (sem_empty (Count 2) /\
     evals 100 (sem_trywait s_two) sample
       (Done (-1) (setf thr (<[ini := setf p_errno EAGAIN d_ini]> sample_thr) sample))).
Proof.
  refine (sem_trywait_correct 100 ini pr_ini d_ini s_two (Count 2) sample runs_ini _).
  split; [lia|]. split; by vm_compute.
Defined.

(** A semaphore in memory that held a taken lock. *)
Definition sample_dirty : state := setf sms {[s_two := mk_sem 0 1]} sample.

Lemma sem_init_leaves_lock_witness :
  let σ' := setf sms (<[s_two := setf sem_status 1 (mk_sem 0 1)]> (sms sample_dirty)) sample_dirty in
  evals 100 (sem_init s_two 0 0) sample_dirty (Done 0 σ') /\ hangs 100 (sem_post s_two) σ'.
Proof.
  refine (sem_init_leaves_lock 100 s_two (mk_sem 0 1) sample_dirty _ _ _).
  - done.
  - by vm_compute.
  - done.
Defined.

(** ** Life of a thread *)


(** [t0] exits with the value 77, and the initial thread joins it. *)
Lemma exit_then_join_witness :
  exists σe σ', evals 102 (pthread_exit (X := unit) 77) sample (Exits σe) /\
    evals 100 (pthread_join t0 w_out) σe (Done 0 σ') /\ words σ' !! w_out = Some 77 /\
    pipe_data (krn σ') = pipe_data (krn σe) ++ [mk_request ini (REQ_FREE t0)].
Proof.
  refine (exit_then_join 102 t0 pr_t0 d_t0 77 (setf p_canceled 0 d_t0) 100 pr_ini w_out 0 sample
            (put_thr t0 (setf p_canceled 0 d_t0) sample) (put_thr t0 (setf p_canceled 0 d_t0) sample)
            runs_t0 _ _ _ _ _ _ _ _ _ _ _ _ _ _).
  - done.
  - apply (run_evals 100). vm_compute. reflexivity.
  - apply (run_evals 2000). vm_compute. reflexivity.
  - by vm_compute.
  - done.
  - done.
  - done.
  - done.
  - done.
  - by vm_compute.
  - by vm_compute.
  - done.
  - by vm_compute.
  - by vm_compute.
Defined.

Lemma join_detach_errors_witness :
  (ini = ini -> evals 100 (pthread_join ini w_out) sample (Done EDEADLK sample)) /\
  (ini <> ini -> 0 <> 0 \/ NULL <> NULL -> evals 100 (pthread_join ini w_out) sample (Done EINVAL sample)) /\
  (0 <> 0 -> evals 100 (pthread_detach ini) sample (Done EINVAL sample)).
Proof.
  refine (join_detach_errors 100 pr_ini ini d_ini w_out sample _ _ _).
  - by vm_compute.
  - by vm_compute.
  - done.
Defined.

Lemma ring_sample : ring sample_thr ini [t1; t0].
Proof.
  constructor; [repeat split; by vm_compute|]. apply (bool_decide_unpack _). by vm_compute.
Qed.

Lemma segment_t0 : is_segment sample 0 t0.
Proof.
  constructor; [exists 3; split; [apply sample_layout | lia] | | by vm_compute | done].
  apply Nat.ltb_lt. by vm_compute.
Qed.

Lemma first_segments_used j v :
  0 <= j < 2 -> stack_segments sample_glb !! Z.to_nat j = Some v -> v <> 0.
Proof.
  intros Hj Hv. assert (j = 0 \/ j = 1) as [-> | ->] by lia; vm_compute in Hv; congruence.
Qed.

Definition t2 : addr := bos0 - 2 * 2 ^ 21 - 712.

(** The initial thread asks for a thread: it gets the third segment. *)
Lemma create_request_served_witness :
  exists σ' dn pn dth' prth',
    evals 101 (manager_request (mk_request ini (REQ_CREATE NULL 3000 9 ∅)))
      (with_env [1; 104] sample) (Done (inl tt) σ') /\
    ring (thr σ') ini [t2; t1; t0] /\
    stack_segments (glb σ') = <[2%nat := 1]> (stack_segments sample_glb) /\
    runs_thread 104 t2 pn dn σ' /\ p_pid dn = 104 /\ p_detached dn = 0 /\
    p_initial_fn dn = 3000 /\ p_initial_fn_arg dn = 9 /\ p_initial_mask dn = ∅ /\
    thr σ' !! ini = Some dth' /\ p_retcode dth' = 0 /\ p_retval dth' = t2 /\
    procs (krn σ') !! 100 = Some prth' /\ PTHREAD_SIG_RESTART ∈ pr_pending prth'.
Proof.
  refine (create_request_served 101 pr_mgr ini [t1; t0] ini d_ini pr_ini NULL 0 3000 9 ∅ 3 2 1 104 []
            (with_env [1; 104] sample) sample_layout _ _ _ _ _ _ _ _ _ _ _ _ ring_sample _ _ _ _).
  - lia.
  - by vm_compute.
  - by vm_compute.
  - by vm_compute.
  - exact first_segments_used.
  - done.
  - done.
  - done.
  - by vm_compute.
  - by vm_compute.
  - by left.
  - done.
  - apply (bool_decide_unpack _). by vm_compute.
  - by vm_compute.
  - done.
  - by vm_compute.
Defined.

Lemma handle_create_clone_fails_witness :
  exists σ', evals 101 (pthread_handle_create ini NULL 3000 9 ∅ 100) (with_env [1; -1] sample)
      (Done EAGAIN σ') /\
    thr σ' !! t2 = None /\ stack_segments (glb σ') = stack_segments sample_glb /\
    ring (thr σ') ini [t1; t0] /\ procs (krn σ') = procs sample_krn.
Proof.
  refine (handle_create_clone_fails 101 mgr pr_mgr (sample_thread NULL NULL 101 NULL) ini [t1; t0]
            ini NULL 0 3000 9 ∅ 100 2 1 [] (with_env [1; -1] sample) _ _ _ _ _ _ _ _ ring_sample _ _).
  - by vm_compute.
  - lia.
  - by vm_compute.
  - exact first_segments_used.
  - done.
  - done.
  - sample_thread_tac.
  - by left.
  - apply (bool_decide_unpack _). by vm_compute.
  - done.
Defined.

Lemma t1_not_102 y e : y ∈ [t1] -> thr sample !! y = Some e -> p_pid e <> 102.
Proof. intros ->%list_elem_of_singleton He. vm_compute in He. by injection He as <-. Qed.

(** The process of [t0] has ended. *)
Lemma pthread_exited_correct_witness :
  exists σ', evals 101 (pthread_exited 102) sample (Done tt σ') /\ ring (thr σ') ini [t1] /\
    (0 <> 0 -> thr σ' !! t0 = None /\ stack_segments (glb σ') !! 0%nat = Some 0) /\
    (0 = 0 -> thr σ' !! t0 = Some (setf p_exited 1 d_t0) /\ glb σ' = sample_glb).
Proof.
  refine (pthread_exited_correct 101 ini 102 0 [t1] t0 [] d_t0 sample
            _ ring_sample _ _ _ segment_t0 t1_not_102 _).
  - done.
  - by vm_compute.
  - done.
  - done.
  - done.
Defined.

Lemma free_exited_commute_witness :
  exists σ', evals 101 (pthread_handle_free t0 ;; pthread_exited 102) sample (Done tt σ') /\
    evals 101 (pthread_exited 102 ;; pthread_handle_free t0) sample (Done tt σ') /\
    thr σ' !! t0 = None /\ stack_segments (glb σ') !! 0%nat = Some 0 /\
    ring (thr σ') ini [t1].
Proof.
  refine (free_exited_commute 101 ini 102 0 [t1] t0 [] d_t0 sample
            _ ring_sample _ _ _ segment_t0 t1_not_102 _ _ _).
  - done.
  - by vm_compute.
  - done.
  - done.
  - done.
  - done.
  - done.
Defined.

Lemma process_exit_correct_witness :
  exists σ2, evals 101 (manager_request (mk_request ini (REQ_PROCESS_EXIT 3))) sample
      (Exits (terminate 101 (exit_status 0) σ2)) /\
    __pthread_exit_requested (glb σ2) = 1 /\ __pthread_exit_code (glb σ2) = 3 /\
    (forall x e, x ∈ [t1; t0] -> sample_thr !! x = Some e ->
       exists pr', procs (krn σ2) !! p_pid e = Some pr' /\ PTHREAD_SIG_CANCEL ∈ pr_pending pr') /\
    exists pr', procs (krn σ2) !! 100 = Some pr' /\ PTHREAD_SIG_RESTART ∈ pr_pending pr'.
Proof.
  refine (process_exit_correct 101 ini 3 [t1; t0] d_ini pr_ini sample ring_sample _ _ _).
  - intros x Hx. apply elem_of_cons in Hx as [-> | ->%list_elem_of_singleton].
    + exists d_t1, pr_t1. by vm_compute.
    + exists d_t0, pr_t0. by vm_compute.
  - by vm_compute.
  - by vm_compute.
Defined.

(** The state in which a program starts. *)
Definition fresh_state : state :=
  mk_state {[ini := __pthread_initial_thread; mgr := __pthread_manager_thread]}
    ∅ ∅ ∅ ∅ ∅ ∅ ∅ ∅ ∅ initial_globals
    (mk_kernel {[100 := mk_proc (bos0 + 2 ^ 22) 1 ∅ ∅ 17 0 0]} [] ∅ [] ∅ ∅ [] []).

Lemma initialize_spec_witness :
  exists σ', evals 100 __pthread_initialize fresh_state (Done tt σ') /\
    __pthread_initial_thread_bos (glb σ') = bos0 /\
    thr σ' = <[ini := setf p_pid 100 __pthread_initial_thread]> (thr fresh_state) /\
    restart_installed σ' /\
    action_of σ' PTHREAD_SIG_CANCEL =
      mk_sigaction (sa_handler addr_pthread_handle_sigcancel) ∅ /\
    procs (krn σ') !! 100 =
      Some (mk_proc (bos0 + 2 ^ 22) 1 (∅ ∪ {[PTHREAD_SIG_RESTART]}) ∅ 17 0 0) /\
    on_exit_fns (krn σ') = [addr_pthread_exit_process].
Proof.
  refine (initialize_spec 100 (mk_proc (bos0 + 2 ^ 22) 1 ∅ ∅ 17 0 0) __pthread_initial_thread
            fresh_state _ _ _).
  - done.
  - by vm_compute.
  - by vm_compute.
Defined.

(** The reply of the manager is there. *)
Definition d_reply : _pthread := setf p_retval t2 d_ini.
Definition pr_reply : proc := setf pr_pending {[PTHREAD_SIG_RESTART]} pr_ini.
Definition sample_reply : state :=
  setf krn (setf procs (<[100 := pr_reply]> (procs sample_krn)) sample_krn)
    (with_thread ini d_reply sample).

Lemma create_returns_witness :
  evals 100 (pthread_create w_out NULL 3000 9) sample_reply
    (Done 0 (create_answered 100 ini w_out d_reply
      (requested (mk_request ini (REQ_CREATE NULL 3000 9 {[PTHREAD_SIG_RESTART]})) sample_reply))).
Proof.
  refine (create_returns 100 ini pr_reply d_reply w_out NULL 3000 9 0 sample_reply _ _ _ _ _ _ _).
  - sample_thread_tac.
  - by vm_compute.
  - done.
  - done.
  - reflexivity.
  - by vm_compute.
  - by vm_compute.
Defined.

(** A child without manager: the descriptor 0 is closed. *)
Definition sample_child : state :=
  setf krn (setf open_fds {[0; 1; 2]} sample_krn)
    (setf glb (setf __pthread_manager_request (-1) (setf __pthread_manager_reader 0 sample_glb))
      sample).

Lemma reset_main_spec_witness :
  evals 100 __pthread_reset_main_thread sample_child (Done tt (main_reset 100 ini d_ini sample_child)).
Proof. refine (reset_main_spec 100 ini pr_ini d_ini sample_child _). sample_thread_tac. Defined.

(** *** A whole life

    The manager can be restarted, and there is a place for the value. *)
Definition pr_mgr_free : proc := setf pr_mask ∅ pr_mgr.
Definition sample_rest : state :=
  setf words {[w_out := 0; w_out + 4 := 0]}
    (setf krn (setf procs (<[101 := pr_mgr_free]> (procs sample_krn)) (setf envt [1; 104] sample_krn))
      sample).

Lemma sample_at_rest : at_rest 100 ini pr_ini d_ini 101 pr_mgr_free ini [t1; t0] sample_rest.
Proof.
  constructor; try (by vm_compute); try apply ring_sample; try (by left); try done.
  intros z Hz. by apply elem_of_nil in Hz.
Qed.

Lemma sample_can_create : can_create 2 3 1 104 [] ini [t1; t0] sample_rest.
Proof.
  constructor; try (by vm_compute); try exact sample_layout; try exact first_segments_used; try done.
  - intros q pr Hq. unfold sample_rest, sample_krn in Hq. fields_in Hq.
    repeat (apply lookup_insert_Some in Hq as [[_ <-]|[_ Hq]]; [by vm_compute|]).
    apply lookup_singleton_Some in Hq as [_ <-]. by vm_compute.
  - apply (bool_decide_unpack _). by vm_compute.
Qed.

Lemma thread_lifetime_witness :
  exists σ1 σ2 σ3 σ4 σ5 σ6 d',
    evals 100 (pthread_create w_out NULL 3000 9) sample_rest (Blocks σ1) /\
    evals 101 (manager_body tt) σ1 (Done (inl tt) σ2) /\
    evals 100 (create_answer w_out ini) σ2 (Done 0 σ3) /\
    words σ3 !! w_out = Some t2 /\ ring (thr σ3) ini [t2; t1; t0] /\
    evals 104 (pthread_start_thread t2) σ3 (Exits σ4) /\
    evals 100 (pthread_join t2 (w_out + 4)) σ4 (Done 0 σ5) /\ words σ5 !! (w_out + 4) = Some 0 /\
    evals 101 (manager_body tt) σ5 (Done (inl tt) σ6) /\
    at_rest 100 ini pr_ini d' 101 pr_mgr_free ini [t1; t0] σ6 /\ thr σ6 !! t2 = None /\
    glb σ6 = glb sample_rest /\ procs (krn σ6) = procs (krn sample_rest) /\
    zombies (krn σ6) = zombies (krn sample_rest).
Proof.
  refine (thread_lifetime 100 ini pr_ini d_ini 101 pr_mgr_free ini [t1; t0] 2 3 1 104 [] NULL 3000 9 0
            w_out 0 (w_out + 4) 0 sample_rest sample_at_rest sample_can_create _ _ _ _ _).
  - by left.
  - intros s. exists s. split; [apply evals_ret | done].
  - by vm_compute.
  - by vm_compute.
  - done.
Defined.

(** ** Thread-specific data and cleanup handlers *)

Lemma key_create_correct_witness :
  (exists j k σ', pthread_keys sample_glb !! j = Some k /\ in_use k = 0 /\
     (forall i k', (i < j)%nat -> pthread_keys sample_glb !! i = Some k' -> in_use k' <> 0) /\
     evals 100 (__pthread_key_create w_out 3000) sample (Done 0 σ') /\
     words σ' !! w_out = Some (Z.of_nat j) /\
     pthread_keys (glb σ') = <[j := mk_key 1 3000]> (pthread_keys sample_glb) /\
     mtx σ' = sample_mtx /\ thr σ' = sample_thr /\ krn σ' = sample_krn) \/
  (Forall (fun k => in_use k <> 0) (pthread_keys sample_glb) /\
   evals 100 (__pthread_key_create w_out 3000) sample (Done EAGAIN sample)).
Proof.
  refine (key_create_correct 100 w_out 3000 NULL 0 sample _ _ _).
  - by vm_compute.
  - by vm_compute.
  - by vm_compute.
Defined.

(** Two keys are allocated; the second one has a value. *)
Definition d_second : _pthread := setf p_specific (<[1%nat := 7]> no_values) d_ini.
Definition sample_keys : state :=
  with_thread ini d_second
    (setf glb (setf pthread_keys (mk_key 1 NULL :: mk_key 1 NULL :: replicate 126 (mk_key 0 NULL)) sample_glb)
      sample).

Lemma specific_roundtrip_witness :
  exists σ', evals 100 (__pthread_setspecific 0 42) sample_keys (Done 0 σ') /\
    evals 100 (__pthread_getspecific 0) σ' (Done 42 σ') /\
    (exists v', evals 100 (__pthread_getspecific 1) sample_keys (Done v' sample_keys) /\
                evals 100 (__pthread_getspecific 1) σ' (Done v' σ')) /\
    (forall th, th <> ini -> thr σ' !! th = thr sample_keys !! th).
Proof.
  destruct (specific_roundtrip 100 ini pr_ini d_second 0 42 sample_keys)
    as (σ' & E1 & E2 & E3 & E4 & _).
  - sample_thread_tac.
  - by vm_compute.
  - by vm_compute.
  - split; [done|]. eexists. split; [reflexivity | done].
  - exists σ'. split; [exact E1|]. split; [exact E2|]. split; [|exact E4].
    apply E3; [|done]. split; [done|]. eexists. split; [reflexivity | done].
Defined.

Definition d_value : _pthread := setf p_specific (<[0%nat := 42]> no_values) d_ini.

Lemma key_reuse_keeps_value_witness :
  exists σ', evals 100 (pthread_key_delete 0 ;; __pthread_key_create w_out NULL)
      (with_thread ini d_value sample) (Done 0 σ') /\
    words σ' !! w_out = Some 0 /\
    evals 100 (__pthread_getspecific 0) σ' (Done 42 σ').
Proof.
  refine (key_reuse_keeps_value 100 ini pr_ini d_value 0 (mk_key 1 NULL) NULL NULL 0 w_out
            (with_thread ini d_value sample) _ _ _ _ _ _ _ _ _).
  - sample_thread_tac.
  - by vm_compute.
  - by vm_compute.
  - by vm_compute.
  - by vm_compute.
  - by vm_compute.
  - by vm_compute.
  - done.
  - intros j k' Hj. lia.
Defined.

(** Key 0 has a destructor and [ini] a value for it. *)
Definition sample_destr : state :=
  setf glb (setf pthread_keys (mk_key 1 3000 :: replicate 127 (mk_key 0 NULL)) sample_glb)
    (with_thread ini d_value sample).

Lemma destroy_specifics_correct_witness :
  evals 100 __pthread_destroy_specifics sample_destr (Done tt sample_destr).
Proof.
  refine (destroy_specifics_correct 100 ini pr_ini d_value sample_destr sample_destr _ _ _ _).
  - sample_thread_tac.
  - by vm_compute.
  - by vm_compute.
  - replace (destructors _ _) with [(3000, 42)] by by vm_compute.
    eapply destr_cons; [apply evals_ret | done | done | apply destr_nil].
Defined.

(** Two handlers on the stack of [ini]. *)
Definition sample_cleanup : state :=
  setf bufs {[9000 := mk_cleanup 3000 1 0 NULL; 9010 := mk_cleanup 3010 2 0 9000;
              9020 := mk_cleanup 0 0 0 NULL]}
    (with_thread ini (setf p_cleanup 9010 d_ini) sample).

Lemma cleanup_two : cleanup_chain (bufs sample_cleanup) 9010 [(3010, 2); (3000, 1)].
Proof.
  split; [done|]. eexists. split; [by vm_compute|]. split; [done|]. split; [done|].
  split; [done|]. eexists. split; [by vm_compute|]. done.
Qed.

Lemma perform_cleanup_spec_witness :
  evals 100 __pthread_perform_cleanup sample_cleanup (Done tt sample_cleanup).
Proof.
  refine (perform_cleanup_spec 100 ini pr_ini (setf p_cleanup 9010 d_ini) [(3010, 2); (3000, 1)]
            sample_cleanup sample_cleanup _ cleanup_two _).
  - sample_thread_tac.
  - eapply calls_cons; [apply evals_ret | done |].
    eapply calls_cons; [apply evals_ret | done | apply calls_nil].
Defined.

Lemma cleanup_push_pop_witness :
  exists σ1 d1 σ2, evals 100 (_pthread_cleanup_push 9020 3020 3) sample_cleanup (Done tt σ1) /\
    thr σ1 !! ini = Some d1 /\
    cleanup_chain (bufs σ1) (p_cleanup d1) [(3020, 3); (3010, 2); (3000, 1)] /\
    evals 100 (_pthread_cleanup_pop 9020 0) σ1 (Done tt σ2) /\
    thr σ2 = thr sample_cleanup /\ cleanup_chain (bufs σ2) 9010 [(3010, 2); (3000, 1)].
Proof.
  refine (cleanup_push_pop 100 ini pr_ini (setf p_cleanup 9010 d_ini) (mk_cleanup 0 0 0 NULL) 9020
            3020 3 [(3010, 2); (3000, 1)] [9010; 9000] sample_cleanup _ _ cleanup_two _ _ _).
  - sample_thread_tac.
  - by vm_compute.
  - split; [done|]. split; [done|]. eexists. split; [by vm_compute|].
    split; [done|]. split; [done|]. eexists. split; [by vm_compute | done].
  - apply (bool_decide_unpack _). by vm_compute.
  - done.
Defined.

(** ** Cancellation and signals *)

(** The initial thread is canceled: while it waits in a cancellation point,
    outside of one, and while the process exits. *)
Definition d_canceled (jmp : addr) : _pthread := setf p_cancel_jmp jmp (setf p_canceled 1 d_ini).
Definition sample_exiting : state :=
  setf glb (setf __pthread_exit_requested 1 (setf __pthread_exit_code 3 sample_glb)) sample.

Lemma sigcancel_correct_witness :
  jumps 100 (pthread_handle_sigcancel 12) (with_thread ini (d_canceled jmpbuf_suspend) sample)
    jmpbuf_suspend 1 (put_thr ini (d_canceled NULL) (with_thread ini (d_canceled jmpbuf_suspend) sample)) /\
  evals 100 (pthread_handle_sigcancel 12) (with_thread ini (d_canceled NULL) sample)
    (Done tt (with_thread ini (d_canceled NULL) sample)) /\
  evals 100 (pthread_handle_sigcancel 12) sample_exiting
    (Exits (terminate 100 (exit_status 3) sample_exiting)).
Proof.
  split; [|split].
  - destruct (sigcancel_correct 100 ini pr_ini (d_canceled jmpbuf_suspend) 12
      (with_thread ini (d_canceled jmpbuf_suspend) sample) sample) as [_ E]; [sample_thread_tac|].
    destruct (E eq_refl) as (_ & _ & E3). destruct (E3 eq_refl) as [_ E4]; [done|]. by apply E4.
  - destruct (sigcancel_correct 100 ini pr_ini (d_canceled NULL) 12
      (with_thread ini (d_canceled NULL) sample) sample) as [_ E]; [sample_thread_tac|].
    destruct (E eq_refl) as (_ & _ & E3). destruct (E3 eq_refl) as [E4 _]; [done|]. by apply E4.
  - destruct (sigcancel_correct 100 ini pr_ini d_ini 12 sample_exiting sample) as [E _];
      [sample_thread_tac|]. by apply E.
Defined.

(** [t0] waits in a cancellation point, and the initial thread cancels it. *)
Definition d_wait : _pthread := setf p_cancel_jmp jmpbuf_suspend d_t0.

Lemma cancel_ends_wait_witness :
  exists σ1, evals 100 (pthread_cancel t0) (with_thread t0 d_wait sample) (Done 0 σ1) /\
    evalsJ 102 (wait_restart t0 ∅ ;; store thr t0 p_cancel_jmp NULL)
      {[jmpbuf_suspend := (None, after_setjmp t0 ∅)]} σ1
      (Done tt (set_mask 102 (sigaddset ∅ PTHREAD_SIG_RESTART)
        (put_thr t0 (setf p_cancel_jmp NULL (setf p_canceled 1 d_wait))
          (with_thread t0 d_wait sample)))).
Proof.
  refine (cancel_ends_wait 100 102 t0 pr_t0 d_wait ∅ (with_thread t0 d_wait sample)
            _ _ _ _ _ _ _ _ _).
  - sample_thread_tac.
  - done.
  - done.
  - done.
  - done.
  - done.
  - by vm_compute.
  - by vm_compute.
  - apply not_elem_of_empty.
Defined.

Lemma setcanceltype_correct_witness :
  let σ1 := put_thr ini (setf p_canceltype 1 d_ini) (old_stored w_out 0 sample) in
  (false = true -> evals 100 (pthread_setcanceltype 1 w_out) sample (Done EINVAL sample)) /\
  (true = true -> false = false \/ 1 <> PTHREAD_CANCEL_ASYNCHRONOUS ->
     evals 100 (pthread_setcanceltype 1 w_out) sample (Done 0 σ1)) /\
  (1 = PTHREAD_CANCEL_ASYNCHRONOUS -> false = true ->
     evals 100 (pthread_exit (X := unit) PTHREAD_CANCELED) σ1 (Exits sample) ->
     evals 100 (pthread_setcanceltype 1 w_out) sample (Exits sample)).
Proof.
  pose proof (setcanceltype_correct 100 ini pr_ini d_ini 1 w_out sample sample runs_ini) as E.
  destruct E as (_ & E2 & E3); [intros _; exists 0; by vm_compute|].
  split; [done|]. split; [exact E2 | exact E3].
Defined.

(** System calls that succeed at once; [write] has written everything. *)
#[local] Instance sample_libc : Libc := {|
  __libc_close _ := Ret 0;
  __libc_fcntl _ _ _ := Ret 0;
  __libc_fsync _ := Ret 0;
  __libc_lseek _ offset _ := Ret offset;
  __libc_msync _ _ _ := Ret 0;
  __libc_nanosleep _ _ := Ret 0;
  __libc_open _ _ _ := ask;
  __libc_pause := sigsuspend ∅ ;; Ret (-1);
  __libc_read _ _ count := Ret count;
  __libc_system _ := Ret 0;
  __libc_tcdrain _ := Ret 0;
  __libc_wait _ := ask;
  __libc_waitpid _ _ _ := ask;
  __libc_write _ _ n := Ret n
|}.

Lemma wrappers_correct_witness :
  evals 100 (Syscall.wrapper (Syscall.Write 1 w_out 4)) sample
    (Done 4 (setf words (delete (Syscall.oldtype_at sample) (words (Syscall.during ini d_ini sample)))
      (put_thr ini d_ini (Syscall.during ini d_ini sample)))).
Proof.
  destruct (Syscall.wrappers_correct 100 ini pr_ini d_ini (Syscall.Write 1 w_out 4) sample runs_ini
    eq_refl) as [_ E].
  destruct (E eq_refl) as [_ E2].
  refine (E2 4 (Syscall.during ini d_ini sample) pr_ini
    (setf p_canceltype PTHREAD_CANCEL_ASYNCHRONOUS d_ini) _ _ _ (or_introl eq_refl)).
  - apply evals_ret.
  - apply lookup_insert_eq.
  - destruct runs_ini. constructor; [done | done | apply lookup_insert_eq].
Defined.

Lemma sigmask_correct_witness :
  exists m m0, evals 100 (pthread_sigmask SIG_SETMASK (Some {[15; 12]})) sample
      (Done (0, {[PTHREAD_SIG_RESTART]}) (set_mask 100 m sample)) /\
    mask_ok m /\ new_mask SIG_SETMASK {[15; 12]} {[PTHREAD_SIG_RESTART]} = Some m0 /\
    forall sig, sig <> PTHREAD_SIG_RESTART -> sig <> PTHREAD_SIG_CANCEL -> (sig ∈ m <-> sig ∈ m0).
Proof.
  refine (sigmask_correct 100 pr_ini SIG_SETMASK {[15; 12]} sample _ _ _).
  - by vm_compute.
  - by right; right.
  - split; [set_solver | simpl; set_solver].
Defined.

Lemma pthread_kill_correct_witness :
  evals 100 (pthread_kill t0 15) sample (Done 0 (post_signal 102 15 sample)).
Proof.
  refine (pthread_kill_correct 100 ini pr_ini d_ini t0 d_t0 15 sample runs_ini _ _).
  - by vm_compute.
  - by vm_compute.
Defined.

(** A process without privileges asks for a real-time policy. *)
Lemma attr_set_correct_witness :
  exists σ', evals 100 (attr_set 9100 (Setschedpolicy SCHED_FIFO)) (with_env [1000] sample)
      (Done ENOTSUP σ') /\
    attr_object (with_env [1000] sample) 9100 (inl ENOTSUP) σ' /\
    (attr_ok (mk_attr 0 0 0 1 0) -> forall a', attrs σ' !! 9100 = Some a' -> attr_ok a').
Proof.
  refine (attr_set_correct 100 9100 (mk_attr 0 0 0 1 0) (Setschedpolicy SCHED_FIFO) 1000 []
            (with_env [1000] sample) _ _).
  - by vm_compute.
  - done.
Defined.

(** ** fork *)

(** One handler of each kind is registered. *)
Definition sample_fork : state :=
  setf hlists {[9500 := mk_handler 3000 NULL; 9510 := mk_handler 3010 NULL;
                9520 := mk_handler 3020 NULL]}
    (setf glb (setf pthread_atfork_prepare 9500 (setf pthread_atfork_parent 9510
      (setf pthread_atfork_child 9520 sample_glb))) sample).

Lemma atfork_sample env :
  atfork_rep (with_env env sample_fork) [9500] [9510] [9520] [3000] [3010] [3020].
Proof.
  constructor; [constructor; [split; [done|]; split; [done|]; by eexists; split; [by vm_compute|]
    | by vm_compute | apply NoDup_singleton].. | apply (bool_decide_unpack _); by vm_compute].
Qed.

Lemma atfork_correct_witness :
  exists σ', evals 100 (pthread_atfork 3100 3110 3120) (with_env [9600] sample_fork) (Done 0 σ') /\
    atfork_rep σ' [9600; 9500] [9510; 9608] [9520; 9616] [3100; 3000] [3010; 3110] [3020; 3120] /\
    mtx σ' = sample_mtx /\ thr σ' = sample_thr.
Proof.
  refine (atfork_correct 100 3100 3110 3120 9600 [] NULL [9500] [9510] [9520] [3000] [3010] [3020]
            (with_env [9600] sample_fork) _ _ _ _ _ _ _ (atfork_sample [9600])).
  - done.
  - done.
  - done.
  - done.
  - lia.
  - intros x Hx. simpl in Hx. unfold block_nodes, block_prepare, block_parent, block_child.
    apply (bool_decide_unpack _).
    repeat (apply elem_of_cons in Hx as [->|Hx]); [by vm_compute..|]. by apply elem_of_nil in Hx.
  - by vm_compute.
Defined.

Lemma fork_parent_correct_witness :
  evals 100 (fork (Ret tt)) (with_env [200] sample_fork)
    (Done 200 (upd_krn (setf envt []) (with_env [200] sample_fork))).
Proof.
  refine (fork_parent_correct 100 (Ret tt) 200 [] NULL [9500] [9510] [9520] [3000] [3010] [3020]
            (with_env [200] sample_fork) (with_env [200] sample_fork)
            (upd_krn (setf envt []) (with_env [200] sample_fork)) _ (atfork_sample [200]) _ _ _ _).
  - by vm_compute.
  - done.
  - eapply hrun_cons; [apply evals_ret | done | apply hrun_nil].
  - done.
  - eapply hrun_cons; [apply evals_ret | done | apply hrun_nil].
Defined.

(** The child of the initial thread; the lock of one stream is [m_held]. *)
Lemma fork_child_correct_witness :
  let σc := locks_reset [m_held] (main_reset 200 ini d_ini (forked 100 200 sample_fork)) in
  evals 200 (after_fork (__fresetlockfiles [m_held]) (pthread_atfork_child (glb sample_fork))
      (pthread_atfork_parent (glb sample_fork)) 0) (forked 100 200 sample_fork) (Done 0 σc) /\
  mutex_rep σc m_held (mk_mutex_st PTHREAD_MUTEX_RECURSIVE_NP 0 NULL []).
Proof.
  intros σc.
  destruct (fork_child_correct 100 200 ini pr_ini d_ini [m_held] NULL [9500] [9510] [9520]
    [3000] [3010] [3020] sample_fork sample_fork σc) as (_ & E1 & _ & _ & _ & _ & E2).
  - by vm_compute.
  - apply (atfork_sample []).
  - eapply hrun_cons; [apply evals_ret | done | apply hrun_nil].
  - sample_thread_tac.
  - done.
  - intros l ->%list_elem_of_singleton. by eexists.
  - eapply hrun_cons; [apply evals_ret | done | apply hrun_nil].
  - split; [exact E1|]. apply E2. by left.
Defined.

(** ** Interleaving *)

(** The three threads increment the word [w_out], in turns of one access. *)
Definition pool_ps : list Z := [100; 102; 103].
Definition pool_self (p : Z) : addr := if p =? 100 then ini else if p =? 102 then t0 else t1.
Definition turns : list Z := concat (replicate 400 pool_ps).

Lemma idle_sample : idle_threads pool_ps pool_self sample.
Proof.
  constructor.
  - apply (bool_decide_unpack _). by vm_compute.
  - intros p q Hp Hq. set_unfold. by destruct Hp as [->|[->|[->|]]], Hq as [->|[->|[->|]]].
  - intros p Hp. set_unfold. by destruct Hp as [->|[->|[->|]]].
  - split; [apply sample_restart|]. intros p Hp. set_unfold.
    destruct Hp as [->|[->|[->|]]]; [exists pr_ini, d_ini|exists pr_t0, d_t0|exists pr_t1, d_t1|done];
      (split; [sample_thread_tac | repeat split; set_solver]).
  - intros p Hp. set_unfold. by destruct Hp as [->|[->|[->|]]].
  - intros p (pr & Hpr & Hin). revert Hpr. unfold sample. fields.
    intros Hpr. unfold sample_krn in Hpr. fields_in Hpr.
    repeat (apply lookup_insert_Some in Hpr as [[_ <-]|[_ Hpr]]; [by vm_compute in Hin|]).
    apply lookup_singleton_Some in Hpr as [_ <-]. by vm_compute in Hin.
  - intros p Hp. set_unfold. by destruct Hp as [->|[->|[->|]]].
Qed.

Lemma monitor_start_sample : monitor_start m_fast [] pool_ps pool_self sample.
Proof. constructor; [apply idle_sample | exists NULL; apply rep_fast | set_solver]. Qed.

Lemma pool_start_sample : pool_start m_fast w_out pool_ps pool_self 0 sample.
Proof. constructor; [apply monitor_start_sample | done | done]. Qed.

Lemma mutex_exclusion_witness :
  exists σ', rtc pool_step (clients m_fast w_out pool_ps (fun _ => 2%nat), sample) (∅, σ') /\
    ~ pool_faults (∅ : gmap Z (itree evt unit * jtab unit), σ') /\ words σ' !! w_out = Some 6.
Proof.
  set (c := (clients m_fast w_out pool_ps (fun _ => 2%nat), sample)).
  assert (E : (pool_run turns c).1 = ∅) by by vm_compute.
  assert (Hs : rtc pool_step c (∅, (pool_run turns c).2)).
  { rewrite <- E, <- surjective_pairing. apply pool_run_steps. }
  exists (pool_run turns c).2. split; [exact Hs|].
  destruct (mutex_exclusion m_fast w_out pool_ps pool_self 0 sample (fun _ => 2%nat) ∅ _
              pool_start_sample Hs) as [Hf Hw].
  split; [exact Hf|]. exact (Hw eq_refl).
Defined.

(** After 100 turns the threads are in the middle of their work. *)
Lemma mutex_no_deadlock_witness :
  let c := pool_run (take 100 turns)
    (clients m_fast w_out pool_ps (fun _ => 2%nat), sample) in
  c.1 <> ∅ /\ exists c', pool_step c c'.
Proof.
  intros c.
  assert (Hl : match c.1 !! 100 with Some _ => true | None => false end = true) by by vm_compute.
  assert (Hs : rtc pool_step (clients m_fast w_out pool_ps (fun _ => 2%nat), sample) c)
    by apply pool_run_steps.
  clearbody c. destruct c as [ts σ]. simpl in Hl.
  assert (Hne : ts <> ∅) by (by intros ->).
  split; [exact Hne|].
  destruct (mutex_no_deadlock m_fast w_out pool_ps pool_self 0 sample (fun _ => 2%nat) ts σ
              pool_start_sample Hs) as [E|Hstep]; [by destruct Hne | exact Hstep].
Defined.

(** ** Producer and consumer *)

(** The sample process with the global [buffer] of ex5.c, all bytes 0. *)
Definition buf : addr := 8200.
Definition ex5_sample : state :=
  setf words (tabulate (fun _ => 0) (ProdCons.buffer_at buf <$> seqZ 0 18))
    (setf sms {[ProdCons.sem_read_at buf := mk_sem 0 0; ProdCons.sem_write_at buf := mk_sem 0 0]} sample).

Lemma ex5_before : ProdCons.before_init buf 102 103 pool_self ex5_sample.
Proof.
  destruct idle_sample as [_ Hinj _ Hth _ Hq _]. constructor.
  - constructor; try done.
    + apply (bool_decide_unpack _). by vm_compute.
    + intros p q Hp Hq'. apply Hinj; set_solver.
    + intros p Hp. set_unfold. by destruct Hp as [->|[->|]].
    + intros p Hp. set_unfold. by destruct Hp as [->|[->|]].
    + apply (threads_ok_mem _ _ sample); [done | done | eauto |].
      destruct Hth as [H1 H2]. split; [done|]. intros p Hp. apply H2. set_solver.
    + intros p Hp. set_unfold. by destruct Hp as [->|[->|]].
    + set_solver.
  - intros k Hk. unfold ex5_sample. fields. rewrite lookup_tabulate, decide_True; [eauto|].
    apply list_elem_of_fmap. exists k. split; [done|]. apply elem_of_seqZ. lia.
  - intros s Hs. exists 0. set_unfold. by destruct Hs as [->|[->|]].
Qed.

Lemma prodcons_correct_witness :
  exists σ, evals 100 (ProdCons.init buf) ex5_sample (Done tt σ) /\
    forall ts σ', rtc pool_step (ProdCons.threads buf 10000 102 103, σ) (ts, σ') ->
      ~ pool_faults (ts, σ') /\ (ts = ∅ \/ exists c, pool_step (ts, σ') c) /\
      forall q t J out J' σ2, ts !! q = Some (t, J) -> istep q t J σ' = SHalt (ODone out J' σ2) ->
        out = seqZ 0 10000.
Proof.
  apply (ProdCons.prodcons_correct buf 10000 102 103 pool_self 100 ex5_sample).
  - lia.
  - exact ex5_before.
Defined.

(** With 20 integers the buffer wraps around; the producer runs as long as it
    can, the consumer afterwards, and so on. *)
Lemma ex5_run :
  let c := pool_run (concat (replicate 4 (replicate 1000 102 ++ replicate 1000 103)))
    (ProdCons.threads buf 20 102 103, ProdCons.initialized buf ex5_sample) in c.1 = ∅.
Proof. by vm_compute. Qed.

(** The sample process with the global [buffer] of ex2.c. *)
Definition ex2_sample : state :=
  setf words (tabulate (fun _ => 0)
      ([Monitor.readpos_at buf; Monitor.writepos_at buf] ++ (Monitor.buffer_at buf <$> seqZ 0 16)))
    (setf mtx {[Monitor.lock_at buf := mk_mutex 0 0 NULL 0 (mk_queue NULL NULL)]}
      (setf cnd {[Monitor.notempty_at buf := PTHREAD_COND_INITIALIZER;
                  Monitor.notfull_at buf := PTHREAD_COND_INITIALIZER]} sample)).

Lemma ex2_before : Monitor.before_init buf 102 103 pool_self ex2_sample.
Proof.
  destruct idle_sample as [_ Hinj _ Hth _ Hq _]. constructor.
  - constructor; try done.
    + apply (bool_decide_unpack _). by vm_compute.
    + intros p q Hp Hq'. apply Hinj; set_solver.
    + intros p Hp. set_unfold. by destruct Hp as [->|[->|]].
    + apply (threads_ok_mem _ _ sample); [done | done | eauto |].
      destruct Hth as [H1 H2]. split; [done|]. intros p Hp. apply H2. set_solver.
    + intros p Hp. set_unfold. by destruct Hp as [->|[->|]].
    + intros p Hp. set_unfold. by destruct Hp as [->|[->|]].
  - intros k Hk. unfold ex2_sample. fields. rewrite lookup_tabulate, decide_True; [eauto|].
    apply elem_of_app. right. apply list_elem_of_fmap. exists k. split; [done|].
    apply elem_of_seqZ. lia.
  - by eexists.
  - by eexists.
  - by eexists.
  - by eexists.
  - by eexists.
Qed.

Lemma monitor_prodcons_correct_witness :
  exists σ, evals 100 (Monitor.init buf) ex2_sample (Done tt σ) /\
    forall ts σ', rtc pool_step (Monitor.threads buf 10000 102 103, σ) (ts, σ') ->
      ~ pool_faults (ts, σ') /\ (ts = ∅ \/ exists c, pool_step (ts, σ') c) /\
      forall q t J out J' σ2, ts !! q = Some (t, J) -> istep q t J σ' = SHalt (ODone out J' σ2) ->
        out = seqZ 0 10000.
Proof.
  apply (Monitor.monitor_prodcons_correct buf 10000 102 103 pool_self 100 ex2_sample).
  - lia.
  - exact ex2_before.
Defined.

(** Both threads wait on conditions and are woken in this run. *)
Lemma ex2_run :
  let c := pool_run (concat (replicate 4 (replicate 1500 102 ++ replicate 1500 103)))
    (Monitor.threads buf 20 102 103, Monitor.initialized buf ex2_sample) in c.1 = ∅.
Proof. by vm_compute. Qed.

(** ** Searching with several threads *)

(** The array of threads at [buf], the number of tries behind it; [rand]
    answers with 2^24, so that the first try is 1. *)
Definition ex3_threads : list addr := [ini; t0; t1; t0; t1].
Definition ex3_sample : state :=
  setf words ({[buf := ini; buf + 4 := t0; buf + 8 := t1; buf + 12 := t0; buf + 16 := t1; buf + 20 := 0]})
    (upd_krn (setf envt [2 ^ 24]) sample).

Lemma search_terminates_witness :
  exists σ', evals 100 (Search.search buf m_fast (buf + 20) 7 5) ex3_sample (Done 0 σ') /\
    words σ' = <[buf + 20 := 5]> (words ex3_sample) /\
    mtx σ' = <[m_fast := mk_mutex 0 1 NULL PTHREAD_MUTEX_FAST_NP (mk_queue NULL NULL)]> (mtx ex3_sample) /\
    (forall x, x ∈ ex3_threads -> x <> ini -> Search.asked σ' x) /\
    bufs σ' = bufs ex3_sample /\ thr σ' !! ini = Some (Search.enabled d_ini) /\ envt (krn σ') = [].
Proof.
  refine (Search.search_terminates buf m_fast (buf + 20) 7 100 ini pr_ini d_ini 5 (2 ^ 24) []
    ex3_threads NULL (mk_queue NULL NULL) ex3_sample _ _ _ _ _ _ _ _ _ _).
  - destruct runs_ini. by constructor.
  - done.
  - done.
  - done.
  - done.
  - by eexists.
  - done.
  - intros j t Hj Ht. assert (Hj5 : Z.to_nat j = 0%nat \/ Z.to_nat j = 1%nat \/ Z.to_nat j = 2%nat \/
      Z.to_nat j = 3%nat \/ Z.to_nat j = 4%nat) by (apply lookup_lt_Some in Ht; simpl in Ht; lia).
    destruct Hj5 as [E|[E|[E|[E|E]]]]; rewrite E in Ht; simplify_eq;
      rewrite <- (Z2Nat.id j Hj), E; by vm_compute.
  - intros j Hj. unfold Search.NUM_THREADS in Hj. lia.
  - intros th Hth. set_unfold in Hth.
    destruct Hth as [->|[->|[->|[->|[->|[]]]]]]; eexists; (split; [by vm_compute | by eexists]).
Defined.

(** ** The accumulator of strings *)

(** The key is 2; the literals are shorter than in the program. *)
Definition once4 : addr := 8000.
Definition key4 : addr := 8004.
Definition words4 : gmap Z Z :=
  {[once4 := locked; key4 := 2; 8100 := 82; 8101 := 101; 8102 := 0; 8110 := 49; 8111 := 0;
    8120 := 116; 8121 := 0]}.
Definition ex4_sample : state := setf words words4 (upd_krn (setf envt [9000]) sample).

Ltac cstring_tac :=
  split; [intros i c Hi; do 2 (destruct i as [|i]; [by simplify_eq/=|]); done | done].

Lemma process_correct_witness :
  exists σ', evals 100 (Accumulate.process key4 once4 7 (fun _ => 0) 8100 8120 8110) ex4_sample
      (Done 9000 σ') /\
    Accumulate.cstring (words σ') 9000 [82; 101; 49; 116].
Proof.
  destruct (Accumulate.process_correct key4 once4 7 (fun _ => 0) 100 ini pr_ini d_ini 2 9000 []
    8100 8110 8120 [] [82; 101] [49] [116] ex4_sample) as (σ' & E & Hs & _).
  - destruct runs_ini. by constructor.
  - done.
  - by constructor.
  - done.
  - done.
  - done.
  - intros x Hx. unfold ex4_sample, words4. fields.
    rewrite !lookup_insert_ne, lookup_singleton_ne by (unfold once4, key4; lia). done.
  - split; [by intros i c|]. rewrite lookup_tabulate, decide_True; [done|].
    apply Accumulate.elem_of_block. change (length []) with 0%nat. lia.
  - cstring_tac.
  - cstring_tac.
  - cstring_tac.
  - left. simpl. lia.
  - left. simpl. lia.
  - left. simpl. lia.
  - simpl. lia.
  - by exists σ'.
Defined.

(** ** The proxy *)

Section proxy.
Import Proxy.

Definition line (s : string) : bytes := lit s ++ crlf.
Definition ex_net : net := mk_net true 3 (fun _ => Some 1) (fun _ _ => true).
Definition ex_config : config := mk_config false [] 0 true.

Lemma is_line_check (s b : bytes) : s = b ++ lf ->
  forallb (fun c => negb (Ascii.eqb c "010") && negb (Ascii.eqb c zero)) b = true ->
  Z.of_nat (length s) < LDATA -> is_line s.
Proof.
  intros -> Hb Hl. constructor; [|done]. exists b. split; [done|]. rewrite forallb_forall in Hb.
  split; intros Hin; apply list_elem_of_In, Hb in Hin; by vm_compute in Hin.
Qed.

Lemma ex_request : good_request METHOD_GET (lit "GET ") (lit "host") (lit "8080")
  (lit "index.html HTTP/1.0" ++ crlf) [line "Accept: all"; line "If-Modified-Since: 0"] crlf.
Proof.
  constructor.
  - set_solver.
  - split; [done|]. split; apply (bool_decide_unpack _); by vm_compute.
  - apply (bool_decide_unpack _). by vm_compute.
  - by eapply is_line_check with (b := lit "GET http://host:8080/index.html HTTP/1.0" ++ ["013"%char]).
  - repeat constructor.
    + by eapply is_line_check with (b := lit "Accept: all" ++ ["013"%char]).
    + by eapply is_line_check with (b := lit "If-Modified-Since: 0" ++ ["013"%char]).
  - split; [|done]. by eapply is_line_check with (b := ["013"%char]).
Qed.

Lemma ex_reachable : reachable ex_net (lit "host") (port_of (lit "8080")).
Proof. split; [done|]. split; [done|]. by exists 1. Qed.

Lemma process_request_correct_witness :
  process_request 4 ex_config ex_net
    (first_line (lit "GET ") (lit "host") (lit "8080") (lit "index.html HTTP/1.0" ++ crlf) ++
       concat [line "Accept: all"; line "If-Modified-Since: 0"] ++ crlf ++ [] ++ [])
    (mk_reply (inr <$> [lit "hello"; lit " world"]) [] [] 0) =
  Some (Returns 0 (line "GET /index.html HTTP/1.0" ++ line "Accept: all" ++ crlf) (lit "hello world")).
Proof.
  refine (process_request_correct 4 ex_config ex_net METHOD_GET (lit "GET ") (lit "host") (lit "8080")
    (lit "index.html HTTP/1.0" ++ crlf) [line "Accept: all"; line "If-Modified-Since: 0"] crlf [] []
    [lit "hello"; lit " world"] 0 ex_request _ _ ex_reachable _ _ _ _ _ _).
  - done.
  - by vm_compute.
  - done.
  - by repeat constructor.
  - done.
  - simpl. lia.
  - simpl. lia.
  - simpl. lia.
Defined.

Definition long_line : bytes := lit "GET " ++ lit "http://" ++ replicate 128 "a"%char ++ "/"%char :: crlf.

Lemma process_request_overruns_witness :
  analyze adr_0 long_line 4 = Overrun /\
  process_request 1 ex_config ex_net (long_line ++ crlf) (mk_reply [] [] [] 0) = Some Overruns.
Proof.
  destruct (process_request_overruns 1 ex_config ex_net METHOD_GET (lit "GET ") (replicate 128 "a"%char)
    crlf long_line crlf (mk_reply [] [] [] 0)) as [E1 E2].
  - set_solver.
  - apply addressed_http. apply (bool_decide_unpack _). by vm_compute.
  - by eapply is_line_check with
      (b := lit "GET http://" ++ replicate 128 "a"%char ++ ["/"%char; "013"%char]).
  - done.
  - done.
  - split; [apply E1; by vm_compute | apply E2; by vm_compute].
Defined.

Lemma process_request_eof_loops_witness :
  process_request 1000 ex_config ex_net
    (first_line (lit "GET ") (lit "host") (lit "8080") (lit "index.html HTTP/1.0" ++ crlf) ++
       concat [line "Accept: all"; line "If-Modified-Since: 0"]) (mk_reply [] [] [] 0) = None.
Proof.
  apply (process_request_eof_loops 1000 ex_config ex_net METHOD_GET (lit "GET ") (lit "host") (lit "8080")
    (lit "index.html HTTP/1.0" ++ crlf) [line "Accept: all"; line "If-Modified-Since: 0"] crlf
    (mk_reply [] [] [] 0) ex_request).
  - done.
  - done.
  - by vm_compute.
  - exact ex_reachable.
Defined.
End proxy.

(** ** The pool of the web proxy *)

(** One connection has been served, another one is being given. *)
Definition pool_schedule : list (Pool.tid * Pool.choice) :=
  [(Pool.T_server, Pool.accepts 7); (Pool.T_server, Pool.goes_on); (Pool.T_server, Pool.allocates 40)] ++
  replicate 5 (Pool.T_server, Pool.goes_on) ++ replicate 11 (Pool.T_client 40, Pool.goes_on) ++
  [(Pool.T_server, Pool.accepts 8)] ++ replicate 4 (Pool.T_server, Pool.goes_on).

Definition pool_then : Pool.pool :=
  Pool.mk_pool NULL None 1 {[40 := Pool.mk_th_proxy NULL (-1) (Some Pool.Server)]} (Pool.S_set 8 40)
    {[40 := Pool.C_lock]} [7; 8] [(40, 7)] [(40, 7)].

Lemma pool_then_reachable : Pool.reachable 2 pool_then.
Proof. apply (Pool.pool_run_reaches 2 pool_schedule). by vm_compute. Qed.

Lemma pool_conserves_witness :
  Pool.thread_count pool_then = Pool.count (Pool.clients pool_then) /\
  Pool.accepted pool_then = (Pool.given pool_then).*2 ++ [8] /\
  Pool.log 40 (Pool.given pool_then) = Pool.log 40 (Pool.served pool_then) ++ [].
Proof.
  destruct (Pool.pool_conserves 2 pool_then) as (E1 & _ & _ & _ & E2 & E3);
    [lia | apply pool_then_reachable |].
  split; [exact E1|]. split; [exact E2|]. exact (E3 40).
Defined.

Lemma pool_progress_witness :
  exists who σ', Pool.thread_step 2 who Pool.goes_on pool_then = Pool.Next σ'.
Proof.
  refine (Pool.pool_progress 2 pool_then _ pool_then_reachable _ _ _ _); (lia || done).
Defined.

Lemma pool_faults_witness : Pool.thread_step 2 Pool.T_server Pool.goes_on pool_then <> Pool.Fault.
Proof.
  intros H. apply (Pool.pool_faults 2 pool_then Pool.T_server Pool.goes_on) in H
    as [_ (t & E & _)]; [discriminate E | lia | apply pool_then_reachable].
Defined.

Lemma signal_after_free_witness :
  exists σ, Pool.reachable 50 σ /\ Pool.served σ = [(40, 7)] /\
    forall ch, Pool.thread_step 50 Pool.T_server ch σ = Pool.Fault.
Proof. refine (Pool.signal_after_free 50 40 7 _ _ _); (lia || done). Defined.

Lemma creation_failure_hangs_witness :
  exists σ, Pool.reachable 50 σ /\ Pool.accepted σ = [7] /\ Pool.given σ = [] /\
    forall who ch, ch <> Pool.interrupted -> Pool.thread_step 50 who ch σ = Pool.Blocked.
Proof. refine (Pool.creation_failure_hangs 50 7 _). lia. Defined.

(** ** Programs without threads *)

Definition sample_world : Weak.world :=
  Weak.mk_world {[m_rec := mk_mutex_st PTHREAD_MUTEX_RECURSIVE_NP 0 NULL []]} {[9200 := 0]} {[c_idle]}.

Lemma sample_alone : Weak.alone 100 ini pr_ini d_ini sample_world sample.
Proof.
  constructor.
  - apply runs_ini.
  - intros m s Hm. unfold sample_world in Hm. simpl in Hm. apply lookup_singleton_Some in Hm as [<- <-].
    split; [apply rep_rec|]. split; [by right | done].
  - intros a k Ha. unfold sample_world in Ha. simpl in Ha. apply lookup_singleton_Some in Ha as [<- <-].
    split; [done|]. split; [done | by left].
  - intros c Hc. unfold sample_world in Hc. simpl in Hc. apply elem_of_singleton in Hc as ->.
    exists (mk_queue NULL NULL). split; [done | apply queue_rep_nil].
Qed.

Lemma ini_ready : Weak.ready ini pr_ini d_ini.
Proof. constructor; by vm_compute. Qed.

(** A recursive mutex and a condition; then the mutex is made anew as a fast
    one, and locked twice: there the library waits. *)
Definition calls_before : list Weak.call :=
  [Weak.mutex_lock m_rec; Weak.mutex_lock m_rec; Weak.cond_signal c_idle; Weak.mutex_unlock m_rec;
   Weak.cond_broadcast c_idle; Weak.mutex_unlock m_rec; Weak.mutex_destroy m_rec; Weak.equal ini ini;
   Weak.mutex_init m_rec 9200; Weak.mutex_lock m_rec].

Lemma weak_agrees_witness :
  (exists rs σ', (forall s, evals 100 (Weak.results Weak.weak calls_before) s (Done rs s)) /\
     evals 100 (Weak.results Weak.library calls_before) sample (Done rs σ')) /\
  (exists after rs σ1 z, calls_before ++ [Weak.mutex_lock m_rec; Weak.self]
       = calls_before ++ Weak.mutex_lock m_rec :: after /\
     (forall s, evals 100 (Weak.results Weak.weak calls_before) s (Done rs s)) /\
     evals 100 (Weak.results Weak.library calls_before) sample (Done rs σ1) /\
     (forall s, evals 100 (Weak.weak (Weak.mutex_lock m_rec)) s (Done z s)) /\
     exists σ2, evals 100 (Weak.library (Weak.mutex_lock m_rec)) σ1 (Blocks σ2)).
Proof.
  split.
  - refine (Weak.weak_agrees 100 ini pr_ini d_ini sample_world calls_before sample
      sample_alone ini_ready _). by vm_compute.
  - destruct (Weak.weak_agrees 100 ini pr_ini d_ini sample_world
      (calls_before ++ [Weak.mutex_lock m_rec]) sample sample_alone ini_ready)
      as (after & rs & σ1 & z & E & E1 & E2 & E3 & E4); [by vm_compute|].
    exists [Weak.self], rs, σ1, z. done.
Defined.
